(* ===== verification/_CoqProject ===== *)
-Q . S2P
Prelude.v
GoFloat.v
Types.v
Protocol.v
Aoi.v
Entity.v
Game.v
Peers.v
Boundary.v
GameInv.v
GameSpec.v
GameView.v
Migration.v
Room.v
RoomStore.v
RoomSpec.v
Cluster.v
Failover.v
Gateway.v
GameServer.v
Config.v
GameProcess.v
Services.v
Relay.v
Client.v
Sessions.v
Validation.v
Telemetry.v
ValidationStack.v
Transport.v
GatewayProcess.v
Schema.v
Leadership.v
Reports.v
Platform.v
Provenance.v
Delivery.v
RuntimeApi.v
ClientProcess.v
Lifecycle.v
Benchmarks.v
Scenarios.v
Witnesses.v
