(* ===== verification/Prelude.v ===== *)
(** * Verification of the spatial server

    The program is a server for shared virtual spaces.  A space (a "runtime")
    is divided into zones; each zone is simulated by one game server; players
    reach the game server of their zone through a gateway; a room service
    knows the game servers and who owns which zone.  Under [src/]:

    - [pkg/protocol] and [internal/types] are shared: packets, identifiers,
      errors and status enumerations;
    - [internal/game] is the simulation (entities, zones, the interest grid,
      ticks, ghosts, migration), [apps/game-server] the process around it,
      [internal/storage/game] its snapshots;
    - [internal/room] and [internal/storage/room] are the control plane,
      [apps/room-service] the process around it;
    - [internal/gateway], [internal/session] and [internal/auth] are the
      gateway, [apps/gateway] the process around it;
    - [internal/transport] wraps the gateway's websocket library;
    - [internal/config], [internal/storage/pools.go], [internal/migration],
      [internal/metrics], [internal/grpc], [internal/logging],
      [internal/mtls] and [internal/observability] serve all of them;
    - [internal/validation] runs chaos scenarios against a stack of processes,
      [tests/validation] holds the scenarios;
    - [tools/client] is a command-line player, [benchmarks] measures.

    A game server registers with the room service and sends it heartbeats; a
    sweeper there hands the zones of silent servers to others and announces
    it to the gateways.  A gateway verifies a player's token, asks the room
    service for the address of the zone and copies frames between the
    player's websocket and a stream to the game server, whose relay handler
    feeds the simulation's queues; the simulation's events flow back.

    ** Conventions

    Go functions are Rocq functions of the same name, with explicit state and
    with [option] or [result] for errors, panics and blocking; methods that
    hold a mutex for their whole body are one atomic step, and goroutines are
    transition systems or event traces whose interleaving is arbitrary.
    Integers are [Z] with their wrap-around ([wrap64], [wrap32]); [float64] is
    IEEE binary64 (GoFloat); times are nanoseconds, and every clock reading is
    an argument.  Maps are [gmap]; the order of [range] over a map is a
    parameter ([RangeOrder]), so that theorems hold for every order.  Objects
    shared through pointers live in explicit heaps.  Code outside the
    repository is a class of operations with its documented laws (gzip, gob,
    protobuf and JSON codecs, JSONB, JWT, Redis, koanf, the websocket
    library, X.509, sine and random numbers, the allocation policy);
    PostgreSQL is a pair of tables with a schedule of failures and foreign
    changes.  Each class has an instance, used
    by the witnesses.

    ** Files

    - Prelude: results, record update, machine integers, time, map iteration,
      loops and the shared lemmas.  GoFloat: [float64].
    - Types: [internal/types], [internal/game/zone].
    - Protocol: [pkg/protocol].
    - Aoi: [internal/game/aoi].  Entity: [internal/game/entity], [npc.go].
    - Game: [simulation.go], [event.go], [metrics.go], [lifecycle.go] of
      [internal/game]: the record [Game] and every operation on it.
    - Boundary: [boundary.go], [probes.go] and the querier of [peer.go];
      Peers: the peer connections of [peer.go].
    - GameInv: the invariant of [Game].  GameSpec: executions of the
      simulation.  GameView: what clients can do and see.  Migration: the
      hand-off of zones and the ghosts of neighbours.
    - Room: [internal/room] in memory (nodes, allocator, registry, ownership,
      transfers, leadership, sweeper, runtime API).  RuntimeApi: the handlers
      of [api.go] over the interface of their store, under concurrent calls.
    - RoomStore: the storage interfaces, their SQL implementation, the RPC
      handlers and the production sweeper; RoomSpec: their properties.
    - Cluster: joining, heartbeats, routing and the ownership streams.
      Failover: the loop of the sweeper beside those calls.  Schema: the types
      of the shared tables, under replicas.  Leadership: the loop of the
      in-memory sweeper, leases and the leadership gate.
    - Gateway: [internal/gateway] (rate limits, cache, handlers),
      [internal/session], [internal/auth].  Relay: [relay.go] and the ownership
      watch.  Sessions: [token.go] and [store.go].  Transport: the interfaces
      of [internal/transport/websocket], their adapter, and the relay on such
      a connection.  GatewayProcess: the handler under concurrent requests,
      its routes, its drain, and [tools/healthcheck].
    - GameServer: send queues, registry, relay handler, RPCs and encoding of
      [apps/game-server].  GameProcess: snapshots, recovery and the process as
      a transition system.
    - Config: [internal/config].  Services: the [main] functions, pools and
      migrations, and the end of a game server.  Lifecycle: the three services
      from the signal to their exit, as instances of one machine.
    - Client: [tools/client]; ClientProcess: its [main] and its goroutines.
      Telemetry: interceptors and metrics.  Platform:
      loggers, TLS configurations and the start of tracing.
    - Provenance: gateways, streams, a game server and clients as one system,
      and where the positions that clients see come from; Delivery: that a
      move reaches those who see it.
    - Validation: the framework of [internal/validation]; ValidationStack: its
      observers, injectors and process stack; Reports: evidence, the JSON
      reporter, the module root and the build of services; Scenarios: the
      tables of [tests/validation].
    - Benchmarks: histograms, movement patterns and verdicts of [benchmarks].
    - Witnesses: concrete executions for the theorems with hypotheses that are
      not accompanied by one in their own file.

    ** What the theorems show

    - Simulation: a type invariant holds in every reachable state
      (game_invariant) and, under every interleaving of the goroutines of the
      process, the process stays within it (process_refines_game); a tick
      always ends and processes its budget (tick_progress); spawn and despawn
      events are exactly the changes of what a client can see
      (visibility_exact); spaces do not mix (space_isolation); a client moves
      its own entity only (dispatch_authority), and the grid follows
      (position_sync); removal and queues lose nothing silently
      (removal_complete, enqueue_accounting).
    - End to end, over the whole system and every interleaving: a position
      that a client is shown of a player is one that this player sent over an
      authenticated connection, or that a server handed over
      (positions_authentic); and a move can reach every player in range
      (move_is_seen).
    - Data structures: the grid refines a map of positions (aoi_refines_map);
      packets, snapshots and migrations are read back as written
      (packet_roundtrip, recovery_roundtrip, zone_handoff); ghosts mirror the
      neighbour (reconcile_exact); zones move through their states only along
      the transition table (zone_history).
    - Control plane: a look-up returns the owner (lookup_returns_owner); a
      sweep reassigns the zones of dead servers and no others
      (sweep_reassigns, sweep_respects_owners), within twenty seconds of the
      last heartbeat, after which players are routed to the new owner
      (failover_bound); the shared tables keep their types
      under any number of writers (schema_typed); the in-memory sweeper evicts
      exactly the dead (memory_sweep); concurrent calls of the runtime API,
      listings apart, answer as if made one after the other
      (api_linearizable); join_then_route, watch_delivers,
      select_least_loaded, transfer_protocol.
    - Gateway: admission, rate limits, the relay's protocol and the sessions
      (ws_admission, rate_limit_bound, relay_protocol, session_life,
      sessions_refine); under concurrent requests its counters and its pool
      are exact (gateway_books) and a drain ends (gateway_drains); frames are
      bounded (relay_frames_bounded).
    - Composition: from a token to an avatar (player_joins), from events to
      the right client (events_routed), the client's walk through all three
      services (client_arrives, client_walks), configuration and life of the
      processes (config_precedence, server_start, stopping_frozen,
      services_stop), and of the client (client_session).
    - Validation: what a report means (run_sound), that waiting ends
      (wait_terminates), and what the scenarios do not see (crash_passes,
      scenario_verdicts).
    - Measuring: percentiles are by nearest rank (percentile_rank), the
      limiting stage is the first over its budget (limiting_first).

    Theorems that document a defect of the code say what the code does, not
    what it should do; they are named in the comments of their files
    (re_enter_leaks, load_splits_grid, sweep_strands_zones, claim_masks_failure,
    late_heartbeat_revives, soft_limit_ignores_relays, gate_is_no_fence,
    list_not_atomic, boundary_stuck, p999_overshoots and others).

    ** Bounds and fuel

    The loops over channels take the capacity of the channel as fuel, which is
    as much as can be queued: 256 commands and 1024 packets per tick, 4096
    inbound packets and events, 64 packets per client, 16 ownership changes
    per stream.  Waits on a service are given its time-out over the polling
    interval plus two rounds, after which [wait_terminates] shows that they
    have ended.  A request on [/ws] takes at most ten steps ([ws_fuel],
    gateway_drains).  The search for the module root is by well-founded
    recursion on the depth of the directory.  The rate-limit theorem takes
    clock readings whole seconds apart (up to 9*10^9), rates up to 100000 and
    bursts up to 1000000, where the float arithmetic is exact; percentile_rank
    takes up to a thousand samples, for which the ranks are computed; others assume that slices have fewer than
    2^63 elements and that counters do not reach it.

    ** Not modelled

    What log handlers and trace exporters write, the gRPC statistics handlers
    of [internal/observability/grpc.go], the HTTP and gRPC servers, the HTTP
    endpoints for metrics and the gRPC health service belong to their
    libraries, and the repository only constructs them; the SQL migrations are
    data; protobuf code is generated; load generators, profilers and test
    drivers are not part of the server, and what they compute is measured
    time.  Random identifiers and the constructors that only wrap a library's
    handle have no definitions of their own.  Memory exhaustion and the Go
    scheduler's fairness are outside the model: move_is_seen shows that a
    schedule exists, not that every one gets there. *)

From stdpp Require Import base tactics list gmap strings sorting pretty.
From Stdlib Require Import ZArith Lia.

#[export] Set Default Goal Selector "!".
#[export] Set Warnings "-postfix-notation-not-level-1".

(** ** Results

    A Go call that returns [(value, error)] is modelled by [result]: the
    error is a value, and every early return of the source is a branch. *)

Inductive result (E A : Type) : Type :=
| Ok (a : A)
| Err (e : E).
Arguments Ok {E A} a.
Arguments Err {E A} e.

Declare Scope go_scope.
Delimit Scope go_scope with go.

Definition result_bind {E A B} (m : result E A) (k : A → result E B) : result E B :=
  match m with Ok a => k a | Err e => Err e end.

Notation "'try!' x := m 'in' k" := (result_bind m (λ x, k))
  (at level 10, x binder, m at level 100, k at level 200) : go_scope.

Definition is_ok {E A} (r : result E A) : bool :=
  match r with Ok _ => true | Err _ => false end.

(** ** Record update

    [r <| p := v |>] is [r] with field [p] replaced.  A record declares
    one eta-expansion and one [Setter] instance per field, each solved by
    [solve_setter]. *)

Class Setter {R F : Type} (p : R → F) := set_field : (F → F) → R → R.
Arguments set_field {R F} p {_} _ _ /.

Ltac solve_setter eta :=
  match goal with
  | |- Setter ?p =>
      let f := fresh "f" in
      let r := fresh "r" in
      unfold Setter; intros f r;
      let t := eval cbv beta delta [eta] in (eta r) in
      let h := eval pattern (p r) in t in
      match h with
      | ?k _ => let u := eval cbv beta in (k (f (p r))) in exact u
      end
  end.

Notation "r <| p := v |>" := (set_field p (λ _, v) r)
  (at level 12, p at level 9, left associativity) : stdpp_scope.
Notation "r <| p ::= f |>" := (set_field p f r)
  (at level 12, p at level 9, f at level 99, left associativity) : stdpp_scope.

(** ** Machine integers

    Go's [int] and [int64] are 64-bit two's complement; arithmetic wraps.
    [wrap64]/[wrap32] are the conversions [int64(x)]/[int32(x)]. *)

Definition wrap (w : Z) (z : Z) : Z := (z + 2 ^ (w - 1)) `mod` 2 ^ w - 2 ^ (w - 1).
Definition wrap64 : Z → Z := wrap 64.
Definition wrap32 : Z → Z := wrap 32.
Definition in_int64 (z : Z) : Prop := (- 2 ^ 63 ≤ z < 2 ^ 63)%Z.
Definition max_int64 : Z := 2 ^ 63 - 1.
Definition min_int64 : Z := - 2 ^ 63.

Lemma wrap64_range z : in_int64 (wrap64 z).
Proof.
  unfold in_int64, wrap64, wrap.
  pose proof (Z.mod_pos_bound (z + 2 ^ (64 - 1)) (2 ^ 64) ltac:(lia)). lia.
Qed.

Lemma wrap64_id z : in_int64 z → wrap64 z = z.
Proof.
  unfold in_int64, wrap64, wrap. intros H. rewrite Z.mod_small; lia.
Qed.

Lemma wrap32_id z : (- 2 ^ 31 ≤ z < 2 ^ 31)%Z → wrap32 z = z.
Proof. unfold wrap32, wrap. intros H. rewrite Z.mod_small; lia. Qed.

(** ** Time

    A [time.Time] is its distance in nanoseconds from the zero time (year 1),
    so that [IsZero] is [= 0]; a [time.Duration] is an [int64] count of
    nanoseconds.  [Time.Sub] saturates at the ends of the duration range. *)

Abbreviation Time := Z (only parsing).
Abbreviation Duration := Z (only parsing).

Definition Millisecond : Duration := 1000000.
Definition Second : Duration := 1000 * Millisecond.
Definition zero_time : Time := 0.
Definition time_is_zero (t : Time) : bool := (t =? zero_time)%Z.
Definition time_sub (t u : Time) : Duration := Z.max min_int64 (Z.min max_int64 (t - u)).
Definition time_add (t : Time) (d : Duration) : Time := (t + d)%Z.
Definition time_after (t u : Time) : bool := (u <? t)%Z.

Lemma time_sub_spec t u : in_int64 (t - u) → time_sub t u = (t - u)%Z.
Proof. unfold in_int64, time_sub, min_int64, max_int64. lia. Qed.

Lemma time_sub_range t u : in_int64 (time_sub t u).
Proof. unfold in_int64, time_sub, min_int64, max_int64. lia. Qed.

(** Comparing a saturated difference with a threshold inside the range is
    comparing the exact difference. *)
Lemma time_sub_gt t u d :
  (min_int64 ≤ d < max_int64)%Z → (d < time_sub t u)%Z ↔ (d < t - u)%Z.
Proof. unfold time_sub, min_int64, max_int64. lia. Qed.

(** ** Iteration over a Go map

    The order in which [for k, v := range m] visits a map is unspecified.
    Every loop of the model takes its order from an instance of this class,
    so a theorem about the loop holds for every order. *)

Class RangeOrder : Type := {
  range_list : ∀ {V : Type}, gmap string V → list (string * V);
  range_list_perm : ∀ {V : Type} (m : gmap string V), range_list m ≡ₚ map_to_list m
}.

Definition canonical_order : RangeOrder :=
{| range_list V m := map_to_list m; range_list_perm V m := reflexivity _ |}.

Section range.
Context `{RO : !RangeOrder} {V : Type}.
Implicit Types m : gmap string V.

Lemma elem_of_range_list m k v : (k, v) ∈ range_list m ↔ m !! k = Some v.
Proof. by rewrite range_list_perm, elem_of_map_to_list. Qed.

Lemma NoDup_fst_range_list m : NoDup (range_list m).*1.
Proof. rewrite range_list_perm. apply NoDup_fst_map_to_list. Qed.

Lemma NoDup_range_list m : NoDup (range_list m).
Proof. rewrite range_list_perm. apply NoDup_map_to_list. Qed.

Lemma length_range_list m : length (range_list m) = size m.
Proof. by rewrite range_list_perm, length_map_to_list. Qed.

Lemma elem_of_range_keys m k : k ∈ (range_list m).*1 ↔ is_Some (m !! k).
Proof.
  rewrite list_elem_of_fmap. split.
  - intros ([k' v] & -> & Hkv%elem_of_range_list). eauto.
  - intros [v Hv]. exists (k, v). by rewrite elem_of_range_list.
Qed.
End range.

(** ** Loops *)

Lemma foldl_invariant {S A} (f : S → A → S) (P : S → Prop) (l : list A) (s : S) :
  P s → (∀ s x, x ∈ l → P s → P (f s x)) → P (foldl f s l).
Proof.
  revert s. induction l as [|x l IH]; intros s Hs Hf; simpl; [done|].
  apply IH.
  - apply Hf; [set_solver|done].
  - intros s' y Hy. apply Hf. set_solver.
Qed.

(** A loop whose body leaves a projection alone leaves it alone. *)
Lemma foldl_frame {S A B} (f : S → A → S) (p : S → B) (l : list A) (s : S) :
  (∀ s x, p (f s x) = p s) → p (foldl f s l) = p s.
Proof.
  intros Hf. apply (foldl_invariant f (λ s', p s' = p s)); [done|].
  intros s' x _ <-. apply Hf.
Qed.

(** A loop whose body moves along a preorder moves along it. *)
Lemma foldl_preorder {S A} (R : relation S) `{!PreOrder R} (f : S → A → S) (l : list A) (s : S) :
  (∀ s x, R s (f s x)) → R s (foldl f s l).
Proof.
  intros Hf. apply (foldl_invariant f (R s)); [done|]. intros s' x _ Hs. by etrans.
Qed.

(** A loop whose body may fail. *)
Fixpoint fold_option {S A} (f : S → A → option S) (s : S) (l : list A) : option S :=
  match l with [] => Some s | x :: l => s ← f s x; fold_option f s l end.

Lemma fold_option_invariant {S A} (f : S → A → option S) (P : S → Prop) (l : list A) (s : S) :
  P s → (∀ s x, x ∈ l → P s → ∃ s', f s x = Some s' ∧ P s') →
  ∃ s', fold_option f s l = Some s' ∧ P s'.
Proof.
  revert s. induction l as [|x l IH]; intros s Hs Hf; simpl; [by eauto|].
  destruct (Hf s x) as (s' & -> & Hs'); [set_solver|done|]. simpl.
  apply IH; [done|]. intros t y Hy. apply Hf. set_solver.
Qed.

Lemma fold_option_app {S A} (f : S → A → option S) (l1 l2 : list A) (s : S) :
  fold_option f s (l1 ++ l2) = fold_option f s l1 ≫= λ s', fold_option f s' l2.
Proof. revert s. induction l1 as [|x l1 IH]; intros s; cbn; [done|]. destruct (f s x); cbn; auto. Qed.

(** A partial version: the invariant holds of the result, if there is one. *)
Lemma fold_option_preserves {S A} (f : S → A → option S) (P : S → Prop) (l : list A) (s s' : S) :
  P s → (∀ s x s', P s → f s x = Some s' → P s') → fold_option f s l = Some s' → P s'.
Proof.
  intros Hs Hf. revert s Hs. induction l as [|x l IH]; intros s Hs; simpl; [by intros [= <-]|].
  destruct (f s x) as [t|] eqn:E; simpl; [|done]. apply IH. by eapply Hf.
Qed.

(** Deleting from a map every key a loop selects. *)
Lemma lookup_foldl_delete {A V} (f : A → option string) (l : list A)
    (m : gmap string V) (k : string) :
  foldl (λ m x, match f x with Some i => delete i m | None => m end) m l !! k =
  if decide (Some k ∈ f <$> l) then None else m !! k.
Proof.
  revert m. induction l as [|x l IH]; intros m; cbn [foldl].
  { done. }
  rewrite IH. rewrite fmap_cons.
  destruct (decide (Some k ∈ f <$> l)) as [H|H].
  { rewrite decide_True; [done|]. by right. }
  destruct (f x) as [i|] eqn:E; [destruct (decide (i = k)) as [->|Hne]|].
  - rewrite lookup_delete_eq, decide_True; [done|]. left.
  - rewrite lookup_delete_ne by done. rewrite decide_False; [done|].
    intros [?|?]%elem_of_cons; congruence.
  - rewrite decide_False; [done|]. intros [?|?]%elem_of_cons; congruence.
Qed.

(** ** Slices *)

(** [append(ids[:i], ids[i+1:]...)] at the first [i] with [ids[i] == id]. *)
Fixpoint remove_first (id : string) (ids : list string) : list string :=
  match ids with
  | [] => []
  | x :: ids' => if decide (x = id) then ids' else x :: remove_first id ids'
  end.

Lemma elem_of_remove_first_ne id x ids :
  x ≠ id → x ∈ remove_first id ids ↔ x ∈ ids.
Proof.
  intros Hne. induction ids as [|y ids IH]; simpl; [done|].
  destruct (decide (y = id)) as [->|].
  - rewrite elem_of_cons. naive_solver.
  - rewrite !elem_of_cons. naive_solver.
Qed.

Lemma remove_first_NoDup id ids : NoDup ids → NoDup (remove_first id ids).
Proof.
  induction 1 as [|y ids Hy Hnd IH]; simpl; [constructor|].
  destruct (decide (y = id)) as [->|]; [done|].
  constructor; [|done]. by rewrite elem_of_remove_first_ne.
Qed.

Lemma not_elem_of_remove_first id ids : NoDup ids → id ∉ remove_first id ids.
Proof.
  induction 1 as [|y ids Hy Hnd IH]; simpl; [apply not_elem_of_nil|].
  destruct (decide (y = id)) as [->|]; [done|]. set_solver.
Qed.

Lemma remove_first_notin id ids : id ∉ ids → remove_first id ids = ids.
Proof.
  induction ids as [|y ids IH]; simpl; intros H; [done|].
  rewrite decide_False by set_solver. f_equal. apply IH. set_solver.
Qed.

Lemma length_bind_const {A B} (f : A → list B) (l : list A) (n : nat) :
  (∀ x, length (f x) = n) → length (l ≫= f) = (length l * n)%nat.
Proof.
  intros Hf. induction l as [|x l IH]; [done|]. cbn. rewrite length_app, Hf. by f_equal.
Qed.

(** Two nested loops that append one element per pair of indices. *)
Lemma NoDup_grid {A} (f : Z → Z → A) (xs ys : list Z) :
  (∀ x1 x2 y1 y2, f x1 y1 = f x2 y2 → x1 = x2 ∧ y1 = y2) →
  NoDup xs → NoDup ys → NoDup (xs ≫= λ x, ys ≫= λ y, [f x y]).
Proof.
  intros Hinj Hx Hy. apply NoDup_bind; [| |done].
  - intros x1 x2 a _ _ (y1&E1&_)%list_elem_of_bind (y2&E2&_)%list_elem_of_bind.
    apply list_elem_of_singleton in E1, E2. subst. naive_solver.
  - intros x _. apply NoDup_bind; [| |done].
    + intros y1 y2 a _ _ E1%list_elem_of_singleton E2%list_elem_of_singleton. subst. naive_solver.
    + intros. apply NoDup_singleton.
Qed.

Lemma elem_of_grid {A} (f : Z → Z → A) (xs ys : list Z) a :
  a ∈ (xs ≫= λ x, ys ≫= λ y, [f x y]) ↔ ∃ x y, a = f x y ∧ x ∈ xs ∧ y ∈ ys.
Proof.
  rewrite list_elem_of_bind. split.
  - intros (x & (y & Ha%list_elem_of_singleton & Hy)%list_elem_of_bind & Hx). eauto.
  - intros (x & y & -> & Hx & Hy). exists x. split; [|done].
    apply list_elem_of_bind. exists y. split; [|done]. by apply list_elem_of_singleton.
Qed.

(** Loops that append the elements passing a test. *)
Lemma elem_of_bfilter {A} (f : A → bool) (l : list A) x :
  x ∈ List.filter f l ↔ x ∈ l ∧ f x = true.
Proof. by rewrite !list_elem_of_In, filter_In. Qed.

Lemma NoDup_bfilter {A} (f : A → bool) (l : list A) : NoDup l → NoDup (List.filter f l).
Proof.
  induction 1 as [|x l Hx Hnd IH]; simpl; [constructor|].
  destruct (f x); [|done]. constructor; [|done]. by rewrite elem_of_bfilter; intros [? _].
Qed.

Lemma StronglySorted_bfilter {A} (R : relation A) (f : A → bool) (l : list A) :
  StronglySorted R l → StronglySorted R (List.filter f l).
Proof.
  induction 1 as [|x l Hs IH Hx]; simpl; [constructor|].
  destruct (f x); [|done]. constructor; [done|].
  apply Forall_forall. intros y [Hy _]%elem_of_bfilter. rewrite Forall_forall in Hx. auto.
Qed.

(** [sort.Slice] with [result[i] < result[j]] on strings. *)
Definition sort_strings : list string → list string := merge_sort String.le.

Lemma sort_strings_perm l : sort_strings l ≡ₚ l.
Proof. apply merge_sort_Permutation. Qed.

Lemma sort_strings_sorted l : StronglySorted String.le (sort_strings l).
Proof. apply StronglySorted_merge_sort; apply _. Qed.

Lemma sort_strings_unique l k :
  StronglySorted String.le k → k ≡ₚ l → sort_strings l = k.
Proof.
  intros Hs Hp. eapply (StronglySorted_unique String.le).
  - apply sort_strings_sorted.
  - done.
  - by rewrite sort_strings_perm.
Qed.

(** ** Automation *)

Create HintDb spatial.
Create Rewrite HintDb spatial.
#[export] Hint Resolve wrap64_range time_sub_range NoDup_fst_range_list
  NoDup_range_list remove_first_NoDup not_elem_of_remove_first : spatial.

(** Case analysis on the scrutinees of the goal, keeping equations. *)
Ltac case_all :=
  repeat (case_match; simplify_eq/=).
