(* ===== verification/GoFloat.v ===== *)
(** * Go's [float64]

    IEEE-754 binary64 as the Standard Library's [SpecFloat] specifies it
    (precision 53, maximal exponent 1024, round to nearest even), with the
    operations and comparisons the sources use: arithmetic, [math.Floor],
    [math.Ceil], [math.Abs], conversion from and to integers, and
    [Duration.Seconds].  Products and sums are rounded separately (no fused
    multiply-add), and a conversion to [int] that does not fit returns the
    minimal integer: both are the behaviour of the amd64 target.

    The second half proves that arithmetic on integers below 2^53 is exact,
    which is what the scheduling score and the grid arithmetic rely on.  *)

From S2P Require Import Prelude.
From stdpp Require Import base tactics numbers.
From Stdlib Require Import ZArith Lia SpecFloat.

Local Open Scope Z_scope.

Abbreviation float64 := spec_float (only parsing).

#[export] Instance spec_float_eq_dec : EqDecision spec_float.
Proof. solve_decision. Defined.

#[export] Instance spec_float_inhabited : Inhabited spec_float := populate (S754_zero false).

(** ** Operations *)

Definition fzero : float64 := S754_zero false.
Definition fadd : float64 → float64 → float64 := SFadd 53 1024.
Definition fsub : float64 → float64 → float64 := SFsub 53 1024.
Definition fmul : float64 → float64 → float64 := SFmul 53 1024.
Definition fdiv : float64 → float64 → float64 := SFdiv 53 1024.
Definition fabs : float64 → float64 := SFabs.
Definition feqb : float64 → float64 → bool := SFeqb.
Definition fltb : float64 → float64 → bool := SFltb.
Definition fleb : float64 → float64 → bool := SFleb.

(** [float64(z)] for an integer [z]. *)
Definition of_int (z : Z) : float64 := binary_normalize 53 1024 z 0 false.

(** The integer part towards minus infinity of [±m * 2^e]. *)
Definition floor_Z (s : bool) (m : positive) (e : Z) : Z :=
  Z.shiftl (cond_Zopp s (Zpos m)) e.

(** [math.Floor]: special values and integers are returned as they are. *)
Definition ffloor (x : float64) : float64 :=
  match x with
  | S754_finite s m e =>
      if 0 <=? e then x else binary_normalize 53 1024 (floor_Z s m e) 0 false
  | _ => x
  end.

(** [math.Ceil(x)] is [-Floor(-x)]. *)
Definition fceil (x : float64) : float64 := SFopp (ffloor (SFopp x)).

(** [int(x)]: truncation, or the minimal integer when the result does not fit. *)
Definition to_int (x : float64) : Z :=
  match x with
  | S754_zero _ => 0
  | S754_finite s m e =>
      let v := cond_Zopp s (Z.shiftl (Zpos m) e) in
      if decide (- 2 ^ 63 ≤ v < 2 ^ 63) then v else min_int64
  | _ => min_int64
  end.

(** [Duration.Seconds]: whole seconds plus the fraction over 1e9. *)
Definition seconds (d : Z) : float64 :=
  fadd (of_int (Z.quot d Second)) (fdiv (of_int (Z.rem d Second)) (of_int 1000000000)).

(** ** Comparisons *)

Lemma feqb_eq x y : feqb x y = true → x = y ∨ (∃ s t, x = S754_zero s ∧ y = S754_zero t).
Proof.
  unfold feqb, SFeqb.
  destruct x as [s|s| |s m e], y as [t|t| |t n f]; simpl;
    try (by destruct s); try (by destruct t); try done.
  - eauto.
  - destruct s, t; naive_solver.
  - intros H. left. destruct s, t; try done; destruct (Z.compare_spec e f); try done;
      change (Pos.compare_cont Eq m n) with (Pos.compare m n) in H;
      destruct (Pos.compare_spec m n); simplify_eq/=; done.
Qed.

Lemma feqb_refl x : x ≠ S754_nan → feqb x x = true.
Proof.
  unfold feqb, SFeqb. destruct x as [s|s| |s m e]; simpl; intros H; try done.
  - by destruct s.
  - change (Pos.compare_cont Eq m m) with (Pos.compare m m).
    rewrite Z.compare_refl, Pos.compare_refl. by destruct s.
Qed.

Example to_int_floor_neg : to_int (ffloor (fdiv (of_int (-1)) (of_int 100))) = -1.
Proof. reflexivity. Qed.
Example to_int_big : to_int (fmul (of_int (2 ^ 62)) (of_int 4)) = min_int64.
Proof. reflexivity. Qed.
Example seconds_half : seconds (500 * Millisecond) = fdiv (of_int 1) (of_int 2).
Proof. reflexivity. Qed.

(** ** Exactness on integers

    [fint s v] is the canonical binary64 representation of [±v] for a
    positive [v] below 2^53: the mantissa shifted to 53 digits. *)

Definition digits (p : positive) : Z := Zpos (digits2_pos p).

Lemma digits_bound p : 1 ≤ digits p ∧ 2 ^ (digits p - 1) ≤ Zpos p < 2 ^ digits p.
Proof.
  unfold digits. induction p as [p [H1 H2]|p [H1 H2]|]; simpl; [| |lia];
    rewrite Pos2Z.inj_succ; (split; [lia|]);
    replace (Z.succ (Zpos (digits2_pos p)) - 1) with (Zpos (digits2_pos p) - 1 + 1) by lia;
    rewrite Z.pow_add_r, Z.pow_succ_r by lia; lia.
Qed.

Lemma digits_unique p d : 2 ^ (d - 1) ≤ Zpos p < 2 ^ d → digits p = d.
Proof.
  intros [H1 H2]. pose proof (digits_bound p) as (Hp & H3 & H4).
  assert (0 < d). { destruct (decide (d ≤ 0)); [|lia].
    destruct (decide (d = 0)) as [->|]; [simpl in *; lia|rewrite (Z.pow_neg_r 2 d) in H2; lia]. }
  assert (digits p - 1 < d) by (apply (Z.pow_lt_mono_r_iff 2); lia).
  assert (d - 1 < digits p) by (apply (Z.pow_lt_mono_r_iff 2); lia). lia.
Qed.

Lemma digits_lt p d : 0 ≤ d → Zpos p < 2 ^ d → digits p ≤ d.
Proof.
  intros Hd H. pose proof (digits_bound p) as (Hp & H3 & H4).
  assert (digits p - 1 < d); [|lia]. apply (Z.pow_lt_mono_r_iff 2); lia.
Qed.

Lemma digits_shift p q k : 0 ≤ k → Zpos q = Zpos p * 2 ^ k → digits q = digits p + k.
Proof.
  intros Hk Hq. pose proof (digits_bound p) as (Hp & H3 & H4).
  apply digits_unique. rewrite Hq.
  replace (digits p + k - 1) with (digits p - 1 + k) by lia.
  rewrite !Z.pow_add_r by lia. nia.
Qed.

Lemma iter_shr_exact (n q : positive) :
  iter_pos shr_1 n {| shr_m := Zpos q * 2 ^ Zpos n; shr_r := false; shr_s := false |}
  = {| shr_m := Zpos q; shr_r := false; shr_s := false |}.
Proof.
  assert (Hstep : ∀ p, shr_1 {| shr_m := Zpos p * 2; shr_r := false; shr_s := false |}
                  = {| shr_m := Zpos p; shr_r := false; shr_s := false |}).
  { intros p. by rewrite Z.mul_comm. }
  assert (Hpow : ∀ p k, ∃ r, Zpos p * 2 ^ Zpos k = Zpos r).
  { intros p k. assert (0 < Zpos p * 2 ^ Zpos k) by (apply Z.mul_pos_pos; lia).
    destruct (Zpos p * 2 ^ Zpos k); eauto; lia. }
  revert q. induction n as [n IH|n IH|]; intros q; cbn [iter_pos].
  - rewrite (Pos2Z.inj_xI n), Z.pow_add_r, Z.mul_assoc by lia. change (2 ^ 1) with 2.
    destruct (Hpow q n) as [r Hr].
    replace (Zpos q * 2 ^ (2 * Zpos n)) with (Zpos r * 2 ^ Zpos n).
    2:{ rewrite <-Hr, <-Z.mul_assoc, <-Z.pow_add_r by lia. f_equal. f_equal. lia. }
    destruct (Hpow r n) as [t Ht]. rewrite Ht, Hstep, <-Ht, IH, <-Hr. apply IH.
  - rewrite (Pos2Z.inj_xO n).
    destruct (Hpow q n) as [r Hr].
    replace (Zpos q * 2 ^ (2 * Zpos n)) with (Zpos r * 2 ^ Zpos n).
    2:{ rewrite <-Hr, <-Z.mul_assoc, <-Z.pow_add_r by lia. f_equal. f_equal. lia. }
    rewrite IH, <-Hr. apply IH.
  - apply Hstep.
Qed.

Definition fint (s : bool) (v : positive) : float64 :=
  S754_finite s (Z.to_pos (Zpos v * 2 ^ (53 - digits v))) (digits v - 53).

Lemma fexp_small d : 1 ≤ d → fexp 53 1024 d = d - 53.
Proof. unfold fexp, emin. lia. Qed.

Lemma shr_fexp_exact (v q : positive) (e : Z) :
  1 ≤ digits v + e → 0 ≤ digits v - 53 →
  Zpos v = Zpos q * 2 ^ (digits v - 53) →
  shr_fexp 53 1024 (Zpos v) e loc_Exact
  = ({| shr_m := Zpos q; shr_r := false; shr_s := false |}, e + (digits v - 53)).
Proof.
  intros He Hd Hv. unfold shr_fexp, shr, Zdigits2. fold (digits v).
  rewrite fexp_small by lia. simpl shr_record_of_loc.
  replace (digits v + e - 53 - e) with (digits v - 53) by lia.
  destruct (digits v - 53) as [|n|n] eqn:E; [|by rewrite Hv, iter_shr_exact|lia].
  rewrite Z.mul_1_r in Hv. rewrite Hv. f_equal. lia.
Qed.

Lemma to_pos_scale v k : 0 ≤ k → Zpos (Z.to_pos (Zpos v * 2 ^ k)) = Zpos v * 2 ^ k.
Proof. intros. apply Z2Pos.id. apply Z.mul_pos_pos; lia. Qed.

Lemma round_aux_exact s (v w : positive) j :
  digits v ≤ 53 → 53 - digits v ≤ j → Zpos w = Zpos v * 2 ^ j →
  binary_round_aux 53 1024 s (Zpos w) (- j) loc_Exact = fint s v.
Proof.
  intros Hd Hj Hw. pose proof (digits_bound v) as (Hv & _).
  assert (Hdw : digits w = digits v + j) by (apply digits_shift; [lia|done]).
  set (q := Z.to_pos (Zpos v * 2 ^ (53 - digits v))).
  assert (Hq : Zpos q = Zpos v * 2 ^ (53 - digits v)) by (apply to_pos_scale; lia).
  assert (Hdq : digits q = 53) by (rewrite (digits_shift v q (53 - digits v)); lia).
  unfold binary_round_aux. rewrite (shr_fexp_exact w q); [|lia|lia|].
  2:{ rewrite Hw, Hq, <-Z.mul_assoc, <-Z.pow_add_r by lia. f_equal. f_equal. lia. }
  cbn [round_nearest_even shr_m loc_of_shr_record].
  rewrite (shr_fexp_exact q q) by (rewrite ?Hdq; lia). cbn [shr_m].
  rewrite (proj2 (Z.leb_le _ _)) by lia. unfold fint. fold q. f_equal. lia.
Qed.

Lemma iter_xO m d : Zpos (Pos.iter xO m d) = Zpos m * 2 ^ Zpos d.
Proof.
  induction d as [|d IH] using Pos.peano_ind; simpl; [lia|].
  rewrite Pos.iter_succ, Pos2Z.inj_succ, Z.pow_succ_r, Pos2Z.inj_xO, IH by lia. lia.
Qed.

Lemma round_exact s (v w : positive) j :
  digits v ≤ 53 → 0 ≤ j → Zpos w = Zpos v * 2 ^ j →
  binary_round 53 1024 s w (- j) = fint s v.
Proof.
  intros Hd Hj Hw. pose proof (digits_bound v) as (Hv & _).
  assert (Hdw : digits w = digits v + j) by (apply digits_shift; [lia|done]).
  unfold binary_round, shl_align. fold (digits w).
  rewrite Hdw, fexp_small by lia.
  destruct (digits v + j + - j - 53 - - j) as [|k|k] eqn:E.
  - apply round_aux_exact; lia || done.
  - apply round_aux_exact; lia || done.
  - replace (digits v + j + - j - 53) with (- (53 - digits v)) by lia.
    apply round_aux_exact; [lia|lia|].
    rewrite iter_xO, Hw, <-Z.mul_assoc, <-Z.pow_add_r by lia. f_equal. f_equal. lia.
Qed.

(** [exact z]: [z] is an integer every binary64 operation below treats exactly. *)
Definition exact (z : Z) : Prop := Z.abs z < 2 ^ 53.

Lemma of_int_pos v : Zpos v < 2 ^ 53 → of_int (Zpos v) = fint false v.
Proof.
  intros H. apply (round_exact false v v 0); [|lia|lia]. apply digits_lt; lia.
Qed.

Lemma of_int_neg v : Zpos v < 2 ^ 53 → of_int (Zneg v) = fint true v.
Proof.
  intros H. apply (round_exact true v v 0); [|lia|lia]. apply digits_lt; lia.
Qed.

Lemma normalize_exact z w j :
  exact z → 0 ≤ j → w = z * 2 ^ j → binary_normalize 53 1024 w (- j) false = of_int z.
Proof.
  unfold exact. intros Hz Hj ->.
  destruct z as [|v|v]; [done| |];
    (assert (digits v ≤ 53) by (apply digits_lt; lia)).
  - rewrite of_int_pos, <-(to_pos_scale v j) by lia.
    by apply round_exact; [| |apply to_pos_scale].
  - rewrite of_int_neg, <-Pos2Z.opp_pos, Z.mul_opp_l, <-(to_pos_scale v j) by lia.
    by apply round_exact; [| |apply to_pos_scale].
Qed.

(** The mantissa of [fint s v] aligned to a smaller exponent. *)
Lemma align_fint v j :
  digits v ≤ 53 → 53 - digits v ≤ j →
  Zpos (fst (shl_align (Z.to_pos (Zpos v * 2 ^ (53 - digits v))) (digits v - 53) (- j)))
  = Zpos v * 2 ^ j.
Proof.
  intros Hd Hj. unfold shl_align.
  destruct (- j - (digits v - 53)) as [|k|k] eqn:E; [| lia |]; cbn [fst].
  - rewrite to_pos_scale by lia. f_equal. f_equal. lia.
  - rewrite iter_xO, to_pos_scale, <-Z.mul_assoc, <-Z.pow_add_r by lia.
    f_equal. f_equal. lia.
Qed.

(** Integers below 2^53 in sign and magnitude. *)
Lemma of_int_cases z :
  exact z → (z = 0 ∧ of_int z = fzero) ∨
  ∃ s v, z = cond_Zopp s (Zpos v) ∧ digits v ≤ 53 ∧ of_int z = fint s v.
Proof.
  unfold exact. intros Hz. destruct z as [|v|v]; [by left| |]; right.
  - exists false, v. rewrite of_int_pos by lia. split_and!; [done| |done]. apply digits_lt; lia.
  - exists true, v. rewrite of_int_neg by lia. split_and!; [done| |done]. apply digits_lt; lia.
Qed.

Lemma min_exponent u v :
  digits u ≤ 53 → digits v ≤ 53 →
  ∃ j, Z.min (digits u - 53) (digits v - 53) = - j ∧ 53 - digits u ≤ j ∧ 53 - digits v ≤ j.
Proof. exists (Z.max (53 - digits u) (53 - digits v)). lia. Qed.

Lemma fadd_exact a b :
  exact a → exact b → exact (a + b) → fadd (of_int a) (of_int b) = of_int (a + b).
Proof.
  intros Ha Hb Hab.
  destruct (of_int_cases a Ha) as [[-> ->]|(s & u & Ea & Hu & ->)].
  { destruct (of_int_cases b Hb) as [[-> ->]|(t & v & Eb & Hv & H)]; [done|].
    rewrite Z.add_0_l, H. done. }
  destruct (of_int_cases b Hb) as [[-> ->]|(t & v & Eb & Hv & ->)].
  { rewrite Z.add_0_r. destruct (of_int_cases a Ha) as [[-> ?]|(s' & u' & -> & _ & ->)].
    - by destruct s.
    - by destruct s, s'; simplify_eq/=. }
  destruct (min_exponent u v Hu Hv) as (j & Hj & Hju & Hjv).
  unfold fadd, SFadd, fint. rewrite Hj, !align_fint by lia.
  apply normalize_exact; [done|lia|]. subst. destruct s, t; simpl; lia.
Qed.

Lemma fsub_exact a b :
  exact a → exact b → exact (a - b) → fsub (of_int a) (of_int b) = of_int (a - b).
Proof.
  intros Ha Hb Hab.
  destruct (of_int_cases a Ha) as [[-> ->]|(s & u & Ea & Hu & ->)].
  { destruct (of_int_cases b Hb) as [[-> ->]|(t & v & -> & Hv & ->)]; [done|].
    assert (digits v ≤ 53 → Zpos v < 2 ^ 53).
    { intros. pose proof (digits_bound v) as (_ & _ & ?).
      eapply Z.lt_le_trans; [done|]. apply Z.pow_le_mono_r; lia. }
    destruct t.
    - change (0 - cond_Zopp true (Zpos v)) with (Zpos v). by rewrite of_int_pos by auto.
    - change (0 - cond_Zopp false (Zpos v)) with (Zneg v). by rewrite of_int_neg by auto. }
  destruct (of_int_cases b Hb) as [[-> ->]|(t & v & Eb & Hv & ->)].
  { rewrite Z.sub_0_r. destruct (of_int_cases a Ha) as [[-> ?]|(s' & u' & -> & _ & ->)].
    - by destruct s.
    - by destruct s, s'; simplify_eq/=. }
  destruct (min_exponent u v Hu Hv) as (j & Hj & Hju & Hjv).
  unfold fsub, SFsub, fint. rewrite Hj, !align_fint by lia.
  apply normalize_exact; [done|lia|]. subst. destruct s, t; simpl; lia.
Qed.

(** Products are exact up to the sign of zero; here both factors are not negative. *)
Lemma fmul_exact a b :
  0 ≤ a → 0 ≤ b → exact a → exact b → exact (a * b) →
  fmul (of_int a) (of_int b) = of_int (a * b).
Proof.
  intros Ha0 Hb0 Ha Hb Hab.
  destruct (of_int_cases a Ha) as [[-> ->]|(s & u & Ea & Hu & ->)].
  { destruct (of_int_cases b Hb) as [[-> ->]|([] & v & Eb & Hv & ->)]; simpl in *; done || lia. }
  destruct (of_int_cases b Hb) as [[-> ->]|(t & v & Eb & Hv & ->)].
  { destruct s; simpl in *; [lia|]. by rewrite Z.mul_0_r. }
  destruct s, t; simpl in *; try lia. subst.
  unfold exact in Hab. rewrite <-Pos2Z.inj_mul in *.
  rewrite of_int_pos by lia. unfold fmul, SFmul, fint. cbn [xorb].
  pose proof (digits_bound u) as (Hu1 & Hu2 & Hu3). pose proof (digits_bound v) as (Hv1 & Hv2 & Hv3).
  assert (Hduv : digits u + digits v - 1 ≤ digits (u * v)).
  { pose proof (digits_bound (u * v)) as (_ & _ & H).
    enough (digits u - 1 + (digits v - 1) < digits (u * v)) by lia.
    apply (Z.pow_lt_mono_r_iff 2); [lia|pose proof (digits_bound (u * v)); lia|].
    rewrite Z.pow_add_r by lia. nia. }
  replace (digits u - 53 + (digits v - 53)) with (- (53 - digits u + (53 - digits v))) by lia.
  apply round_aux_exact.
  - apply digits_lt; lia.
  - lia.
  - rewrite Pos2Z.inj_mul, !to_pos_scale, Pos2Z.inj_mul, Z.pow_add_r by lia. lia.
Qed.

(** Comparison of integers below 2^53 is comparison of the floats. *)
Lemma fcompare_exact a b :
  exact a → exact b → SFcompare (of_int a) (of_int b) = Some (a ?= b).
Proof.
  intros Ha Hb.
  assert (Hpos : ∀ u v, digits u ≤ 53 → digits v ≤ 53 →
    match digits u - 53 ?= digits v - 53 with
    | Eq => (Z.to_pos (Zpos u * 2 ^ (53 - digits u)) ?= Z.to_pos (Zpos v * 2 ^ (53 - digits v)))%positive
    | c => c end = (u ?= v)%positive).
  { intros u v Hu Hv.
    pose proof (digits_bound u) as (? & ? & ?). pose proof (digits_bound v) as (? & ? & ?).
    destruct (Z.compare_spec (digits u - 53) (digits v - 53)) as [E|E|E].
    - replace (digits v) with (digits u) by lia.
      change (?x ?= ?y)%positive with (Zpos x ?= Zpos y). rewrite !to_pos_scale by lia.
      rewrite <-(Zmult_compare_compat_r _ _ (2 ^ (53 - digits u))); [done|]. lia.
    - symmetry. apply Pos.compare_lt_iff.
      enough (2 ^ digits u ≤ 2 ^ (digits v - 1)) by lia. apply Z.pow_le_mono_r; lia.
    - symmetry. apply Pos.compare_gt_iff.
      enough (2 ^ digits v ≤ 2 ^ (digits u - 1)) by lia. apply Z.pow_le_mono_r; lia. }
  destruct (of_int_cases a Ha) as [[-> ->]|(s & u & -> & Hu & ->)];
    destruct (of_int_cases b Hb) as [[-> ->]|(t & v & -> & Hv & ->)].
  - done.
  - by destruct t.
  - by destruct s.
  - specialize (Hpos u v Hu Hv). simpl.
    change (Pos.compare_cont Eq ?x ?y) with (Pos.compare x y).
    destruct s, t; simpl; try done.
    + rewrite <-Pos.compare_antisym in *. f_equal. rewrite Pos.compare_antisym, <-Hpos.
      by destruct (_ ?= _).
    + by rewrite <-Hpos.
Qed.

Lemma fltb_exact a b : exact a → exact b → fltb (of_int a) (of_int b) = (a <? b).
Proof. intros. unfold fltb, SFltb, Z.ltb. by rewrite fcompare_exact. Qed.

Lemma fleb_exact a b : exact a → exact b → fleb (of_int a) (of_int b) = (a <=? b).
Proof. intros. unfold fleb, SFleb, Z.leb. rewrite fcompare_exact by done. by destruct (a ?= b). Qed.
