(* ===== verification/Types.v ===== *)
(** * Shared types and the zone state machine

    [internal/types] (identifiers, sentinel errors, status enumerations and
    the zone transition table), and [internal/game/zone] (the zone record,
    its ownership operations and the grid neighbourhood).

    Identifiers are Go strings, i.e. byte strings.  A status is a Go [int]
    with named values, so it is a [Z] here and the default branches of the
    [switch] statements are reachable. *)

From S2P Require Import Prelude GoFloat.
From stdpp Require Import base tactics list gmap strings pretty.
From Stdlib Require Import ZArith Lia.

Local Open Scope Z_scope.

Abbreviation EntityID := string (only parsing).
Abbreviation ZoneID := string (only parsing).
Abbreviation RuntimeID := string (only parsing).
Abbreviation ServerID := string (only parsing).
Abbreviation PlayerID := string (only parsing).
Abbreviation OwnerID := string (only parsing).

(** [fmt.Sprintf("%d", n)]. *)
Definition itoa (n : Z) : string := pretty n.

(** ** Errors *)

Inductive error :=
| ErrNotFound
| ErrConflict
| ErrInvalidArg
| ErrNotOwned
| ErrNotEmpty
| ErrNoCapacity
| Wrapped (text : string) (cause : error)
| Other (text : string).

#[export] Instance error_eq_dec : EqDecision error.
Proof. solve_decision. Defined.

(** [errors.Is(err, target)] for a sentinel target. *)
Fixpoint errors_is (e target : error) : bool :=
  bool_decide (e = target) ||
  match e with Wrapped _ c => errors_is c target | _ => false end.

Definition NewZoneID (runtimeID : RuntimeID) (gridX gridY : Z) : ZoneID :=
  runtimeID +:+ ":" +:+ itoa gridX +:+ ":" +:+ itoa gridY.

Definition NewOwnerID (p : PlayerID) : OwnerID := p.

Record Vector3 := mkVector3 { X : float64; Y : float64; Z_ : float64 }.
Record Rotation := mkRotation { RX : float64; RY : float64; RZ : float64; RW : float64 }.

Definition eta_Vector3 (v : Vector3) := mkVector3 (X v) (Y v) (Z_ v).
#[export] Instance set_X : Setter X. Proof. solve_setter eta_Vector3. Defined.
#[export] Instance set_Y : Setter Y. Proof. solve_setter eta_Vector3. Defined.
#[export] Instance set_Z_ : Setter Z_. Proof. solve_setter eta_Vector3. Defined.

#[export] Instance Vector3_eq_dec : EqDecision Vector3.
Proof. solve_decision. Defined.

Definition zero_vec : Vector3 := mkVector3 fzero fzero fzero.
Definition zero_rot : Rotation := mkRotation fzero fzero fzero fzero.

(** Go's [==] on [Vector3] values, fieldwise on floats. *)
Definition vec_eqb (u v : Vector3) : bool :=
  feqb (X u) (X v) && feqb (Y u) (Y v) && feqb (Z_ u) (Z_ v).

(** ** Status enumerations *)

Definition RuntimeStatusCreating : Z := 0.
Definition RuntimeStatusActive : Z := 1.
Definition RuntimeStatusDraining : Z := 2.
Definition RuntimeStatusDestroyed : Z := 3.

Definition RuntimeStatus_String (s : Z) : string :=
  if s =? RuntimeStatusCreating then "creating"
  else if s =? RuntimeStatusActive then "active"
  else if s =? RuntimeStatusDraining then "draining"
  else if s =? RuntimeStatusDestroyed then "destroyed"
  else "RuntimeStatus(" +:+ itoa s +:+ ")".

Definition ZoneStatusUnowned : Z := 0.
Definition ZoneStatusActive : Z := 1.
Definition ZoneStatusTransferring : Z := 2.
Definition ZoneStatusOrphan : Z := 3.

Definition ZoneStatus_String (s : Z) : string :=
  if s =? ZoneStatusUnowned then "unowned"
  else if s =? ZoneStatusActive then "active"
  else if s =? ZoneStatusTransferring then "transferring"
  else if s =? ZoneStatusOrphan then "orphan"
  else "ZoneStatus(" +:+ itoa s +:+ ")".

Definition ZoneStatus_Valid (s : Z) : bool :=
  (ZoneStatusUnowned <=? s) && (s <=? ZoneStatusOrphan).

(** The [transitions] map of [ValidTransition]. *)
Definition transitions (s : Z) : option (list Z) :=
  if s =? ZoneStatusUnowned then Some [ZoneStatusActive]
  else if s =? ZoneStatusActive then Some [ZoneStatusTransferring; ZoneStatusUnowned]
  else if s =? ZoneStatusTransferring then Some [ZoneStatusActive; ZoneStatusOrphan]
  else if s =? ZoneStatusOrphan then Some [ZoneStatusActive; ZoneStatusUnowned]
  else None.

Definition ZoneStatus_ValidTransition (s to : Z) : bool :=
  match transitions s with
  | None => false
  | Some next => existsb (λ n, n =? to) next
  end.

Definition ServerStatusJoining : Z := 0.
Definition ServerStatusActive : Z := 1.
Definition ServerStatusDraining : Z := 2.
Definition ServerStatusShutdown : Z := 3.

Definition ServerStatus_String (s : Z) : string :=
  if s =? ServerStatusJoining then "joining"
  else if s =? ServerStatusActive then "active"
  else if s =? ServerStatusDraining then "draining"
  else if s =? ServerStatusShutdown then "shutdown"
  else "ServerStatus(" +:+ itoa s +:+ ")".

(** ** Zones *)

Module Zone.

Record GridCoord := mkGridCoord { GX : Z; GY : Z }.
#[export] Instance GridCoord_eq_dec : EqDecision GridCoord.
Proof. solve_decision. Defined.

Record Zone := mkZone {
  ID : ZoneID;
  zRuntimeID : RuntimeID;
  Grid : GridCoord;
  Size : float64;
  Status : Z;
  zServerID : ServerID
}.

Definition eta_Zone (z : Zone) :=
  mkZone (ID z) (zRuntimeID z) (Grid z) (Size z) (Status z) (zServerID z).
#[export] Instance set_Status : Setter Status. Proof. solve_setter eta_Zone. Defined.
#[export] Instance set_zServerID : Setter zServerID. Proof. solve_setter eta_Zone. Defined.

Definition New (id : ZoneID) (runtimeID : RuntimeID) (gridX gridY : Z) (size : float64) : Zone :=
  mkZone id runtimeID (mkGridCoord gridX gridY) size ZoneStatusUnowned "".

(** [fmt.Errorf("<verb> zone %s: %w (current=%s)", z.ID, cause, z.Status)]. *)
Definition zone_error (verb : string) (z : Zone) (cause : error) : error :=
  Wrapped (verb +:+ " zone " +:+ ID z +:+ " (current=" +:+ ZoneStatus_String (Status z) +:+ ")") cause.

Definition Claim (serverID : ServerID) (z : Zone) : result error Zone :=
  if negb (ZoneStatus_ValidTransition (Status z) ZoneStatusActive)
  then Err (zone_error "claim" z ErrConflict)
  else Ok (z <| Status := ZoneStatusActive |> <| zServerID := serverID |>).

Definition Release (z : Zone) : result error Zone :=
  if negb (Status z =? ZoneStatusActive) && negb (Status z =? ZoneStatusOrphan)
  then Err (zone_error "release" z ErrInvalidArg)
  else Ok (z <| Status := ZoneStatusUnowned |> <| zServerID := "" |>).

Definition BeginTransfer (z : Zone) : result error Zone :=
  if negb (ZoneStatus_ValidTransition (Status z) ZoneStatusTransferring)
  then Err (zone_error "transfer" z ErrConflict)
  else Ok (z <| Status := ZoneStatusTransferring |>).

Definition CompleteTransfer (serverID : ServerID) (z : Zone) : result error Zone :=
  if negb (Status z =? ZoneStatusTransferring)
  then Err (zone_error "complete transfer" z ErrInvalidArg)
  else Ok (z <| Status := ZoneStatusActive |> <| zServerID := serverID |>).

Definition MarkOrphan (z : Zone) : Zone := z <| Status := ZoneStatusOrphan |>.

Definition IsOwnedBy (serverID : ServerID) (z : Zone) : bool :=
  (Status z =? ZoneStatusActive) && bool_decide (zServerID z = serverID).

(** [for x := lo; x <= hi; x++] over 64-bit integers (the loop does not end
    when [hi] is the maximal integer; the statements below exclude that). *)
Definition int_range (lo hi : Z) : list Z := seqZ lo (hi - lo + 1).

Definition AdjacentZones (center : GridCoord) (radius : Z) : list GridCoord :=
  x ← int_range (wrap64 (GX center - radius)) (wrap64 (GX center + radius));
  y ← int_range (wrap64 (GY center - radius)) (wrap64 (GY center + radius));
  [mkGridCoord x y].

(** One operation of the zone API that succeeds. *)
Inductive step : Zone → Zone → Prop :=
| step_claim sid z z' : Claim sid z = Ok z' → step z z'
| step_release z z' : Release z = Ok z' → step z z'
| step_begin z z' : BeginTransfer z = Ok z' → step z z'
| step_complete sid z z' : CompleteTransfer sid z = Ok z' → step z z'
| step_orphan z : step z (MarkOrphan z).

Lemma elem_of_int_range lo hi x : x ∈ int_range lo hi ↔ lo ≤ x ≤ hi.
Proof. unfold int_range. rewrite elem_of_seqZ. lia. Qed.

Lemma NoDup_int_range lo hi : NoDup (int_range lo hi).
Proof. apply NoDup_seqZ. Qed.

Lemma length_int_range lo hi : length (int_range lo hi) = Z.to_nat (hi - lo + 1).
Proof. apply length_seqZ. Qed.

(** What every history of a zone record satisfies: identity fields never
    change, the status stays in the enumeration, and an unowned zone names
    no server. *)
Definition zone_inv (z0 z : Zone) : Prop :=
  ID z = ID z0 ∧ zRuntimeID z = zRuntimeID z0 ∧ Grid z = Grid z0 ∧ Size z = Size z0 ∧
  ZoneStatus_Valid (Status z) = true ∧
  (Status z = ZoneStatusUnowned → zServerID z = "").

Ltac zone_cases :=
  unfold Claim, Release, BeginTransfer, CompleteTransfer, MarkOrphan, IsOwnedBy,
    ZoneStatus_ValidTransition, transitions in *;
  unfold ZoneStatusUnowned, ZoneStatusActive, ZoneStatusTransferring, ZoneStatusOrphan in *;
  repeat match goal with
    | |- context [?a =? ?b] => destruct (Z.eqb_spec a b)
    | H : context [?a =? ?b] |- _ => destruct (Z.eqb_spec a b)
    end; simpl in *; simplify_eq/=.

Lemma step_inv z0 z z' : zone_inv z0 z → step z z' → zone_inv z0 z'.
Proof.
  unfold zone_inv. intros (?&?&?&?&?&?) Hs.
  destruct Hs; zone_cases; split_and!; done.
Qed.

(** C39. Starting from [New], whatever sequence of operations a zone goes
    through, its identity (ID, runtime, grid, size) is unchanged, its status
    is one of the four declared values, an unowned zone records no server,
    and each operation except [MarkOrphan] moves along an edge of the
    transition table of [ValidTransition]. *)
Theorem zone_history (id : ZoneID) (rid : RuntimeID) (gx gy : Z) (size : float64) (z z' : Zone) :
  rtc step (New id rid gx gy size) z → step z z' →
  zone_inv (New id rid gx gy size) z' ∧
  (ZoneStatus_ValidTransition (Status z) (Status z') = true ∨ z' = MarkOrphan z).
Proof.
  intros Hr Hs. split.
  - assert (zone_inv (New id rid gx gy size) z); [|by eapply step_inv].
    eapply (rtc_ind_r (λ w, zone_inv (New id rid gx gy size) w)); [|intros; by eapply step_inv|done].
    done.
  - destruct Hs; zone_cases; auto; lia.
Qed.

Lemma zone_history_witness :
  let z0 := New "z" "r" 0 0 fzero in
  let z1 := z0 <| Status := ZoneStatusActive |> <| zServerID := "s" |> in
  let z2 := z1 <| Status := ZoneStatusTransferring |> in
  zone_inv z0 z2 ∧
  (ZoneStatus_ValidTransition (Status z1) (Status z2) = true ∨ z2 = MarkOrphan z1).
Proof.
  intros z0 z1 z2. apply (zone_history "z" "r" 0 0 fzero z1 z2).
  - apply rtc_once. by apply (step_claim "s").
  - by apply step_begin.
Defined.

(** Exclusive ownership: while a zone is owned ([IsOwnedBy] holds for
    some server) every [Claim] fails with an error wrapping [ErrConflict];
    on any other declared status [Claim] succeeds and makes exactly the
    claiming server the owner. *)
Theorem claim_exclusive (z : Zone) (s t : ServerID) :
  ZoneStatus_Valid (Status z) = true →
  if IsOwnedBy (zServerID z) z
  then ∃ e, Claim t z = Err e ∧ errors_is e ErrConflict = true
  else ∃ z', Claim t z = Ok z' ∧ (IsOwnedBy s z' = true ↔ s = t).
Proof.
  unfold ZoneStatus_Valid, ZoneStatusUnowned, ZoneStatusOrphan. intros Hv.
  assert (IsOwnedBy (zServerID z) z = (Status z =? ZoneStatusActive)) as ->.
  { unfold IsOwnedBy. rewrite bool_decide_eq_true_2 by done. apply andb_true_r. }
  assert (Status z = 0 ∨ Status z = 1 ∨ Status z = 2 ∨ Status z = 3) as Hst by lia.
  unfold Claim. destruct Hst as [E|[E|[E|E]]]; rewrite E; cbn;
    (eexists; split; [done|]); unfold IsOwnedBy; cbn;
    rewrite ?bool_decide_eq_true; done.
Qed.

Lemma claim_exclusive_witness :
  ∃ z', Claim "b" (New "z" "r" 0 0 fzero) = Ok z' ∧ (IsOwnedBy "a" z' = true ↔ "a" = "b").
Proof. exact (claim_exclusive (New "z" "r" 0 0 fzero) "a" "b" eq_refl). Defined.

(** [AdjacentZones center r] lists, without repetition, exactly the
    [(2r+1)^2] cells at Chebyshev distance at most [r], as long as the
    neighbourhood lies inside the 64-bit range. *)
Theorem adjacent_zones_spec (c : GridCoord) (r : Z) :
  0 ≤ r →
  min_int64 ≤ GX c - r → GX c + r ≤ max_int64 →
  min_int64 ≤ GY c - r → GY c + r ≤ max_int64 →
  NoDup (AdjacentZones c r) ∧
  length (AdjacentZones c r) = (Z.to_nat (2 * r + 1) * Z.to_nat (2 * r + 1))%nat ∧
  (∀ g, g ∈ AdjacentZones c r ↔ Z.abs (GX g - GX c) ≤ r ∧ Z.abs (GY g - GY c) ≤ r).
Proof.
  unfold AdjacentZones, min_int64, max_int64. intros ?????.
  rewrite !wrap64_id by (unfold in_int64; lia).
  split_and!.
  - apply NoDup_grid; [by intros ???? [= -> ->]|apply NoDup_int_range..].
  - rewrite (length_bind_const _ _ (Z.to_nat (2 * r + 1))).
    + rewrite length_int_range. f_equal. lia.
    + intros x. rewrite (length_bind_const _ _ 1), length_int_range; [lia|done].
  - intros [gx gy]. rewrite elem_of_grid. setoid_rewrite elem_of_int_range.
    split; [|exists gx, gy; simpl in *; split_and!; done || lia].
    intros (x & y & [= -> ->] & ? & ?). simpl. lia.
Qed.

Lemma adjacent_zones_spec_witness :
  length (AdjacentZones (mkGridCoord 5 (-2)) 1) = 9%nat ∧
  (∀ g, g ∈ AdjacentZones (mkGridCoord 5 (-2)) 1 ↔
        Z.abs (GX g - 5) ≤ 1 ∧ Z.abs (GY g - (-2)) ≤ 1).
Proof.
  apply (adjacent_zones_spec (mkGridCoord 5 (-2)) 1); unfold min_int64, max_int64; simpl; lia.
Defined.

End Zone.
