(* ===== verification/Protocol.v ===== *)
(** * The binary packet protocol

    [pkg/protocol]: an 8-byte big-endian header (version, packet id, flags,
    sequence number) followed by a payload that is gzip-compressed when that
    is requested, worthwhile and shorter.

    The DEFLATE codec of [compress/gzip] is a parameter: a compressor, which
    may fail to start, and a decompressor, which may reject its input when
    the stream is opened or while it is read.  The only law used is that
    decompression undoes compression. *)

From S2P Require Import Prelude Types.
From stdpp Require Import base tactics list numbers strings.
From Stdlib Require Import ZArith Lia.
From Stdlib.Strings Require Import Byte.

Local Open Scope Z_scope.

(** ** Bytes and big-endian words *)

#[export] Instance byte_eq_dec : EqDecision byte := Byte.byte_eq_dec.

Definition byte_of_Z (z : Z) : byte := default x00 (Byte.of_N (Z.to_N (z `mod` 256))).
Definition Z_of_byte (b : byte) : Z := Z.of_N (Byte.to_N b).

(** [binary.BigEndian.PutUint16] and [Uint16]. *)
Definition put_uint16 (v : Z) : list byte :=
  [byte_of_Z (Z.shiftr v 8); byte_of_Z v].
Definition get_uint16 (b0 b1 : byte) : Z :=
  Z.lor (Z_of_byte b1) (Z.shiftl (Z_of_byte b0) 8).

(** [binary.BigEndian.PutUint32] and [Uint32]. *)
Definition put_uint32 (v : Z) : list byte :=
  [byte_of_Z (Z.shiftr v 24); byte_of_Z (Z.shiftr v 16); byte_of_Z (Z.shiftr v 8); byte_of_Z v].
Definition get_uint32 (b0 b1 b2 b3 : byte) : Z :=
  Z.lor (Z_of_byte b3) (Z.lor (Z.shiftl (Z_of_byte b2) 8)
    (Z.lor (Z.shiftl (Z_of_byte b1) 16) (Z.shiftl (Z_of_byte b0) 24))).

(** ** The codec interface *)

Class Gzip := {
  gzip_compress : list byte → option (list byte);
  gzip_open : list byte → option error;
  gzip_read_all : list byte → result error (list byte)
}.

Class GzipLaws (G : Gzip) : Prop := {
  gzip_roundtrip : ∀ p z,
    gzip_compress p = Some z → gzip_open z = None ∧ gzip_read_all z = Ok p
}.

(** ** Packets *)

Definition headerSize : nat := 8.
Definition ProtocolVersionV1 : byte := x01.
Definition compressionFlag : Z := 1.
Definition compressMinSize : nat := 128.

Definition PacketIDInvalid : Z := 0.
Definition PacketIDPositionUpdate : Z := 3.
Definition PacketIDEntitySpawn : Z := 4.
Definition PacketIDEntityDespawn : Z := 5.
Definition PacketIDEntityMove : Z := 6.
Definition PacketIDEntityAction : Z := 7.
Definition PacketIDEntityState : Z := 8.
Definition PacketIDHeartbeat : Z := 255.

Definition ErrUnsupportedVersion : error := Other "unsupported protocol version".

Section packet.
Context `{G : Gzip}.

(** The payload bytes that go on the wire, and whether they are compressed. *)
Definition encode_payload (payload : list byte) (compress : bool) : list byte * bool :=
  if compress && (compressMinSize <? length payload)%nat then
    match gzip_compress payload with
    | Some buf => if (length buf <? length payload)%nat then (buf, true) else (payload, false)
    | None => (payload, false)
    end
  else (payload, false).

Definition Encode (id : Z) (payload : list byte) (compress : bool) (seq : Z) : list byte :=
  let '(data, compressed) := encode_payload payload compress in
  let flags := if compressed : bool then Z.lor 0 compressionFlag else 0 in
  ProtocolVersionV1 :: put_uint16 id ++ [byte_of_Z flags] ++ put_uint32 seq ++ data.

(** What [Decode] returns: version, packet id, payload, whether it was
    compressed, sequence number, error. *)
Definition Decode (packet : list byte) : byte * Z * list byte * bool * Z * option error :=
  match packet with
  | version :: b1 :: b2 :: b3 :: b4 :: b5 :: b6 :: b7 :: data =>
      if negb (Byte.eqb version ProtocolVersionV1)
      then (version, PacketIDInvalid, [], false, 0, Some ErrUnsupportedVersion)
      else
        let id := get_uint16 b1 b2 in
        let flags := Z_of_byte b3 in
        let seq := get_uint32 b4 b5 b6 b7 in
        let compressed := negb (Z.land flags compressionFlag =? 0) in
        if compressed then
          match gzip_open data with
          | Some e => (version, PacketIDInvalid, [], false, 0, Some (Wrapped "gzip reader" e))
          | None =>
              match gzip_read_all data with
              | Err e => (version, PacketIDInvalid, [], false, 0, Some (Wrapped "gzip decompress" e))
              | Ok data' => (version, id, data', compressed, seq, None)
              end
          end
        else (version, id, data, compressed, seq, None)
  | _ => (x00, PacketIDInvalid, [], false, 0,
          Some (Other ("packet too short: " +:+ itoa (Z.of_nat (length packet)) +:+ " bytes")))
  end.

End packet.

(** ** Lemmas on bytes and words *)

Lemma Z_of_byte_range b : 0 ≤ Z_of_byte b < 256.
Proof. unfold Z_of_byte. pose proof (Byte.to_N_bounded b). lia. Qed.

Lemma Z_of_byte_of_Z z : Z_of_byte (byte_of_Z z) = z `mod` 256.
Proof.
  unfold Z_of_byte, byte_of_Z.
  pose proof (Z.mod_pos_bound z 256 ltac:(lia)) as Hm.
  destruct (Byte.of_N (Z.to_N (z `mod` 256))) as [b|] eqn:E; simpl.
  - apply Byte.to_of_N in E. rewrite E. lia.
  - apply Byte.of_N_None_iff in E. lia.
Qed.

Lemma byte_of_Z_of_byte b : byte_of_Z (Z_of_byte b) = b.
Proof.
  unfold byte_of_Z. rewrite Z.mod_small by apply Z_of_byte_range.
  unfold Z_of_byte. by rewrite N2Z.id, Byte.of_to_N.
Qed.

(** Pasting a value above [n] bits. *)
Lemma lor_shiftl_add a b n : 0 ≤ n → 0 ≤ a < 2 ^ n → Z.lor a (Z.shiftl b n) = a + b * 2 ^ n.
Proof.
  intros Hn Ha. rewrite <-Z.shiftl_mul_pow2 by done.
  symmetry. apply Z.add_nocarry_lor. apply Z.bits_inj'. intros i Hi.
  rewrite Z.land_spec, Z.bits_0, Z.shiftl_spec by done.
  destruct (decide (i < n)).
  - rewrite (Z.testbit_neg_r b) by lia. apply andb_false_r.
  - rewrite <-(Z.mod_small a (2 ^ n)), Z.mod_pow2_bits_high by lia. done.
Qed.

Lemma get_uint16_sum b0 b1 : get_uint16 b0 b1 = Z_of_byte b1 + Z_of_byte b0 * 256.
Proof. apply lor_shiftl_add; [lia|]. apply Z_of_byte_range. Qed.

Lemma get_uint32_sum b0 b1 b2 b3 :
  get_uint32 b0 b1 b2 b3 =
  Z_of_byte b3 + (Z_of_byte b2 + (Z_of_byte b1 + Z_of_byte b0 * 256) * 256) * 256.
Proof.
  unfold get_uint32.
  replace (Z.lor (Z.shiftl (Z_of_byte b2) 8) _) with
    (Z.shiftl (Z.lor (Z_of_byte b2) (Z.shiftl (Z.lor (Z_of_byte b1) (Z.shiftl (Z_of_byte b0) 8)) 8)) 8).
  2:{ rewrite !Z.shiftl_lor, !Z.shiftl_shiftl by lia. done. }
  by rewrite !lor_shiftl_add by (lia || apply Z_of_byte_range).
Qed.

Lemma uint16_roundtrip v :
  0 ≤ v < 2 ^ 16 → get_uint16 (byte_of_Z (Z.shiftr v 8)) (byte_of_Z v) = v.
Proof.
  intros Hv. rewrite get_uint16_sum, !Z_of_byte_of_Z, Z.shiftr_div_pow2 by lia.
  Z.to_euclidean_division_equations. lia.
Qed.

Lemma uint32_roundtrip v :
  0 ≤ v < 2 ^ 32 →
  get_uint32 (byte_of_Z (Z.shiftr v 24)) (byte_of_Z (Z.shiftr v 16))
    (byte_of_Z (Z.shiftr v 8)) (byte_of_Z v) = v.
Proof.
  intros Hv. rewrite get_uint32_sum, !Z_of_byte_of_Z, !Z.shiftr_div_pow2 by lia.
  change (2 ^ 24) with 16777216. change (2 ^ 16) with 65536. change (2 ^ 8) with 256.
  Z.to_euclidean_division_equations. lia.
Qed.

Lemma byte_of_Z_eq z b : z `mod` 256 = Z_of_byte b → byte_of_Z z = b.
Proof. intros H. rewrite <-(byte_of_Z_of_byte b), <-H. unfold byte_of_Z. by rewrite Z.mod_mod. Qed.

Lemma uint16_surjective b0 b1 : put_uint16 (get_uint16 b0 b1) = [b0; b1].
Proof.
  pose proof (Z_of_byte_range b0). pose proof (Z_of_byte_range b1).
  unfold put_uint16. rewrite get_uint16_sum, Z.shiftr_div_pow2 by lia.
  change (2 ^ 8) with 256.
  repeat f_equal; apply byte_of_Z_eq; Z.to_euclidean_division_equations; lia.
Qed.

Lemma uint32_surjective b0 b1 b2 b3 : put_uint32 (get_uint32 b0 b1 b2 b3) = [b0; b1; b2; b3].
Proof.
  pose proof (Z_of_byte_range b0). pose proof (Z_of_byte_range b1).
  pose proof (Z_of_byte_range b2). pose proof (Z_of_byte_range b3).
  unfold put_uint32. rewrite get_uint32_sum, !Z.shiftr_div_pow2 by lia.
  change (2 ^ 24) with 16777216. change (2 ^ 16) with 65536. change (2 ^ 8) with 256.
  repeat f_equal; apply byte_of_Z_eq; Z.to_euclidean_division_equations; lia.
Qed.

(** ** Properties of the packet codec *)

Section properties.
Context `{G : Gzip}.

Lemma encode_payload_cases p c :
  encode_payload p c = (p, false) ∨
  ∃ z, c = true ∧ gzip_compress p = Some z ∧ (length z < length p)%nat ∧
       encode_payload p c = (z, true).
Proof.
  unfold encode_payload.
  destruct c, (compressMinSize <? length p)%nat; simpl; auto.
  destruct (gzip_compress p) as [z|] eqn:E; [|auto].
  destruct (Nat.ltb_spec (length z) (length p)); [right; by exists z|auto].
Qed.

(** A packet sent without compression. *)
Lemma Decode_Encode_plain (id seq : Z) (payload : list byte) :
  0 ≤ id < 2 ^ 16 → 0 ≤ seq < 2 ^ 32 →
  Decode (Encode id payload false seq) = (ProtocolVersionV1, id, payload, false, seq, None).
Proof.
  intros Hid Hseq. unfold Encode, encode_payload. cbn [andb snd app put_uint16 put_uint32]. unfold Decode.
  change (negb (Byte.eqb ProtocolVersionV1 ProtocolVersionV1)) with false.
  change (Z.land (Z_of_byte (byte_of_Z 0)) compressionFlag =? 0) with true. cbn [negb].
  by rewrite uint16_roundtrip, uint32_roundtrip.
Qed.

(** C11. Round trip: decoding an encoded packet gives back the version, the
    packet id, the sequence number and the original payload, with no error,
    whether or not the payload was compressed, and the compression flag
    reports which of the two happened. *)
Theorem packet_roundtrip `{!GzipLaws G} (id seq : Z) (payload : list byte) (compress : bool) :
  0 ≤ id < 2 ^ 16 → 0 ≤ seq < 2 ^ 32 →
  Decode (Encode id payload compress seq) =
    (ProtocolVersionV1, id, payload, snd (encode_payload payload compress), seq, None).
Proof.
  intros Hid Hseq. unfold Encode.
  destruct (encode_payload_cases payload compress) as [->|(z & _ & Hz & _ & ->)];
    cbn [snd app put_uint16 put_uint32]; unfold Decode.
  - change (negb (Byte.eqb ProtocolVersionV1 ProtocolVersionV1)) with false.
    change (Z.land (Z_of_byte (byte_of_Z 0)) compressionFlag =? 0) with true. cbn [negb].
    by rewrite uint16_roundtrip, uint32_roundtrip.
  - change (negb (Byte.eqb ProtocolVersionV1 ProtocolVersionV1)) with false.
    change (Z.land (Z_of_byte (byte_of_Z (Z.lor 0 compressionFlag))) compressionFlag =? 0) with false.
    cbn [negb]. destruct (gzip_roundtrip payload z Hz) as [-> ->].
    by rewrite uint16_roundtrip, uint32_roundtrip.
Qed.

(** Every byte string is either rejected with one of the four errors of
    [Decode] (too short, wrong version, gzip header, gzip body), and then the
    packet id is [PacketIDInvalid] and no payload is returned, or it is a
    well-formed V1 frame; a frame whose flags byte is zero is exactly the
    encoding of what [Decode] returned. *)
Theorem decode_total (packet : list byte) :
  match Decode packet with
  | (version, id, payload, compressed, seq, Some e) =>
      id = PacketIDInvalid ∧ payload = [] ∧ compressed = false ∧ seq = 0 ∧
      ((length packet < headerSize)%nat ∨ e = ErrUnsupportedVersion ∨
       ∃ c, e = Wrapped "gzip reader" c ∨ e = Wrapped "gzip decompress" c)
  | (version, id, payload, compressed, seq, None) =>
      (headerSize ≤ length packet)%nat ∧ version = ProtocolVersionV1 ∧
      head packet = Some ProtocolVersionV1 ∧ 0 ≤ id < 2 ^ 16 ∧ 0 ≤ seq < 2 ^ 32 ∧
      (packet !! 3%nat = Some x00 → Encode id payload false seq = packet)
  end.
Proof.
  unfold headerSize.
  destruct packet as [|v [|b1 [|b2 [|b3 [|b4 [|b5 [|b6 [|b7 data]]]]]]]]; unfold Decode;
    try (split_and!; try done; left; simpl; lia).
  destruct (Byte.eqb v ProtocolVersionV1) eqn:Ev; cbn [negb].
  2:{ split_and!; auto. }
  apply Byte.byte_dec_bl in Ev as ->.
  assert (Hw : 0 ≤ get_uint16 b1 b2 < 2 ^ 16 ∧ 0 ≤ get_uint32 b4 b5 b6 b7 < 2 ^ 32).
  { rewrite get_uint16_sum, get_uint32_sum.
    pose proof (Z_of_byte_range b1); pose proof (Z_of_byte_range b2);
    pose proof (Z_of_byte_range b4); pose proof (Z_of_byte_range b5);
    pose proof (Z_of_byte_range b6); pose proof (Z_of_byte_range b7). lia. }
  assert (Henc : Encode (get_uint16 b1 b2) data false (get_uint32 b4 b5 b6 b7)
    = ProtocolVersionV1 :: b1 :: b2 :: x00 :: b4 :: b5 :: b6 :: b7 :: data).
  { unfold Encode, encode_payload. cbn [andb].
    by rewrite uint16_surjective, uint32_surjective. }
  destruct (Z.land (Z_of_byte b3) compressionFlag =? 0) eqn:Ef; cbn [negb].
  { split_and!; try done || lia; [simpl; lia|]. simpl. by intros [= ->]. }
  destruct (gzip_open data) as [e|]; [split_and!; eauto 10|].
  destruct (gzip_read_all data) as [p|e]; split_and!; eauto 10; try done || lia; [simpl; lia|].
  simpl. by intros [= ->].
Qed.

(** A packet never grows: the wire form is the 8-byte header plus at
    most the payload's own length, and plainly longer than the payload only
    by that header. *)
Theorem encode_length (id seq : Z) (payload : list byte) (compress : bool) :
  (headerSize ≤ length (Encode id payload compress seq) ≤ headerSize + length payload)%nat ∧
  (compress = false → length (Encode id payload compress seq) = (headerSize + length payload)%nat).
Proof.
  unfold headerSize, Encode.
  destruct (encode_payload_cases payload compress) as [->|(z & -> & _ & Hz & ->)];
    simpl; split; intros; done || lia.
Qed.

End properties.

(** A concrete codec that satisfies the laws: runs of one byte become a
    four-byte record. *)
Definition rle_codec : Gzip := {|
  gzip_compress p :=
    match p with
    | b :: _ => if bool_decide (p = replicate (length p) b ∧ Z.of_nat (length p) < 65536)
                then Some (x01 :: b :: put_uint16 (Z.of_nat (length p))) else Some (x00 :: p)
    | [] => Some [x00]
    end;
  gzip_open z :=
    match z with [] => Some (Other "EOF") | _ => None end;
  gzip_read_all z :=
    match z with
    | x00 :: p => Ok p
    | x01 :: b :: hi :: lo :: [] => Ok (replicate (Z.to_nat (get_uint16 hi lo)) b)
    | _ => Err (Other "gzip: invalid header")
    end
|}.

#[export] Instance rle_codec_laws : GzipLaws rle_codec.
Proof.
  split. intros p z. cbn [gzip_compress gzip_open gzip_read_all rle_codec].
  destruct p as [|b p]; [naive_solver|].
  destruct (bool_decide_reflect (b :: p = replicate (length (b :: p)) b ∧
    Z.of_nat (length (b :: p)) < 65536)) as [[Hb Hl]|]; [|naive_solver].
  intros [= <-]. split; [done|].
  cbn [put_uint16]. cbn [length] in Hl, Hb.
  rewrite uint16_roundtrip by lia. rewrite Nat2Z.id. by rewrite <-Hb.
Qed.

Lemma packet_roundtrip_witness :
  Decode (G := rle_codec) (Encode (G := rle_codec) 8 (replicate 200 x2a) true 7)
  = (x01, 8, replicate 200 x2a, true, 7, None).
Proof.
  exact (packet_roundtrip (G := rle_codec) 8 7 (replicate 200 x2a) true ltac:(lia) ltac:(lia)).
Defined.
