(* ===== verification/Aoi.v ===== *)
(** * Area-of-interest index

    [internal/game/aoi]: a uniform grid of cells, each holding the
    identifiers of the entities in it, next to the exact position of every
    entity.  Operations return the updated index.

    The abstract specification is the finite map from identifiers to
    positions: [aoi_wf] says that the grid is exactly the grouping of that
    map by cell, and the refinement theorem says that a client that enters
    every identifier at most once cannot tell the grid from the map. *)

From S2P Require Import Prelude GoFloat Types Protocol.
From stdpp Require Import base tactics list gmap strings sorting.
From Stdlib Require Import ZArith Lia.

Local Open Scope Z_scope.

Abbreviation cellKey := (Z * Z)%type (only parsing).

Record AOI := mkAOI {
  cellSize : float64;
  radius : float64;
  cellRange : Z;
  cells : gmap (Z * Z) (list EntityID);
  positions : gmap EntityID Vector3
}.

Definition eta_AOI (a : AOI) :=
  mkAOI (cellSize a) (radius a) (cellRange a) (cells a) (positions a).
#[export] Instance set_cells : Setter cells. Proof. solve_setter eta_AOI. Defined.
#[export] Instance set_positions : Setter positions. Proof. solve_setter eta_AOI. Defined.

Definition New (cellSize radius : float64) : AOI :=
  let cellRange := to_int (fceil (fdiv radius cellSize)) in
  mkAOI cellSize radius cellRange ∅ ∅.

Definition cell_key (size : float64) (pos : Vector3) : cellKey :=
  (to_int (ffloor (fdiv (X pos) size)), to_int (ffloor (fdiv (Z_ pos) size))).

Definition cellKeyFor (a : AOI) (pos : Vector3) : cellKey := cell_key (cellSize a) pos.

(** [a.cells[key]]: a missing key reads as the nil slice. *)
Definition cell (a : AOI) (key : cellKey) : list EntityID := default [] (cells a !! key).

Definition Enter (id : EntityID) (pos : Vector3) (a : AOI) : AOI :=
  let key := cellKeyFor a pos in
  a <| cells := <[key := cell a key ++ [id]]> (cells a) |>
    <| positions := <[id := pos]> (positions a) |>.

(** The loop that cuts [id] out of a cell: the cell is written back only
    when the identifier was found. *)
Definition cut (id : EntityID) (key : cellKey) (a : AOI) : AOI :=
  let ids := cell a key in
  if bool_decide (id ∈ ids)
  then a <| cells := <[key := remove_first id ids]> (cells a) |>
  else a.

Definition Leave (id : EntityID) (a : AOI) : AOI :=
  match positions a !! id with
  | None => a
  | Some pos =>
      let a := cut id (cellKeyFor a pos) a in
      a <| positions := delete id (positions a) |>
  end.

Definition Move (id : EntityID) (newPos : Vector3) (a : AOI) : AOI :=
  match positions a !! id with
  | None => Enter id newPos a
  | Some oldPos =>
      let oldKey := cellKeyFor a oldPos in
      let newKey := cellKeyFor a newPos in
      if bool_decide (oldKey = newKey)
      then a <| positions := <[id := newPos]> (positions a) |>
      else
        let a := cut id oldKey a in
        let a := a <| cells := <[newKey := cell a newKey ++ [id]]> (cells a) |> in
        a <| positions := <[id := newPos]> (positions a) |>
  end.

(** The keys visited by the two loops of [Query]. *)
Definition window (range : Z) (center : cellKey) : list cellKey :=
  dx ← Zone.int_range (wrap64 (- range)) range;
  dy ← Zone.int_range (wrap64 (- range)) range;
  [(wrap64 (center.1 + dx), wrap64 (center.2 + dy))].

(** One iteration of the inner loop: [seen] and [result]. *)
Definition visit (st : gset EntityID * list EntityID) (id : EntityID) : gset EntityID * list EntityID :=
  if bool_decide (id ∈ st.1) then st else ({[id]} ∪ st.1, st.2 ++ [id]).

Definition Query (pos : Vector3) (a : AOI) : list EntityID :=
  let ids := window (cellRange a) (cellKeyFor a pos) ≫= cell a in
  sort_strings (foldl visit (∅, []) ids).2.

(** [pos := a.positions[id]] reads the zero vector when [id] is missing. *)
Definition position_of (a : AOI) (id : EntityID) : Vector3 := default zero_vec (positions a !! id).

Definition in_disc (center : Vector3) (radius : float64) (pos : Vector3) : bool :=
  let radiusSq := fmul radius radius in
  let dx := fsub (X pos) (X center) in
  let dz := fsub (Z_ pos) (Z_ center) in
  fleb (fadd (fmul dx dx) (fmul dz dz)) radiusSq.

Definition EntitiesInRange (center : Vector3) (radius : float64) (a : AOI) : list EntityID :=
  List.filter (λ id, in_disc center radius (position_of a id)) (Query center a).

Definition CellCoord (pos : Vector3) (a : AOI) : Z * Z := cellKeyFor a pos.

Definition Count (a : AOI) : nat := size (positions a).

(** ** Serialization

    [encoding/gob] is a parameter: the source encodes one struct and decodes
    it back. *)

Record serializedAOI := mkSerialized {
  sCellSize : float64;
  sRadius : float64;
  sPositions : gmap EntityID Vector3
}.

Class Gob := {
  gob_encode : serializedAOI → list Byte.byte;
  gob_decode : list Byte.byte → option serializedAOI
}.

Class GobLaws (G : Gob) : Prop := {
  gob_roundtrip : ∀ s, gob_decode (gob_encode s) = Some s
}.

Definition Serialize `{Gob} (a : AOI) : list Byte.byte * float64 * float64 :=
  (gob_encode (mkSerialized (cellSize a) (radius a) (positions a)), cellSize a, radius a).

Definition Deserialize `{Gob, RangeOrder} (cellSize radius : float64) (data : list Byte.byte) : AOI :=
  match gob_decode data with
  | None => New cellSize radius
  | Some s =>
      foldl (λ a '(id, pos), Enter id pos a) (New (sCellSize s) (sRadius s))
        (range_list (sPositions s))
  end.

(** ** The grid invariant *)

Definition aoi_wf (a : AOI) : Prop :=
  (∀ k, NoDup (cell a k)) ∧
  (∀ id k, id ∈ cell a k ↔ ∃ p, positions a !! id = Some p ∧ cellKeyFor a p = k).

Lemma cell_insert a k k' l :
  cell (a <| cells := <[k := l]> (cells a) |>) k' = if decide (k = k') then l else cell a k'.
Proof. unfold cell; simpl. rewrite lookup_insert. by case_decide. Qed.

Lemma cell_positions a m k : cell (a <| positions := m |>) k = cell a k.
Proof. done. Qed.

Lemma cell_cut id k k' a :
  cell (cut id k a) k' = if decide (k = k') then remove_first id (cell a k) else cell a k'.
Proof.
  unfold cut. case_bool_decide.
  - apply cell_insert.
  - destruct (decide (k = k')) as [<-|]; [|done]. by rewrite remove_first_notin.
Qed.

Lemma cut_positions id k a : positions (cut id k a) = positions a.
Proof. unfold cut. by case_bool_decide. Qed.

Lemma cut_cellSize id k a : cellSize (cut id k a) = cellSize a.
Proof. unfold cut. by case_bool_decide. Qed.

Lemma cut_radius id k a : radius (cut id k a) = radius a.
Proof. unfold cut. by case_bool_decide. Qed.

Lemma cut_cellRange id k a : cellRange (cut id k a) = cellRange a.
Proof. unfold cut. by case_bool_decide. Qed.

(** Parameters never change. *)
Definition same_params (a b : AOI) : Prop :=
  cellSize a = cellSize b ∧ radius a = radius b ∧ cellRange a = cellRange b.

#[export] Instance same_params_equiv : Equivalence same_params.
Proof. unfold same_params. split; repeat intro; destruct_and?; split_and!; congruence. Qed.

Lemma Enter_params id p a : same_params (Enter id p a) a.
Proof. done. Qed.

Lemma Leave_params id a : same_params (Leave id a) a.
Proof.
  unfold Leave, same_params. destruct (positions a !! id); [|done]. simpl.
  by rewrite cut_cellSize, cut_radius, cut_cellRange.
Qed.

Lemma Move_params id p a : same_params (Move id p a) a.
Proof.
  unfold Move, same_params. destruct (positions a !! id); [|done].
  case_bool_decide; simpl; [done|]. by rewrite cut_cellSize, cut_radius, cut_cellRange.
Qed.

Lemma Enter_positions id p a : positions (Enter id p a) = <[id := p]> (positions a).
Proof. done. Qed.

Lemma Leave_positions id a : positions (Leave id a) = delete id (positions a).
Proof.
  unfold Leave. destruct (positions a !! id) eqn:E; simpl; [by rewrite cut_positions|].
  by rewrite delete_id.
Qed.

Lemma Move_positions id p a : positions (Move id p a) = <[id := p]> (positions a).
Proof.
  unfold Move. destruct (positions a !! id); [|done].
  case_bool_decide; simpl; [done|]. by rewrite cut_positions.
Qed.

#[export] Hint Rewrite Enter_positions Leave_positions Move_positions : spatial.

Lemma New_wf cs r : aoi_wf (New cs r).
Proof.
  split; [intros k; constructor|]. intros id k. split.
  - by intros ?%elem_of_nil.
  - by intros (p & Hp & _).
Qed.

Lemma Enter_wf id p a : aoi_wf a → positions a !! id = None → aoi_wf (Enter id p a).
Proof.
  intros [Hnd Hin] Hid.
  assert (Hfresh : ∀ k, id ∉ cell a k).
  { intros k (q & Hq & _)%Hin. congruence. }
  unfold Enter. split.
  - intros k. rewrite cell_positions, cell_insert. case_decide as Hk; [subst|done].
    apply NoDup_app. split_and!; [done| |apply NoDup_singleton].
    intros x Hx ->%list_elem_of_singleton. by eapply Hfresh.
  - intros x k. rewrite cell_positions, cell_insert. simpl.
    destruct (decide (x = id)) as [->|Hne].
    + rewrite lookup_insert_eq. case_decide as Hk.
      * split; [eauto|]. intros _. set_solver.
      * split; [by intros ?%Hfresh|]. by intros (? & [= ->] & ?).
    + rewrite lookup_insert_ne by done. rewrite <-Hin.
      case_decide as Hk; [subst|done]. set_solver.
Qed.

Lemma Leave_wf id a : aoi_wf a → aoi_wf (Leave id a).
Proof.
  intros [Hnd Hin]. unfold Leave.
  destruct (positions a !! id) as [p|] eqn:Ep; [|done]. split.
  - intros k. rewrite cell_positions, cell_cut. case_decide; auto with spatial.
  - intros x k. rewrite cell_positions, cell_cut. simpl.
    unfold cellKeyFor. simpl. rewrite cut_positions, cut_cellSize.
    fold (cellKeyFor a).
    destruct (decide (x = id)) as [->|Hne].
    + rewrite lookup_delete_eq. split; [|naive_solver].
      case_decide as Hk; [by intros ?%not_elem_of_remove_first|].
      intros (q & Hq & <-)%Hin. simplify_eq.
    + rewrite lookup_delete_ne by done. rewrite <-Hin.
      case_decide as Hk; [subst|done]. by rewrite elem_of_remove_first_ne.
Qed.

Lemma Move_wf id p a : aoi_wf a → aoi_wf (Move id p a).
Proof.
  intros Hwf. pose proof Hwf as [Hnd Hin]. unfold Move.
  destruct (positions a !! id) as [q|] eqn:Eq; [|by apply Enter_wf].
  case_bool_decide as Hk.
  - split; [done|]. intros x k. rewrite cell_positions. simpl.
    change (cellKeyFor (a <| positions := _ |>)) with (cellKeyFor a).
    destruct (decide (x = id)) as [->|Hne].
    + rewrite Hin, lookup_insert_eq, Eq.
      split; intros (? & [= <-] & <-); by eexists.
    + by rewrite lookup_insert_ne, Hin.
  - assert (Hout : ∀ k, id ∉ cell (cut id (cellKeyFor a q) a) k).
    { intros k. rewrite cell_cut. case_decide as Hk'; [by apply not_elem_of_remove_first|].
      intros (q' & ? & ?)%Hin. simplify_eq. }
    set (b := cut id (cellKeyFor a q) a) in *. split.
    + intros k. rewrite cell_positions, cell_insert. case_decide as Hk'; [subst|].
      * apply NoDup_app. split_and!; [|set_solver|apply NoDup_singleton].
        unfold b. rewrite cell_cut. case_decide; auto with spatial.
      * unfold b. rewrite cell_cut. case_decide; auto with spatial.
    + intros x k. rewrite cell_positions, cell_insert. simpl.
      unfold cellKeyFor. simpl. unfold b. rewrite cut_positions, cut_cellSize. fold b (cellKeyFor a).
      destruct (decide (x = id)) as [->|Hne].
      * rewrite lookup_insert_eq. case_decide as Hk'.
        -- split; [eauto|]. intros _. set_solver.
        -- split; [by intros ?%Hout|]. by intros (? & [= ->] & ?).
      * rewrite lookup_insert_ne, <-Hin by done.
        assert (Hb : x ∈ cell b k ↔ x ∈ cell a k).
        { unfold b. rewrite cell_cut. case_decide as Hk'; [subst|done].
          by rewrite elem_of_remove_first_ne. }
        case_decide as Hk'; [subst|done]. rewrite elem_of_app, Hb. set_solver.
Qed.

(** ** Queries *)

Lemma foldl_visit seen res ids :
  (∀ x, x ∈ seen ↔ x ∈ res) → NoDup res →
  NoDup (foldl visit (seen, res) ids).2 ∧
  ∀ x, x ∈ (foldl visit (seen, res) ids).2 ↔ x ∈ res ∨ x ∈ ids.
Proof.
  revert seen res. induction ids as [|y ids IH]; intros seen res Hs Hnd; simpl.
  { split; [done|]. set_solver. }
  unfold visit at 2 4. simpl. case_bool_decide as Hy.
  - destruct (IH seen res Hs Hnd) as [H1 H2]. split; [done|].
    intros x. rewrite H2. set_solver.
  - destruct (IH ({[y]} ∪ seen) (res ++ [y])) as [H1 H2]; [set_solver| |].
    + apply NoDup_app. split_and!; [done| |apply NoDup_singleton]. set_solver.
    + split; [done|]. intros x. rewrite H2. set_solver.
Qed.

Lemma elem_of_window r c k :
  k ∈ window r c ↔ ∃ dx dy, wrap64 (- r) ≤ dx ≤ r ∧ wrap64 (- r) ≤ dy ≤ r ∧
    k = (wrap64 (c.1 + dx), wrap64 (c.2 + dy)).
Proof.
  unfold window. rewrite elem_of_grid. setoid_rewrite Zone.elem_of_int_range.
  split; intros (x & y & ?); exists x, y; naive_solver.
Qed.

Lemma to_int_range x : in_int64 (to_int x).
Proof.
  unfold to_int, in_int64, min_int64. destruct x; try lia. case_decide; lia.
Qed.

Lemma window_center r p cs : 0 ≤ r < 2 ^ 63 → cell_key cs p ∈ window r (cell_key cs p).
Proof.
  intros Hr. apply elem_of_window. exists 0, 0.
  rewrite wrap64_id by (unfold in_int64; lia). rewrite !Z.add_0_r.
  unfold cell_key. simpl. rewrite !wrap64_id by apply to_int_range. split_and!; done || lia.
Qed.

Lemma Query_sorted pos a : StronglySorted String.le (Query pos a).
Proof. apply sort_strings_sorted. Qed.

Lemma Query_NoDup pos a : NoDup (Query pos a).
Proof.
  unfold Query. rewrite sort_strings_perm. apply foldl_visit; [set_solver|constructor].
Qed.

Lemma elem_of_Query id pos a :
  id ∈ Query pos a ↔ ∃ k, k ∈ window (cellRange a) (cellKeyFor a pos) ∧ id ∈ cell a k.
Proof.
  unfold Query. rewrite sort_strings_perm.
  rewrite (proj2 (foldl_visit ∅ [] _ ltac:(set_solver) (NoDup_nil_2))).
  rewrite list_elem_of_bind. set_solver.
Qed.

Lemma elem_of_Query_wf id pos a :
  aoi_wf a →
  id ∈ Query pos a ↔ ∃ p, positions a !! id = Some p ∧
    cellKeyFor a p ∈ window (cellRange a) (cellKeyFor a pos).
Proof.
  intros [_ Hin]. rewrite elem_of_Query. setoid_rewrite Hin. naive_solver.
Qed.

Lemma elem_of_EntitiesInRange id c r a :
  id ∈ EntitiesInRange c r a ↔ id ∈ Query c a ∧ in_disc c r (position_of a id) = true.
Proof. unfold EntitiesInRange. by rewrite !list_elem_of_In, filter_In. Qed.

(** ** The abstract index: a map from identifiers to positions *)

(** The answer computed from the map alone: the identifiers whose position is
    in the disc and in the window of cells, in order. *)
Definition spec_in_range (size : float64) (range : Z) (m : gmap EntityID Vector3)
    (c : Vector3) (r : float64) : list EntityID :=
  sort_strings (List.filter
    (λ id, match m !! id with
           | Some p => bool_decide (cell_key size p ∈ window range (cell_key size c)) && in_disc c r p
           | None => false
           end) (map_to_list m).*1).

Inductive aoi_op :=
| OpEnter (id : EntityID) (p : Vector3)
| OpLeave (id : EntityID)
| OpMove (id : EntityID) (p : Vector3).

Definition run_op (a : AOI) (o : aoi_op) : AOI :=
  match o with
  | OpEnter id p => Enter id p a
  | OpLeave id => Leave id a
  | OpMove id p => Move id p a
  end.

Definition spec_op (m : gmap EntityID Vector3) (o : aoi_op) : gmap EntityID Vector3 :=
  match o with
  | OpEnter id p | OpMove id p => <[id := p]> m
  | OpLeave id => delete id m
  end.

(** The client's obligation: an identifier enters only when it is absent. *)
Fixpoint fresh_trace (m : gmap EntityID Vector3) (ops : list aoi_op) : Prop :=
  match ops with
  | [] => True
  | o :: ops =>
      match o with OpEnter id _ => m !! id = None | _ => True end ∧
      fresh_trace (spec_op m o) ops
  end.

Lemma run_op_positions a o : positions (run_op a o) = spec_op (positions a) o.
Proof. destruct o; simpl; autorewrite with spatial; done. Qed.

Lemma run_op_params a o : same_params (run_op a o) a.
Proof. destruct o; [apply Enter_params|apply Leave_params|apply Move_params]. Qed.

Lemma run_ops_simulation a m ops :
  aoi_wf a → positions a = m → fresh_trace m ops →
  aoi_wf (foldl run_op a ops) ∧ positions (foldl run_op a ops) = foldl spec_op m ops ∧
  same_params (foldl run_op a ops) a.
Proof.
  revert a m. induction ops as [|o ops IH]; intros a m Hwf Hm; simpl; [done|].
  intros [Ho Hops].
  destruct (IH (run_op a o) (spec_op m o)) as (H1 & H2 & H3).
  - destruct o; subst; simpl; [by apply Enter_wf|by apply Leave_wf|by apply Move_wf].
  - by rewrite run_op_positions, Hm.
  - done.
  - split_and!; [done..|]. by rewrite H3, run_op_params.
Qed.

(** A well-formed grid answers like the map it holds. *)
Lemma EntitiesInRange_spec a c r :
  aoi_wf a → EntitiesInRange c r a = spec_in_range (cellSize a) (cellRange a) (positions a) c r.
Proof.
  intros Hwf. symmetry. apply sort_strings_unique.
  - apply StronglySorted_bfilter, Query_sorted.
  - apply NoDup_Permutation.
    + apply NoDup_bfilter, Query_NoDup.
    + apply NoDup_bfilter, NoDup_fst_map_to_list.
    + intros id. rewrite elem_of_EntitiesInRange, elem_of_Query_wf, elem_of_bfilter by done.
      unfold position_of, cellKeyFor. split.
      * intros [(p & Hp & Hw) Hd]. rewrite Hp in *. simpl in Hd. split.
        -- rewrite list_elem_of_fmap. exists (id, p). by rewrite elem_of_map_to_list.
        -- rewrite bool_decide_eq_true_2 by done. done.
      * intros [_ Hd]. destruct (positions a !! id) as [p|]; [|done].
        apply andb_true_iff in Hd as [Hw%bool_decide_eq_true Hd]. eauto.
Qed.

(** C10. The grid implements the map: for every client that enters an
    identifier only while it is absent, after any sequence of [Enter],
    [Leave] and [Move] the stored positions are those of the map updated in
    the same way, the cell lists are duplicate-free and hold exactly the
    entities of their cell, and a range query returns precisely the sorted
    list of entities of the map whose cell is in the query window and whose
    computed distance is within the radius. *)
Theorem aoi_refines_map (cs r : float64) (ops : list aoi_op) :
  fresh_trace ∅ ops →
  let a := foldl run_op (New cs r) ops in
  let m := foldl spec_op ∅ ops in
  positions a = m ∧ aoi_wf a ∧ Count a = size m ∧
  ∀ c rad, EntitiesInRange c rad a = spec_in_range cs (to_int (fceil (fdiv r cs))) m c rad.
Proof.
  intros Hops a m.
  destruct (run_ops_simulation (New cs r) ∅ ops (New_wf cs r) eq_refl Hops)
    as (Hwf & Hm & Hcs & _ & Hr).
  split_and!; [done..| |].
  - unfold Count, a. by rewrite Hm.
  - intros c rad. unfold a. by rewrite EntitiesInRange_spec, Hm, Hcs, Hr.
Qed.

Definition vec (x y z : Z) : Vector3 := mkVector3 (of_int x) (of_int y) (of_int z).

Lemma aoi_refines_map_witness :
  EntitiesInRange (vec 0 0 0) (of_int 300)
    (foldl run_op (New (of_int 100) (of_int 300))
       [OpEnter "b" (vec 10 0 0); OpEnter "a" (vec 500 0 0); OpMove "a" (vec 20 0 250); OpEnter "c" (vec 0 0 900)])
  = ["a"; "b"].
Proof.
  assert (H : fresh_trace ∅ [OpEnter "b" (vec 10 0 0); OpEnter "a" (vec 500 0 0);
                             OpMove "a" (vec 20 0 250); OpEnter "c" (vec 0 0 900)])
    by (repeat split; vm_compute; reflexivity).
  destruct (aoi_refines_map (of_int 100) (of_int 300) _ H) as (_ & _ & _ & Hq).
  rewrite Hq. vm_compute. reflexivity.
Defined.

(** [Query] returns a strictly ordered list: sorted by identifier and
    without repetition, even when cells hold duplicates; and the returned
    identifiers are exactly those listed in one of the [(2*cellRange+1)^2]
    cells around the query point. *)
Theorem query_ordered (pos : Vector3) (a : AOI) :
  StronglySorted String.le (Query pos a) ∧ NoDup (Query pos a) ∧
  (∀ id, id ∈ Query pos a ↔
     ∃ k, k ∈ window (cellRange a) (cellKeyFor a pos) ∧ id ∈ cell a k).
Proof. split_and!; [apply Query_sorted|apply Query_NoDup|intros; apply elem_of_Query]. Qed.

(** ** Re-entering an identifier *)

Lemma elem_of_remove_first_dup id l1 l2 l3 :
  id ∈ remove_first id (l1 ++ id :: l2 ++ id :: l3).
Proof.
  induction l1 as [|x l1 IH]; simpl.
  - rewrite decide_True by done. set_solver.
  - destruct (decide (x = id)); [set_solver|]. by right.
Qed.

Lemma re_enter_stale id p q a :
  id ∈ cell a (cellKeyFor a p) → positions a !! id = Some p →
  id ∈ cell (Leave id (Enter id q a)) (cellKeyFor a p).
Proof.
  intros Hin Hp. unfold Leave. rewrite Enter_positions, lookup_insert_eq.
  rewrite cell_positions, cell_cut.
  change (cellKeyFor (Enter id q a)) with (cellKeyFor a).
  unfold Enter. rewrite !cell_positions, !cell_insert.
  destruct (decide (cellKeyFor a q = cellKeyFor a p)) as [Hk|Hk]; [|done].
  rewrite Hk, decide_True by done.
  apply list_elem_of_split in Hin as (l1 & l2 & ->).
  rewrite <-app_assoc. simpl. apply elem_of_remove_first_dup.
Qed.

(** [Enter] is not idempotent: entering an identifier that is already
    present leaves a stale cell entry behind.  After the matching [Leave] the
    index no longer knows a position for it, yet every query near its old
    position still returns it, and no further [Leave] removes it. *)
Theorem re_enter_leaks (id : EntityID) (p q : Vector3) (a : AOI) :
  aoi_wf a → positions a !! id = Some p → 0 ≤ cellRange a < 2 ^ 63 →
  let b := Leave id (Enter id q a) in
  positions b !! id = None ∧ id ∈ Query p b ∧ Leave id b = b ∧ ¬ aoi_wf b.
Proof.
  intros Hwf Hp Hr b.
  assert (Hpos : positions b !! id = None).
  { unfold b. autorewrite with spatial. apply lookup_delete_eq. }
  assert (same_params b a) as (Hcs & _ & Hcr).
  { unfold b. by rewrite Leave_params, Enter_params. }
  assert (Hkey : ∀ v, cellKeyFor b v = cellKeyFor a v).
  { intros v. unfold cellKeyFor. by rewrite Hcs. }
  assert (Hcell : id ∈ cell b (cellKeyFor a p)).
  { apply re_enter_stale; [|done]. apply Hwf. eauto. }
  split_and!; [done| | |].
  - apply elem_of_Query. exists (cellKeyFor a p). split; [|done].
    rewrite Hkey, Hcr. by apply window_center.
  - unfold Leave at 1. by rewrite Hpos.
  - intros [_ Hin]. apply Hin in Hcell as (? & ? & _). congruence.
Qed.

Lemma re_enter_leaks_witness :
  let a := Enter "x" (vec 0 0 0) (New (of_int 100) (of_int 300)) in
  let b := Leave "x" (Enter "x" (vec 150 0 0) a) in
  positions b !! "x" = None ∧ "x" ∈ Query (vec 0 0 0) b ∧ Leave "x" b = b ∧ ¬ aoi_wf b.
Proof.
  apply (re_enter_leaks "x" (vec 0 0 0) (vec 150 0 0)
           (Enter "x" (vec 0 0 0) (New (of_int 100) (of_int 300)))).
  - by apply Enter_wf; [apply New_wf|].
  - reflexivity.
  - vm_compute. split; [discriminate|reflexivity].
Defined.

(** ** Serialization *)

Section serialization.
Context `{G : Gob} `{RO : RangeOrder}.

Lemma foldl_Enter_fresh (l : list (EntityID * Vector3)) a :
  aoi_wf a → NoDup l.*1 → (∀ id, id ∈ l.*1 → positions a !! id = None) →
  let b := foldl (λ a '(id, pos), Enter id pos a) a l in
  aoi_wf b ∧ positions b = list_to_map l ∪ positions a ∧ same_params b a.
Proof.
  revert a. induction l as [|[id p] l IH]; intros a Hwf Hnd Hfr; simpl.
  { by rewrite (left_id_L ∅ (∪)). }
  inversion_clear Hnd as [|?? Hid Hnd'].
  destruct (IH (Enter id p a)) as (H1 & H2 & H3).
  - apply Enter_wf; [done|]. apply Hfr. left.
  - done.
  - intros x Hx. rewrite Enter_positions, lookup_insert_ne by set_solver. apply Hfr. by right.
  - split_and!; [done| |by rewrite H3]. rewrite H2, Enter_positions.
    rewrite <-insert_union_r by (by apply not_elem_of_list_to_map_1).
    by rewrite insert_union_l.
Qed.

(** Zone transfer keeps the index: decoding what [Serialize] produced
    rebuilds a well-formed grid with the same parameters and positions, which
    answers every range query as the original did. *)
Theorem serialize_roundtrip `{!GobLaws G} (a : AOI) (cs r : float64) :
  aoi_wf a → cellRange a = cellRange (New (cellSize a) (radius a)) →
  let b := Deserialize cs r (Serialize a).1.1 in
  aoi_wf b ∧ positions b = positions a ∧ same_params b a ∧
  ∀ c rad, EntitiesInRange c rad b = EntitiesInRange c rad a.
Proof.
  intros Hwf Hr. unfold Deserialize, Serialize. simpl. rewrite gob_roundtrip. simpl.
  set (b := foldl _ _ _).
  destruct (foldl_Enter_fresh (range_list (positions a)) (New (cellSize a) (radius a)))
    as (Hb & Hpos & Hpar).
  - apply New_wf.
  - apply NoDup_fst_range_list.
  - done.
  - fold b in Hb, Hpos, Hpar.
    assert (positions b = positions a) as Hpos'.
    { rewrite Hpos. simpl. rewrite (right_id_L ∅ (∪)).
      rewrite (list_to_map_proper _ _ (NoDup_fst_range_list _) (range_list_perm _)).
      apply list_to_map_to_list. }
    assert (same_params b a) as (H1 & H2 & H3).
    { rewrite Hpar. done. }
    split_and!; [done..|]. intros c rad.
    by rewrite !EntitiesInRange_spec, H1, H3, Hpos'.
Qed.

End serialization.

(** A concrete codec that satisfies the laws: the bits of the canonical
    numbering of the struct, one byte per bit. *)
#[export] Instance spec_float_countable : Countable SpecFloat.spec_float.
Proof.
  apply (inj_countable'
    (λ x : SpecFloat.spec_float, match x with
     | SpecFloat.S754_zero s => inl (inl s)
     | SpecFloat.S754_infinity s => inl (inr s)
     | SpecFloat.S754_nan => inr (inl ())
     | SpecFloat.S754_finite s m e => inr (inr (s, m, e))
     end)
    (λ y, match y with
     | inl (inl s) => SpecFloat.S754_zero s
     | inl (inr s) => SpecFloat.S754_infinity s
     | inr (inl _) => SpecFloat.S754_nan
     | inr (inr (s, m, e)) => SpecFloat.S754_finite s m e
     end)).
  by intros [].
Defined.

#[export] Instance Vector3_countable : Countable Vector3.
Proof.
  by apply (inj_countable' (λ v, (X v, Y v, Z_ v)) (λ '(x, y, z), mkVector3 x y z)); intros [].
Defined.

#[export] Instance serializedAOI_eq_dec : EqDecision serializedAOI.
Proof. solve_decision. Defined.

#[export] Instance serializedAOI_countable : Countable serializedAOI.
Proof.
  by apply (inj_countable' (λ s, (sCellSize s, sRadius s, sPositions s))
              (λ '(c, r, p), mkSerialized c r p)); intros [].
Defined.

Fixpoint bytes_of_pos (p : positive) : list Byte.byte :=
  match p with
  | xH => []
  | xO p => Byte.x00 :: bytes_of_pos p
  | xI p => Byte.x01 :: bytes_of_pos p
  end.

Fixpoint pos_of_bytes (l : list Byte.byte) : positive :=
  match l with
  | [] => xH
  | Byte.x00 :: l => xO (pos_of_bytes l)
  | _ :: l => xI (pos_of_bytes l)
  end.

Definition countable_gob : Gob := {|
  gob_encode s := bytes_of_pos (encode s);
  gob_decode l := decode (pos_of_bytes l)
|}.

#[export] Instance countable_gob_laws : GobLaws countable_gob.
Proof.
  split. intros s. simpl.
  assert (∀ p, pos_of_bytes (bytes_of_pos p) = p) as ->.
  { induction p; simpl; congruence. }
  apply decode_encode.
Qed.

Lemma serialize_roundtrip_witness :
  let a := Enter "x" (vec 10 0 0) (New (of_int 100) (of_int 300)) in
  let b := Deserialize (H := countable_gob) (H0 := canonical_order) (of_int 1) (of_int 1)
             (Serialize (H := countable_gob) a).1.1 in
  aoi_wf b ∧ positions b = positions a ∧ same_params b a ∧
  ∀ c rad, EntitiesInRange c rad b = EntitiesInRange c rad a.
Proof.
  apply (serialize_roundtrip (G := countable_gob) (RO := canonical_order)
           (Enter "x" (vec 10 0 0) (New (of_int 100) (of_int 300)))).
  - by apply Enter_wf; [apply New_wf|].
  - reflexivity.
Defined.
