(* ===== verification/Entity.v ===== *)
(** * Entities and autonomous behaviours

    [internal/game/entity] (the entity record and its lifecycle interface)
    and [internal/game/npc.go] (patrol, idle and wander behaviours).

    The implementations of the [Lifecycle] and [Behavior] interfaces in the
    repository are the constructors of [Lifecycle] and [Behavior]; a nil
    interface is [None].  Go passes entities and behaviours by pointer, so a
    step returns the updated behaviour and entity; [None] is a run-time
    panic (an index out of range).

    [math.Sin], [math.Cos] and the generator of [math/rand] are parameters. *)

From S2P Require Import Prelude GoFloat Types.
From stdpp Require Import base tactics list gmap strings.
From Stdlib Require Import ZArith Lia.

Local Open Scope Z_scope.

(** ** Numeric functions of the Go library left abstract *)

Class GoMath := {
  Rand : Type;
  rand_new : Z → Rand;                  (* rand.New(rand.NewSource(seed)) *)
  rand_float64 : Rand → float64 * Rand; (* r.Float64() *)
  math_sin : float64 → float64;
  math_cos : float64 → float64;
  math_pi : float64
}.

(** ** Behaviours *)

Record PatrolBehavior := mkPatrol {
  pSpeed : float64;
  Waypoints : list Vector3;
  ptarget : Z
}.

Record IdleBehavior := mkIdle {
  BobAmplitude : float64;
  BobFreq : float64;
  phase : float64
}.

Record WanderBehavior `{GoMath} := mkWander {
  Origin : Vector3;
  wRadius : float64;
  wSpeed : float64;
  rng : option Rand;
  wtarget : Vector3;
  pause : Duration
}.

Inductive Behavior `{GoMath} :=
| Patrol (p : PatrolBehavior)
| Idle (i : IdleBehavior)
| Wander (w : WanderBehavior).

Inductive Lifecycle `{GoMath} :=
| BaseLifecycle
| NPCLifecycle (b : option Behavior).

Record Entity `{GoMath} := mkEntity {
  eID : EntityID;
  eType : string;
  Position : Vector3;
  eRotation : Rotation;
  Attrs : gmap string (list Byte.byte);
  eZoneID : ZoneID;
  eOwnerID : OwnerID;
  eRuntimeID : RuntimeID;
  eLifecycle : option Lifecycle
}.

Section behaviours.
Context `{GM : GoMath}.

Definition eta_Entity (e : Entity) :=
  mkEntity _ (eID e) (eType e) (Position e) (eRotation e) (Attrs e) (eZoneID e)
    (eOwnerID e) (eRuntimeID e) (eLifecycle e).
#[export] Instance set_Position : Setter Position. Proof. solve_setter eta_Entity. Defined.
#[export] Instance set_Attrs : Setter Attrs. Proof. solve_setter eta_Entity. Defined.
#[export] Instance set_eZoneID : Setter eZoneID. Proof. solve_setter eta_Entity. Defined.
#[export] Instance set_eOwnerID : Setter eOwnerID. Proof. solve_setter eta_Entity. Defined.
#[export] Instance set_eRuntimeID : Setter eRuntimeID. Proof. solve_setter eta_Entity. Defined.
#[export] Instance set_eLifecycle : Setter eLifecycle. Proof. solve_setter eta_Entity. Defined.

Definition New (id : EntityID) (typ : string) (runtimeID : RuntimeID) : Entity :=
  mkEntity _ id typ zero_vec zero_rot ∅ "" "" runtimeID None.

(** [moveAxis(&pos, target, delta)]: the new coordinate and whether it moved. *)
Definition moveAxis (pos target delta : float64) : float64 * bool :=
  if feqb pos target then (pos, false)
  else if fleb (fabs (fsub target pos)) delta then (target, true)
  else if fltb pos target then (fadd pos delta, true)
  else (fsub pos delta, true).

Definition patrol_step (p : PatrolBehavior) (e : Entity) (dt : Duration)
    : option (PatrolBehavior * Entity * bool) :=
  if (length (Waypoints p) =? 0)%nat then Some (p, e, false)
  else if ptarget p <? 0 then None
  else
    wp ← Waypoints p !! Z.to_nat (ptarget p);
    let delta := fmul (pSpeed p) (seconds dt) in
    let x := (moveAxis (X (Position e)) (X wp) delta).1 in
    let z := (moveAxis (Z_ (Position e)) (Z_ wp) delta).1 in
    let e := e <| Position ::= λ v, v <| X := x |> <| Z_ := z |> |> in
    let p :=
      if feqb x (X wp) && feqb z (Z_ wp)
      then mkPatrol (pSpeed p) (Waypoints p)
             (Z.rem (wrap64 (ptarget p + 1)) (Z.of_nat (length (Waypoints p))))
      else p in
    Some (p, e, true).

Definition idle_step (i : IdleBehavior) (e : Entity) (dt : Duration) : IdleBehavior * Entity * bool :=
  let ph := fadd (phase i) (fmul (BobFreq i) (seconds dt)) in
  let e := e <| Position ::= λ v, v <| Y := fmul (BobAmplitude i) (math_sin ph) |> |> in
  (mkIdle (BobAmplitude i) (BobFreq i) ph, e, false).

(** The random target drawn when none is set; [2] and [math.Pi] multiply left to right. *)
Definition pick_target (w : WanderBehavior) (r : Rand) : Vector3 * Rand :=
  let '(u, r) := rand_float64 r in
  let angle := fmul (fmul u (of_int 2)) math_pi in
  let '(v, r) := rand_float64 r in
  let dist := fmul v (wRadius w) in
  (mkVector3 (fadd (X (Origin w)) (fmul dist (math_cos angle))) fzero
             (fadd (Z_ (Origin w)) (fmul dist (math_sin angle))), r).

(** [seed] is the clock reading used when the generator is created. *)
Definition wander_step (seed : Z) (w : WanderBehavior) (e : Entity) (dt : Duration)
    : WanderBehavior * Entity * bool :=
  let r := default (rand_new seed) (rng w) in
  let w := mkWander _ (Origin w) (wRadius w) (wSpeed w) (Some r) (wtarget w) (pause w) in
  if 0 <? pause w then
    (mkWander _ (Origin w) (wRadius w) (wSpeed w) (Some r) (wtarget w) (wrap64 (pause w - dt)), e, false)
  else
    let '(t, r) := if vec_eqb (wtarget w) zero_vec then pick_target w r else (wtarget w, r) in
    let delta := fmul (wSpeed w) (seconds dt) in
    let '(x, mx) := moveAxis (X (Position e)) (X t) delta in
    let e := e <| Position ::= λ v, v <| X := x |> |> in
    let '(e, moved) :=
      if mx : bool then (e, true)
      else let '(z, mz) := moveAxis (Z_ (Position e)) (Z_ t) delta in
           (e <| Position ::= λ v, v <| Z_ := z |> |>, mz) in
    let w :=
      if moved : bool
      then mkWander _ (Origin w) (wRadius w) (wSpeed w) (Some r) t (pause w)
      else mkWander _ (Origin w) (wRadius w) (wSpeed w) (Some r) zero_vec (500 * Millisecond) in
    (w, e, true).

(** [Behavior.Step]. *)
Definition behavior_step (seed : Z) (b : Behavior) (e : Entity) (dt : Duration)
    : option (Behavior * Entity * bool) :=
  match b with
  | Patrol p => '(p, e, m) ← patrol_step p e dt; Some (Patrol p, e, m)
  | Idle i => let '(i, e, m) := idle_step i e dt in Some (Idle i, e, m)
  | Wander w => let '(w, e, m) := wander_step seed w e dt in Some (Wander w, e, m)
  end.

(** [Lifecycle.OnSimulate(e, dt)] for the entity's own lifecycle. *)
Definition OnSimulate (seed : Z) (e : Entity) (dt : Duration) : option Entity :=
  match eLifecycle e with
  | None | Some BaseLifecycle | Some (NPCLifecycle None) => Some e
  | Some (NPCLifecycle (Some b)) =>
      '(b, e, _) ← behavior_step seed b e dt;
      Some (e <| eLifecycle := Some (NPCLifecycle (Some b)) |>)
  end.

(** [Lifecycle.OnAction]: both lifecycles of the repository ignore actions. *)
Definition OnAction (action : string) (payload : list Byte.byte) (e : Entity) : Entity :=
  match eLifecycle e with
  | None | Some BaseLifecycle | Some (NPCLifecycle _) => e
  end.

(** The [behaviorFactories] table and its idle fallback. *)
Definition half : float64 := fdiv (of_int 1) (of_int 2).
Definition newBehavior (tag : string) : Behavior :=
  if bool_decide (tag = "patrol") then Patrol (mkPatrol (of_int 10) [] 0)
  else if bool_decide (tag = "idle") then Idle (mkIdle half (of_int 2) fzero)
  else if bool_decide (tag = "wander") then
    Wander (mkWander _ zero_vec (of_int 20) (of_int 10) None zero_vec 0)
  else Idle (mkIdle half (of_int 2) fzero).

(** ** Lemmas *)

(** An entity's identity, zone, space and owner: what behaviours never touch. *)
Definition same_identity (e e' : Entity) : Prop :=
  eID e' = eID e ∧ eType e' = eType e ∧ eZoneID e' = eZoneID e ∧
  eOwnerID e' = eOwnerID e ∧ eRuntimeID e' = eRuntimeID e ∧ Attrs e' = Attrs e ∧
  eRotation e' = eRotation e.

#[export] Instance same_identity_preorder : PreOrder same_identity.
Proof. unfold same_identity. split; repeat intro; destruct_and?; split_and!; congruence. Qed.

(** The patrol target is a valid index (or there are no waypoints). *)
Definition patrol_wf (p : PatrolBehavior) : Prop :=
  Waypoints p = [] ∨ 0 ≤ ptarget p < Z.of_nat (length (Waypoints p)).

Definition behavior_wf (b : Behavior) : Prop :=
  match b with Patrol p => patrol_wf p ∧ Z.of_nat (length (Waypoints p)) < 2 ^ 63 | _ => True end.

Definition entity_wf (e : Entity) : Prop :=
  match eLifecycle e with Some (NPCLifecycle (Some b)) => behavior_wf b | _ => True end.

Lemma newBehavior_wf tag : behavior_wf (newBehavior tag).
Proof. unfold newBehavior. case_all; simpl; try done. split; [by left|]. simpl. lia. Qed.

Lemma moveAxis_stays p t d : (moveAxis p t d).2 = false → (moveAxis p t d).1 = p ∧ feqb p t = true.
Proof. unfold moveAxis. case_all; done. Qed.

Lemma moveAxis_arrives p t d :
  fleb (fabs (fsub t p)) d = true → feqb p t = false → moveAxis p t d = (t, true).
Proof. unfold moveAxis. by intros -> ->. Qed.

Lemma patrol_step_total p e dt : patrol_wf p → is_Some (patrol_step p e dt).
Proof.
  unfold patrol_step. intros [->|[H1 H2]]; [by eauto|].
  destruct (length (Waypoints p) =? 0)%nat; [eauto|].
  rewrite (proj2 (Z.ltb_ge _ _)) by lia.
  destruct (lookup_lt_is_Some_2 (Waypoints p) (Z.to_nat (ptarget p))) as [wp ->]; [lia|].
  simpl. eauto.
Qed.

Lemma patrol_step_spec p e dt p' e' m :
  patrol_step p e dt = Some (p', e', m) → Z.of_nat (length (Waypoints p)) < 2 ^ 63 →
  patrol_wf p →
  patrol_wf p' ∧ Waypoints p' = Waypoints p ∧ same_identity e e' ∧ eLifecycle e' = eLifecycle e.
Proof.
  unfold patrol_step. intros Hs Hlen Hwf.
  destruct (length (Waypoints p) =? 0)%nat eqn:E0; simplify_eq/=; [done|].
  destruct (ptarget p <? 0) eqn:E1; [done|].
  destruct (Waypoints p !! Z.to_nat (ptarget p)) as [wp|] eqn:E2; simplify_eq/=.
  split; [|case_all; done].
  destruct Hwf as [Hn|Hwf]; [by rewrite Hn in E0|].
  case_all; right; [|done]. simpl.
  rewrite wrap64_id by (unfold in_int64; lia). rewrite Z.rem_mod_nonneg by lia.
  apply Z.mod_pos_bound. lia.
Qed.

Lemma wander_step_spec seed w e dt w' e' m :
  wander_step seed w e dt = (w', e', m) →
  same_identity e e' ∧ eLifecycle e' = eLifecycle e.
Proof. unfold wander_step. intros Hs. case_all; done. Qed.

(** One step of a well-formed entity. *)
Lemma OnSimulate_spec (seed : Z) (e : Entity) (dt : Duration) :
  entity_wf e →
  ∃ e', OnSimulate seed e dt = Some e' ∧ entity_wf e' ∧ same_identity e e'.
Proof.
  unfold OnSimulate, entity_wf. intros Hwf.
  destruct (eLifecycle e) as [[|[b|]]|] eqn:El; try (exists e; by rewrite El).
  destruct b as [p|i|w]; simpl.
  - destruct Hwf as [Hwf Hlen].
    destruct (patrol_step_total p e dt Hwf) as [[[p' e'] m] Hs]. rewrite Hs. simpl.
    destruct (patrol_step_spec _ _ _ _ _ _ Hs Hlen Hwf) as (H1 & H2 & H3 & _).
    eexists; split; [done|]. split; [|done]. simpl. by rewrite H2.
  - eexists; split_and!; [done|done|]. repeat split.
  - destruct (wander_step seed w e dt) as [[w' e'] m] eqn:Hs. simpl.
    apply wander_step_spec in Hs as [Hs _]. by eexists.
Qed.

(** Autonomous simulation is safe for ever: stepping a well-formed
    entity through any sequence of ticks never panics, keeps it well formed
    (a patrol index stays inside its waypoint list), and changes nothing but
    the position and the behaviour's own state: identity, zone, space, owner
    and attributes are untouched. *)
Theorem on_simulate_safe (e : Entity) (ticks : list (Z * Duration)) :
  entity_wf e →
  ∃ e', fold_option (λ e '(seed, dt), OnSimulate seed e dt) e ticks = Some e' ∧
        entity_wf e' ∧ same_identity e e'.
Proof.
  intros Hwf. apply (fold_option_invariant _ (λ e', entity_wf e' ∧ same_identity e e')); [done|].
  intros e1 [seed dt] _ [H1 H2]. destruct (OnSimulate_spec seed e1 dt H1) as (e2 & -> & H3 & H4).
  exists e2. split_and!; [done..|]. by rewrite H2.
Qed.

(** A patrolling entity walks its waypoints in cyclic order: the target
    advances to the next index modulo the number of waypoints exactly when
    both coordinates equal the current waypoint after the step, and stays
    otherwise; a coordinate within one step of the waypoint lands on it. *)
Theorem patrol_cycle (p p' : PatrolBehavior) (e e' : Entity) (dt : Duration) (m : bool) (wp : Vector3) :
  patrol_wf p → Z.of_nat (length (Waypoints p)) < 2 ^ 63 →
  Waypoints p !! Z.to_nat (ptarget p) = Some wp →
  patrol_step p e dt = Some (p', e', m) →
  m = true ∧
  ptarget p' = (if feqb (X (Position e')) (X wp) && feqb (Z_ (Position e')) (Z_ wp)
                then (ptarget p + 1) `mod` Z.of_nat (length (Waypoints p)) else ptarget p) ∧
  Y (Position e') = Y (Position e) ∧
  (fleb (fabs (fsub (X wp) (X (Position e)))) (fmul (pSpeed p) (seconds dt)) = true →
   X (Position e') = X wp ∨ feqb (X (Position e)) (X wp) = true).
Proof.
  intros Hwf Hlen Hwp Hs.
  assert (Hlen0 : length (Waypoints p) ≠ 0%nat).
  { intros H0. apply nil_length_inv in H0. by rewrite H0 in Hwp. }
  destruct Hwf as [Hn|Hwf]; [by rewrite Hn in Hlen0|].
  unfold patrol_step in Hs.
  rewrite (proj2 (Nat.eqb_neq _ _) Hlen0), (proj2 (Z.ltb_ge _ _)), Hwp in Hs by lia.
  simpl in Hs. injection Hs as <- <- <-. simpl. split_and!; [done| |done|].
  - case_all; [|done]. rewrite wrap64_id by (unfold in_int64; lia).
    by rewrite Z.rem_mod_nonneg by lia.
  - intros Hd. destruct (feqb (X (Position e)) (X wp)) eqn:E; [by right|left].
    by rewrite moveAxis_arrives.
Qed.

(** A pausing wanderer does not move: while its pause is positive a step
    only counts the pause down; a step that cannot move either axis clears
    the target and starts a pause of half a second. *)
Theorem wander_pause (seed : Z) (w : WanderBehavior) (e : Entity) (dt : Duration) :
  (0 < pause w → ∃ w', wander_step seed w e dt = (w', e, false) ∧ pause w' = wrap64 (pause w - dt) ∧
                       wtarget w' = wtarget w) ∧
  (pause w ≤ 0 → vec_eqb (wtarget w) zero_vec = false →
   feqb (X (Position e)) (X (wtarget w)) = true → feqb (Z_ (Position e)) (Z_ (wtarget w)) = true →
   ∃ w', wander_step seed w e dt = (w', e, true) ∧ pause w' = 500 * Millisecond ∧ wtarget w' = zero_vec).
Proof.
  split.
  - intros Hp. unfold wander_step. cbn [pause]. rewrite (proj2 (Z.ltb_lt _ _) Hp). by eexists.
  - intros Hp Ht Hx Hz. unfold wander_step. cbn [pause wtarget].
    rewrite (proj2 (Z.ltb_ge _ _) Hp), Ht. unfold moveAxis. simpl. rewrite Hx. simpl. rewrite Hz.
    eexists. split; [f_equal; f_equal; by destruct e as [?? []]|done].
Qed.

End behaviours.

(** ** Witnesses *)

(** A constant generator that counts its draws, and constant trigonometry. *)
Definition sample_math : GoMath := {|
  Rand := Z;
  rand_new seed := seed;
  rand_float64 r := (half, r + 1);
  math_sin _ := fzero;
  math_cos _ := of_int 1;
  math_pi := fdiv (of_int 355) (of_int 113)
|}.

Section witnesses.
Local Existing Instance sample_math.

Definition vec2 (x z : Z) : Vector3 := mkVector3 (of_int x) fzero (of_int z).
Definition square : PatrolBehavior := mkPatrol (of_int 10) [vec2 0 0; vec2 5 0; vec2 5 5] 1.
Definition guard : Entity := New "guard" "npc" "space-a" <| eLifecycle := Some (NPCLifecycle (Some (Patrol square))) |>.

Lemma on_simulate_safe_witness :
  ∃ e', fold_option (λ e '(seed, dt), OnSimulate seed e dt) guard [(7, Second); (8, Second); (9, Second)] = Some e' ∧
        entity_wf e' ∧ same_identity guard e'.
Proof. apply (on_simulate_safe guard). split; [right; vm_compute; split; [discriminate|reflexivity]|vm_compute; reflexivity]. Defined.

Lemma patrol_cycle_witness :
  ∃ p' e', patrol_step square guard Second = Some (p', e', true) ∧
           ptarget p' = (if feqb (X (Position e')) (of_int 5) && feqb (Z_ (Position e')) (of_int 0) then 2 else 1).
Proof.
  assert (Hwf : patrol_wf square) by (right; vm_compute; split; [discriminate|reflexivity]).
  destruct (patrol_step_total square guard Second Hwf) as [[[p' e'] m] E].
  destruct (patrol_cycle square p' guard e' Second m (vec2 5 0)) as (Hm & Ht & _).
  - exact Hwf.
  - vm_compute. reflexivity.
  - reflexivity.
  - exact E.
  - rewrite Hm in E. exists p', e'. split; [exact E|exact Ht].
Defined.

End witnesses.
