(* ===== verification/Game.v ===== *)
(** * The simulation core: state and operations

    [internal/game/simulation.go], [event.go], [metrics.go] and
    [lifecycle.go].

    A [Game] is the Go struct.  Objects the code shares through pointers
    live in two heaps: entities (one object is reachable from [Entities] and
    from the [entities] map of its zone) and AOI grids (one grid is reachable
    from [Zones] and from [aoiIndex], and the two may differ).  Channels are
    lists bounded by the capacities of [New]; a closure sent to [cmds] is a
    value of [cmd]; calls on the [Metrics] and [SnapshotWriter] interfaces
    are appended to [metrics] and [saved].

    Every method holds [g.mu] for its whole body, so one function here is
    one atomic step; [tick] is a sequence of such steps.  Clock readings are
    arguments; two readings next to each other in the same statement are
    taken to be equal. *)

From S2P Require Import Prelude GoFloat Types Protocol Aoi Entity.
From stdpp Require Import base tactics list gmap strings.
From Stdlib Require Import ZArith Lia.

Local Open Scope Z_scope.

Abbreviation loc := positive (only parsing).
Abbreviation bytes := (list Byte.byte) (only parsing).

(** ** Constants *)

Definition DefaultTickRate : Duration := 50 * Millisecond.
Definition InboxBufferSize : nat := 4096.
Definition DefaultCellSize : float64 := of_int 100.
Definition DefaultAOIRadius : float64 := of_int 300.
Definition cmdChannelBuffer : nat := 256.
Definition DefaultZoneID : ZoneID := "default".
Definition maxPacketsPerTick : nat := 1024.
Definition maxTickDelta : Duration := 250 * Millisecond.

(** ** Wire messages the simulation reads and writes

    The generated protobuf structs, restricted to the fields the sources
    use.  A nil [Position] reads as zeros through the generated getters. *)

Record EntityUpdate := mkEntityUpdate { uEntityId : string; uPosition : option Vector3 }.
Record EntityAction := mkEntityAction { aEntityId : string; aAction : string; aPayload : bytes }.
Record EntityState := mkEntityState { sEntityId : string }.
Record EntitySnapshot := mkEntitySnapshot { snEntityId : string; snType : string; snPosition : option Vector3 }.
Record ZoneSnapshot := mkZoneSnapshot { zsZoneId : ZoneID; zsEntities : list EntitySnapshot; zsAoiState : bytes }.

(** One row of the JSON zone snapshot. *)
Record SnapshotRow := mkRow { rId : string; rType : string; rBehavior : string; rX : float64; rY : float64; rZ : float64 }.

(** Serializers outside the repository: protobuf and JSON. *)
Class Codecs := {
  unmarshal_update : bytes → option EntityUpdate;
  unmarshal_action : bytes → option EntityAction;
  unmarshal_state : bytes → option EntityState;
  json_rows : list SnapshotRow → option bytes;
  unjson_rows : bytes → option (list SnapshotRow)
}.

(** ** Data *)

Inductive EventKind := EventSpawn | EventDespawn | EventMove | EventState.
#[export] Instance EventKind_eq_dec : EqDecision EventKind.
Proof. solve_decision. Defined.

Record Event := mkEvent {
  evKind : EventKind;
  evSpace : RuntimeID;
  evObserver : EntityID;
  evEntityID : EntityID;
  evType : string;
  evPosition : Vector3;
  evPayload : bytes
}.

Definition eventKindLabel (k : EventKind) : string :=
  match k with
  | EventSpawn => "spawn"
  | EventDespawn => "despawn"
  | EventMove => "move"
  | EventState => "state"
  end.

(** Calls on the [Metrics] interface. *)
Inductive metric :=
| TickDuration (d : Duration)
| TickOverrun
| QueueDepth (queue : string) (depth : nat)
| Dropped (queue : string) (n : nat)
| EntityCount_ (typ : string) (n : nat)
| ActiveSpaces (n : nat)
| RuntimeEvent (kind : string).

Record InboundPacket := mkInbound { ClientID : string; Data : bytes }.

Record entityAOIState := mkAOIState {
  visible : gmap EntityID ();
  lastPosition : Vector3
}.

Inductive ghostKind := ghostLocal | ghostRemote.

Record ghostEntry := mkGhost {
  kind : ghostKind;
  gentityID : EntityID;
  originZone : ZoneID;
  gposition : Vector3;
  createdAt : Time;
  expiresAt : Time
}.

(** [ghostEntry.remote]. *)
Definition remote (e : ghostEntry) : ZoneID * bool :=
  (originZone e, match kind e with ghostRemote => true | ghostLocal => false end).

Record zoneSim := mkSim {
  szone : option Zone.Zone;
  saoi : loc;
  sentities : gmap EntityID loc
}.
Definition eta_zoneSim (s : zoneSim) := mkSim (szone s) (saoi s) (sentities s).
#[export] Instance set_sentities : Setter sentities. Proof. solve_setter eta_zoneSim. Defined.

Inductive SessionStatus := SessionActive | SessionDisconnected | SessionDespawned.
#[export] Instance SessionStatus_eq_dec : EqDecision SessionStatus.
Proof. solve_decision. Defined.

Record sessionState := mkSession { sstatus : SessionStatus; disconnectedAt : Time }.

Record neighborEntity := mkNeighbor { nID : EntityID; nType : string; nPos : Vector3 }.

(** Control-plane commands: the closures sent to [g.cmds]. *)
Inductive cmd := CmdAdd (p : loc) | CmdRemove (id : EntityID).

Record Game `{GoMath} := mkGame {
  gServerID : ServerID;
  Zones : gmap ZoneID zoneSim;
  Entities : gmap EntityID loc;
  entityZone : gmap EntityID ZoneID;
  entityAOI : gmap EntityID entityAOIState;
  ghosts : gmap EntityID ghostEntry;
  aoiIndex : gmap ZoneID loc;
  ghostStore : gmap ZoneID (gmap EntityID ghostEntry);
  querier : option (ZoneID → Z → Z → float64 → list neighborEntity);
  peerZone : gmap ZoneID ServerID;
  Inbox : list InboundPacket;
  Events : list Event;
  aoiRadius : float64;
  tickRate : Duration;
  ghostTTL : Duration;
  cmds : list cmd;
  snapshotter : bool;
  snapshotEvery : Z;
  tickCount : Z;
  sessionStates : gmap EntityID sessionState;
  reconnectWindow : Duration;
  lastTickAt : Time;
  (* the objects behind the pointers *)
  eheap : gmap loc Entity;
  aheap : gmap loc AOI;
  next : loc;
  (* calls made on the interfaces the game reports to *)
  metrics : list metric;
  saved : list (ZoneID * bytes * Z)
}.

Section game.
Context `{GM : GoMath} `{GZ : Gzip} `{GB : Gob} `{CD : Codecs} `{RO : RangeOrder}.

Definition eta_Game (g : Game) :=
  mkGame _ (gServerID g) (Zones g) (Entities g) (entityZone g) (entityAOI g) (ghosts g)
    (aoiIndex g) (ghostStore g) (querier g) (peerZone g) (Inbox g) (Events g) (aoiRadius g)
    (tickRate g) (ghostTTL g) (cmds g) (snapshotter g) (snapshotEvery g) (tickCount g)
    (sessionStates g) (reconnectWindow g) (lastTickAt g) (eheap g) (aheap g) (next g)
    (metrics g) (saved g).
#[export] Instance set_Zones : Setter Zones. Proof. solve_setter eta_Game. Defined.
#[export] Instance set_Entities : Setter Entities. Proof. solve_setter eta_Game. Defined.
#[export] Instance set_entityZone : Setter entityZone. Proof. solve_setter eta_Game. Defined.
#[export] Instance set_entityAOI : Setter entityAOI. Proof. solve_setter eta_Game. Defined.
#[export] Instance set_ghosts : Setter ghosts. Proof. solve_setter eta_Game. Defined.
#[export] Instance set_aoiIndex : Setter aoiIndex. Proof. solve_setter eta_Game. Defined.
#[export] Instance set_ghostStore : Setter ghostStore. Proof. solve_setter eta_Game. Defined.
#[export] Instance set_querier : Setter querier. Proof. solve_setter eta_Game. Defined.
#[export] Instance set_peerZone : Setter peerZone. Proof. solve_setter eta_Game. Defined.
#[export] Instance set_Inbox : Setter Inbox. Proof. solve_setter eta_Game. Defined.
#[export] Instance set_Events : Setter Events. Proof. solve_setter eta_Game. Defined.
#[export] Instance set_tickRate : Setter tickRate. Proof. solve_setter eta_Game. Defined.
#[export] Instance set_cmds : Setter cmds. Proof. solve_setter eta_Game. Defined.
#[export] Instance set_snapshotter : Setter snapshotter. Proof. solve_setter eta_Game. Defined.
#[export] Instance set_snapshotEvery : Setter snapshotEvery. Proof. solve_setter eta_Game. Defined.
#[export] Instance set_tickCount : Setter tickCount. Proof. solve_setter eta_Game. Defined.
#[export] Instance set_sessionStates : Setter sessionStates. Proof. solve_setter eta_Game. Defined.
#[export] Instance set_lastTickAt : Setter lastTickAt. Proof. solve_setter eta_Game. Defined.
#[export] Instance set_eheap : Setter eheap. Proof. solve_setter eta_Game. Defined.
#[export] Instance set_aheap : Setter aheap. Proof. solve_setter eta_Game. Defined.
#[export] Instance set_next : Setter next. Proof. solve_setter eta_Game. Defined.
#[export] Instance set_metrics : Setter metrics. Proof. solve_setter eta_Game. Defined.
#[export] Instance set_saved : Setter saved. Proof. solve_setter eta_Game. Defined.

(** ** Construction *)

Definition NewGame (sid : ServerID) : Game :=
  mkGame _ sid ∅ ∅ ∅ ∅ ∅ ∅ ∅ None ∅ [] [] DefaultAOIRadius DefaultTickRate (5 * Second)
    [] false 0 0 ∅ (30 * Second) zero_time ∅ ∅ 1%positive [] [].

(** The functional options; the sink of [WithMetrics] is the list [metrics]. *)
Inductive Option_ := WithTickRate (d : Duration) | WithSnapshotter (every : Z) | WithMetrics.

Definition apply_option (g : Game) (o : Option_) : Game :=
  match o with
  | WithTickRate d => g <| tickRate := d |>
  | WithSnapshotter every => g <| snapshotter := true |> <| snapshotEvery := every |>
  | WithMetrics => g
  end.

(** [New(sid, opts...)]: the options are applied in order. *)
Definition New (sid : ServerID) (opts : list Option_) : Game := foldl apply_option (NewGame sid) opts.

(** ** Heap access *)

Definition alloc_entity (e : Entity) (g : Game) : loc * Game :=
  (next g, g <| eheap ::= <[next g := e]> |> <| next ::= Pos.succ |>).
Definition alloc_aoi (a : AOI) (g : Game) : loc * Game :=
  (next g, g <| aheap ::= <[next g := a]> |> <| next ::= Pos.succ |>).

(** The entity registered under an identifier, through its pointer. *)
Definition entity_of (g : Game) (id : EntityID) : option Entity :=
  Entities g !! id ≫= λ p, eheap g !! p.

(** [grid.EntitiesInRange] on the grid behind a pointer. *)
Definition in_range (g : Game) (l : loc) (c : Vector3) (r : float64) : list EntityID :=
  match aheap g !! l with Some a => EntitiesInRange c r a | None => [] end.

Definition on_aoi (l : loc) (f : AOI → AOI) (g : Game) : Game := g <| aheap ::= alter f l |>.

(** ** Zones *)

Definition AssignZone (z : Zone.Zone) (g : Game) : result error Game :=
  match Zones g !! Zone.ID z with
  | Some _ => Err (Wrapped ("zone " +:+ Zone.ID z) ErrConflict)
  | None =>
      let '(l, g) := alloc_aoi (Aoi.New DefaultCellSize (aoiRadius g)) g in
      Ok (g <| Zones ::= <[Zone.ID z := mkSim (Some z) l ∅]> |>
            <| aoiIndex ::= <[Zone.ID z := l]> |>
            <| ghostStore ::= <[Zone.ID z := ∅]> |>)
  end.

Definition RegisterPeerZone (zoneID : ZoneID) (serverID : ServerID) (g : Game) : Game :=
  g <| peerZone ::= <[zoneID := serverID]> |>.

Definition forget (id : EntityID) (g : Game) : Game :=
  g <| Entities ::= delete id |> <| entityAOI ::= delete id |> <| entityZone ::= delete id |>.

(** The two loops of [ReleaseZone]. *)
Definition release_entity (id : ZoneID) (g : Game) (ez : EntityID * ZoneID) : Game :=
  if bool_decide (ez.2 ≠ id) then g else forget ez.1 g.
Definition release_ghost (id : ZoneID) (g : Game) (gg : EntityID * ghostEntry) : Game :=
  if bool_decide (originZone gg.2 = id) then g <| ghosts ::= delete gg.1 |> else g.

Definition ReleaseZone (id : ZoneID) (g : Game) : result error Game :=
  match Zones g !! id with
  | None => Err (Wrapped ("zone " +:+ id) ErrNotFound)
  | Some _ =>
      let g := foldl (release_entity id) g (range_list (entityZone g)) in
      let g := foldl (release_ghost id) g (range_list (ghosts g)) in
      Ok (g <| Zones ::= delete id |> <| aoiIndex ::= delete id |>
            <| ghostStore ::= delete id |> <| peerZone ::= delete id |>)
  end.

Definition AOIFor (zid : ZoneID) (g : Game) : option loc := saoi <$> Zones g !! zid.
Definition ZoneOf (id : EntityID) (g : Game) : ZoneID := default "" (entityZone g !! id).

(** ** Entities *)

(** The zone's record, created when the zone is not assigned. *)
Definition ensure_sim (zid : ZoneID) (g : Game) : zoneSim * Game :=
  match Zones g !! zid with
  | Some sim => (sim, g)
  | None =>
      let '(l, g) := alloc_aoi (Aoi.New DefaultCellSize (aoiRadius g)) g in
      (mkSim None l ∅, g <| Zones ::= <[zid := mkSim None l ∅]> |>)
  end.

Definition addEntity (p : loc) (g : Game) : Game :=
  match eheap g !! p with
  | None => g
  | Some e =>
      let zid := if bool_decide (eZoneID e = "") then DefaultZoneID else eZoneID e in
      let e := e <| eZoneID := zid |> in
      let '(sim, g) := ensure_sim zid g in
      let e := match szone sim with
               | Some z => if bool_decide (Zone.zRuntimeID z ≠ "")
                           then e <| eRuntimeID := Zone.zRuntimeID z |> else e
               | None => e
               end in
      let g := g <| eheap ::= <[p := e]> |> in
      let g := g <| Entities ::= <[eID e := p]> |> <| entityZone ::= <[eID e := zid]> |> in
      let g := g <| Zones ::= <[zid := sim <| sentities ::= <[eID e := p]> |>]> |> in
      let g := on_aoi (saoi sim) (Enter (eID e) (Position e)) g in
      g <| entityAOI ::= <[eID e := mkAOIState ∅ (Position e)]> |>
  end.

Definition AddEntity (p : loc) (g : Game) : Game := addEntity p g.

Definition removeEntity (id : EntityID) (g : Game) : Game :=
  match entityZone g !! id with
  | None => g
  | Some zid =>
      let g := match Zones g !! zid with
               | Some sim =>
                   on_aoi (saoi sim) (Leave id) g
                     <| Zones ::= <[zid := sim <| sentities ::= delete id |>]> |>
               | None => g
               end in
      forget id g
  end.

Definition RemoveEntity (id : EntityID) (g : Game) : Game := removeEntity id g.

Definition EntityCount (g : Game) : nat := size (Entities g).

Definition near_grid (size : float64) (gridX gridY : Z) (radius : float64) (e : Entity) : bool :=
  let center := mkVector3 (fadd (fmul (of_int gridX) size) (fdiv size (of_int 2))) fzero
                          (fadd (fmul (of_int gridY) size) (fdiv size (of_int 2))) in
  in_disc center radius (Position e).

Definition EntitiesNearGrid (space : RuntimeID) (gridX gridY : Z) (radius : float64) (g : Game) : list loc :=
  '(_, sim) ← range_list (Zones g);
  match szone sim with
  | None => []
  | Some z =>
      if bool_decide (Zone.zRuntimeID z ≠ space) then []
      else if negb (Zone.GX (Zone.Grid z) =? gridX) || negb (Zone.GY (Zone.Grid z) =? gridY) then []
      else
        let size := if fleb (Zone.Size z) fzero then DefaultCellSize else Zone.Size z in
        '(_, p) ← range_list (sentities sim);
        match eheap g !! p with
        | Some e => if near_grid size gridX gridY radius e then [p] else []
        | None => []
        end
  end.

(** ** Events *)

Definition count_metric (m : metric) (g : Game) : Game := g <| metrics ::= λ l, l ++ [m] |>.

(** [publish]: a non-blocking send; a full channel drops the event and counts it. *)
Definition publish (evt : Event) (g : Game) : Game :=
  if (length (Events g) <? InboxBufferSize)%nat
  then count_metric (RuntimeEvent (eventKindLabel (evKind evt))) (g <| Events ::= λ l, l ++ [evt] |>)
  else count_metric (Dropped "events" 1) g.

Definition publish_all (evts : list Event) (g : Game) : Game := foldl (λ g e, publish e g) g evts.

(** ** Commands *)

(** The [select] of a control-plane enqueue.  Which case fires is the
    environment's choice: the send, possible only while the channel has a
    free slot ([None]: the caller stays blocked), or the timer, which drops
    the command and counts it. *)
Definition enqueueCmd (timer_fires : bool) (c : cmd) (label : string) (g : Game) : option Game :=
  if timer_fires then Some (count_metric (Dropped label 1) g)
  else if (length (cmds g) <? cmdChannelBuffer)%nat then Some (g <| cmds ::= λ l, l ++ [c] |>)
  else None.

Definition EnqueueAddEntity (timer_fires : bool) (p : loc) (g : Game) : option Game :=
  enqueueCmd timer_fires (CmdAdd p) "cmds_add" g.
Definition EnqueueRemoveEntity (timer_fires : bool) (id : EntityID) (g : Game) : option Game :=
  enqueueCmd timer_fires (CmdRemove id) "cmds_remove" g.

Definition run_cmd (c : cmd) (g : Game) : Game :=
  match c with CmdAdd p => addEntity p g | CmdRemove id => removeEntity id g end.

(** [applyCmds]: at most [fuel] commands, stopping when the channel is empty. *)
Fixpoint applyCmds_loop (fuel : nat) (g : Game) : Game :=
  match fuel with
  | O => g
  | S fuel =>
      match cmds g with
      | [] => g
      | c :: rest => applyCmds_loop fuel (run_cmd c (g <| cmds := rest |>))
      end
  end.
Definition applyCmds (g : Game) : Game := applyCmds_loop cmdChannelBuffer g.

(** ** Movement replication *)

Definition enqueueMove (id : EntityID) (pos : Vector3) (g : Game) : Game :=
  match entityZone g !! id with
  | None => g
  | Some zid =>
      match Zones g !! zid with
      | None => g
      | Some sim =>
          let space := match entity_of g id with Some e => eRuntimeID e | None => "" end in
          publish_all
            (obsID ← in_range g (saoi sim) pos (aoiRadius g);
             if bool_decide (obsID = id) then []
             else [mkEvent EventMove space obsID id "" pos []]) g
      end
  end.

(** [sim.aoi.Move] for the zone an entity is registered in. *)
Definition move_in_zone (id : EntityID) (pos : Vector3) (g : Game) : Game :=
  match entityZone g !! id with
  | Some zid =>
      match Zones g !! zid with
      | Some sim => on_aoi (saoi sim) (Move id pos) g
      | None => g
      end
  | None => g
  end.

Definition dispatch_position (clientID : string) (payload : bytes) (g : Game) : Game :=
  match unmarshal_update payload with
  | None => g
  | Some upd =>
      match Entities g !! clientID with
      | None => g
      | Some p =>
          match eheap g !! p with
          | None => g
          | Some e =>
              let pos := default zero_vec (uPosition upd) in
              let e := e <| Position := pos |> in
              let g := g <| eheap ::= <[p := e]> |> in
              let g := move_in_zone (eID e) (Position e) g in
              enqueueMove (eID e) (Position e) g
          end
      end
  end.

Definition dispatch_action (clientID : string) (payload : bytes) (g : Game) : Game :=
  match unmarshal_action payload with
  | None => g
  | Some act =>
      match Entities g !! aEntityId act with
      | None => g
      | Some p =>
          match eheap g !! p with
          | None => g
          | Some e =>
              if bool_decide (eOwnerID e ≠ clientID) then g
              else match eLifecycle e with
                   | None => g
                   | Some _ => g <| eheap ::= <[p := OnAction (aAction act) (aPayload act) e]> |>
                   end
          end
      end
  end.

Definition dispatch_state (payload : bytes) (g : Game) : Game :=
  match unmarshal_state payload with
  | None => g
  | Some st =>
      match entity_of g (sEntityId st) with
      | None => g
      | Some e =>
          match entityZone g !! eID e with
          | None => g
          | Some zid =>
              match Zones g !! zid with
              | None => g
              | Some sim =>
                  publish_all
                    (obsID ← in_range g (saoi sim) (Position e) (aoiRadius g);
                     if bool_decide (obsID = eID e) then []
                     else [mkEvent EventState (eRuntimeID e) obsID (eID e) "" zero_vec payload]) g
              end
          end
      end
  end.

Definition dispatch (pkt : InboundPacket) (g : Game) : Game :=
  match Decode (Data pkt) with
  | (_, id, payload, _, _, None) =>
      if id =? PacketIDPositionUpdate then dispatch_position (ClientID pkt) payload g
      else if id =? PacketIDEntityAction then dispatch_action (ClientID pkt) payload g
      else if id =? PacketIDEntityState then dispatch_state payload g
      else g
  | (_, _, _, _, _, Some _) => g
  end.

(** ** The tick *)

(** One iteration of the [simulate] loop; [None] is a panic in a behaviour. *)
Definition simulate_one (seed : Z) (dt : Duration) (g : Game) (idp : EntityID * loc) : option Game :=
  let '(id, p) := idp in
  match eheap g !! p with
  | None => Some g
  | Some e =>
      match eLifecycle e with
      | None => Some g
      | Some _ =>
          let prev := Position e in
          e ← OnSimulate seed e dt;
          let g := g <| eheap ::= <[p := e]> |> in
          if vec_eqb (Position e) prev then Some g
          else Some (enqueueMove id (Position e) (move_in_zone id (Position e) g))
      end
  end.

Definition simulate (seed : Z) (dt : Duration) (g : Game) : option Game :=
  fold_option (simulate_one seed dt) g (range_list (Entities g)).

Definition ghost_id (id : EntityID) : EntityID := id +:+ "_ghost".
Definition remote_ghost_id (id : EntityID) : EntityID := id +:+ "@ghost".

Definition detect_one (zid : ZoneID) (aoi : loc) (now : Time) (g : Game) (idp : EntityID * loc) : Game :=
  let '(id, p) := idp in
  match eheap g !! p, entityAOI g !! id, aheap g !! aoi with
  | Some e, Some state, Some grid =>
      if bool_decide (CellCoord (lastPosition state) grid = CellCoord (Position e) grid) then g
      else
        let ghost := mkGhost ghostLocal id zid (lastPosition state) now (time_add now (ghostTTL g)) in
        on_aoi aoi (Enter (ghost_id id) (lastPosition state)) (g <| ghosts ::= <[ghost_id id := ghost]> |>)
  | _, _, _ => g
  end.

Definition detectZoneBoundaries (zid : ZoneID) (now : Time) (g : Game) : Game :=
  match Zones g !! zid with
  | None => g
  | Some sim => foldl (detect_one zid (saoi sim) now) g (range_list (sentities sim))
  end.

Definition sweep_ghost (now : Time) (g : Game) (ig : EntityID * ghostEntry) : Game :=
  let '(id, ghost) := ig in
  if negb (time_after now (expiresAt ghost)) then g
  else
    let g := match Zones g !! originZone ghost with
             | Some sim => on_aoi (saoi sim) (Leave id) g
             | None => g
             end in
    g <| ghosts ::= delete id |>.

Definition sweepGhosts (now : Time) (g : Game) : Game :=
  foldl (sweep_ghost now) g (range_list (ghosts g)).

Definition GhostCount (g : Game) : nat := size (ghosts g).

(** [currentSet]: the set of identifiers in range, as a Go map. *)
Definition set_of (ids : list EntityID) : gmap EntityID () := list_to_map ((λ id, (id, ())) <$> ids).

Definition spawn_events (g : Game) (e : Entity) (old cur : gmap EntityID ()) : list Event :=
  '(id, _) ← range_list cur;
  if bool_decide (is_Some (old !! id) ∨ id = eID e) then []
  else match entity_of g id with
       | Some other => [mkEvent EventSpawn (eRuntimeID e) (eID e) (eID other) (eType other) (Position other) []]
       | None => []
       end.

Definition despawn_events (e : Entity) (old cur : gmap EntityID ()) : list Event :=
  '(id, _) ← range_list old;
  if bool_decide (is_Some (cur !! id)) then []
  else [mkEvent EventDespawn (eRuntimeID e) (eID e) id "" zero_vec []].

Definition update_one (aoi : loc) (g : Game) (idp : EntityID * loc) : Game :=
  match eheap g !! idp.2 with
  | None => g
  | Some e =>
      let currentSet := set_of (in_range g aoi (Position e) (aoiRadius g)) in
      let state := default (mkAOIState ∅ (Position e)) (entityAOI g !! eID e) in
      let g := publish_all (spawn_events g e (visible state) currentSet) g in
      let g := publish_all (despawn_events e (visible state) currentSet) g in
      g <| entityAOI ::= <[eID e := mkAOIState currentSet (Position e)]> |>
  end.

Definition updateVisibility (zid : ZoneID) (g : Game) : Game :=
  match Zones g !! zid with
  | None => g
  | Some sim => foldl (update_one (saoi sim)) g (range_list (sentities sim))
  end.

(** ** Sessions *)

Definition MarkDisconnected (id : EntityID) (now : Time) (g : Game) : Game :=
  match Entities g !! id with
  | None => g
  | Some _ => g <| sessionStates ::= <[id := mkSession SessionDisconnected now]> |>
  end.

Definition MarkReconnected (id : EntityID) (g : Game) : Game :=
  g <| sessionStates ::= <[id := mkSession SessionActive zero_time]> |>.

Definition IsDisconnected (id : EntityID) (g : Game) : bool :=
  match sessionStates g !! id with
  | Some st => bool_decide (sstatus st = SessionDisconnected)
  | None => false
  end.

Definition session_expired (now : Time) (g : Game) (st : sessionState) : bool :=
  bool_decide (sstatus st = SessionDisconnected) &&
  (reconnectWindow g <? time_sub now (disconnectedAt st)).

Definition sweep_session (now : Time) (g : Game) (ids : EntityID * sessionState) : Game :=
  let '(id, st) := ids in
  if negb (session_expired now g st) then g
  else
    let g := match entityZone g !! id with
             | Some zid =>
                 match aoiIndex g !! zid with
                 | Some l => on_aoi l (Leave id) g
                 | None => g
                 end
             | None => g
             end in
    forget id g <| sessionStates ::= delete id |>.

Definition SweepDisconnected (now : Time) (g : Game) : Game :=
  foldl (sweep_session now) g (range_list (sessionStates g)).

(** ** Snapshots *)

Definition snapshot_rows (g : Game) (sim : zoneSim) : list SnapshotRow :=
  '(_, p) ← range_list (sentities sim);
  match eheap g !! p with
  | Some e => [mkRow (eID e) (eType e) (String.string_of_list_byte (default [] (Attrs e !! "behavior")))
                 (X (Position e)) (Y (Position e)) (Z_ (Position e))]
  | None => []
  end.

Definition snapshot_zone (g : Game) (zs : ZoneID * zoneSim) : Game :=
  match json_rows (snapshot_rows g zs.2) with
  | None => g
  | Some data => g <| saved ::= λ l, l ++ [(zs.1, data, tickCount g)] |>
  end.

Definition snapshotAllZones (g : Game) : Game :=
  if negb (snapshotter g) then g else foldl snapshot_zone g (range_list (Zones g)).

Definition zoneIDs (g : Game) : list ZoneID := (range_list (Zones g)).*1.

(** Per-tick gauges: queue depths, active spaces, entity counts by type. *)
Definition entities_by_type (g : Game) : gmap string nat :=
  foldl (λ m '(_, p), match eheap g !! p with
                      | Some e => <[eType e := S (default 0%nat (m !! eType e))]> m
                      | None => m
                      end) ∅ (range_list (Entities g)).

Definition active_spaces (g : Game) : gset RuntimeID :=
  foldl (λ s '(_, sim), match szone sim with
                        | Some z => if bool_decide (Zone.zRuntimeID z ≠ "")
                                    then {[Zone.zRuntimeID z]} ∪ s else s
                        | None => s
                        end) ∅ (range_list (Zones g)).

Definition reportGauges (g : Game) : Game :=
  let g := count_metric (QueueDepth "inbox" (length (Inbox g))) g in
  let g := count_metric (QueueDepth "events" (length (Events g))) g in
  let g := count_metric (QueueDepth "cmds" (length (cmds g))) g in
  let g := count_metric (ActiveSpaces (size (active_spaces g))) g in
  foldl (λ g '(typ, n), count_metric (EntityCount_ typ n) g) g (range_list (entities_by_type g)).

(** The bounded drain of the inbox: [fuel] is [maxPacketsPerTick]. *)
Fixpoint drain (fuel : nat) (g : Game) : Game :=
  match fuel with
  | O => g
  | S fuel =>
      match Inbox g with
      | [] => g
      | pkt :: rest => drain fuel (dispatch pkt (g <| Inbox := rest |>))
      end
  end.

(** The clock readings of one tick, in the order they are taken. *)
Record TickClock := mkClock {
  tStart : Time;     (* now *)
  tSeed : Z;         (* seeds of random generators created this tick *)
  tDetect : Time;    (* detectZoneBoundaries *)
  tGhosts : Time;    (* sweepGhosts *)
  tSessions : Time;  (* SweepDisconnected *)
  tEnd : Time        (* end of tick *)
}.

Definition tick_delta (now : Time) (g : Game) : Duration :=
  let last := if time_is_zero (lastTickAt g) then now else lastTickAt g in
  let dt := time_sub now last in
  if maxTickDelta <? dt then maxTickDelta else dt.

Definition snapshot_due (g : Game) : bool :=
  snapshotter g && (0 <? snapshotEvery g) && (Z.rem (tickCount g) (snapshotEvery g) =? 0).

Definition update_zones (now : Time) (zids : list ZoneID) (g : Game) : Game :=
  foldl (λ g zid, updateVisibility zid (detectZoneBoundaries zid now g)) g zids.

Definition tick (c : TickClock) (g : Game) : option Game :=
  let dt := tick_delta (tStart c) g in
  let g := g <| lastTickAt := tStart c |> in
  let g := applyCmds g in
  let g := drain maxPacketsPerTick g in
  let g := g <| tickCount ::= λ n, wrap64 (n + 1) |> in
  let g := if snapshot_due g then snapshotAllZones g else g in
  g ← simulate (tSeed c) dt g;
  let g := update_zones (tDetect c) (zoneIDs g) g in
  let g := sweepGhosts (tGhosts c) g in
  let g := SweepDisconnected (tSessions c) g in
  let elapsed := time_sub (tEnd c) (tStart c) in
  let g := count_metric (TickDuration elapsed) g in
  let g := if tickRate g <? elapsed then count_metric TickOverrun g else g in
  Some (reportGauges g).

Definition Tick (c : TickClock) (g : Game) : option Game := tick c g.

(** [Run]: the ticker or the context wakes the loop; the loop ends when the
    context is done ([true]).  [time.NewTicker] panics unless its interval is
    positive. *)
Inductive wakeup := CtxDone | TickerFired (c : TickClock).

Fixpoint Run_loop (evs : list wakeup) (g : Game) : option (Game * bool) :=
  match evs with
  | [] => Some (g, false)
  | CtxDone :: _ => Some (g, true)
  | TickerFired c :: evs => g ← tick c g; Run_loop evs g
  end.

Definition Run (evs : list wakeup) (g : Game) : option (Game * bool) :=
  if tickRate g <=? 0 then None else Run_loop evs g.

End game.
