(* ===== verification/Peers.v ===== *)
(** * Connections to peer servers

    [PeerRegistry] of [internal/game/peer.go]: one client connection per peer
    server.  Connections are objects with an address and a state; dialling is
    [grpc.NewClient], a parameter that rejects some addresses, and every
    connection it makes is new. *)

From S2P Require Import Prelude Types.
From stdpp Require Import base tactics list gmap strings.
From Stdlib Require Import ZArith Lia.

(** [grpc.NewClient] on an address: [Some] error, or success. *)
Class Dialer := dial_error : string → option string.

Section peers.
Context `{D : Dialer} `{RO : !RangeOrder} {Q : Type}.

Record peerConn := mkPeerConn { pcTarget : ServerID; pcAddr : string; pcConn : positive }.

(** The connections of the process: those not closed yet, with their address. *)
Record PeerRegistry := mkPeers {
  conns : gmap ServerID peerConn;
  peer_querier : option Q;
  opened : gmap positive string;
  next_conn : positive
}.

Definition NewPeerRegistry : PeerRegistry := mkPeers ∅ None ∅ 1.

Definition close_conn (c : positive) (p : PeerRegistry) : PeerRegistry :=
  mkPeers (conns p) (peer_querier p) (delete c (opened p)) (next_conn p).

Definition dial_peer (serverID : ServerID) (addr : string) (p : PeerRegistry) : option string * PeerRegistry :=
  match dial_error addr with
  | Some e => (Some ("dial peer " +:+ addr +:+ ": " +:+ e), p)
  | None =>
      let c := next_conn p in
      (None, mkPeers (<[serverID := mkPeerConn serverID addr c]> (conns p)) (peer_querier p)
               (<[c := addr]> (opened p)) (Pos.succ c))
  end.

Definition Upsert (serverID : ServerID) (addr : string) (p : PeerRegistry) : option string * PeerRegistry :=
  match conns p !! serverID with
  | Some pc =>
      if bool_decide (pcAddr pc = addr) then (None, p)
      else
        let p := close_conn (pcConn pc) p in
        dial_peer serverID addr (mkPeers (delete serverID (conns p)) (peer_querier p) (opened p) (next_conn p))
  | None => dial_peer serverID addr p
  end.

(** The client is the one of the connection. *)
Definition Client (serverID : ServerID) (p : PeerRegistry) : option positive := pcConn <$> conns p !! serverID.

Definition SetQuerier (q : Q) (p : PeerRegistry) : PeerRegistry := mkPeers (conns p) (Some q) (opened p) (next_conn p).
Definition Querier (p : PeerRegistry) : option Q := peer_querier p.

Definition ClosePeers (p : PeerRegistry) : PeerRegistry :=
  let p := foldl (λ p '(_, pc), close_conn (pcConn pc) p) p (range_list (conns p)) in
  mkPeers ∅ (peer_querier p) (opened p) (next_conn p).

Inductive peer_op := PUpsert (serverID : ServerID) (addr : string) | PSetQuerier (q : Q) | PClose.
Definition peer_step (p : PeerRegistry) (op : peer_op) : PeerRegistry :=
  match op with
  | PUpsert serverID addr => (Upsert serverID addr p).2
  | PSetQuerier q => SetQuerier q p
  | PClose => ClosePeers p
  end.

(** ** Connections do not leak *)

(** The open connections are those of the registry, each to the address of
    its entry, and no two entries share one. *)
Record peers_wf (p : PeerRegistry) : Prop := {
  pw_target : ∀ id pc, conns p !! id = Some pc → pcTarget pc = id;
  pw_open : ∀ id pc, conns p !! id = Some pc → opened p !! pcConn pc = Some (pcAddr pc);
  pw_owned : ∀ c addr, opened p !! c = Some addr → ∃ id pc, conns p !! id = Some pc ∧ pcConn pc = c;
  pw_inj : ∀ id id' pc pc', conns p !! id = Some pc → conns p !! id' = Some pc' → pcConn pc = pcConn pc' → id = id';
  pw_fresh : ∀ c, is_Some (opened p !! c) → (c < next_conn p)%positive
}.

Lemma NewPeerRegistry_wf : peers_wf NewPeerRegistry.
Proof. split; intros *; cbn; rewrite ?lookup_empty; try done; by intros []. Qed.

Lemma dial_peer_wf id addr p : conns p !! id = None → peers_wf p → peers_wf (dial_peer id addr p).2.
Proof.
  intros Hid [H1 H2 H3 H4 H5]. unfold dial_peer. destruct (dial_error addr); [done|]. cbn.
  assert (opened p !! next_conn p = None) as Hf.
  { destruct (opened p !! next_conn p) eqn:E; [|done]. specialize (H5 (next_conn p)). rewrite E in H5. specialize (H5 ltac:(eauto)). lia. }
  assert (∀ i pc, conns p !! i = Some pc → pcConn pc ≠ next_conn p) as Hne.
  { intros i pc Hi E. rewrite <-E in Hf. by rewrite (H2 _ _ Hi) in Hf. }
  split; cbn.
  - intros i pc [[<- <-]|[? ?]]%lookup_insert_Some; [done|auto].
  - intros i pc [[<- <-]|[? Hi]]%lookup_insert_Some; cbn; [by rewrite lookup_insert_eq|].
    rewrite lookup_insert_ne by (intros E; by apply (Hne _ _ Hi)). by apply (H2 i).
  - intros c a [[<- <-]|[? Hc]]%lookup_insert_Some.
    + exists id, (mkPeerConn id addr (next_conn p)). by rewrite lookup_insert_eq.
    + destruct (H3 _ _ Hc) as (i & pc & Hi & E). exists i, pc. rewrite lookup_insert_ne by congruence. done.
  - intros i i' pc pc' [[<- <-]|[? Hi]]%lookup_insert_Some [[<- <-]|[? Hi']]%lookup_insert_Some; cbn; [done|..].
    + intros E. by destruct (Hne _ _ Hi').
    + intros E. by destruct (Hne _ _ Hi).
    + by apply H4.
  - intros c [a [[<- <-]|[? Hc]]%lookup_insert_Some]; [lia|]. assert (is_Some (opened p !! c)) as Hs by eauto.
    apply H5 in Hs. lia.
Qed.

(** Closing the connection of an entry and removing the entry. *)
Lemma drop_peer_wf id pc p :
  conns p !! id = Some pc → peers_wf p →
  peers_wf (mkPeers (delete id (conns p)) (peer_querier p) (delete (pcConn pc) (opened p)) (next_conn p)).
Proof.
  intros Hid [H1 H2 H3 H4 H5]. split; cbn.
  - intros i pc' [? ?]%lookup_delete_Some. auto.
  - intros i pc' [Hne Hi]%lookup_delete_Some. rewrite lookup_delete_ne; [by apply (H2 i)|].
    intros E. apply Hne. by eapply H4.
  - intros c a [Hne Hc]%lookup_delete_Some. destruct (H3 _ _ Hc) as (i & pc' & Hi & E). exists i, pc'.
    split; [|done]. rewrite lookup_delete_ne; [done|]. intros ->. congruence.
  - intros i i' pc1 pc2 [_ ?]%lookup_delete_Some [_ ?]%lookup_delete_Some. by apply H4.
  - intros c [a [_ Hc]%lookup_delete_Some]. apply H5. eauto.
Qed.

Lemma Upsert_wf id addr p : peers_wf p → peers_wf (Upsert id addr p).2.
Proof.
  intros Hp. unfold Upsert. destruct (conns p !! id) as [pc|] eqn:E; [|by apply dial_peer_wf].
  case_bool_decide; [done|]. apply dial_peer_wf; cbn; [by rewrite lookup_delete_eq|]. by apply drop_peer_wf.
Qed.

Lemma close_all_opened (l : list (ServerID * peerConn)) p c :
  opened (foldl (λ p '(_, pc), close_conn (pcConn pc) p) p l) !! c =
  if decide (c ∈ pcConn <$> l.*2) then None else opened p !! c.
Proof.
  revert p. induction l as [|[i pc] l IH]; intros p; cbn [foldl fmap list_fmap]; [done|]. rewrite IH. cbn [close_conn opened snd].
  destruct (decide (c ∈ pcConn <$> l.*2)) as [H|H]; [rewrite decide_True; [done|by right]|].
  destruct (decide (c = pcConn pc)) as [-> | Hne].
  - rewrite lookup_delete_eq, decide_True; [done|left].
  - rewrite lookup_delete_ne by done. rewrite decide_False; [done|]. by intros [?|?]%elem_of_cons.
Qed.

Lemma ClosePeers_opened p : peers_wf p → opened (ClosePeers p) = ∅.
Proof.
  intros Hp. apply map_eq. intros c. cbn. rewrite close_all_opened, lookup_empty.
  destruct (decide _) as [H|H]; [done|]. destruct (opened p !! c) as [a|] eqn:E; [|done]. exfalso. apply H.
  destruct (pw_owned p Hp _ _ E) as (i & pc & Hi & <-). apply list_elem_of_fmap_2, list_elem_of_fmap. exists (i, pc).
  split; [done|]. by apply elem_of_range_list.
Qed.

Lemma ClosePeers_wf p : peers_wf p → peers_wf (ClosePeers p).
Proof.
  intros Hp. pose proof (ClosePeers_opened p Hp) as Ho. split; rewrite ?Ho; try (intros *; cbn; rewrite ?lookup_empty; done).
Qed.

Lemma Upsert_conns id addr p e p' :
  Upsert id addr p = (e, p') →
  (e = None → ∃ pc, conns p' !! id = Some pc ∧ pcAddr pc = addr) ∧ (e ≠ None → conns p' !! id = None) ∧
  (∀ id', id' ≠ id → conns p' !! id' = conns p !! id').
Proof.
  assert (∀ q, conns q !! id = None → dial_peer id addr q = (e, p') →
    (e = None → ∃ pc, conns p' !! id = Some pc ∧ pcAddr pc = addr) ∧ (e ≠ None → conns p' !! id = None) ∧
    (∀ id', id' ≠ id → conns p' !! id' = conns q !! id')) as Hd.
  { intros q Hq. unfold dial_peer. destruct (dial_error addr) as [m|]; intros [= <- <-]; [by split_and!|]. cbn. split_and!; [|done|].
    - intros _. rewrite lookup_insert_eq. by eexists.
    - intros i Hi. by rewrite lookup_insert_ne. }
  unfold Upsert. destruct (conns p !! id) as [pc|] eqn:E; [|by apply Hd]. case_bool_decide.
  - intros [= <- <-]. split_and!; [by eauto|done|done].
  - intros H'. destruct (Hd _ (lookup_delete_eq _ _) H') as (H1 & H2 & H3). split_and!; [done|done|].
    intros i Hi. rewrite H3 by done. cbn. by rewrite lookup_delete_ne.
Qed.

(** The peer registry never leaks a connection and never hands out a closed
    one: after any sequence of operations the open connections are exactly
    those of its entries, each to the address of its entry; [Upsert] on an
    address that can be dialled makes the peer reachable there, a failing
    redial removes the peer, and in both cases the others keep their
    connections; [Close] closes everything. *)
Theorem peers_exact (ops : list peer_op) (id : ServerID) (addr : string) :
  let p := foldl peer_step NewPeerRegistry ops in
  (∀ c, is_Some (opened p !! c) ↔ ∃ id, Client id p = Some c) ∧
  (∀ id c pc, conns p !! id = Some pc → Client id p = Some c → opened p !! c = Some (pcAddr pc)) ∧
  (let '(e, p') := Upsert id addr p in
   (e = None → ∃ c, Client id p' = Some c ∧ opened p' !! c = Some addr) ∧
   (e ≠ None → Client id p' = None) ∧
   (∀ id' c, id' ≠ id → Client id' p = Some c → Client id' p' = Some c ∧ opened p' !! c = opened p !! c)) ∧
  opened (ClosePeers p) = ∅.
Proof.
  cbv zeta. set (p := foldl peer_step NewPeerRegistry ops).
  assert (peers_wf p) as Hp.
  { apply foldl_invariant; [apply NewPeerRegistry_wf|]. intros q [i a|q'|] _ Hq; cbn; [by apply Upsert_wf| |by apply ClosePeers_wf].
    destruct Hq. by split. }
  clearbody p. split_and!.
  - intros c. unfold Client. split.
    + intros [a Ha]. destruct (pw_owned p Hp _ _ Ha) as (i & pc & Hi & <-). exists i. by rewrite Hi.
    + intros [i (pc & Hi & ->)%fmap_Some_1]. pose proof (pw_open p Hp _ _ Hi). eauto.
  - intros i c pc Hi. unfold Client. rewrite Hi. intros [= <-]. by apply (pw_open p Hp _ _ Hi).
  - pose proof (Upsert_wf id addr p Hp) as Hw. destruct (Upsert id addr p) as [e p'] eqn:E. cbn [snd] in Hw. 
    destruct (Upsert_conns _ _ _ _ _ E) as (H1 & H2 & H3). unfold Client. split_and!.
    + intros He. destruct (H1 He) as (pc & Hpc & <-). exists (pcConn pc). rewrite Hpc. split; [done|]. by apply (pw_open p' Hw _ _ Hpc).
    + intros He. by rewrite (H2 He).
    + intros id' c Hne. rewrite H3 by done. intros Hc. split; [done|]. apply fmap_Some_1 in Hc as (pc & Hpc & E'). subst c.
      rewrite (pw_open p Hp _ _ Hpc). apply (pw_open p' Hw id'). by rewrite H3.
  - by apply ClosePeers_opened.
Qed.
End peers.
