(* ===== verification/Boundary.v ===== *)
(** * Cross-server boundaries

    [internal/game/boundary.go] (ghosts of neighbouring zones, migration of
    entities and zones), the querier of [peer.go] and [probes.go]. *)

From S2P Require Import Prelude GoFloat Types Protocol Aoi Entity Game.
From stdpp Require Import base tactics list gmap strings.
From Stdlib Require Import ZArith Lia.

Local Open Scope Z_scope.

Record remoteGhost := mkRemoteGhost {
  rgEntityID : EntityID;
  rgZoneID : ZoneID;
  rgTyp : string;
  rgPosition : Vector3;
  rgExpiresAt : Time
}.

Definition toEntry (r : remoteGhost) (now : Time) (ttl : Duration) : ghostEntry :=
  mkGhost ghostRemote (rgEntityID r) (rgZoneID r) (rgPosition r) now (rgExpiresAt r).

Section boundary.
Context `{GM : GoMath} `{GZ : Gzip} `{GB : Gob} `{CD : Codecs} `{RO : RangeOrder}.

Definition SetNeighborQuerier (q : ZoneID → Z → Z → float64 → list neighborEntity) (g : Game) : Game :=
  g <| querier := Some q |>.

(** [g.ghostTTL * 6] at the width of a duration. *)
Definition remoteTTL (g : Game) : Duration := wrap64 (ghostTTL g * 6).

(** A write to the map [g.ghostStore[zone]], which the callers hold by reference. *)
Definition on_store (zid : ZoneID) (f : gmap EntityID ghostEntry → gmap EntityID ghostEntry) (g : Game) : Game :=
  g <| ghostStore ::= alter f zid |>.

Definition store_of (g : Game) (zid : ZoneID) : gmap EntityID ghostEntry := default ∅ (ghostStore g !! zid).

Definition reconcile_one (ownerZone neighborZone : ZoneID) (grid : loc) (now : Time)
    (g : Game) (n : neighborEntity) : Game :=
  let ghostID := remote_ghost_id (nID n) in
  let g := match store_of g ownerZone !! ghostID with
           | None => on_aoi grid (Enter ghostID (nPos n)) g
           | Some _ => on_aoi grid (Move ghostID (nPos n)) g
           end in
  on_store ownerZone
    <[ghostID := mkGhost ghostRemote (nID n) neighborZone (nPos n) now (time_add now (remoteTTL g))]> g.

Definition expire_one (ownerZone : ZoneID) (grid : loc) (seen : gset EntityID) (now : Time)
    (g : Game) (ge : EntityID * ghostEntry) : Game :=
  if bool_decide (ge.1 ∈ seen) then g
  else if (remote ge.2).2 && time_after now (expiresAt ge.2)
       then on_store ownerZone (delete ge.1) (on_aoi grid (Leave ge.1) g)
       else g.

Definition ReconcileNeighborGhosts (ownerZone neighborZone : ZoneID) (now : Time) (g : Game) : Game :=
  match aoiIndex g !! ownerZone, ghostStore g !! ownerZone with
  | Some grid, Some _ =>
      match Zones g !! ownerZone ≫= szone with
      | None => g
      | Some z =>
          match querier g with
          | None => g
          | Some q =>
              let results := q neighborZone (Zone.GX (Zone.Grid z)) (Zone.GY (Zone.Grid z)) (aoiRadius g) in
              let seen := list_to_set ((λ n, remote_ghost_id (nID n)) <$> results) in
              let g := foldl (reconcile_one ownerZone neighborZone grid now) g results in
              foldl (expire_one ownerZone grid seen now) g (range_list (store_of g ownerZone))
          end
      end
  | _, _ => g
  end.

Definition snap_of (e : Entity) : EntitySnapshot := mkEntitySnapshot (eID e) (eType e) (Some (Position e)).

Definition queryLocal (zoneID : ZoneID) (gridX gridY : Z) (radius : float64) (g : Game) : list EntitySnapshot :=
  match aoiIndex g !! zoneID with
  | None => []
  | Some grid =>
      let center := mkVector3 (fmul (of_int gridX) DefaultCellSize) fzero (fmul (of_int gridY) DefaultCellSize) in
      id ← in_range g grid center radius;
      match entity_of g id with Some e => [snap_of e] | None => [] end
  end.

Definition QueryLocal (zoneID : ZoneID) (gridX gridY : Z) (radius : float64) (g : Game) : list EntitySnapshot :=
  queryLocal zoneID gridX gridY radius g.

Definition ghostStoreCount (g : Game) (zoneID : ZoneID) : nat := size (store_of g zoneID).

(** The grid and the ghost store of a zone, both present. *)
Definition boundary_grid (g : Game) (zoneID : ZoneID) : option loc :=
  match aoiIndex g !! zoneID, ghostStore g !! zoneID with
  | Some grid, Some _ => Some grid
  | _, _ => None
  end.

Definition ApplyEntityEnter (zoneID : ZoneID) (entityID : EntityID) (typ : string) (pos : Vector3)
    (now : Time) (g : Game) : Game :=
  match boundary_grid g zoneID with
  | None => g
  | Some grid =>
      let ghostID := remote_ghost_id entityID in
      let g := on_aoi grid (Enter ghostID pos) g in
      on_store zoneID
        <[ghostID := mkGhost ghostRemote entityID zoneID pos now (time_add now (remoteTTL g))]> g
  end.

Definition ApplyEntityLeave (zoneID : ZoneID) (entityID : EntityID) (g : Game) : Game :=
  match boundary_grid g zoneID with
  | None => g
  | Some grid =>
      let ghostID := remote_ghost_id entityID in
      on_store zoneID (delete ghostID) (on_aoi grid (Leave ghostID) g)
  end.

Definition ApplyEntityUpdate (zoneID : ZoneID) (entityID : EntityID) (pos : Vector3)
    (now : Time) (g : Game) : Game :=
  match boundary_grid g zoneID with
  | None => g
  | Some grid =>
      let ghostID := remote_ghost_id entityID in
      match store_of g zoneID !! ghostID with
      | None => g
      | Some entry =>
          let g := on_aoi grid (Move ghostID pos) g in
          on_store zoneID
            <[ghostID := mkGhost (kind entry) (gentityID entry) (originZone entry) pos
                           (createdAt entry) (time_add now (remoteTTL g))]> g
      end
  end.

(** ** Migration *)

(** [entity.New] with an empty runtime, placed in a zone at the snapshot's position. *)
Definition entity_of_snap (snap : EntitySnapshot) (zid : ZoneID) : Entity :=
  Entity.New (snEntityId snap) (snType snap) ""
    <| eZoneID := zid |> <| Position := default zero_vec (snPosition snap) |>.

Definition MigrateEntityIn (snap : EntitySnapshot) (targetZone : ZoneID) (g : Game) : Game :=
  let '(p, g) := alloc_entity (entity_of_snap snap targetZone) g in
  AddEntity p g.

Definition MigrateEntityOut (id : EntityID) (g : Game) : Game := removeEntity id g.

(** The body of the loop of [SnapshotZone]. *)
Definition zone_snap (g : Game) (zoneID : ZoneID) (iz : EntityID * ZoneID) : list EntitySnapshot :=
  if bool_decide (iz.2 ≠ zoneID) then []
  else match entity_of g iz.1 with Some e => [snap_of e] | None => [] end.

Definition SnapshotZone (zoneID : ZoneID) (g : Game) : option ZoneSnapshot :=
  match aoiIndex g !! zoneID with
  | None => None
  | Some grid =>
      let snaps := range_list (entityZone g) ≫= zone_snap g zoneID in
      let state := match aheap g !! grid with Some a => (Serialize a).1.1 | None => [] end in
      Some (mkZoneSnapshot zoneID snaps state)
  end.

Definition ensure_index (snap : ZoneSnapshot) (g : Game) : Game :=
  match aoiIndex g !! zsZoneId snap with
  | Some _ => g
  | None =>
      let '(l, g) := alloc_aoi (Deserialize DefaultCellSize (aoiRadius g) (zsAoiState snap)) g in
      g <| aoiIndex ::= <[zsZoneId snap := l]> |> <| ghostStore ::= <[zsZoneId snap := ∅]> |>
  end.

Definition LoadZoneSnapshot (snap : ZoneSnapshot) (g : Game) : Game :=
  foldl (λ g esnap, MigrateEntityIn esnap (zsZoneId snap) g) (ensure_index snap g) (zsEntities snap).

Definition StreamZoneState (zoneID : ZoneID) (send : ZoneSnapshot → option error) (g : Game) : option error :=
  match SnapshotZone zoneID g with
  | None => Some (Wrapped ("zone " +:+ zoneID) ErrNotFound)
  | Some snap => send snap
  end.

(** ** Probes *)

Record Snapshot := mkSnapshot {
  pEntityCount : nat;
  pGhostCount : nat;
  pZoneOwners : gmap ZoneID ServerID;
  pQueueDepths : gmap string nat
}.

Definition Probe (g : Game) : Snapshot :=
  mkSnapshot (size (Entities g)) (size (ghosts g))
    ((λ _, gServerID g) <$> Zones g)
    (<["cmds" := length (cmds g)]> (<["events" := length (Events g)]> {["inbox" := length (Inbox g)]})).

End boundary.
