(* ===== verification/GameInv.v ===== *)
(** * The invariant of the simulation state

    [game_wf] collects what the methods of [Game] rely on: the registries
    agree with each other, every pointer they hold is valid, an entity sits in
    the zone and in the Space of the zone object that lists it, grids are not
    shared between zones, and the channels respect their capacities.

    Most operations only change positions, grids, queues and ghosts: they are
    related by [frame], a preorder that preserves the invariant.  The others
    (adding, removing and forgetting entities, assigning and releasing zones,
    allocation) are treated one by one. *)

From S2P Require Import Prelude GoFloat Types Protocol Aoi Entity Game Boundary.
From stdpp Require Import base tactics list gmap strings.
From Stdlib Require Import ZArith Lia.

Local Open Scope Z_scope.

#[local] Opaque cmdChannelBuffer maxPacketsPerTick InboxBufferSize.

Section invariant.
Context `{GM : GoMath} `{GZ : Gzip} `{GB : Gob} `{CD : Codecs} `{RO : RangeOrder}.
Implicit Types g : Game.

(** ** The invariant *)

(** A zone of a named Space imposes its Space on the entity. *)
Definition in_space (sim : zoneSim) (e : Entity) : Prop :=
  ∀ z, szone sim = Some z → Zone.zRuntimeID z ≠ "" → eRuntimeID e = Zone.zRuntimeID z.

(** The grid at [l] is reachable from zone [z]. *)
Definition owns g (l : loc) (z : ZoneID) : Prop :=
  (∃ sim, Zones g !! z = Some sim ∧ saoi sim = l) ∨ aoiIndex g !! z = Some l.

Record game_wf g : Prop := {
  wf_entities : ∀ id p, Entities g !! id = Some p →
    ∃ z sim, entityZone g !! id = Some z ∧ Zones g !! z = Some sim ∧ sentities sim !! id = Some p;
  wf_entityZone : ∀ id, is_Some (entityZone g !! id) → is_Some (Entities g !! id);
  wf_entityAOI : ∀ id, is_Some (Entities g !! id) → is_Some (entityAOI g !! id);
  wf_sims : ∀ z sim id p, Zones g !! z = Some sim → sentities sim !! id = Some p →
    ∃ e, eheap g !! p = Some e ∧ eID e = id ∧ eZoneID e = z ∧ z ≠ "" ∧ in_space sim e;
  wf_zone_ids : ∀ z sim zn, Zones g !! z = Some sim → szone sim = Some zn → Zone.ID zn = z;
  wf_owner : ∀ l z1 z2, owns g l z1 → owns g l z2 → z1 = z2;
  wf_grids : ∀ l z, owns g l z → is_Some (aheap g !! l);
  wf_eheap : ∀ p e, eheap g !! p = Some e → entity_wf e ∧ (p < next g)%positive;
  wf_aheap : ∀ l a, aheap g !! l = Some a → (l < next g)%positive;
  wf_cmd : ∀ p, CmdAdd p ∈ cmds g → is_Some (eheap g !! p);
  wf_cmds : (length (cmds g) ≤ cmdChannelBuffer)%nat;
  wf_inbox : (length (Inbox g) ≤ InboxBufferSize)%nat;
  wf_events : (length (Events g) ≤ InboxBufferSize)%nat;
  wf_config : aoiRadius g = DefaultAOIRadius ∧ reconnectWindow g = 30 * Second ∧ ghostTTL g = 5 * Second
}.

(** A registered entity: the object, its identifier, its zone. *)
Lemma entity_of_wf g id e :
  game_wf g → entity_of g id = Some e →
  eID e = id ∧ ∃ p z sim, Entities g !! id = Some p ∧ eheap g !! p = Some e ∧
    entityZone g !! id = Some z ∧ Zones g !! z = Some sim ∧ sentities sim !! id = Some p ∧
    eZoneID e = z ∧ in_space sim e.
Proof.
  intros Hwf He. unfold entity_of in He. destruct (Entities g !! id) as [p|] eqn:Ep; [|done]. cbn in He.
  destruct (wf_entities _ Hwf _ _ Ep) as (z & s & Hz & Hs & Hsp).
  destruct (wf_sims _ Hwf _ _ _ _ Hs Hsp) as (e0 & He0 & Hid & Hez & _ & Hsp').
  simplify_eq. split; [done|]. exists p, (eZoneID e), s. by split_and!.
Qed.

Lemma entity_of_registered g id : game_wf g → is_Some (Entities g !! id) → is_Some (entity_of g id).
Proof.
  intros Hwf [p Hp]. unfold entity_of. rewrite Hp. cbn.
  destruct (wf_entities _ Hwf _ _ Hp) as (z & s & _ & Hs & Hsp).
  destruct (wf_sims _ Hwf _ _ _ _ Hs Hsp) as (e & ? & _). eauto.
Qed.

(** ** Frame *)

(** Entity objects keep their identity and stay well formed. *)
Definition heap_frame (h h' : gmap loc Entity) : Prop :=
  (∀ p e, h !! p = Some e → ∃ e', h' !! p = Some e' ∧ same_identity e e' ∧ (entity_wf e → entity_wf e')) ∧
  (∀ p, is_Some (h' !! p) → is_Some (h !! p)).

#[export] Instance heap_frame_preorder : PreOrder heap_frame.
Proof.
  split.
  - intros h. split; [|done]. intros p e He. exists e. by split_and!.
  - intros h1 h2 h3 [H1 H1'] [H2 H2']. split; [|auto].
    intros p e (e2 & (e3 & ? & ? & ?)%H2 & ? & ?)%H1. exists e3. split_and!; [done| |auto].
    by etrans.
Qed.

(** The input channels and the tick counters. *)
Definition queues g : list InboundPacket * list cmd * Z * Time :=
  (Inbox g, cmds g, tickCount g, lastTickAt g).

Record frame g g' : Prop := {
  fr_Zones : Zones g' = Zones g;
  fr_Entities : Entities g' = Entities g;
  fr_entityZone : entityZone g' = entityZone g;
  fr_aoiIndex : aoiIndex g' = aoiIndex g;
  fr_next : next g' = next g;
  fr_config : gServerID g' = gServerID g ∧ aoiRadius g' = aoiRadius g ∧
              reconnectWindow g' = reconnectWindow g ∧ ghostTTL g' = ghostTTL g;
  fr_eheap : heap_frame (eheap g) (eheap g');
  fr_aheap : ∀ l, is_Some (aheap g' !! l) ↔ is_Some (aheap g !! l);
  fr_entityAOI : ∀ id, is_Some (entityAOI g !! id) → is_Some (entityAOI g' !! id);
  fr_queues : queues g' = queues g;
  fr_events : (length (Events g) ≤ InboxBufferSize → length (Events g') ≤ InboxBufferSize)%nat
}.

#[export] Instance frame_preorder : PreOrder frame.
Proof.
  split.
  - intros g. by split.
  - intros g1 g2 g3 [] []. destruct_and?. split; try congruence.
    + split_and!; congruence.
    + by etrans.
    + naive_solver.
    + auto.
    + auto.
Qed.

Lemma frame_owns g g' l z : frame g g' → owns g' l z ↔ owns g l z.
Proof. intros []. unfold owns. by rewrite fr_Zones0, fr_aoiIndex0. Qed.

Lemma frame_wf g g' : frame g g' → game_wf g → game_wf g'.
Proof.
  intros Hf Hwf. pose proof (λ l z, frame_owns g g' l z Hf) as Hown. destruct Hf, Hwf.
  injection fr_queues0 as Hi Hc _ _.
  split.
  - rewrite fr_Entities0, fr_entityZone0, fr_Zones0. done.
  - by rewrite fr_Entities0, fr_entityZone0.
  - rewrite fr_Entities0. auto.
  - rewrite fr_Zones0. intros z sim id p Hz Hp.
    destruct (wf_sims0 z sim id p Hz Hp) as (e & He & <- & <- & Hne & Hsp).
    destruct (proj1 fr_eheap0 _ _ He) as (e' & He' & Hid & _).
    exists e'. unfold same_identity in Hid. destruct_and?. split_and!; try congruence.
    intros zn Hzn Hr. rewrite <-(Hsp zn Hzn Hr). done.
  - by rewrite fr_Zones0.
  - intros l z1 z2. rewrite !Hown. apply wf_owner0.
  - intros l z. rewrite Hown, fr_aheap0. apply wf_grids0.
  - intros p e' He'. destruct (proj2 fr_eheap0 p) as [e He]; [by eauto|].
    destruct (proj1 fr_eheap0 _ _ He) as (e'' & He'' & _ & Hw). simplify_eq.
    rewrite fr_next0. split; [apply Hw|]; by eapply wf_eheap0.
  - intros l a Ha. rewrite fr_next0. destruct (proj1 (fr_aheap0 l)) as [b Hb]; eauto.
  - rewrite Hc. intros p Hp. destruct (wf_cmd0 p) as [e He]; [auto|].
    destruct (proj1 fr_eheap0 _ _ He) as (e' & ? & _). eauto.
  - by rewrite Hc.
  - by rewrite Hi.
  - auto.
  - destruct_and?. split_and!; congruence.
Qed.

Ltac frame_solve :=
  split; cbn; try done; try (by intros; eauto); try (by split_and!); try lia.

Lemma fr_metric m g : frame g (count_metric m g).
Proof. frame_solve. Qed.

Lemma fr_publish evt g : frame g (publish evt g).
Proof.
  unfold publish. case_match eqn:E; [|apply fr_metric].
  apply Nat.ltb_lt in E. frame_solve. rewrite length_app. simpl. lia.
Qed.

Lemma fr_publish_all evts g : frame g (publish_all evts g).
Proof. apply (foldl_preorder frame). intros. apply fr_publish. Qed.

Lemma is_Some_alter {V} (f : V → V) (l k : loc) (h : gmap loc V) :
  is_Some (alter f l h !! k) ↔ is_Some (h !! k).
Proof. rewrite lookup_alter. case_decide; [subst|done]. by rewrite fmap_is_Some. Qed.

Lemma fr_on_aoi l f g : frame g (on_aoi l f g).
Proof. frame_solve. intros k. apply is_Some_alter. Qed.

Lemma fr_ghosts f g : frame g (g <| ghosts ::= f |>).
Proof. frame_solve. Qed.

Lemma fr_store zid f g : frame g (on_store zid f g).
Proof. frame_solve. Qed.

Lemma fr_entityAOI_insert id st g : frame g (g <| entityAOI ::= <[id := st]> |>).
Proof. frame_solve. intros k Hk. rewrite lookup_insert. case_decide; eauto. Qed.

(** Writing back an entity object with the same identity. *)
Lemma fr_heap_insert p e e' g :
  eheap g !! p = Some e → same_identity e e' → (entity_wf e → entity_wf e') →
  frame g (g <| eheap ::= <[p := e']> |>).
Proof.
  intros He Hid Hw. frame_solve. split.
  - intros q f Hq. rewrite lookup_insert. case_decide; simplify_eq; eauto.
    exists f. by split_and!.
  - intros q. rewrite lookup_insert. case_decide; subst; eauto.
Qed.

Lemma fr_move_in_zone id pos g : frame g (move_in_zone id pos g).
Proof. unfold move_in_zone. repeat case_match; try done. apply fr_on_aoi. Qed.

Lemma fr_enqueueMove id pos g : frame g (enqueueMove id pos g).
Proof. unfold enqueueMove. repeat case_match; try done; apply fr_publish_all. Qed.

Lemma same_identity_position (e : Entity) v : same_identity e (e <| Position := v |>).
Proof. by split_and!. Qed.

Lemma fr_dispatch pkt g : frame g (dispatch pkt g).
Proof.
  unfold dispatch. destruct (Decode (Data pkt)) as [[[[[? id] payload] ?] ?] []]; [done|].
  case_match; [|case_match; [|case_match; [|done]]].
  - unfold dispatch_position. repeat case_match; try done.
    etrans; [|apply fr_enqueueMove]. etrans; [|apply fr_move_in_zone].
    eapply fr_heap_insert; [done|apply same_identity_position|done].
  - unfold dispatch_action. repeat case_match; try done.
    eapply fr_heap_insert; [done|..]; unfold OnAction; repeat case_match; done.
  - unfold dispatch_state. repeat case_match; try done. apply fr_publish_all.
Qed.

(** Writes to the input queues and the counters commute with the frame. *)
Lemma frame_set_inbox x g g' : frame g g' → frame (g <| Inbox := x |>) (g' <| Inbox := x |>).
Proof. intros []. split; try done. unfold queues in *. cbn. congruence. Qed.

Lemma frame_set_cmds x g g' : frame g g' → frame (g <| cmds := x |>) (g' <| cmds := x |>).
Proof. intros []. split; try done. unfold queues in *. cbn. congruence. Qed.

Lemma set_inbox_id g : g <| Inbox := Inbox g |> = g.
Proof. by destruct g. Qed.

(** The drain takes the first [n] packets out of the inbox. *)
Lemma fr_drain n g : frame (g <| Inbox := drop n (Inbox g) |>) (drain n g).
Proof.
  revert g. induction n as [|n IH]; intros g; cbn [drain].
  { by rewrite drop_0, set_inbox_id. }
  destruct (Inbox g) as [|pkt rest] eqn:E; cbn [drop]; [by rewrite <-E, set_inbox_id|].
  set (g1 := g <| Inbox := rest |>). etrans; [|apply IH].
  pose proof (fr_dispatch pkt g1) as Hd.
  assert (Inbox (dispatch pkt g1) = rest) as -> by (destruct Hd; unfold queues in *; simplify_eq; done).
  change (g <| Inbox := drop n rest |>) with (g1 <| Inbox := drop n rest |>).
  by apply frame_set_inbox.
Qed.

Lemma fr_snapshotAllZones g : frame g (snapshotAllZones g).
Proof.
  unfold snapshotAllZones. case_match; [done|]. apply (foldl_preorder frame).
  intros h zs. unfold snapshot_zone. case_match; [frame_solve|done].
Qed.

Lemma fr_detect zid now g : frame g (detectZoneBoundaries zid now g).
Proof.
  unfold detectZoneBoundaries. case_match; [|done]. apply (foldl_preorder frame).
  intros h [id p]. unfold detect_one. repeat case_match; try done.
  etrans; [apply fr_ghosts|apply fr_on_aoi].
Qed.

Lemma fr_updateVisibility zid g : frame g (updateVisibility zid g).
Proof.
  unfold updateVisibility. case_match; [|done]. apply (foldl_preorder frame).
  intros h [id p]. unfold update_one. case_match; [|done].
  etrans; [|apply fr_entityAOI_insert]. etrans; apply fr_publish_all.
Qed.

Lemma fr_update_zones now zids g : frame g (update_zones now zids g).
Proof.
  apply (foldl_preorder frame). intros h zid. etrans; [apply fr_detect|apply fr_updateVisibility].
Qed.

Lemma fr_sweepGhosts now g : frame g (sweepGhosts now g).
Proof.
  apply (foldl_preorder frame). intros h [id gh]. unfold sweep_ghost.
  case_match; [done|]. case_match; [etrans; [apply fr_on_aoi|apply fr_ghosts]|apply fr_ghosts].
Qed.

Lemma fr_reportGauges g : frame g (reportGauges g).
Proof.
  unfold reportGauges. etrans; [|apply (foldl_preorder frame); intros ? [??]; apply fr_metric].
  repeat (etrans; [|apply fr_metric]). done.
Qed.

(** The simulation step succeeds on a well-formed heap and stays in the frame. *)
Definition heap_wf g : Prop := ∀ p e, eheap g !! p = Some e → entity_wf e.

Lemma frame_heap_wf g g' : frame g g' → heap_wf g → heap_wf g'.
Proof.
  intros [] Hw p e' He'. destruct (proj2 fr_eheap0 p) as [e He]; [by eauto|].
  destruct (proj1 fr_eheap0 _ _ He) as (e'' & ? & _ & Hw'). simplify_eq. eauto.
Qed.

Lemma fr_simulate_one seed dt g idp :
  heap_wf g → ∃ g', simulate_one seed dt g idp = Some g' ∧ frame g g'.
Proof.
  intros Hw. destruct idp as [id p]. unfold simulate_one.
  destruct (eheap g !! p) as [e|] eqn:He; [|by exists g].
  destruct (eLifecycle e) as [lc|] eqn:Elc; [|by exists g].
  destruct (OnSimulate_spec seed e dt (Hw _ _ He)) as (e' & -> & Hw' & Hid). cbn.
  assert (Hf : frame g (g <| eheap ::= <[p := e']> |>)) by by eapply fr_heap_insert.
  case_match; eexists; (split; [done|]); [done|].
  etrans; [|apply fr_enqueueMove]. etrans; [|apply fr_move_in_zone]. done.
Qed.

Lemma fr_simulate seed dt g :
  heap_wf g → ∃ g', simulate seed dt g = Some g' ∧ frame g g'.
Proof.
  intros Hw. unfold simulate.
  destruct (fold_option_invariant (simulate_one seed dt) (λ h, frame g h)
              (range_list (Entities g)) g) as (g' & ? & ?); [done| |by eauto].
  intros h x _ Hh. destruct (fr_simulate_one seed dt h x) as (h' & ? & ?).
  - by eapply frame_heap_wf.
  - exists h'. split; [done|]. by etrans.
Qed.

(** ** Boundary operations in the frame *)

Lemma fr_ReconcileNeighborGhosts o n now g : frame g (ReconcileNeighborGhosts o n now g).
Proof.
  unfold ReconcileNeighborGhosts. repeat case_match; try done.
  etrans; [|apply (foldl_preorder frame)].
  - apply (foldl_preorder frame). intros h nb. unfold reconcile_one.
    etrans; [|apply fr_store]. case_match; apply fr_on_aoi.
  - intros h [id ge]. unfold expire_one. repeat case_match; try done.
    etrans; [apply fr_on_aoi|apply fr_store].
Qed.

Lemma fr_ApplyEntityEnter z id typ pos now g : frame g (ApplyEntityEnter z id typ pos now g).
Proof. unfold ApplyEntityEnter. case_match; [|done]. etrans; [apply fr_on_aoi|apply fr_store]. Qed.

Lemma fr_ApplyEntityLeave z id g : frame g (ApplyEntityLeave z id g).
Proof. unfold ApplyEntityLeave. case_match; [|done]. etrans; [apply fr_on_aoi|apply fr_store]. Qed.

Lemma fr_ApplyEntityUpdate z id pos now g : frame g (ApplyEntityUpdate z id pos now g).
Proof.
  unfold ApplyEntityUpdate. repeat case_match; try done. etrans; [apply fr_on_aoi|apply fr_store].
Qed.

Lemma fr_MarkDisconnected id now g : frame g (MarkDisconnected id now g).
Proof. unfold MarkDisconnected. case_match; [frame_solve|done]. Qed.

Lemma fr_MarkReconnected id g : frame g (MarkReconnected id g).
Proof. frame_solve. Qed.

(** ** Allocation *)

Lemma wf_alloc_entity e g : entity_wf e → game_wf g → game_wf (alloc_entity e g).2.
Proof.
  intros He [].
  assert (Hold : ∀ p e0, eheap g !! p = Some e0 → <[next g := e]> (eheap g) !! p = Some e0).
  { intros p e0 Hp. rewrite lookup_insert_ne; [done|]. intros <-. apply wf_eheap0 in Hp. lia. }
  split; cbn; try done.
  - intros z sim id p Hz Hp. destruct (wf_sims0 _ _ _ _ Hz Hp) as (e0 & ? & ?). eauto.
  - intros p e0. rewrite lookup_insert. case_decide; [intros [= <-]; split; [done|lia]|].
    intros Hp. destruct (wf_eheap0 _ _ Hp). split; [done|lia].
  - intros l a Ha. apply wf_aheap0 in Ha. lia.
  - intros p Hp. destruct (wf_cmd0 p Hp). eauto.
Qed.

(** A fresh grid, stored in one zone's slots. *)
Lemma alloc_aoi_fresh g z : game_wf g → ~ owns g (next g) z.
Proof.
  intros [] Ho. destruct (wf_grids0 _ _ Ho) as [a Ha]. apply wf_aheap0 in Ha. lia.
Qed.

(** The state after a zone has been given a new grid: [zs] and [ix] say what
    is stored under its identifier in [Zones] and [aoiIndex]. *)
Lemma wf_new_grid g g' a z :
  game_wf g →
  eheap g' = eheap g → Entities g' = Entities g → entityZone g' = entityZone g →
  entityAOI g' = entityAOI g → cmds g' = cmds g → Inbox g' = Inbox g → Events g' = Events g →
  aoiRadius g' = aoiRadius g → reconnectWindow g' = reconnectWindow g → ghostTTL g' = ghostTTL g →
  next g' = Pos.succ (next g) → aheap g' = <[next g := a]> (aheap g) →
  (∀ l z', owns g' l z' → (l = next g ∧ z' = z) ∨ owns g l z') →
  (Zones g' = Zones g ∨
   ∃ s, Zones g !! z = None ∧ Zones g' = <[z := s]> (Zones g) ∧ sentities s = ∅ ∧
        ∀ zn, szone s = Some zn → Zone.ID zn = z) →
  game_wf g'.
Proof.
  intros Hwf He HE Hez Hea Hc Hi Hev Hr Hw Ht Hn Ha Hown HZ.
  assert (Hfresh := λ z', alloc_aoi_fresh g z' Hwf). pose proof Hwf as [].
  assert (Hz : ∀ z' sim, Zones g' !! z' = Some sim →
            Zones g !! z' = Some sim ∨ (sentities sim = ∅ ∧ ∀ zn, szone sim = Some zn → Zone.ID zn = z')).
  { destruct HZ as [->|(s & ? & -> & ? & ?)]; [by left|]. intros z' sim.
    rewrite lookup_insert. case_decide; [intros [= <-]; subst; by right|by left]. }
  assert (Hz' : ∀ z' sim, Zones g !! z' = Some sim → Zones g' !! z' = Some sim).
  { destruct HZ as [->|(s & ? & -> & ? & ?)]; [done|]. intros z' sim Hz'.
    rewrite lookup_insert_ne; [done|]. intros <-. congruence. }
  split; try (by rewrite ?HE, ?Hez, ?Hea, ?Hc, ?Hi, ?Hev, ?Hr, ?Hw, ?Ht).
  - rewrite HE, Hez. intros id p Hp. destruct (wf_entities0 id p Hp) as (z' & sim & ? & ? & ?).
    exists z', sim. by split_and!; [|apply Hz'|].
  - rewrite He. intros z' sim id p [Hs|[Hs _]]%Hz Hp; [by eapply wf_sims0|by rewrite Hs in Hp].
  - intros z' sim zn [Hs|[_ Hs]]%Hz Hzn; [by eapply wf_zone_ids0|auto].
  - intros l z1 z2 [[-> ->]|H1]%Hown [[E ->]|H2]%Hown; subst.
    + done.
    + by apply Hfresh in H2.
    + by apply Hfresh in H1.
    + by eapply wf_owner0.
  - rewrite Ha. intros l z' [[-> ->]|H1]%Hown; [by rewrite lookup_insert_eq; eauto|].
    rewrite lookup_insert. case_decide; [eauto|]. by eapply wf_grids0.
  - rewrite He, Hn. intros p e Hp. destruct (wf_eheap0 _ _ Hp). split; [done|lia].
  - rewrite Ha, Hn. intros l a'. rewrite lookup_insert. case_decide; [lia|].
    intros Hl%wf_aheap0. lia.
  - rewrite Hc, He. done.
Qed.

Lemma wf_AssignZone z g g' : game_wf g → AssignZone z g = Ok g' → game_wf g'.
Proof.
  intros Hwf. unfold AssignZone. destruct (Zones g !! Zone.ID z) eqn:Ez; [done|].
  cbn. intros [= <-]. eapply (wf_new_grid g _ _ (Zone.ID z)); try done.
  - intros l z'. unfold owns. cbn. rewrite !lookup_insert.
    case_decide; subst; [|by auto]. intros [(? & ? & ?)|?]; simplify_eq; by left.
  - right. eexists. split_and!; [done|done|done|]. cbn. by intros ? [= <-].
Qed.

Lemma ensure_sim_spec zid g sim g' :
  game_wf g → ensure_sim zid g = (sim, g') →
  game_wf g' ∧ Zones g' !! zid = Some sim ∧ eheap g' = eheap g.
Proof.
  intros Hwf. unfold ensure_sim. destruct (Zones g !! zid) eqn:Ez; cbn; intros [= <- <-]; [done|].
  split; [|split; [apply lookup_insert_eq|done]].
  eapply (wf_new_grid g _ _ zid); try done.
  - intros l z'. unfold owns. cbn. rewrite !lookup_insert.
    case_decide; subst; [|by auto]. intros [(? & ? & ?)|?]; simplify_eq; [by left|right; by right].
  - right. by eexists.
Qed.

Lemma wf_ensure_index snap g : game_wf g → game_wf (ensure_index snap g).
Proof.
  intros Hwf. unfold ensure_index. destruct (aoiIndex g !! _) eqn:Ei; [done|]. cbn.
  eapply (wf_new_grid g _ _ (zsZoneId snap)); try done.
  - intros l z'. unfold owns. cbn. rewrite lookup_insert.
    case_decide; subst; [|by auto]. intros [?|?]; simplify_eq; [right; by left|by left].
  - by left.
Qed.

(** ** Registration *)

(** Replacing a zone's record by one with the same grid. *)
Lemma owns_same_grid g g' z s s' l z0 :
  Zones g !! z = Some s → Zones g' = <[z := s']> (Zones g) → saoi s' = saoi s →
  aoiIndex g' = aoiIndex g → owns g' l z0 ↔ owns g l z0.
Proof.
  intros Hz HZ Hs Hi. unfold owns. rewrite HZ, Hi, lookup_insert.
  case_decide; subst; [|done]. split; intros [(t & ? & ?)|?]; simplify_eq; eauto.
Qed.

(** Registering the object at [p] in the zone [zid] with record [sim]. *)
Definition register (p : loc) (e : Entity) (zid : ZoneID) (sim : zoneSim) g : Game :=
  let g := g <| eheap ::= <[p := e]> |> in
  let g := g <| Entities ::= <[eID e := p]> |> <| entityZone ::= <[eID e := zid]> |> in
  let g := g <| Zones ::= <[zid := sim <| sentities ::= <[eID e := p]> |>]> |> in
  let g := on_aoi (saoi sim) (Enter (eID e) (Position e)) g in
  g <| entityAOI ::= <[eID e := mkAOIState ∅ (Position e)]> |>.

Definition enter_zone (sim : zoneSim) (zid : ZoneID) (e : Entity) : Entity :=
  let e := e <| eZoneID := zid |> in
  match szone sim with
  | Some z => if bool_decide (Zone.zRuntimeID z ≠ "") then e <| eRuntimeID := Zone.zRuntimeID z |> else e
  | None => e
  end.

Definition zone_for (e : Entity) : ZoneID := if bool_decide (eZoneID e = "") then DefaultZoneID else eZoneID e.

Lemma zone_for_ne e : zone_for e ≠ "".
Proof. unfold zone_for. by case_bool_decide. Qed.

Lemma addEntity_eq p e g :
  eheap g !! p = Some e →
  addEntity p g = let '(sim, g') := ensure_sim (zone_for e) g in
                  register p (enter_zone sim (zone_for e) e) (zone_for e) sim g'.
Proof.
  intros He. unfold addEntity. rewrite He. fold (zone_for e). cbv zeta.
  destruct (ensure_sim (zone_for e) g) as [sim g']. reflexivity.
Qed.

Lemma enter_zone_spec sim zid e :
  eID (enter_zone sim zid e) = eID e ∧ eZoneID (enter_zone sim zid e) = zid ∧
  eLifecycle (enter_zone sim zid e) = eLifecycle e ∧ Position (enter_zone sim zid e) = Position e ∧
  in_space sim (enter_zone sim zid e).
Proof.
  unfold enter_zone, in_space. destruct (szone sim) as [z|]; [|done].
  case_bool_decide as Hr; split_and!; try done; intros z' [= <-] Hne; try done.
Qed.

Lemma wf_register p e0 e zid sim g :
  game_wf g → Zones g !! zid = Some sim → eheap g !! p = Some e0 → zid = zone_for e0 →
  e = enter_zone sim zid e0 → game_wf (register p e zid sim g).
Proof.
  intros [] Hz Hp Hzid ->. destruct (enter_zone_spec sim zid e0) as (Hid & Hez & Hlc & _ & Hsp).
  set (e := enter_zone sim zid e0) in *.
  set (sim' := sim <| sentities ::= <[eID e := p]> |>).
  assert (Hown : ∀ l z, owns (register p e zid sim g) l z ↔ owns g l z)
    by (intros; by eapply owns_same_grid).
  assert (Hp' : ∀ z s id, Zones g !! z = Some s → sentities s !! id = Some p → z = zid ∧ id = eID e).
  { intros z s id Hs Hpp. destruct (wf_sims0 _ _ _ _ Hs Hpp) as (e1 & ? & ? & ? & ? & _). simplify_eq.
    split; [|done]. unfold zone_for. by rewrite bool_decide_eq_false_2. }
  split; cbn; try done.
  - intros id q. rewrite !lookup_insert. case_decide as Hd; subst.
    + intros [= <-]. exists (zone_for e0), sim'. split_and!; [done|by rewrite lookup_insert_eq|].
      cbn. by rewrite lookup_insert_eq.
    + intros Hq. destruct (wf_entities0 id q Hq) as (z & s & H1 & H2 & H3).
      destruct (decide (z = zone_for e0)) as [->|Hne].
      * exists (zone_for e0), sim'. rewrite lookup_insert_eq. split_and!; [done..|].
        cbn. rewrite lookup_insert_ne by done. by simplify_eq.
      * exists z, s. by rewrite lookup_insert_ne by done.
  - intros id. rewrite !lookup_insert. case_decide; eauto.
  - intros id. rewrite !lookup_insert. case_decide; eauto.
  - intros z s id q. rewrite lookup_insert. case_decide as Hd; subst.
    + intros [= <-]. cbn. rewrite lookup_insert. case_decide as Hi; subst.
      * intros [= <-]. exists e. rewrite lookup_insert_eq. split_and!; [done..|apply zone_for_ne|done].
      * intros Hq. destruct (wf_sims0 _ _ _ _ Hz Hq) as (e1 & H1 & H2 & H3 & H4 & H5).
        exists e1. rewrite lookup_insert_ne; [by split_and!|].
        intros <-. by destruct (Hp' _ _ _ Hz Hq).
    + intros Hs Hq. destruct (wf_sims0 _ _ _ _ Hs Hq) as (e1 & H1 & H2 & H3 & H4 & H5).
      exists e1. rewrite lookup_insert_ne; [by split_and!|].
      intros <-. by destruct (Hp' _ _ _ Hs Hq).
  - intros z s zn. rewrite lookup_insert. case_decide; subst; [|eauto].
    intros [= <-]. cbn. by apply wf_zone_ids0.
  - intros l z1 z2. rewrite !Hown. apply wf_owner0.
  - intros l z. rewrite Hown. intros Ho. apply is_Some_alter. by eapply wf_grids0.
  - intros q e1. rewrite lookup_insert. case_decide; subst; [|by apply wf_eheap0].
    intros [= <-]. unfold entity_wf. rewrite Hlc. by apply wf_eheap0.
  - intros l a Ha. assert (is_Some (aheap g !! l)) as [b Hb]; [|by eauto].
    apply (is_Some_alter (Enter (eID e) (Position e)) (saoi sim)). by eauto.
  - intros q Hq. rewrite lookup_insert. case_decide; eauto.
Qed.

Lemma wf_addEntity p g : game_wf g → game_wf (addEntity p g).
Proof.
  intros Hwf. destruct (eheap g !! p) as [e|] eqn:He.
  - rewrite (addEntity_eq p e g He). destruct (ensure_sim _ g) as [sim g'] eqn:Es.
    destruct (ensure_sim_spec _ _ _ _ Hwf Es) as (? & ? & Hh).
    eapply wf_register; try done. by rewrite Hh.
  - unfold addEntity. by rewrite He.
Qed.

(** ** Removal *)

Lemma wf_forget id g : game_wf g → game_wf (forget id g).
Proof.
  intros []. split; cbn; try done.
  - intros i p. rewrite lookup_delete_Some. intros [Hne Hp].
    rewrite lookup_delete_ne by done. eauto.
  - intros i. destruct (decide (i = id)) as [->|Hne].
    + rewrite lookup_delete_eq. by intros [].
    + rewrite !lookup_delete_ne by done. eauto.
  - intros i. destruct (decide (i = id)) as [->|Hne].
    + rewrite lookup_delete_eq. by intros [].
    + rewrite !lookup_delete_ne by done. eauto.
Qed.

(** Dropping an unregistered identifier from a zone's own map. *)
Lemma wf_drop_sim id zid sim g :
  game_wf g → Entities g !! id = None → Zones g !! zid = Some sim →
  game_wf (g <| Zones ::= <[zid := sim <| sentities ::= delete id |>]> |>).
Proof.
  intros [] Hid Hz.
  set (g' := g <| Zones ::= <[zid := sim <| sentities ::= delete id |>]> |>).
  assert (Hown : ∀ l z, owns g' l z ↔ owns g l z) by (intros; by eapply owns_same_grid).
  split; cbn; try done.
  - intros i p Hp. destruct (wf_entities0 i p Hp) as (z & s & H1 & H2 & H3).
    destruct (decide (z = zid)) as [->|Hne]; [|by exists z, s; rewrite lookup_insert_ne].
    eexists zid, _. rewrite lookup_insert_eq. split_and!; [done..|]. cbn.
    rewrite lookup_delete_ne by congruence. by simplify_eq.
  - intros z s i p. rewrite lookup_insert. case_decide; subst; [|by eauto].
    intros [= <-]. cbn. rewrite lookup_delete_Some. intros [_ Hp]. exact (wf_sims0 _ _ _ _ Hz Hp).
  - intros z s zn. rewrite lookup_insert. case_decide; subst; [|by eauto].
    intros [= <-]. cbn. by apply wf_zone_ids0.
  - intros l z1 z2. rewrite !Hown. apply wf_owner0.
  - intros l z. rewrite Hown. apply wf_grids0.
Qed.

Lemma wf_removeEntity id g : game_wf g → game_wf (removeEntity id g).
Proof.
  intros Hwf. unfold removeEntity. destruct (entityZone g !! id) as [zid|] eqn:Ez; [|done].
  destruct (Zones g !! zid) as [sim|] eqn:Es; [|by apply wf_forget].
  change (game_wf (forget id (on_aoi (saoi sim) (Leave id) g)
            <| Zones ::= <[zid := sim <| sentities ::= delete id |>]> |>)).
  apply wf_drop_sim; [|apply lookup_delete_eq|done].
  apply wf_forget. eapply frame_wf; [apply fr_on_aoi|done].
Qed.

Lemma wf_sweep_session now ids g : game_wf g → game_wf (sweep_session now g ids).
Proof.
  intros Hwf. destruct ids as [id st]. unfold sweep_session. case_match; [done|].
  assert (Hs : ∀ h, game_wf h → game_wf (forget id h <| sessionStates ::= delete id |>)).
  { intros h Hh. apply (wf_forget id) in Hh as []. by split. }
  apply Hs. repeat case_match; try done. eapply frame_wf; [apply fr_on_aoi|done].
Qed.

Lemma wf_SweepDisconnected now g : game_wf g → game_wf (SweepDisconnected now g).
Proof. intros Hwf. apply (foldl_invariant _ game_wf); [done|]. intros. by apply wf_sweep_session. Qed.

(** The loop of [ReleaseZone] leaves no entity in the zone. *)
Lemma release_entities_zone id l g :
  entityZone (foldl (release_entity id) g l) =
  foldl (λ m x, match (if decide (x.2 = id) then Some x.1 else None) with
                | Some i => delete i m | None => m end) (entityZone g) l.
Proof.
  revert g. induction l as [|x l IH]; intros g; simpl; [done|]. rewrite IH. f_equal.
  unfold release_entity. destruct (decide (x.2 = id)); case_bool_decide; done.
Qed.

Lemma released_lookup id eid g :
  entityZone (foldl (release_entity id) g (range_list (entityZone g))) !! eid =
  if decide (entityZone g !! eid = Some id) then None else entityZone g !! eid.
Proof.
  rewrite release_entities_zone, lookup_foldl_delete.
  destruct (decide (entityZone g !! eid = Some id)) as [E|E].
  - rewrite decide_True; [done|]. apply list_elem_of_fmap. exists (eid, id).
    rewrite elem_of_range_list, decide_True; done.
  - rewrite decide_False; [done|]. intros ([i z] & H1 & H2)%list_elem_of_fmap.
    rewrite elem_of_range_list in H2. simpl in *. case_decide; simplify_eq.
Qed.

(** Deleting a zone in which no entity is registered. *)
Lemma wf_drop_zone z g :
  game_wf g → (∀ id, entityZone g !! id ≠ Some z) →
  game_wf (g <| Zones ::= delete z |> <| aoiIndex ::= delete z |>
             <| ghostStore ::= delete z |> <| peerZone ::= delete z |>).
Proof.
  intros [] Hz.
  assert (Hown : ∀ l z', owns (g <| Zones ::= delete z |> <| aoiIndex ::= delete z |>
             <| ghostStore ::= delete z |> <| peerZone ::= delete z |>) l z' → owns g l z').
  { intros l z'. unfold owns. cbn. rewrite !lookup_delete. case_decide; [|done].
    intros [(? & ? & _)|]; simplify_eq. }
  split; cbn; try done.
  - intros id p Hp. destruct (wf_entities0 id p Hp) as (z' & s & H1 & H2 & H3).
    exists z', s. rewrite lookup_delete_ne; [done|]. intros <-. by apply (Hz id).
  - intros z' s id p [_ H1]%lookup_delete_Some. by apply wf_sims0.
  - intros z' s zn [_ H1]%lookup_delete_Some. by apply wf_zone_ids0.
  - intros l z1 z2 ?%Hown ?%Hown. by eapply wf_owner0.
  - intros l z' ?%Hown. by eapply wf_grids0.
Qed.

Lemma wf_ReleaseZone z g g' : game_wf g → ReleaseZone z g = Ok g' → game_wf g'.
Proof.
  intros Hwf. unfold ReleaseZone. destruct (Zones g !! z) as [sim|]; [|done].
  set (g1 := foldl (release_entity z) g (range_list (entityZone g))).
  set (g2 := foldl (release_ghost z) g1 (range_list (ghosts g1))). cbv zeta. intros [= <-].
  assert (H1 : game_wf g1).
  { apply (foldl_invariant _ game_wf); [done|]. intros h x _ Hh. unfold release_entity.
    case_bool_decide; [done|by apply wf_forget]. }
  assert (H2 : frame g1 g2).
  { apply (foldl_preorder frame). intros h x. unfold release_ghost.
    case_bool_decide; [apply fr_ghosts|done]. }
  apply wf_drop_zone; [by eapply frame_wf|].
  intros id. rewrite (fr_entityZone _ _ H2). unfold g1. rewrite released_lookup.
  case_decide; congruence.
Qed.

(** ** Commands and the tick *)

Lemma wf_set_cmds x g :
  game_wf g → (∀ p, CmdAdd p ∈ x → is_Some (eheap g !! p)) → (length x ≤ cmdChannelBuffer)%nat →
  game_wf (g <| cmds := x |>).
Proof. intros [] ??. by split. Qed.

Lemma wf_set_inbox x g :
  game_wf g → (length x ≤ InboxBufferSize)%nat → game_wf (g <| Inbox := x |>).
Proof. intros [] ?. by split. Qed.

Lemma wf_set_counters n t g :
  game_wf g → game_wf (g <| tickCount := n |> <| lastTickAt := t |>).
Proof. intros []. by split. Qed.

Lemma wf_run_cmd c rest g : game_wf g → cmds g = c :: rest → game_wf (run_cmd c (g <| cmds := rest |>)).
Proof.
  intros Hwf Hc. assert (game_wf (g <| cmds := rest |>)).
  { pose proof Hwf as []. rewrite Hc in *. apply wf_set_cmds; [done| |simpl in *; lia].
    intros p Hp. apply wf_cmd0. set_solver. }
  destruct c; [by apply wf_addEntity|by apply wf_removeEntity].
Qed.

Lemma wf_applyCmds n g : game_wf g → game_wf (applyCmds_loop n g).
Proof.
  revert g. induction n as [|n IH]; intros g Hwf; simpl; [done|].
  destruct (cmds g) as [|c rest] eqn:Hc; [done|]. by apply IH, wf_run_cmd.
Qed.

(** Registration leaves the queues alone, so the loop consumes them in order. *)
Lemma queues_addEntity p g : queues (addEntity p g) = queues g.
Proof.
  destruct (eheap g !! p) as [e|] eqn:He; [|by unfold addEntity; rewrite He].
  rewrite (addEntity_eq _ _ _ He). unfold ensure_sim. by destruct (Zones g !! zone_for e).
Qed.

Lemma queues_removeEntity id g : queues (removeEntity id g) = queues g.
Proof. unfold removeEntity. by repeat case_match. Qed.

Lemma queues_run_cmd c g : queues (run_cmd c g) = queues g.
Proof. destruct c; [apply queues_addEntity|apply queues_removeEntity]. Qed.

Lemma queues_applyCmds n g :
  queues (applyCmds_loop n g) = (Inbox g, drop n (cmds g), tickCount g, lastTickAt g).
Proof.
  revert g. induction n as [|n IH]; intros g; simpl; [by rewrite drop_0|].
  destruct (cmds g) as [|c rest] eqn:Hc; [by unfold queues; rewrite Hc|].
  rewrite IH. pose proof (queues_run_cmd c (g <| cmds := rest |>)) as Hq.
  unfold queues in Hq. cbn in Hq. by injection Hq as -> -> -> ->.
Qed.

Lemma queues_SweepDisconnected now g : queues (SweepDisconnected now g) = queues g.
Proof.
  apply (foldl_frame _ queues). intros h [id st]. unfold sweep_session.
  by repeat case_match.
Qed.

Lemma wf_heap g : game_wf g → heap_wf g.
Proof. intros [] p e He. by eapply wf_eheap0. Qed.

(** The tail of the tick, after the commands and packets. *)
Definition tick_world (c : TickClock) (dt : Duration) g : option Game :=
  let g := if snapshot_due g then snapshotAllZones g else g in
  g ← simulate (tSeed c) dt g;
  let g := update_zones (tDetect c) (zoneIDs g) g in
  let g := sweepGhosts (tGhosts c) g in
  let g := SweepDisconnected (tSessions c) g in
  let elapsed := time_sub (tEnd c) (tStart c) in
  let g := count_metric (TickDuration elapsed) g in
  let g := if tickRate g <? elapsed then count_metric TickOverrun g else g in
  Some (reportGauges g).

Lemma tick_world_spec c dt g :
  game_wf g → ∃ g', tick_world c dt g = Some g' ∧ game_wf g' ∧ queues g' = queues g.
Proof.
  intros Hwf. unfold tick_world. cbv zeta.
  assert (H3 : frame g (if snapshot_due g then snapshotAllZones g else g))
    by (case_match; [apply fr_snapshotAllZones|done]).
  revert H3. generalize (if snapshot_due g then snapshotAllZones g else g). intros g3 H3.
  destruct (fr_simulate (tSeed c) dt g3) as (g4 & -> & H4); [by eapply wf_heap, frame_wf|].
  cbn [mbind option_bind].
  set (g5 := sweepGhosts (tGhosts c) (update_zones (tDetect c) (zoneIDs g4) g4)).
  assert (H5 : frame g g5).
  { etrans; [done|]. etrans; [done|]. etrans; [apply fr_update_zones|apply fr_sweepGhosts]. }
  assert (H6 : ∀ d (b : bool) h, frame h (reportGauges (if b then count_metric TickOverrun (count_metric (TickDuration d) h)
                                              else count_metric (TickDuration d) h))).
  { intros d b h. etrans; [|apply fr_reportGauges]. destruct b; [|apply fr_metric].
    etrans; apply fr_metric. }
  eexists. split; [reflexivity|]. split.
  - eapply frame_wf; [apply H6|]. apply wf_SweepDisconnected. by eapply frame_wf.
  - etrans; [apply fr_queues, H6|]. rewrite queues_SweepDisconnected. by apply fr_queues.
Qed.

Definition tick_inputs (c : TickClock) g : Game :=
  drain maxPacketsPerTick (applyCmds (g <| lastTickAt := tStart c |>)) <| tickCount ::= λ n, wrap64 (n + 1) |>.

Lemma tick_eq c g : tick c g = tick_world c (tick_delta (tStart c) g) (tick_inputs c g).
Proof. reflexivity. Qed.

Lemma wf_tick_inputs c g :
  game_wf g →
  game_wf (tick_inputs c g) ∧
  queues (tick_inputs c g) =
    (drop maxPacketsPerTick (Inbox g), [], wrap64 (tickCount g + 1), tStart c).
Proof.
  intros Hwf. unfold tick_inputs, applyCmds.
  assert (H1 : game_wf (g <| lastTickAt := tStart c |>)) by exact (wf_set_counters (tickCount g) _ _ Hwf).
  pose proof (wf_applyCmds cmdChannelBuffer _ H1) as H2.
  assert (Hq : queues (applyCmds_loop cmdChannelBuffer (g <| lastTickAt := tStart c |>)) =
               (Inbox g, [], tickCount g, tStart c)).
  { rewrite queues_applyCmds. cbn. by rewrite drop_ge by apply Hwf. }
  revert H2 Hq. generalize (applyCmds_loop cmdChannelBuffer (g <| lastTickAt := tStart c |>)).
  intros h H2 Hq. injection Hq as Hi Hc Ht Hl.
  pose proof (fr_drain maxPacketsPerTick h) as Hf.
  assert (H3 : game_wf (drain maxPacketsPerTick h)).
  { eapply frame_wf; [done|]. apply wf_set_inbox; [done|]. rewrite length_drop.
    pose proof (wf_inbox _ H2). lia. }
  apply fr_queues in Hf. revert H3 Hf. generalize (drain maxPacketsPerTick h). intros k H3 Hf.
  unfold queues in Hf. cbn in Hf. injection Hf as Hi' Hc' Ht' Hl'. split.
  - exact (wf_set_counters (wrap64 (tickCount k + 1)) (lastTickAt k) k H3).
  - unfold queues. cbn. by rewrite Hi', Hi, Hc', Hc, Ht', Ht, Hl', Hl.
Qed.

Lemma wf_tick c g :
  game_wf g → ∃ g', tick c g = Some g' ∧ game_wf g' ∧
    queues g' = (drop maxPacketsPerTick (Inbox g), [], wrap64 (tickCount g + 1), tStart c).
Proof.
  intros Hwf. rewrite tick_eq. destruct (wf_tick_inputs c g Hwf) as [H1 H2].
  destruct (tick_world_spec c (tick_delta (tStart c) g) _ H1) as (g' & ? & ? & ?).
  exists g'. split_and!; [done..|congruence].
Qed.

End invariant.
