(* ===== verification/GameSpec.v ===== *)
(** * Properties of the simulation

    Executions of a server are sequences of [op]: the atomic steps of every
    goroutine that touches the game (client handlers, the tick loop, the
    control plane, neighbouring servers), in any order.  The theorems hold in
    every state such a sequence reaches. *)

From S2P Require Import Prelude GoFloat Types Protocol Aoi Entity Game Boundary GameInv.
From stdpp Require Import base tactics list gmap strings.
From Stdlib Require Import ZArith Lia.

Local Open Scope Z_scope.
#[local] Opaque cmdChannelBuffer maxPacketsPerTick InboxBufferSize.

(** ** Executions *)

Inductive op `{GoMath} :=
| OpNewEntity (e : Entity)                       (* an entity object is created *)
| OpAssignZone (z : Zone.Zone)
| OpReleaseZone (z : ZoneID)
| OpRegisterPeerZone (z : ZoneID) (s : ServerID)
| OpAddEntity (p : loc)
| OpRemoveEntity (id : EntityID)
| OpEnqueueAdd (timer_fires : bool) (p : loc)
| OpEnqueueRemove (timer_fires : bool) (id : EntityID)
| OpPacket (pkt : InboundPacket)                 (* a relay sends to the inbox *)
| OpTakeEvent                                    (* the consumer receives *)
| OpTick (c : TickClock)
| OpMarkDisconnected (id : EntityID) (now : Time)
| OpMarkReconnected (id : EntityID)
| OpSweepDisconnected (now : Time)
| OpSetQuerier (q : ZoneID → Z → Z → float64 → list neighborEntity)
| OpReconcile (owner neighbor : ZoneID) (now : Time)
| OpApplyEnter (z : ZoneID) (id : EntityID) (typ : string) (pos : Vector3) (now : Time)
| OpApplyLeave (z : ZoneID) (id : EntityID)
| OpApplyUpdate (z : ZoneID) (id : EntityID) (pos : Vector3) (now : Time)
| OpMigrateIn (snap : EntitySnapshot) (z : ZoneID)
| OpMigrateOut (id : EntityID)
| OpLoadZone (snap : ZoneSnapshot).

Section spec.
Context `{GM : GoMath} `{GZ : Gzip} `{GB : Gob} `{CD : Codecs} `{RO : RangeOrder}.
Implicit Types g : Game.

(** A pointer handed to the game must point to an object. *)
Definition with_object (p : loc) g (k : option Game) : option Game :=
  match eheap g !! p with Some _ => k | None => None end.

(** [None]: the step blocks or panics. *)
Definition exec g (o : op) : option Game :=
  match o with
  | OpNewEntity e => Some (alloc_entity e g).2
  | OpAssignZone z => match AssignZone z g with Ok g' => Some g' | Err _ => Some g end
  | OpReleaseZone z => match ReleaseZone z g with Ok g' => Some g' | Err _ => Some g end
  | OpRegisterPeerZone z s => Some (RegisterPeerZone z s g)
  | OpAddEntity p => with_object p g (Some (AddEntity p g))
  | OpRemoveEntity id => Some (RemoveEntity id g)
  | OpEnqueueAdd t p => with_object p g (EnqueueAddEntity t p g)
  | OpEnqueueRemove t id => EnqueueRemoveEntity t id g
  | OpPacket pkt =>
      if (length (Inbox g) <? InboxBufferSize)%nat then Some (g <| Inbox ::= λ l, l ++ [pkt] |>) else Some g
  | OpTakeEvent => match Events g with [] => None | _ :: rest => Some (g <| Events := rest |>) end
  | OpTick c => tick c g
  | OpMarkDisconnected id now => Some (MarkDisconnected id now g)
  | OpMarkReconnected id => Some (MarkReconnected id g)
  | OpSweepDisconnected now => Some (SweepDisconnected now g)
  | OpSetQuerier q => Some (SetNeighborQuerier q g)
  | OpReconcile o n now => Some (ReconcileNeighborGhosts o n now g)
  | OpApplyEnter z id typ pos now => Some (ApplyEntityEnter z id typ pos now g)
  | OpApplyLeave z id => Some (ApplyEntityLeave z id g)
  | OpApplyUpdate z id pos now => Some (ApplyEntityUpdate z id pos now g)
  | OpMigrateIn snap z => Some (MigrateEntityIn snap z g)
  | OpMigrateOut id => Some (MigrateEntityOut id g)
  | OpLoadZone snap => Some (LoadZoneSnapshot snap g)
  end.

(** Entities are created with behaviours whose index is valid, as by [newBehavior]. *)
Definition op_ok (o : op) : Prop := match o with OpNewEntity e => entity_wf e | _ => True end.

(** The states of a server. *)
Definition reachable g : Prop :=
  ∃ sid opts ops, Forall op_ok ops ∧ fold_option exec (New sid opts) ops = Some g.

(** ** The invariant holds *)

Lemma wf_New sid opts : game_wf (New sid opts).
Proof.
  unfold New. apply (foldl_invariant _ game_wf).
  - split; cbn; try done; try (by intros ??; rewrite lookup_empty); try lia.
    + by intros id [? [=]].
    + by intros id [? [=]].
    + intros l z1 z2 [(? & [=] & _)|[=]].
    + by intros l z [(? & [=] & _)|[=]].
    + intros p Hp. set_solver.
  - intros g o _ []. destruct o; by split.
Qed.

Lemma wf_MigrateEntityIn snap z g : game_wf g → game_wf (MigrateEntityIn snap z g).
Proof.
  intros Hwf. unfold MigrateEntityIn. apply wf_addEntity.
  by apply (wf_alloc_entity (entity_of_snap snap z)).
Qed.

Lemma wf_enqueueCmd t c label g g' :
  game_wf g → (∀ p, c = CmdAdd p → is_Some (eheap g !! p)) →
  enqueueCmd t c label g = Some g' → game_wf g'.
Proof.
  intros Hwf Hc. unfold enqueueCmd. destruct t.
  - intros [= <-]. eapply frame_wf; [apply fr_metric|done].
  - destruct (length (cmds g) <? cmdChannelBuffer)%nat eqn:E; [|done]. intros [= <-].
    apply Nat.ltb_lt in E. apply (wf_set_cmds (cmds g ++ [c])); [done| |].
    + intros p [Hp|Hp%list_elem_of_singleton]%elem_of_app; [by apply Hwf|by apply Hc].
    + rewrite length_app. simpl. lia.
Qed.

Lemma wf_exec g o g' : game_wf g → op_ok o → exec g o = Some g' → game_wf g'.
Proof.
  intros Hwf Ho. destruct o; cbn [exec op_ok] in *; unfold with_object.
  - intros [= <-]. by apply wf_alloc_entity.
  - destruct (AssignZone z g) eqn:E; intros [= <-]; [by eapply wf_AssignZone|done].
  - destruct (ReleaseZone z g) eqn:E; intros [= <-]; [by eapply wf_ReleaseZone|done].
  - intros [= <-]. destruct Hwf. by split.
  - destruct (eheap g !! p); intros [= <-]. by apply wf_addEntity.
  - intros [= <-]. by apply wf_removeEntity.
  - destruct (eheap g !! p) eqn:E; [|done]. apply wf_enqueueCmd; [done|]. intros ? [= ->]. eauto.
  - by apply wf_enqueueCmd.
  - destruct (length (Inbox g) <? InboxBufferSize)%nat eqn:E; intros [= <-]; [|done].
    apply (wf_set_inbox (Inbox g ++ [pkt])); [done|]. apply Nat.ltb_lt in E. rewrite length_app. simpl. lia.
  - destruct (Events g) as [|ev rest] eqn:E; intros [= <-]. destruct Hwf. split; try done.
    cbn. rewrite E in wf_events. simpl in *. lia.
  - intros Ht. destruct (wf_tick c g Hwf) as (? & ? & ? & _). by simplify_eq.
  - intros [= <-]. eapply frame_wf; [apply fr_MarkDisconnected|done].
  - intros [= <-]. eapply frame_wf; [apply fr_MarkReconnected|done].
  - intros [= <-]. by apply wf_SweepDisconnected.
  - intros [= <-]. destruct Hwf. by split.
  - intros [= <-]. eapply frame_wf; [apply fr_ReconcileNeighborGhosts|done].
  - intros [= <-]. eapply frame_wf; [apply fr_ApplyEntityEnter|done].
  - intros [= <-]. eapply frame_wf; [apply fr_ApplyEntityLeave|done].
  - intros [= <-]. eapply frame_wf; [apply fr_ApplyEntityUpdate|done].
  - intros [= <-]. by apply wf_MigrateEntityIn.
  - intros [= <-]. by apply wf_removeEntity.
  - intros [= <-]. apply (foldl_invariant _ game_wf); [by apply wf_ensure_index|].
    intros h es _ Hh. by apply wf_MigrateEntityIn.
Qed.

Lemma wf_trace ops g g' :
  game_wf g → Forall op_ok ops → fold_option exec g ops = Some g' → game_wf g'.
Proof.
  intros Hwf Hok. revert g Hwf. induction Hok as [|o ops Ho Hok IH]; intros g Hwf; simpl.
  - by intros [= <-].
  - destruct (exec g o) as [h|] eqn:E; simpl; [|done]. apply IH. by eapply wf_exec.
Qed.

Lemma reachable_wf g : reachable g → game_wf g.
Proof. intros (sid & opts & ops & ? & ?). eapply wf_trace; [apply wf_New|done..]. Qed.

(** C1. The state is consistent in every execution: after any sequence of
    client, control-plane, tick and neighbour steps, in any order, the
    registries agree (an entity has exactly one zone, that zone's own map
    lists the same object, and a visibility record exists), no pointer
    dangles, entities carry the identifier they are registered under and the
    zone and Space of the zone that lists them, no grid is shared by two
    zones, and the three channels stay within their capacities. *)
Theorem game_invariant (sid : ServerID) (opts : list Option_) (ops : list op) (g : Game) :
  Forall op_ok ops → fold_option exec (New sid opts) ops = Some g → game_wf g.
Proof. intros Hok Hrun. eapply wf_trace; [apply wf_New|done..]. Qed.

(** ** The tick *)

Lemma tick_delta_bounds now g :
  tick_delta now g ≤ maxTickDelta ∧ (lastTickAt g ≤ now → 0 ≤ tick_delta now g).
Proof.
  unfold tick_delta, time_is_zero, zero_time, time_sub, max_int64, min_int64.
  assert (0 < maxTickDelta) by done.
  split; [case_match eqn:E; lia|]. intros Hle. case_match eqn:E; [lia|].
  apply Z.ltb_ge in E. case_match eqn:E'; lia.
Qed.


(** ** Space isolation *)

Lemma elem_of_near space gx gy r g p :
  p ∈ EntitiesNearGrid space gx gy r g →
  ∃ z sim zn id e, Zones g !! z = Some sim ∧ szone sim = Some zn ∧ Zone.zRuntimeID zn = space ∧
    Zone.GX (Zone.Grid zn) = gx ∧ Zone.GY (Zone.Grid zn) = gy ∧
    sentities sim !! id = Some p ∧ eheap g !! p = Some e.
Proof.
  unfold EntitiesNearGrid. intros ([z sim] & Hp & Hz)%list_elem_of_bind.
  rewrite elem_of_range_list in Hz.
  destruct (szone sim) as [zn|] eqn:Ezn; [|by apply not_elem_of_nil in Hp].
  case_bool_decide as Hs; [by apply not_elem_of_nil in Hp|].
  case_match eqn:Eg; [by apply not_elem_of_nil in Hp|].
  apply orb_false_iff in Eg as [Hx%negb_false_iff%Z.eqb_eq Hy%negb_false_iff%Z.eqb_eq].
  apply list_elem_of_bind in Hp as ([id q] & Hp & Hq). rewrite elem_of_range_list in Hq.
  destruct (eheap g !! q) as [e|] eqn:Ee; [|by apply not_elem_of_nil in Hp].
  case_match; [|by apply not_elem_of_nil in Hp].
  apply list_elem_of_singleton in Hp as ->. exists z, sim, zn, id, e.
  by split_and!.
Qed.

(** C7. Spaces are isolated: in every reachable state a registered entity
    carries the Space of its zone whenever the zone names one, and a grid
    query for a Space returns only entities of that Space, listed in a zone
    of that Space at exactly the requested grid coordinates, even when zones
    of several Spaces share those coordinates. *)
Theorem space_isolation (g : Game) :
  reachable g →
  (∀ id e z sim zn, entity_of g id = Some e → entityZone g !! id = Some z →
     Zones g !! z = Some sim → szone sim = Some zn → Zone.zRuntimeID zn ≠ "" →
     eRuntimeID e = Zone.zRuntimeID zn) ∧
  (∀ space gx gy r p, space ≠ "" → p ∈ EntitiesNearGrid space gx gy r g →
     ∃ e zn, eheap g !! p = Some e ∧ eRuntimeID e = space ∧
       (szone <$> Zones g !! eZoneID e) = Some (Some zn) ∧ Zone.zRuntimeID zn = space ∧
       Zone.Grid zn = Zone.mkGridCoord gx gy).
Proof.
  intros Hg%reachable_wf. split.
  - intros id e z sim zn He Hz Hsim Hzn Hr.
    destruct (entity_of_wf g id e Hg He) as (_ & p & z' & s & _ & _ & ? & ? & _ & _ & Hsp).
    simplify_eq. auto.
  - intros space gx gy r p Hne (z & sim & zn & id & e & Hz & Hzn & <- & <- & <- & Hp & He)%elem_of_near.
    destruct (wf_sims _ Hg _ _ _ _ Hz Hp) as (e' & ? & _ & Hez & _ & Hsp). simplify_eq.
    exists e, zn. rewrite Hz. simpl. rewrite Hzn. split_and!; [done|auto|done|done|by destruct (Zone.Grid zn)].
Qed.

(** ** Events *)

Definition room g : nat := InboxBufferSize - length (Events g).

Lemma publish_all_spec evts g :
  (length (Events g) ≤ InboxBufferSize)%nat →
  publish_all evts g =
    g <| Events ::= λ l, l ++ take (room g) evts |>
      <| metrics ::= λ l, l ++ ((λ e, RuntimeEvent (eventKindLabel (evKind e))) <$> take (room g) evts)
                            ++ replicate (length evts - room g) (Dropped "events" 1) |>.
Proof.
  unfold publish_all, room. revert g. induction evts as [|e evts IH]; intros g Hlen.
  { destruct g. cbn in *. unfold set_metrics, set_Events. cbn. by rewrite take_nil, !app_nil_r. }
  cbn [foldl]. rewrite IH; clear IH.
  - unfold publish. case_match eqn:E.
    + apply Nat.ltb_lt in E. cbn. rewrite length_app. cbn [length].
      assert (InboxBufferSize - length (Events g) = S (InboxBufferSize - (length (Events g) + 1)))%nat as -> by lia.
      unfold set_metrics, set_Events. cbn. by rewrite <-!app_assoc.
    + apply Nat.ltb_ge in E. assert (InboxBufferSize - length (Events g) = 0)%nat as E' by lia. clear E.
      unfold set_metrics, set_Events. cbn. rewrite E'. by rewrite !take_0, Nat.sub_0_r, !app_nil_r, <-app_assoc.
  - apply fr_publish. done.
Qed.

(** Event delivery is lossless up to the channel and never silent: a
    batch of published events is appended in order up to the free capacity of
    the channel, exactly the overflow is dropped, each delivered event is
    counted under its kind and each dropped one as a drop, and nothing else
    in the game changes. *)
Theorem publish_accounting (evts : list Event) (g : Game) :
  reachable g →
  let free := (4096 - length (Events g))%nat in
  let g' := publish_all evts g in
  Events g' = Events g ++ take free evts ∧
  metrics g' = metrics g ++ ((λ e, RuntimeEvent (eventKindLabel (evKind e))) <$> take free evts)
                 ++ replicate (length evts - free) (Dropped "events" 1) ∧
  g' <| Events := Events g |> <| metrics := metrics g |> = g.
Proof.
  intros Hg%reachable_wf. cbv zeta. rewrite publish_all_spec by apply Hg.
  split_and!; [done..|by destruct g].
Qed.

(** A control-plane request: whether its timer wins the [select], the
    command, and the label under which a drop is counted. *)
Definition enqueue_all (rs : list (bool * cmd * string)) (g : Game) : option Game :=
  fold_option (λ g r, enqueueCmd r.1.1 r.1.2 r.2 g) g rs.
Definition accepted (rs : list (bool * cmd * string)) : list cmd :=
  (λ r, r.1.2) <$> filter (λ r, r.1.1 = false) rs.
Definition dropped (rs : list (bool * cmd * string)) : list metric :=
  (λ r, Dropped r.2 1) <$> filter (λ r, r.1.1 = true) rs.

Lemma run_cmd_cmds c l g : run_cmd c g <| cmds := l |> = run_cmd c (g <| cmds := l |>).
Proof.
  destruct c as [p|id]; cbn [run_cmd].
  - destruct (eheap g !! p) as [e|] eqn:He; [|by unfold addEntity; cbn; rewrite He].
    rewrite (addEntity_eq _ _ _ He), (addEntity_eq p e (g <| cmds := l |>)) by done.
    unfold ensure_sim. cbn. by destruct (Zones g !! zone_for e).
  - unfold removeEntity. cbn. destruct (entityZone g !! id) as [zid|]; [|done].
    by destruct (Zones g !! zid).
Qed.

Lemma applyCmds_loop_all n g :
  (length (cmds g) ≤ n)%nat →
  applyCmds_loop n g = foldl (λ g c, run_cmd c g) (g <| cmds := [] |>) (cmds g).
Proof.
  revert g. induction n as [|n IH]; intros g Hn; cbn [applyCmds_loop];
    destruct (cmds g) as [|c rest] eqn:Hc; cbn in Hn; try lia;
    [by destruct g; cbn in *; subst; unfold set_cmds; cbn..|].
  assert (cmds (run_cmd c (g <| cmds := rest |>)) = rest) as Hq.
  { pose proof (queues_run_cmd c (g <| cmds := rest |>)) as Hq. by injection Hq. }
  rewrite IH, Hq by (rewrite Hq; lia). cbn [foldl]. by rewrite run_cmd_cmds.
Qed.

Lemma enqueue_all_spec rs g :
  match enqueue_all rs g with
  | Some g' => g' = g <| cmds ::= λ l, l ++ accepted rs |> <| metrics ::= λ l, l ++ dropped rs |> ∧
               ((length (cmds g) ≤ 256)%nat → (length (cmds g') ≤ 256)%nat)
  | None => (256 < length (cmds g) + length (accepted rs))%nat
  end.
Proof.
  assert (cmdChannelBuffer = 256%nat) as Hb by reflexivity. revert g.
  induction rs as [|[[t c] s] rs IH]; intros g.
  { cbn. split; [|done]. destruct g. unfold set_cmds, set_metrics. cbn. by rewrite !app_nil_r. }
  change (enqueue_all ((t, c, s) :: rs) g) with (enqueueCmd t c s g ≫= enqueue_all rs).
  unfold enqueueCmd. destruct t; [|destruct (_ <? _)%nat eqn:E]; cbn [mbind option_bind].
  - specialize (IH (count_metric (Dropped s 1) g)). destruct (enqueue_all _ _); [|done].
    destruct IH as [-> Hl]. split; [|done]. unfold count_metric, set_cmds, set_metrics, dropped. cbn.
    by rewrite <-app_assoc.
  - apply Nat.ltb_lt in E. rewrite Hb in E. specialize (IH (g <| cmds ::= λ l, l ++ [c] |>)).
    change (accepted ((false, c, s) :: rs)) with (c :: accepted rs).
    destruct (enqueue_all _ _); cbn in IH; rewrite length_app in IH; cbn in IH |- *; [|lia].
    destruct IH as [-> Hl]. split; [|intros; apply Hl; lia].
    unfold set_cmds, set_metrics. cbn. by rewrite <-app_assoc.
  - apply Nat.ltb_ge in E. rewrite Hb in E. change (accepted ((false, c, s) :: rs)) with (c :: accepted rs). cbn. lia.
Qed.

(** Control commands are never lost silently and run in order: a
    sequence of enqueues that all return leaves in the queue exactly the
    accepted commands behind the ones already waiting, within the 256 slots,
    and counts one drop, under its own label, for every command it gave up;
    the next tick's [applyCmds] empties the queue and runs those commands
    once each in the order of their acceptance.  An enqueue blocks only when
    the accepted commands would exceed the 256 slots. *)
Theorem enqueue_accounting (rs : list (bool * cmd * string)) (g : Game) :
  reachable g →
  match enqueue_all rs g with
  | Some g' =>
      cmds g' = cmds g ++ accepted rs ∧ (length (cmds g') ≤ 256)%nat ∧
      metrics g' = metrics g ++ dropped rs ∧
      (length (accepted rs) + length (dropped rs) = length rs)%nat ∧
      applyCmds g' =
        foldl (λ h c, run_cmd c h) (g <| cmds := [] |> <| metrics ::= λ l, l ++ dropped rs |>)
              (cmds g ++ accepted rs)
  | None => (256 < length (cmds g) + length (accepted rs))%nat
  end.
Proof.
  intros Hg%reachable_wf. pose proof (enqueue_all_spec rs g) as H. revert H. case_match; [|done].
  intros [-> Hl]. specialize (Hl ltac:(apply Hg)). split_and!; [done|done|done| |].
  - unfold accepted, dropped. rewrite !length_fmap. clear.
    induction rs as [|[[[] c] s] rs IH]; rewrite ?filter_cons; repeat case_decide; simplify_eq/=; lia.
  - unfold applyCmds. rewrite applyCmds_loop_all by done. done.
Qed.
End spec.
