(* ===== verification/GameView.v ===== *)
(** * What clients can do and what they see

    Packets ([dispatch]), interest management ([updateVisibility]), removal
    of entities, sessions ([lifecycle.go]) and local ghosts. *)

From S2P Require Import Prelude GoFloat Types Protocol Aoi Entity Game Boundary GameInv GameSpec.
From stdpp Require Import base tactics list gmap strings.
From Stdlib Require Import ZArith Lia.

Local Open Scope Z_scope.
#[local] Opaque cmdChannelBuffer maxPacketsPerTick InboxBufferSize.

Section view.
Context `{GM : GoMath} `{GZ : Gzip} `{GB : Gob} `{CD : Codecs} `{RO : RangeOrder}.
Implicit Types g : Game.

(** ** Packets *)

(** The registries a packet must not touch. *)
Definition registries g :=
  (Zones g, Entities g, entityZone g, entityAOI g, ghosts g, (ghostStore g, sessionStates g, aoiIndex g)).

Lemma publish_all_proj {B} (f : Game → B) evts g :
  (∀ e h, f (publish e h) = f h) → f (publish_all evts g) = f g.
Proof. intros Hf. apply (foldl_frame _ f). intros. apply Hf. Qed.

Lemma publish_registries e g : registries (publish e g) = registries g.
Proof. unfold publish. by case_match. Qed.
Lemma publish_eheap e g : eheap (publish e g) = eheap g.
Proof. unfold publish. by case_match. Qed.
Lemma publish_aheap e g : aheap (publish e g) = aheap g.
Proof. unfold publish. by case_match. Qed.

Lemma enqueueMove_proj {B} (f : Game → B) id pos g :
  (∀ e h, f (publish e h) = f h) → f (enqueueMove id pos g) = f g.
Proof. intros Hf. unfold enqueueMove. repeat case_match; try done; by apply publish_all_proj. Qed.

Lemma move_in_zone_registries id pos g : registries (move_in_zone id pos g) = registries g.
Proof. unfold move_in_zone. by repeat case_match. Qed.
Lemma move_in_zone_eheap id pos g : eheap (move_in_zone id pos g) = eheap g.
Proof. unfold move_in_zone. by repeat case_match. Qed.


(** The observers of a move: everybody in range of the new position but the mover. *)
Definition observers (id : EntityID) (pos : Vector3) (r : float64) (a : AOI) : list EntityID :=
  List.filter (λ o, negb (bool_decide (o = id))) (EntitiesInRange pos r a).

Lemma bind_filter_ne {B} (f : EntityID → B) id l :
  (l ≫= λ o, if bool_decide (o = id) then [] else [f o]) =
  f <$> List.filter (λ o, negb (bool_decide (o = id))) l.
Proof. induction l as [|o l IH]; [done|]. cbn. rewrite IH. by case_bool_decide. Qed.

Lemma enqueueMove_events id pos z sim a g :
  (length (Events g) ≤ InboxBufferSize)%nat →
  entityZone g !! id = Some z → Zones g !! z = Some sim → aheap g !! saoi sim = Some a →
  Events (enqueueMove id pos g) =
    Events g ++ take (room g)
      ((λ o, mkEvent EventMove (match entity_of g id with Some e => eRuntimeID e | None => "" end) o id "" pos [])
       <$> observers id pos (aoiRadius g) a).
Proof.
  intros Hlen Hz Hs Ha. unfold enqueueMove. rewrite Hz, Hs. unfold in_range. rewrite Ha.
  rewrite publish_all_spec by done. cbn. by rewrite bind_filter_ne.
Qed.

Lemma position_packet (pkt : InboundPacket) (g : Game) (v : Byte.byte) (payload : list Byte.byte) (fl : bool)
    (seq : Z) (upd : EntityUpdate) (p : loc) (e : Entity) (z : ZoneID) (sim : zoneSim) (a : AOI) :
  game_wf g →
  Decode (Data pkt) = (v, PacketIDPositionUpdate, payload, fl, seq, None) →
  unmarshal_update payload = Some upd →
  Entities g !! ClientID pkt = Some p → eheap g !! p = Some e →
  entityZone g !! ClientID pkt = Some z → Zones g !! z = Some sim → aheap g !! saoi sim = Some a →
  let pos := default zero_vec (uPosition upd) in
  let g' := dispatch pkt g in
  let a' := Move (ClientID pkt) pos a in
  entity_of g' (ClientID pkt) = Some (e <| Position := pos |>) ∧
  aheap g' !! saoi sim = Some a' ∧
  positions a' !! ClientID pkt = Some pos ∧
  Events g' = Events g ++ take (4096 - length (Events g))
    ((λ o, mkEvent EventMove (eRuntimeID e) o (ClientID pkt) "" pos [])
     <$> observers (ClientID pkt) pos (of_int 300) a').
Proof.
  intros Hg Hd Hu Hp He Hz Hs Ha. cbv zeta.
  destruct (wf_entities _ Hg _ _ Hp) as (z' & s & ? & ? & Hsp). simplify_eq.
  destruct (wf_sims _ Hg _ _ _ _ Hs Hsp) as (e' & ? & Hid & _). simplify_eq.
  destruct (wf_config _ Hg) as (Hr & _). pose proof (wf_events _ Hg) as Hlen.
  assert (dispatch pkt g = dispatch_position (ClientID pkt) payload g) as ->
    by (unfold dispatch; by rewrite Hd).
  unfold dispatch_position. rewrite Hu, Hp, He. cbv zeta.
  set (pos := default zero_vec (uPosition upd)).
  assert (E : move_in_zone (eID e) pos (g <| eheap ::= <[p := e <| Position := pos |>]> |>)
              = g <| eheap ::= <[p := e <| Position := pos |>]> |> <| aheap ::= alter (Move (eID e) pos) (saoi sim) |>).
  { unfold move_in_zone, on_aoi. cbn. by rewrite Hid, Hz, Hs. }
  change (eID (e <| Position := pos |>)) with (eID e).
  change (Position (e <| Position := pos |>)) with pos.
  rewrite E. set (h := g <| eheap ::= _ |> <| aheap ::= _ |>).
  assert (Hh : entity_of h (eID e) = Some (e <| Position := pos |>)).
  { unfold entity_of, h. cbn. rewrite Hid, Hp. cbn. by rewrite lookup_insert_eq. }
  assert (Hah : aheap h !! saoi sim = Some (Move (eID e) pos a))
    by (unfold h; cbn; by rewrite lookup_alter_eq, Ha).
  rewrite <-Hid. split_and!.
  - change (entity_of ?x) with (λ id, Entities x !! id ≫= λ p, eheap x !! p). cbv beta.
    rewrite (enqueueMove_proj eheap) by apply publish_eheap.
    rewrite (fr_Entities _ _ (fr_enqueueMove (eID e) pos h)). apply Hh.
  - by rewrite (enqueueMove_proj aheap) by apply publish_aheap.
  - autorewrite with spatial. apply lookup_insert_eq.
  - rewrite (enqueueMove_events (eID e) pos z sim (Move (eID e) pos a)); try done.
    + rewrite Hh. unfold h, room. cbn. by rewrite Hr.
    + unfold h. cbn. by rewrite Hid.
Qed.

(** C9. Movement is replicated: a position packet from a registered client
    moves the client's entity to the decoded position, moves it in the grid
    of its zone, and sends a move event, tagged with the mover's Space, to
    every other entity within the interest radius of the new position and to
    nobody else, limited only by the free capacity of the event channel. *)
Theorem position_sync (pkt : InboundPacket) (g : Game) (v : Byte.byte) (payload : list Byte.byte) (fl : bool)
    (seq : Z) (upd : EntityUpdate) (p : loc) (e : Entity) (z : ZoneID) (sim : zoneSim) (a : AOI) :
  reachable g →
  Decode (Data pkt) = (v, PacketIDPositionUpdate, payload, fl, seq, None) →
  unmarshal_update payload = Some upd →
  Entities g !! ClientID pkt = Some p → eheap g !! p = Some e →
  entityZone g !! ClientID pkt = Some z → Zones g !! z = Some sim → aheap g !! saoi sim = Some a →
  let pos := default zero_vec (uPosition upd) in
  let g' := dispatch pkt g in
  let a' := Move (ClientID pkt) pos a in
  entity_of g' (ClientID pkt) = Some (e <| Position := pos |>) ∧
  aheap g' !! saoi sim = Some a' ∧
  positions a' !! ClientID pkt = Some pos ∧
  Events g' = Events g ++ take (4096 - length (Events g))
    ((λ o, mkEvent EventMove (eRuntimeID e) o (ClientID pkt) "" pos [])
     <$> observers (ClientID pkt) pos (of_int 300) a').
Proof. intros Hg%reachable_wf. by apply position_packet. Qed.
(** ** Interest management *)

(** What an observer knew, what it should know now, and the events between. *)
Definition known g (e : Entity) : gmap EntityID () :=
  visible (default (mkAOIState ∅ (Position e)) (entityAOI g !! eID e)).
Definition current g (aoi : loc) (e : Entity) : gmap EntityID () :=
  set_of (in_range g aoi (Position e) (aoiRadius g)).
Definition vis_events g (aoi : loc) (e : Entity) : list Event :=
  spawn_events g e (known g e) (current g aoi e) ++ despawn_events e (known g e) (current g aoi e).

(** The replica a client builds from the events it receives. *)
Definition apply_event (v : gset EntityID) (ev : Event) : gset EntityID :=
  match evKind ev with
  | EventSpawn => {[evEntityID ev]} ∪ v
  | EventDespawn => v ∖ {[evEntityID ev]}
  | _ => v
  end.

Lemma elem_of_spawns l v x :
  Forall (λ ev, evKind ev = EventSpawn) l →
  x ∈ foldl apply_event v l ↔ x ∈ v ∨ ∃ ev, ev ∈ l ∧ evEntityID ev = x.
Proof.
  intros Hl. revert v. induction Hl as [|ev l He Hl IH]; intros v; simpl.
  { split; [by left|]. intros [?|(? & ?%not_elem_of_nil & _)]; done. }
  rewrite IH. unfold apply_event. rewrite He. set_solver.
Qed.

Lemma elem_of_despawns l v x :
  Forall (λ ev, evKind ev = EventDespawn) l →
  x ∈ foldl apply_event v l ↔ x ∈ v ∧ ¬ ∃ ev, ev ∈ l ∧ evEntityID ev = x.
Proof.
  intros Hl. revert v. induction Hl as [|ev l He Hl IH]; intros v; simpl.
  { split; [|by intros []]. intros ?. split; [done|]. by intros (? & ?%not_elem_of_nil & _). }
  rewrite IH. unfold apply_event. rewrite He. set_solver.
Qed.

Lemma elem_of_spawn_events g e old cur ev :
  ev ∈ spawn_events g e old cur ↔
  ∃ id other, is_Some (cur !! id) ∧ old !! id = None ∧ id ≠ eID e ∧ entity_of g id = Some other ∧
    ev = mkEvent EventSpawn (eRuntimeID e) (eID e) (eID other) (eType other) (Position other) [].
Proof.
  unfold spawn_events. rewrite list_elem_of_bind. split.
  - intros ([id []] & Hev & Hid). rewrite elem_of_range_list in Hid.
    case_bool_decide as Hc; [by apply not_elem_of_nil in Hev|].
    destruct (entity_of g id) as [other|] eqn:E; [|by apply not_elem_of_nil in Hev].
    apply list_elem_of_singleton in Hev as ->. exists id, other.
    apply Decidable.not_or in Hc as [Hn Hne]. split_and!; [eauto|by apply eq_None_not_Some|done..].
  - intros (id & other & [[] Hc] & Ho & Hne & He & ->). exists (id, ()). rewrite elem_of_range_list.
    rewrite bool_decide_eq_false_2, He; [split; [by apply list_elem_of_singleton|done]|].
    rewrite Ho. intros [[? [=]]|?]; done.
Qed.

Lemma elem_of_despawn_events e old cur ev :
  ev ∈ despawn_events e old cur ↔
  ∃ id, is_Some (old !! id) ∧ cur !! id = None ∧
    ev = mkEvent EventDespawn (eRuntimeID e) (eID e) id "" zero_vec [].
Proof.
  unfold despawn_events. rewrite list_elem_of_bind. split.
  - intros ([id []] & Hev & Hid). rewrite elem_of_range_list in Hid.
    case_bool_decide as Hc; [by apply not_elem_of_nil in Hev|].
    apply list_elem_of_singleton in Hev as ->. exists id. split_and!; [eauto|by apply eq_None_not_Some|done].
  - intros (id & [[] Ho] & Hc & ->). exists (id, ()). rewrite elem_of_range_list.
    rewrite bool_decide_eq_false_2; [split; [by apply list_elem_of_singleton|done]|].
    rewrite Hc. by intros [? [=]].
Qed.

(** The replica after the events of one observer. *)
Lemma replica_spec g e old cur x :
  (∀ id other, entity_of g id = Some other → eID other = id) →
  let v := foldl apply_event (dom old) (spawn_events g e old cur ++ despawn_events e old cur) in
  (x ∈ v → is_Some (cur !! x)) ∧
  (x ≠ eID e → is_Some (entity_of g x) → is_Some (cur !! x) → x ∈ v).
Proof.
  intros Hid. cbv zeta. rewrite foldl_app, elem_of_despawns, elem_of_spawns, elem_of_dom.
  - setoid_rewrite elem_of_spawn_events. setoid_rewrite elem_of_despawn_events. split.
    + intros [[Ho|(ev & (id & other & Hc & _ & _ & He & ->) & <-)] Hd].
      * destruct (cur !! x) eqn:Ec; [eauto|]. exfalso. apply Hd. eexists. split; [by eexists|done].
      * cbn. by rewrite (Hid _ _ He).
    + intros Hne [other He] Hc. split.
      * destruct (old !! x) eqn:Eo; [left; eauto|right]. eexists. split; [by exists x, other|].
        by apply Hid.
      * intros (ev & (id & _ & Hn & ->) & <-). cbn in *. rewrite Hn in Hc. by destruct Hc.
  - apply Forall_forall. intros ev. rewrite elem_of_spawn_events. by intros (? & ? & ? & ? & ? & ? & ->).
  - apply Forall_forall. intros ev. rewrite elem_of_despawn_events. by intros (? & ? & ? & ->).
Qed.

(** What the loop of [updateVisibility] reads and does not write. *)
Definition vis_inputs g := (eheap g, aheap g, Entities g, aoiRadius g).

Lemma publish_vis_inputs e g : vis_inputs (publish e g) = vis_inputs g.
Proof. unfold publish. by case_match. Qed.

Lemma publish_entityAOI e g : entityAOI (publish e g) = entityAOI g.
Proof. unfold publish. by case_match. Qed.

Lemma update_one_eq aoi g id p e :
  eheap g !! p = Some e →
  update_one aoi g (id, p) =
    publish_all (vis_events g aoi e) g
      <| entityAOI ::= <[eID e := mkAOIState (current g aoi e) (Position e)]> |>.
Proof.
  intros He. unfold update_one. cbn [snd]. rewrite He. unfold vis_events, publish_all.
  by rewrite foldl_app.
Qed.

Lemma vis_events_frame g h aoi e :
  vis_inputs h = vis_inputs g → entityAOI h !! eID e = entityAOI g !! eID e →
  vis_events h aoi e = vis_events g aoi e ∧ current h aoi e = current g aoi e.
Proof.
  intros [= H1 H2 H3 H4] Ha. unfold vis_events, spawn_events, known, current, in_range, entity_of.
  by rewrite H1, H2, H3, H4, Ha.
Qed.

Lemma take_room g g1 (a b : list Event) :
  Events g1 = Events g ++ take (room g) a →
  Events g1 ++ take (room g1) b = Events g ++ take (room g) (a ++ b).
Proof.
  intros H. rewrite take_app, app_assoc, <-H. do 2 f_equal. unfold room in *.
  apply (f_equal length) in H. rewrite length_app, length_take in H. lia.
Qed.

Lemma update_one_spec aoi g id p e :
  (length (Events g) ≤ InboxBufferSize)%nat → eheap g !! p = Some e → eID e = id →
  let g' := update_one aoi g (id, p) in
  vis_inputs g' = vis_inputs g ∧
  Events g' = Events g ++ take (room g) (vis_events g aoi e) ∧
  entityAOI g' = <[id := mkAOIState (current g aoi e) (Position e)]> (entityAOI g).
Proof.
  intros Hlen He <-. cbv zeta. rewrite (update_one_eq _ _ _ _ _ He). split_and!.
  - exact (publish_all_proj vis_inputs (vis_events g aoi e) g publish_vis_inputs).
  - by rewrite publish_all_spec by done.
  - cbn. by rewrite (publish_all_proj entityAOI _ g publish_entityAOI).
Qed.

Definition loop_events g (aoi : loc) (l : list (EntityID * loc)) : list Event :=
  '(_, p) ← l; match eheap g !! p with Some e => vis_events g aoi e | None => [] end.

Lemma loop_events_frame g h aoi l :
  vis_inputs h = vis_inputs g →
  (∀ id p, (id, p) ∈ l → ∃ e, eheap g !! p = Some e ∧ eID e = id) →
  (∀ id, id ∈ l.*1 → entityAOI h !! id = entityAOI g !! id) →
  loop_events h aoi l = loop_events g aoi l.
Proof.
  intros Hv Hl Ha. unfold loop_events.
  assert (eheap h = eheap g) as -> by by injection Hv.
  induction l as [|[id p] l IH]; [done|]. cbn.
  destruct (Hl id p) as (e & He & Hid); [set_solver|].
  rewrite He, (proj1 (vis_events_frame g h aoi e Hv (Ha (eID e) ltac:(set_solver)))).
  f_equal. apply IH; set_solver.
Qed.

Lemma update_loop_spec aoi l g :
  (length (Events g) ≤ InboxBufferSize)%nat →
  NoDup l.*1 → (∀ id p, (id, p) ∈ l → ∃ e, eheap g !! p = Some e ∧ eID e = id) →
  let g' := foldl (update_one aoi) g l in
  Events g' = Events g ++ take (room g) (loop_events g aoi l) ∧
  (∀ id p e, (id, p) ∈ l → eheap g !! p = Some e →
     entityAOI g' !! id = Some (mkAOIState (current g aoi e) (Position e))) ∧
  (∀ id, id ∉ l.*1 → entityAOI g' !! id = entityAOI g !! id).
Proof.
  revert g. induction l as [|[id p] l IH]; intros g Hlen Hnd Hl; cbv zeta.
  { cbn. rewrite take_nil, app_nil_r. split_and!; [done| |done]. by intros ??? ?%not_elem_of_nil. }
  apply NoDup_cons in Hnd as [Hid Hnd].
  destruct (Hl id p) as (e & He & Heid); [set_solver|].
  destruct (update_one_spec aoi g id p e Hlen He Heid) as (Hv & Hev & Ha).
  cbn [foldl]. set (g1 := update_one aoi g (id, p)) in *.
  assert (Hh : eheap g1 = eheap g) by by injection Hv.
  destruct (IH g1) as (H1 & H2 & H3); [|done| |].
  { rewrite Hev, length_app, length_take. unfold room. lia. }
  { rewrite Hh. intros i q Hq. apply Hl. set_solver. }
  assert (Hne : ∀ i, i ∈ l.*1 → entityAOI g1 !! i = entityAOI g !! i).
  { intros i Hi. rewrite Ha, lookup_insert_ne; [done|]. intros ->. done. }
  split_and!.
  - rewrite H1, (loop_events_frame g g1) by (try done; intros; apply Hl; set_solver).
    rewrite (take_room g g1 _ _ Hev). cbn. by rewrite He.
  - intros i q e' [Hq|Hq]%elem_of_cons He'.
    + simplify_eq. rewrite H3 by done. by rewrite Ha, lookup_insert_eq.
    + rewrite <-Hh in He'. rewrite (H2 i q e' Hq He').
      destruct (Hl i q) as (e'' & He'' & Hi); [set_solver|].
      rewrite Hh in He'. assert (e'' = e') as -> by congruence. subst i.
      rewrite (proj2 (vis_events_frame g g1 aoi e' Hv (Hne _ ltac:(apply list_elem_of_fmap; by exists (eID e', q))))).
      done.
  - intros i Hi. rewrite H3 by set_solver. rewrite Ha, lookup_insert_ne; [done|]. set_solver.
Qed.

(** C6. Observers see exactly their surroundings: updating a zone in a
    reachable state records for every entity of the zone the set of
    identifiers in range of it, and publishes, for each of them, spawn and
    despawn events addressed to it in its Space such that a client that
    applies them to its previous view ends with no entity outside its range
    and with every registered entity inside it; the batch reaches the event
    channel in order, cut only by the channel's free capacity. *)
Theorem visibility_exact (g : Game) (zid : ZoneID) (sim : zoneSim) :
  reachable g → Zones g !! zid = Some sim →
  let g' := updateVisibility zid g in
  Events g' = Events g ++ take (4096 - length (Events g))
                            (loop_events g (saoi sim) (range_list (sentities sim))) ∧
  ∀ id p e, sentities sim !! id = Some p → eheap g !! p = Some e →
    let cur := set_of (in_range g (saoi sim) (Position e) (of_int 300)) in
    let evts := vis_events g (saoi sim) e in
    entityAOI g' !! id = Some (mkAOIState cur (Position e)) ∧
    Forall (λ ev, evObserver ev = id ∧ evSpace ev = eRuntimeID e) evts ∧
    ∀ x, let view := foldl apply_event (dom (known g e)) evts in
         (x ∈ view → is_Some (cur !! x)) ∧
         (x ≠ id → is_Some (Entities g !! x) → is_Some (cur !! x) → x ∈ view).
Proof.
  intros Hg%reachable_wf Hz. cbv zeta. unfold updateVisibility. rewrite Hz.
  destruct (wf_config _ Hg) as (Hr & _).
  assert (Hl : ∀ id p, (id, p) ∈ range_list (sentities sim) → ∃ e, eheap g !! p = Some e ∧ eID e = id).
  { intros id p Hp%elem_of_range_list. destruct (wf_sims _ Hg _ _ _ _ Hz Hp) as (e & ? & ? & _). eauto. }
  destruct (update_loop_spec (saoi sim) (range_list (sentities sim)) g) as (H1 & H2 & _);
    [apply Hg|apply NoDup_fst_range_list|done|].
  split; [exact H1|]. intros id p e Hp He.
  destruct (Hl id p) as (e' & ? & <-); [by apply elem_of_range_list|]. simplify_eq.
  assert (Hc : current g (saoi sim) e = set_of (in_range g (saoi sim) (Position e) (of_int 300)))
    by (unfold current; by rewrite Hr).
  split_and!.
  - rewrite (H2 _ p e); [by rewrite Hc|by apply elem_of_range_list|done].
  - apply Forall_app. split; apply Forall_forall; intros ev.
    + rewrite elem_of_spawn_events. by intros (? & ? & ? & ? & ? & ? & ->).
    + rewrite elem_of_despawn_events. by intros (? & ? & ? & ->).
  - intros x. unfold vis_events. rewrite <-Hc.
    destruct (replica_spec g e (known g e) (current g (saoi sim) e) x) as [R1 R2].
    { intros y other Hy. by apply (entity_of_wf g y other). }
    split; [done|]. intros Hne Hq. apply R2; [done|]. by apply entity_of_registered.
Qed.

(** ** Removal *)

(** Removal is complete: removing a registered entity in a reachable
    state deletes it from every registry, from the map of its zone and from
    the zone's grid, where no query can return it any more, and touches
    neither other zones, nor other grids, nor entity objects, nor pending
    events. *)
Theorem removal_complete (id : EntityID) (z : ZoneID) (g : Game) :
  reachable g → entityZone g !! id = Some z →
  let g' := removeEntity id g in
  ∃ sim a,
    Zones g !! z = Some sim ∧ aheap g !! saoi sim = Some a ∧
    Entities g' = delete id (Entities g) ∧ entityZone g' = delete id (entityZone g) ∧
    entityAOI g' = delete id (entityAOI g) ∧
    Zones g' = <[z := sim <| sentities ::= delete id |>]> (Zones g) ∧
    aheap g' = <[saoi sim := Leave id a]> (aheap g) ∧
    eheap g' = eheap g ∧ Events g' = Events g ∧
    positions (Leave id a) !! id = None ∧
    (aoi_wf a → ∀ c r, id ∉ EntitiesInRange c r (Leave id a)).
Proof.
  intros Hg%reachable_wf Hz. cbv zeta.
  destruct (wf_entityZone _ Hg id) as [p Hp]; [by eauto|].
  destruct (wf_entities _ Hg _ _ Hp) as (z' & sim & ? & Hs & _). simplify_eq.
  destruct (wf_grids _ Hg (saoi sim) z) as [a Ha]; [left; eauto|].
  exists sim, a. unfold removeEntity. rewrite Hz, Hs.
  assert (Hpos : positions (Leave id a) !! id = None)
    by (rewrite Leave_positions; apply lookup_delete_eq).
  split_and!; try done.
  - cbn. apply map_eq. intros l. rewrite lookup_alter, lookup_insert.
    case_decide; subst; [by rewrite Ha|done].
  - intros Hwf c r. rewrite elem_of_EntitiesInRange, elem_of_Query_wf by by apply Leave_wf.
    intros [(q & Hq & _) _]. congruence.
Qed.

(** ** Sessions *)

Definition expired (now : Time) g (id : EntityID) : bool :=
  match sessionStates g !! id with Some st => session_expired now g st | None => false end.

(** A loop over a map that deletes the selected keys from a registry. *)
Lemma lookup_selected_delete {V W} (sel : string → W → bool) (m : gmap string W) (t : gmap string V) k :
  foldl (λ t x, match (if sel x.1 x.2 then Some x.1 else None) with Some i => delete i t | None => t end)
    t (range_list m) !! k =
  if match m !! k with Some w => sel k w | None => false end then None else t !! k.
Proof.
  rewrite (lookup_foldl_delete (λ x : string * W, if sel x.1 x.2 then Some x.1 else None)).
  destruct (match m !! k with Some w => sel k w | None => false end) eqn:E.
  - rewrite decide_True; [done|]. destruct (m !! k) as [w|] eqn:Ek; [|done].
    apply list_elem_of_fmap. exists (k, w). rewrite elem_of_range_list. simpl. by rewrite E.
  - rewrite decide_False; [done|]. intros ([i w] & H1 & H2%elem_of_range_list)%list_elem_of_fmap.
    simpl in H1. destruct (sel i w) eqn:Es; simplify_eq. rewrite H2 in E. congruence.
Qed.

Lemma sweep_session_maps now h id st :
  let del {V} (m : gmap EntityID V) := if session_expired now h st then delete id m else m in
  Entities (sweep_session now h (id, st)) = del (Entities h) ∧
  entityZone (sweep_session now h (id, st)) = del (entityZone h) ∧
  entityAOI (sweep_session now h (id, st)) = del (entityAOI h) ∧
  sessionStates (sweep_session now h (id, st)) = del (sessionStates h).
Proof. unfold sweep_session. destruct (session_expired now h st); [|done]. cbn. by repeat case_match. Qed.

Lemma sweep_registry {V} (f : Game → gmap EntityID V) now g :
  (∀ h id st, f (sweep_session now h (id, st)) =
     if session_expired now h st then delete id (f h) else f h) →
  ∀ id, f (SweepDisconnected now g) !! id = if expired now g id then None else f g !! id.
Proof.
  intros Hf id. unfold SweepDisconnected, expired.
  rewrite <-(lookup_selected_delete (λ _, session_expired now g)). f_equal.
  generalize (range_list (sessionStates g)). intros l.
  assert (Hw : ∀ h l, reconnectWindow h = reconnectWindow g →
     f (foldl (sweep_session now) h l) = foldl (λ t x, match (if session_expired now g x.2 then Some x.1 else None)
       with Some i => delete i t | None => t end) (f h) l); [|by apply Hw].
  clear l. intros h l. revert h. induction l as [|[i st] l IH]; intros h Hr; [done|]. cbn [foldl]. rewrite IH.
  - rewrite Hf. unfold session_expired. rewrite Hr. cbn. by case_match.
  - rewrite <-Hr. unfold sweep_session. by repeat case_match.
Qed.

Lemma expired_spec now g id :
  game_wf g →
  expired now g id = true ↔
  ∃ t, sessionStates g !! id = Some (mkSession SessionDisconnected t) ∧ 30 * Second < now - t.
Proof.
  intros Hg. destruct (wf_config _ Hg) as (_ & Hr & _). unfold expired, session_expired.
  destruct (sessionStates g !! id) as [[s t]|]; [|naive_solver]. cbn.
  rewrite Hr, andb_true_iff, bool_decide_eq_true, Z.ltb_lt, time_sub_gt by done.
  split; [intros [-> ?]; eauto|]. intros (? & [= -> ->] & ?). done.
Qed.

(** Reconnection window: a sweep removes precisely the sessions that
    have been disconnected for more than 30 seconds, with their entity
    registrations; everybody else, and every entity without a session record,
    keeps all of its registrations. *)
Theorem sweep_exact (now : Time) (g : Game) (id : EntityID) :
  reachable g →
  let g' := SweepDisconnected now g in
  let gone := ∃ t, sessionStates g !! id = Some (mkSession SessionDisconnected t) ∧ 30 * Second < now - t in
  (gone → Entities g' !! id = None ∧ entityZone g' !! id = None ∧ entityAOI g' !! id = None ∧
          sessionStates g' !! id = None) ∧
  (~ gone → Entities g' !! id = Entities g !! id ∧ entityZone g' !! id = entityZone g !! id ∧
            entityAOI g' !! id = entityAOI g !! id ∧ sessionStates g' !! id = sessionStates g !! id).
Proof.
  intros Hg%reachable_wf. cbv zeta. rewrite <-(expired_spec now g id Hg).
  rewrite (sweep_registry Entities), (sweep_registry entityZone), (sweep_registry entityAOI),
    (sweep_registry sessionStates) by (intros; apply sweep_session_maps).
  split; [by intros ->|]. intros ->%not_true_is_false. done.
Qed.

(** A swept player of an implicitly created zone stays visible: when the
    zone of an entity has no entry in the grid index (it was created by the
    first entity added to it, as the relay does for every player), a sweep
    that expires the entity's session deletes it from the registries but
    leaves it in the zone's own map and in the zone's grid, so that range
    queries keep returning it. *)
Theorem sweep_leaves_implicit_zone (now : Time) (g : Game) (id : EntityID) (z : ZoneID) (sim : zoneSim) :
  reachable g → entityZone g !! id = Some z → Zones g !! z = Some sim → aoiIndex g !! z = None →
  expired now g id = true →
  let g' := SweepDisconnected now g in
  Entities g' !! id = None ∧ is_Some (sentities sim !! id) ∧ Zones g' !! z = Some sim ∧
  ∀ c r, in_range g' (saoi sim) c r = in_range g (saoi sim) c r.
Proof.
  intros Hg%reachable_wf Hz Hs Hi He. cbv zeta.
  destruct (wf_entityZone _ Hg id) as [p Hp]; [by eauto|].
  destruct (wf_entities _ Hg _ _ Hp) as (z' & s & ? & ? & Hsp). simplify_eq.
  assert (Hframe : Zones (SweepDisconnected now g) = Zones g).
  { apply (foldl_frame _ Zones). intros h [i st]. unfold sweep_session. by repeat case_match. }
  assert (Hgrid : aheap (SweepDisconnected now g) !! saoi sim = aheap g !! saoi sim).
  { unfold SweepDisconnected. apply (foldl_invariant _ (λ h, aoiIndex h = aoiIndex g ∧ aheap h !! saoi sim = aheap g !! saoi sim)); [done|].
    intros h [i st] _ [H1 H2]. unfold sweep_session.
    destruct (session_expired now h st); [|done]. cbn [negb].
    destruct (entityZone h !! i) as [zi|]; [|done].
    destruct (aoiIndex h !! zi) as [l|] eqn:El; [|done]. split; [done|]. cbn.
    rewrite lookup_alter_ne; [done|]. intros ->. rewrite H1 in El.
    assert (zi = z) as -> by (eapply (wf_owner _ Hg (saoi sim)); [by right|left; eauto]). congruence. }
  split_and!.
  - rewrite (sweep_registry Entities) by (intros; apply sweep_session_maps). by rewrite He.
  - eauto.
  - by rewrite Hframe.
  - intros c r. unfold in_range. by rewrite Hgrid.
Qed.

(** ** Ghosts *)

(** Local ghosts expire on time: a sweep deletes from the ghost table
    exactly the entries whose deadline has passed and keeps the others
    unchanged, and every deleted ghost whose origin zone is still served
    leaves that zone's grid. *)
Theorem ghost_sweep_exact (now : Time) (g : Game) (id : EntityID) :
  ghosts (sweepGhosts now g) !! id =
    match ghosts g !! id with
    | Some gh => if time_after now (expiresAt gh) then None else Some gh
    | None => None
    end ∧
  ∀ gh sim a, ghosts g !! id = Some gh → time_after now (expiresAt gh) = true →
    Zones g !! originZone gh = Some sim → aheap g !! saoi sim = Some a →
    ∃ a', aheap (sweepGhosts now g) !! saoi sim = Some a' ∧ positions a' !! id = None.
Proof.
  split.
  - unfold sweepGhosts.
    transitivity (foldl (λ t x, match (if time_after now (expiresAt x.2) then Some x.1 else None)
       with Some i => delete i t | None => t end) (ghosts g) (range_list (ghosts g)) !! id).
    + f_equal. generalize (range_list (ghosts g)). intros l. revert g.
      induction l as [|[i gh] l IH]; intros g; [done|]. cbn [foldl]. rewrite IH. f_equal.
      unfold sweep_ghost. cbn. destruct (time_after now (expiresAt gh)); cbn; [by case_match|done].
    + rewrite (lookup_selected_delete (λ _ gh, time_after now (expiresAt gh))).
      by destruct (ghosts g !! id).
  - intros gh sim a Hgh Ht Hz Ha. unfold sweepGhosts.
    apply elem_of_range_list, list_elem_of_split in Hgh as (l1 & l2 & ->).
    rewrite foldl_app. cbn [foldl].
    set (P := λ h : Game, Zones h = Zones g ∧ is_Some (aheap h !! saoi sim)).
    assert (H1 : P (foldl (sweep_ghost now) g l1)).
    { apply (foldl_invariant _ P); [by split; eauto|]. intros h [i k] _ [Hh1 Hh2]. unfold sweep_ghost.
      case_match; [done|]. case_match; split; cbn; try done. by apply is_Some_alter. }
    revert H1. generalize (foldl (sweep_ghost now) g l1). intros h [Hh1 [b Hb]].
    apply (foldl_invariant _ (λ h', ∃ a', aheap h' !! saoi sim = Some a' ∧ positions a' !! id = None)).
    + unfold sweep_ghost. rewrite Ht, Hh1, Hz. cbn. exists (Leave id b).
      rewrite lookup_alter_eq, Hb, Leave_positions. split; [done|apply lookup_delete_eq].
    + intros h' [i k] _ (a' & Ha' & Hn). unfold sweep_ghost. case_match; [by eauto|].
      case_match; cbn; [|by eauto]. rewrite lookup_alter. case_decide as Hl; [|by eauto].
      rewrite Hl, Ha'. cbn. eexists. split; [done|]. rewrite Leave_positions.
      rewrite lookup_delete. by case_decide.
Qed.

End view.
