(* ===== verification/Migration.v ===== *)
(** * Migration of zones and ghosts of neighbouring servers

    Properties of [boundary.go]: handing a zone to another server
    ([SnapshotZone], [LoadZoneSnapshot]) and keeping the ghosts of a
    neighbour's entities up to date ([ReconcileNeighborGhosts]). *)

From S2P Require Import Prelude GoFloat Types Protocol Aoi Entity Game Boundary GameInv GameSpec GameView.
From stdpp Require Import base tactics list gmap strings.
From Stdlib Require Import ZArith Lia.

Local Open Scope Z_scope.
#[local] Opaque cmdChannelBuffer maxPacketsPerTick InboxBufferSize.

Section migration.
Context `{GM : GoMath} `{GZ : Gzip} `{GB : Gob} `{CD : Codecs} `{RO : RangeOrder}.
Implicit Types g : Game.

(** ** Loading entities *)

(** The zone object assigned under an identifier. *)
Definition zone_obj g (z : ZoneID) : option Zone.Zone := Zones g !! z ≫= szone.

(** An entity object is created and added: the body of every loading loop. *)
Definition add_new (e : Entity) g : Game := AddEntity (next g) (alloc_entity e g).2.

(** The entity it becomes in its zone, given the zone object assigned there. *)
Definition settled (zo : option Zone.Zone) (e : Entity) : Entity :=
  enter_zone (mkSim zo 1%positive ∅) (zone_for e) e.

Lemma settled_spec zo e :
  eID (settled zo e) = eID e ∧ eType (settled zo e) = eType e ∧ Position (settled zo e) = Position e ∧
  Attrs (settled zo e) = Attrs e ∧ eLifecycle (settled zo e) = eLifecycle e ∧ eZoneID (settled zo e) = zone_for e ∧
  (∀ zn, zo = Some zn → Zone.zRuntimeID zn ≠ "" → eRuntimeID (settled zo e) = Zone.zRuntimeID zn).
Proof.
  destruct (enter_zone_spec (mkSim zo 1%positive ∅) (zone_for e) e) as (E1 & E2 & E3 & E4 & E5).
  split_and!; [done| |done| |done..].
  - unfold settled, enter_zone. by repeat case_match.
  - unfold settled, enter_zone. by repeat case_match.
Qed.

Lemma register_fresh e e' z sim g k :
  game_wf g → eID e' = eID e → Zones k !! z = Some sim →
  eheap k = <[next g := e]> (eheap g) → Entities k = Entities g → entityZone k = entityZone g →
  (∀ id, entity_of (register (next g) e' z sim k) id = if decide (id = eID e) then Some e' else entity_of g id) ∧
  entityZone (register (next g) e' z sim k) = <[eID e := z]> (entityZone g) ∧
  (∀ z', zone_obj (register (next g) e' z sim k) z' = zone_obj k z').
Proof.
  intros Hwf Hid Hk He HE Hez. split_and!.
  - intros id. unfold entity_of at 1. cbn. rewrite Hid, HE, He, lookup_insert.
    destruct (decide (eID e = id)) as [<-|Hne]; [rewrite decide_True by done; cbn; by rewrite lookup_insert_eq|].
    rewrite decide_False by done. unfold entity_of. destruct (Entities g !! id) as [p|] eqn:Ep; [|done]. cbn.
    destruct (wf_entities _ Hwf _ _ Ep) as (z' & s & _ & Hs & Hsp).
    destruct (wf_sims _ Hwf _ _ _ _ Hs Hsp) as (e0 & He0 & _).
    destruct (wf_eheap _ Hwf _ _ He0) as [_ Hlt]. by rewrite !lookup_insert_ne by lia.
  - cbn. by rewrite Hid, Hez.
  - intros z'. unfold zone_obj. cbn. rewrite lookup_insert. case_decide as Hd; [by rewrite <-Hd, Hk|done].
Qed.

Lemma add_new_spec e g :
  game_wf g → entity_wf e →
  game_wf (add_new e g) ∧
  (∀ id, entity_of (add_new e g) id =
     if decide (id = eID e) then Some (settled (zone_obj g (zone_for e)) e) else entity_of g id) ∧
  entityZone (add_new e g) = <[eID e := zone_for e]> (entityZone g) ∧
  (∀ z', zone_obj (add_new e g) z' = zone_obj g z').
Proof.
  intros Hwf Hewf. split; [by apply wf_addEntity, wf_alloc_entity|]. unfold add_new, AddEntity, alloc_entity. cbn [snd].
  set (h := g <| eheap ::= <[next g := e]> |> <| next ::= Pos.succ |>).
  assert (Hp : eheap h !! next g = Some e) by (unfold h; cbn; apply lookup_insert_eq).
  rewrite (addEntity_eq _ _ _ Hp). unfold ensure_sim. destruct (Zones h !! zone_for e) as [sim|] eqn:Es.
  - assert (Zones g !! zone_for e = Some sim) as Es' by exact Es.
    assert (settled (zone_obj g (zone_for e)) e = enter_zone sim (zone_for e) e) as ->.
    { unfold settled, enter_zone, zone_obj. by rewrite Es'. }
    apply (register_fresh e (enter_zone sim (zone_for e) e) (zone_for e) sim g h); try done.
    apply (enter_zone_spec sim (zone_for e) e).
  - assert (Zones g !! zone_for e = None) as Es' by exact Es.
    assert (settled (zone_obj g (zone_for e)) e = enter_zone (mkSim None (next h) ∅) (zone_for e) e) as ->.
    { unfold settled, enter_zone, zone_obj. by rewrite Es'. }
    cbn [alloc_aoi]. set (k := (h <| aheap ::= _ |> <| next ::= Pos.succ |>) <| Zones ::= _ |>).
    destruct (register_fresh e (enter_zone (mkSim None (next h) ∅) (zone_for e) e) (zone_for e) (mkSim None (next h) ∅) g k)
      as (H1 & H2 & H3); try done; [apply lookup_insert_eq|].
    split_and!; [done..|]. intros z'. rewrite H3. unfold zone_obj, k. cbn. rewrite lookup_insert.
    case_decide as Hd; [by rewrite <-Hd, Es'|done].
Qed.

Lemma add_loop_spec es g :
  game_wf g → Forall entity_wf es → NoDup (eID <$> es) →
  let g' := foldl (λ g e, add_new e g) g es in
  (∀ e, e ∈ es → entity_of g' (eID e) = Some (settled (zone_obj g (zone_for e)) e) ∧
                 entityZone g' !! eID e = Some (zone_for e)) ∧
  (∀ id, id ∉ eID <$> es → entity_of g' id = entity_of g id ∧ entityZone g' !! id = entityZone g !! id).
Proof.
  intros Hwf Hes. revert g Hwf. induction Hes as [|e es He Hes IH]; intros g Hwf; cbv zeta.
  { intros _. cbn. split; [by intros s ?%not_elem_of_nil|done]. }
  rewrite fmap_cons, NoDup_cons. intros [Hn Hnd]. cbn [foldl].
  destruct (add_new_spec e g Hwf He) as (Hwf' & Hent & Hez & Hzo).
  destruct (IH _ Hwf' Hnd) as [H1 H2]. split.
  - intros e' [->|Ht]%elem_of_cons.
    + destruct (H2 (eID e) Hn) as [-> ->]. by rewrite Hent, Hez, decide_True, lookup_insert_eq.
    + destruct (H1 e' Ht) as [-> ->]. by rewrite Hzo.
  - intros id [Hne Hn']%not_elem_of_cons. destruct (H2 id Hn') as [-> ->].
    by rewrite Hent, Hez, decide_False, lookup_insert_ne.
Qed.

(** [LoadZoneSnapshot] and [MigrateEntityIn] are such loops. *)
Lemma zone_for_snap s z : z ≠ "" → zone_for (entity_of_snap s z) = z.
Proof. intros Hz. unfold zone_for. cbn. by rewrite bool_decide_eq_false_2. Qed.

Lemma load_loop_eq z l g :
  foldl (λ g esnap, MigrateEntityIn esnap z g) g l = foldl (λ g e, add_new e g) g ((λ s, entity_of_snap s z) <$> l).
Proof. revert g. induction l as [|s l IH]; intros g; [done|]. apply IH. Qed.

Lemma load_loop_spec z l g :
  game_wf g → z ≠ "" → NoDup (snEntityId <$> l) →
  let g' := foldl (λ g esnap, MigrateEntityIn esnap z g) g l in
  (∀ s, s ∈ l → entity_of g' (snEntityId s) = Some (settled (zone_obj g z) (entity_of_snap s z)) ∧
                entityZone g' !! snEntityId s = Some z) ∧
  (∀ id, id ∉ snEntityId <$> l → entity_of g' id = entity_of g id ∧ entityZone g' !! id = entityZone g !! id).
Proof.
  intros Hwf Hz Hnd. cbv zeta. rewrite load_loop_eq.
  assert (eID <$> ((λ s, entity_of_snap s z) <$> l) = snEntityId <$> l) as Hids by by rewrite <-list_fmap_compose.
  destruct (add_loop_spec ((λ s, entity_of_snap s z) <$> l) g Hwf) as [H1 H2];
    [by apply Forall_fmap, Forall_true|by rewrite Hids|].
  rewrite Hids in H2. split; [|exact H2]. intros s Hs.
  pose proof (H1 (entity_of_snap s z)) as Hs'. rewrite !(zone_for_snap s z Hz) in Hs'.
  apply Hs', list_elem_of_fmap. by exists s.
Qed.

Lemma ensure_index_entities snap g :
  (∀ id, entity_of (ensure_index snap g) id = entity_of g id) ∧
  entityZone (ensure_index snap g) = entityZone g ∧ Zones (ensure_index snap g) = Zones g.
Proof. unfold ensure_index. by case_match. Qed.

(** The snapshot lists each entity of the zone once. *)
Lemma SnapshotZone_spec z g snap :
  game_wf g → SnapshotZone z g = Some snap →
  zsZoneId snap = z ∧ NoDup (snEntityId <$> zsEntities snap) ∧
  ∀ s, s ∈ zsEntities snap ↔ ∃ id e, entityZone g !! id = Some z ∧ entity_of g id = Some e ∧ eID e = id ∧ s = snap_of e.
Proof.
  intros Hwf. unfold SnapshotZone. destruct (aoiIndex g !! z); [|done]. intros [= <-]. cbn [zsZoneId zsEntities].
  assert (Hid : ∀ id e, entity_of g id = Some e → eID e = id).
  { intros id e He. by apply (entity_of_wf g id e). }
  split_and!; [done| |].
  - pose proof (NoDup_fst_range_list (entityZone g)) as Hnd. revert Hnd.
    generalize (range_list (entityZone g)). intros l Hl.
    assert (Hsub : ∀ l s, s ∈ snEntityId <$> (l ≫= zone_snap g z) → s ∈ l.*1).
    { clear -Hid. intros l s (t & -> & ([id z0] & Ht & Hin)%list_elem_of_bind)%list_elem_of_fmap.
      unfold zone_snap in Ht. cbn [fst snd] in Ht. case_bool_decide; [by apply not_elem_of_nil in Ht|].
      destruct (entity_of g id) as [e|] eqn:Ee; [|by apply not_elem_of_nil in Ht].
      apply list_elem_of_singleton in Ht as ->. cbn. rewrite (Hid _ _ Ee).
      apply list_elem_of_fmap. by exists (id, z0). }
    induction l as [|[id z0] l IH]; [constructor|]. apply NoDup_cons in Hl as [Hn Hl].
    cbn [mbind list_bind]. rewrite fmap_app. apply NoDup_app. split_and!; [| |by apply IH].
    + unfold zone_snap. case_bool_decide; [constructor|]. case_match; [apply NoDup_singleton|constructor].
    + intros s Hs Hs'%Hsub. unfold zone_snap in Hs. cbn [fst snd] in Hs. case_bool_decide; [by apply not_elem_of_nil in Hs|].
      destruct (entity_of g id) as [e|] eqn:Ee; [|by apply not_elem_of_nil in Hs].
      apply list_elem_of_singleton in Hs as ->. cbn in Hs'. by rewrite (Hid _ _ Ee) in Hs'.
  - intros s. rewrite list_elem_of_bind. split.
    + intros ([id z0] & Hs & Hin%elem_of_range_list). unfold zone_snap in Hs. cbn [fst snd] in Hs. case_bool_decide as Hne; [by apply not_elem_of_nil in Hs|].
      subst z0. destruct (entity_of g id) as [e|] eqn:Ee; [|by apply not_elem_of_nil in Hs].
      apply list_elem_of_singleton in Hs as ->. exists id, e. split_and!; auto.
    + intros (id & e & Hz & He & _ & ->). exists (id, z). rewrite elem_of_range_list.
      unfold zone_snap. cbn. rewrite bool_decide_eq_false_2 by auto. rewrite He. split; [by apply list_elem_of_singleton|done].
Qed.

(** C19. Zone hand-off: loading, on any server, the snapshot another server
    took of a zone registers there every entity of the zone, once, with the
    same identifier, type and position, in the same zone and in the Space the
    receiving server assigns to that zone, and leaves every other entity of
    the receiver as it was. *)
Theorem zone_handoff (g1 g2 : Game) (z : ZoneID) (snap : ZoneSnapshot) :
  reachable g1 → reachable g2 → z ≠ "" → SnapshotZone z g1 = Some snap →
  let g' := LoadZoneSnapshot snap g2 in
  (∀ id e, entityZone g1 !! id = Some z → entity_of g1 id = Some e →
     ∃ e', entity_of g' id = Some e' ∧ entityZone g' !! id = Some z ∧
       eID e' = id ∧ eType e' = eType e ∧ Position e' = Position e ∧ eZoneID e' = z ∧
       (∀ zn, zone_obj g2 z = Some zn → Zone.zRuntimeID zn ≠ "" → eRuntimeID e' = Zone.zRuntimeID zn)) ∧
  (∀ id, entityZone g1 !! id ≠ Some z → entity_of g' id = entity_of g2 id ∧
     entityZone g' !! id = entityZone g2 !! id).
Proof.
  intros Hg1%reachable_wf Hg2%reachable_wf Hz Hsnap. cbv zeta.
  destruct (SnapshotZone_spec z g1 snap Hg1 Hsnap) as (Hzid & Hnd & Hin).
  destruct (ensure_index_entities snap g2) as (He & Hez & HZ).
  unfold LoadZoneSnapshot. rewrite Hzid.
  destruct (load_loop_spec z (zsEntities snap) (ensure_index snap g2)) as [H1 H2];
    [by apply wf_ensure_index|done..|].
  assert (zone_obj (ensure_index snap g2) z = zone_obj g2 z) as Hzo by (unfold zone_obj; by rewrite HZ).
  split.
  - intros id e Hid Hen.
    assert (eID e = id) as Heid by by apply (entity_of_wf g1 id e).
    destruct (H1 (snap_of e)) as [H3 H4]; [apply Hin; by exists id, e|].
    cbn in H3, H4. rewrite Heid in H3, H4. rewrite Hzo in H3.
    destruct (settled_spec (zone_obj g2 z) (entity_of_snap (snap_of e) z)) as (E1 & E2 & E3 & _ & _ & E6 & E7).
    rewrite (zone_for_snap _ _ Hz) in E6. cbn in E1, E2, E3.
    eexists. split; [exact H3|]. split_and!; [done|congruence|done|by rewrite E3; destruct (Position e)|done|exact E7].
  - intros id Hid. rewrite <-He, <-Hez. apply H2.
    intros (s & -> & (id' & e & H3 & H4 & H5 & ->)%Hin)%list_elem_of_fmap. cbn in Hid. congruence.
Qed.

(** Loading a zone that the server does not serve splits its grid: when
    a snapshot with at least one entity is loaded for a zone that was never
    assigned, the grid index holds the deserialized grid while the zone's own
    record holds another, so that moves of the loaded entities are tracked in
    one grid and boundary queries read the other. *)
Theorem load_splits_grid (g : Game) (snap : ZoneSnapshot) (s : EntitySnapshot) (rest : list EntitySnapshot) :
  reachable g → zsZoneId snap ≠ "" → zsEntities snap = s :: rest →
  Zones g !! zsZoneId snap = None → aoiIndex g !! zsZoneId snap = None →
  let g' := LoadZoneSnapshot snap g in
  ∃ l sim, aoiIndex g' !! zsZoneId snap = Some l ∧ Zones g' !! zsZoneId snap = Some sim ∧ saoi sim ≠ l.
Proof.
  intros Hg%reachable_wf Hz Hs HZ Hi. cbv zeta. set (z := zsZoneId snap) in *.
  set (P := λ h : Game, game_wf h ∧ ∃ l sim, aoiIndex h !! z = Some l ∧ Zones h !! z = Some sim ∧ saoi sim ≠ l).
  assert (Hadd : ∀ h es, MigrateEntityIn es z h = AddEntity (next h) (alloc_entity (entity_of_snap es z) h).2) by done.
  assert (Hzf : ∀ es, zone_for (entity_of_snap es z) = z)
    by (intros; unfold zone_for; cbn; by rewrite bool_decide_eq_false_2).
  assert (Hreg : ∀ h es, MigrateEntityIn es z h =
    let '(sim, h') := ensure_sim z (alloc_entity (entity_of_snap es z) h).2 in
    register (next h) (enter_zone sim z (entity_of_snap es z)) z sim h').
  { intros h es. rewrite Hadd. unfold AddEntity.
    erewrite addEntity_eq; [by rewrite Hzf|]. cbn. apply lookup_insert_eq. }
  assert (Hfirst : P (MigrateEntityIn s z (ensure_index snap g))).
  { split; [by apply wf_MigrateEntityIn, wf_ensure_index|].
    rewrite Hreg. unfold ensure_index. fold z. rewrite Hi. cbn [alloc_aoi].
    unfold ensure_sim. cbn. rewrite HZ. cbn.
    exists (next g), (mkSim None (Pos.succ (Pos.succ (next g))) {[eID (enter_zone (mkSim None 1%positive ∅) z (entity_of_snap s z)) := Pos.succ (next g)]}).
    rewrite !lookup_insert_eq. split_and!; [done|done|]. cbn. lia. }
  unfold LoadZoneSnapshot. rewrite Hs. cbn [foldl]. fold z.
  eapply (proj2 (A := game_wf _)). apply (foldl_invariant _ P); [done|].
  intros h es _ (Hwf & l & sim & H1 & H2 & H3). split; [by apply wf_MigrateEntityIn|].
  rewrite Hreg. unfold ensure_sim. cbn. rewrite H2. cbn.
  eexists l, _. rewrite lookup_insert_eq. by split_and!.
Qed.

(** ** Ghosts of a neighbour's entities *)

Lemma append_cancel (a b t : string) : a +:+ t = b +:+ t → a = b.
Proof.
  assert (Hlen : ∀ x y : string, String.length (x +:+ y) = (String.length x + String.length y)%nat).
  { induction x as [|c x IH]; intros y; cbn; [done|]. by rewrite <-IH. }
  revert b. induction a as [|c a IH]; intros [|d b] H; [done|..].
  - apply (f_equal String.length) in H. rewrite !Hlen in H. simpl in H. lia.
  - apply (f_equal String.length) in H. rewrite !Hlen in H. simpl in H. lia.
  - injection H as -> H. f_equal. by apply IH.
Qed.

#[export] Instance remote_ghost_id_inj : Inj (=) (=) remote_ghost_id.
Proof. intros a b. apply append_cancel. Qed.

Definition neighbor_entry (z : ZoneID) (now : Time) (ttl : Duration) (n : neighborEntity) : ghostEntry :=
  mkGhost ghostRemote (nID n) z (nPos n) now (time_add now ttl).

(** A loop that writes one key per element. *)
Lemma lookup_foldl_insert {A V} (key : A → string) (val : A → V) (l : list A) (m : gmap string V) :
  NoDup (key <$> l) →
  (∀ x, x ∈ l → foldl (λ m x, <[key x := val x]> m) m l !! key x = Some (val x)) ∧
  (∀ k, k ∉ key <$> l → foldl (λ m x, <[key x := val x]> m) m l !! k = m !! k).
Proof.
  revert m. induction l as [|y l IH]; intros m; [intros _; split; [by intros ? ?%not_elem_of_nil|done]|].
  rewrite fmap_cons, NoDup_cons. intros [Hy Hnd]. destruct (IH (<[key y := val y]> m) Hnd) as [H1 H2].
  cbn [foldl]. split.
  - intros x [->|Hx]%elem_of_cons; [|auto]. by rewrite H2, lookup_insert_eq.
  - intros k [Hk1 Hk2]%not_elem_of_cons. by rewrite H2, lookup_insert_ne.
Qed.

(** The grid and the store of a zone during the two loops. *)
Definition ghost_state g (grid : loc) (z : ZoneID) (ps : gmap EntityID Vector3) (st : gmap EntityID ghostEntry) : Prop :=
  (positions <$> aheap g !! grid) = Some ps ∧ ghostStore g !! z = Some st.

Lemma reconcile_loop_spec o n grid now l g ps st :
  ghost_state g grid o ps st →
  let g' := foldl (reconcile_one o n grid now) g l in
  ghost_state g' grid o
    (foldl (λ m x, <[remote_ghost_id (nID x) := nPos x]> m) ps l)
    (foldl (λ m x, <[remote_ghost_id (nID x) := neighbor_entry n now (remoteTTL g) x]> m) st l) ∧
  ghostTTL g' = ghostTTL g.
Proof.
  revert g ps st. induction l as [|x l IH]; intros g ps st [Hp Hs]; cbv zeta; [done|]. cbn [foldl].
  destruct (aheap g !! grid) as [a|] eqn:Ea; [|done]. cbn in Hp. injection Hp as Hp.
  destruct (IH (reconcile_one o n grid now g x) (<[remote_ghost_id (nID x) := nPos x]> ps)
              (<[remote_ghost_id (nID x) := neighbor_entry n now (remoteTTL g) x]> st)) as [H1 H2].
  - unfold reconcile_one. cbv zeta. case_match; (split; cbn; [rewrite lookup_alter_eq, Ea; cbn; autorewrite with spatial; by rewrite Hp|
      by rewrite lookup_alter_eq, Hs]).
  - assert (Ht : ghostTTL (reconcile_one o n grid now g x) = ghostTTL g)
      by (unfold reconcile_one; by case_match).
    rewrite H2. split; [|done]. unfold remoteTTL in *. by rewrite Ht in H1.
Qed.

Lemma expire_loop_spec o grid seen now l g ps st :
  ghost_state g grid o ps st →
  let sel := λ x : EntityID * ghostEntry,
    if negb (bool_decide (x.1 ∈ seen)) && ((remote x.2).2 && time_after now (expiresAt x.2)) then Some x.1 else None in
  ghost_state (foldl (expire_one o grid seen now) g l) grid o
    (foldl (λ m x, match sel x with Some i => delete i m | None => m end) ps l)
    (foldl (λ m x, match sel x with Some i => delete i m | None => m end) st l).
Proof.
  revert g ps st. induction l as [|x l IH]; intros g ps st [Hp Hs]; cbv zeta; [done|]. cbn [foldl]. apply IH.
  destruct (aheap g !! grid) as [a|] eqn:Ea; [|done]. cbn in Hp. injection Hp as Hp.
  unfold expire_one. case_bool_decide; cbn [negb andb].
  { split; [by rewrite Ea, <-Hp|done]. }
  case_match; [|split; [by rewrite Ea, <-Hp|done]].
  split; cbn; [rewrite lookup_alter_eq, Ea; cbn; by rewrite Leave_positions, Hp|].
  by rewrite lookup_alter_eq, Hs.
Qed.

Lemma remote_ids_nodup (answer : list neighborEntity) :
  NoDup (nID <$> answer) → NoDup ((λ x, remote_ghost_id (nID x)) <$> answer).
Proof.
  intros H. change (NoDup (remote_ghost_id ∘ nID <$> answer)). rewrite list_fmap_compose. by apply NoDup_fmap_2; [apply _|].
Qed.

(** The second loop: ghosts that were not seen and have expired go. *)
Lemma expire_spec o grid now (ids : list EntityID) h ps st1 :
  let seen := list_to_set ids : gset EntityID in
  let k := foldl (expire_one o grid seen now) h (range_list st1) in
  ghost_state h grid o ps st1 →
  ∃ a' st', aheap k !! grid = Some a' ∧ ghostStore k !! o = Some st' ∧
    (∀ id, id ∈ ids → st' !! id = st1 !! id ∧ positions a' !! id = ps !! id) ∧
    (∀ id, id ∉ ids →
       st' !! id = match st1 !! id with
                   | Some gh => if (remote gh).2 && time_after now (expiresAt gh) then None else Some gh
                   | None => None
                   end ∧
       (∀ gh, st1 !! id = Some gh → (remote gh).2 && time_after now (expiresAt gh) = true → positions a' !! id = None)).
Proof.
  cbv zeta. set (seen := list_to_set ids : gset EntityID). intros H1.
  pose proof (expire_loop_spec o grid seen now (range_list st1) h ps st1 H1) as HE.
  cbv zeta beta in HE. destruct HE as [E1 E2].
  set (stale := λ i gh, negb (bool_decide (i ∈ seen)) && ((remote gh).2 && time_after now (expiresAt gh))).
  set (k := foldl (expire_one o grid seen now) h (range_list st1)) in *.
  destruct (aheap k !! grid) as [a'|] eqn:Ea'; [|done]. cbn in E1. injection E1 as E1.
  eexists a', _. split_and!; [done|exact E2| |]; intros id Hid; rewrite E1,
    (lookup_selected_delete (V := ghostEntry) stale), (lookup_selected_delete (V := Vector3) stale); unfold stale.
  - rewrite bool_decide_eq_true_2 by (unfold seen; by rewrite elem_of_list_to_set). cbn. by destruct (st1 !! id).
  - rewrite bool_decide_eq_false_2 by (unfold seen; by rewrite elem_of_list_to_set). cbn [negb andb]. split.
    + by destruct (st1 !! id).
    + intros gh Hgh Hexp. by rewrite Hgh, Hexp.
Qed.

(** Neighbour ghosts follow the neighbour: after reconciling a zone with
    a neighbour's answer, every entity of the answer has a ghost in the
    zone's store and grid at the reported position with a fresh deadline of
    30 seconds, a ghost missing from the answer survives only until its
    deadline and is then gone from both the store and the grid, and no other
    entry of the store is touched. *)
Theorem reconcile_exact (g : Game) (o n : ZoneID) (now : Time) (grid : loc) (a : AOI)
    (st : gmap EntityID ghostEntry) (zn : Zone.Zone) (q : ZoneID → Z → Z → float64 → list neighborEntity) :
  reachable g →
  aoiIndex g !! o = Some grid → aheap g !! grid = Some a → ghostStore g !! o = Some st →
  zone_obj g o = Some zn → querier g = Some q →
  let answer := q n (Zone.GX (Zone.Grid zn)) (Zone.GY (Zone.Grid zn)) (of_int 300) in
  NoDup (nID <$> answer) →
  let g' := ReconcileNeighborGhosts o n now g in
  ∃ a' st', aheap g' !! grid = Some a' ∧ ghostStore g' !! o = Some st' ∧
    (∀ x, x ∈ answer →
       st' !! remote_ghost_id (nID x) = Some (mkGhost ghostRemote (nID x) n (nPos x) now (now + 30 * Second)) ∧
       positions a' !! remote_ghost_id (nID x) = Some (nPos x)) ∧
    (∀ id, id ∉ remote_ghost_id <$> (nID <$> answer) →
       st' !! id = match st !! id with
                   | Some gh => if (remote gh).2 && time_after now (expiresAt gh) then None else Some gh
                   | None => None
                   end ∧
       (∀ gh, st !! id = Some gh → (remote gh).2 && time_after now (expiresAt gh) = true →
              positions a' !! id = None)).
Proof.
  intros Hg%reachable_wf Hi Ha Hst Hz Hq. cbv zeta.
  destruct (wf_config _ Hg) as (Hr & _ & Ht).
  change (of_int 300) with DefaultAOIRadius. rewrite <-Hr.
  set (answer := q n (Zone.GX (Zone.Grid zn)) (Zone.GY (Zone.Grid zn)) (aoiRadius g)). intros Hnd.
  pose proof (remote_ids_nodup answer Hnd) as Hnd'.
  unfold ReconcileNeighborGhosts. unfold zone_obj in Hz. rewrite Hi, Hst, Hz, Hq. fold answer.
  destruct (reconcile_loop_spec o n grid now answer g (positions a) st) as [H1 _]; [by split; [rewrite Ha|]|].
  assert (HT : remoteTTL g = 30 * Second) by (unfold remoteTTL; by rewrite Ht). rewrite HT in H1.
  revert H1. generalize (foldl (reconcile_one o n grid now) g answer). intros h H1.
  destruct (lookup_foldl_insert (λ x, remote_ghost_id (nID x)) (neighbor_entry n now (30 * Second)) answer st Hnd') as [S1 S2].
  destruct (lookup_foldl_insert (λ x, remote_ghost_id (nID x)) nPos answer (positions a) Hnd') as [P1 P2].
  revert H1 S1 S2 P1 P2.
  generalize (foldl (λ m x, <[remote_ghost_id (nID x) := nPos x]> m) (positions a) answer). intros ps.
  generalize (foldl (λ m x, <[remote_ghost_id (nID x) := neighbor_entry n now (30 * Second) x]> m) st answer).
  intros st1 H1 S1 S2 P1 P2.
  assert (store_of h o = st1) as -> by (unfold store_of; by rewrite (proj2 H1)).
  destruct (expire_spec o grid now ((λ n, remote_ghost_id (nID n)) <$> answer) h ps st1 H1) as (a' & st' & E1 & E2 & E3 & E4).
  exists a', st'. split_and!; [done|done| |].
  - intros x Hx. destruct (E3 (remote_ghost_id (nID x))) as [-> ->]; [apply list_elem_of_fmap; by exists x|]. by rewrite (S1 x Hx), (P1 x Hx).
  - intros id Hid. rewrite <-list_fmap_compose in Hid. destruct (E4 id Hid) as [E5 E6]. by rewrite (S2 id Hid) in E5, E6.
Qed.
End migration.
