(* ===== verification/Room.v ===== *)
(** * The room service: scheduling, registry and ownership in memory

    [internal/room]: node descriptors and the least-loaded allocator
    ([node.go], [allocator.go]), the registry, the ownership table and the
    watcher fan-out ([registry.go]), the transfer coordinator
    ([migration.go]), the leadership gate ([leaderelection.go]), the in-memory
    sweeper ([sweeper.go]) and the runtime API ([api.go]).

    Objects guarded by one mutex are records; a method is a function to the
    updated record.  Descriptors are stored by value: the sources never write
    through a descriptor they got from the registry. *)

From S2P Require Import Prelude GoFloat Types.
From stdpp Require Import base tactics list gmap strings.
From Stdlib Require Import ZArith Lia.

Local Open Scope Z_scope.

(** ** Nodes *)

Record NodeCapacity := mkCapacity { MaxZones : Z; MaxEntities : Z }.

Record NodeLoad := mkLoad {
  ZoneCount : Z;
  ActiveEntities : Z;
  lActiveSpaces : Z;
  ConnectedUsers : Z;
  lQueueDepth : Z;
  TickDurationMs : float64
}.
Definition zero_load : NodeLoad := mkLoad 0 0 0 0 0 fzero.

Record NodeDescriptor := mkNode {
  NodeID : ServerID;
  AdvertiseAddr : string;
  Host : string;
  Port : Z;
  Version : string;
  Build : string;
  Capacity : NodeCapacity;
  Load : NodeLoad;
  Labels : gmap string string;
  nStatus : Z;
  StartTime : Time;
  LastHeartbeat : Time
}.
Definition eta_NodeDescriptor (n : NodeDescriptor) :=
  mkNode (NodeID n) (AdvertiseAddr n) (Host n) (Port n) (Version n) (Build n) (Capacity n)
    (Load n) (Labels n) (nStatus n) (StartTime n) (LastHeartbeat n).
#[export] Instance set_Load : Setter Load. Proof. solve_setter eta_NodeDescriptor. Defined.
#[export] Instance set_nStatus : Setter nStatus. Proof. solve_setter eta_NodeDescriptor. Defined.
#[export] Instance set_StartTime : Setter StartTime. Proof. solve_setter eta_NodeDescriptor. Defined.
#[export] Instance set_LastHeartbeat : Setter LastHeartbeat. Proof. solve_setter eta_NodeDescriptor. Defined.

Definition Address (d : NodeDescriptor) : string :=
  if bool_decide (AdvertiseAddr d ≠ "") then AdvertiseAddr d
  else Host d +:+ ":" +:+ itoa (Port d).

Definition CanAccept (d : NodeDescriptor) : bool :=
  if negb (nStatus d =? ServerStatusActive) then false
  else if (0 <? MaxZones (Capacity d)) && (MaxZones (Capacity d) <=? ZoneCount (Load d)) then false
  else true.

Definition loadScore (n : NodeDescriptor) : float64 :=
  fadd (fmul (of_int (ZoneCount (Load n))) (of_int 100000)) (of_int (ActiveEntities (Load n))).

Definition IsNodeStatus (n : option NodeDescriptor) (s : Z) : bool :=
  match n with Some d => nStatus d =? s | None => false end.

(** ** Allocation *)

Definition select_step (best : option NodeDescriptor) (n : option NodeDescriptor) : option NodeDescriptor :=
  match n with
  | None => best
  | Some d =>
      if negb (CanAccept d) then best
      else match best with
           | None => Some d
           | Some b => if fltb (loadScore d) (loadScore b) then Some d else best
           end
  end.

(** [LeastLoadedAllocator.Select]; a nil candidate is [None]. *)
Definition Select (candidates : list (option NodeDescriptor)) : result error NodeDescriptor :=
  match foldl select_step None candidates with
  | None => Err ErrNoCapacity
  | Some n => Ok n
  end.

(** The [Allocator] interface: what its callers rely on. *)
Class Allocator := allocate : list (option NodeDescriptor) → result error NodeDescriptor.
Class AllocatorLaws (A : Allocator) : Prop := {
  allocate_member : ∀ l n, allocate l = Ok n → Some n ∈ l ∧ CanAccept n = true;
  allocate_fails : ∀ l e, allocate l = Err e → ∀ n, Some n ∈ l → CanAccept n = false
}.
Definition LeastLoadedAllocator : Allocator := Select.

Section room.
Context `{RO : RangeOrder}.

(** ** The registry *)

Abbreviation registry := (gmap ServerID NodeDescriptor).

Definition Register (info : NodeDescriptor) (now : Time) (r : registry) : result error registry :=
  match r !! NodeID info with
  | Some _ => Err (Wrapped ("node " +:+ NodeID info) ErrConflict)
  | None =>
      let info := info <| LastHeartbeat := now |> in
      let info := if time_is_zero (StartTime info) then info <| StartTime := now |> else info in
      Ok (<[NodeID info := info]> r)
  end.

Definition reg_Get (id : ServerID) (r : registry) : option NodeDescriptor := r !! id.

Definition Heartbeat (id : ServerID) (now : Time) (r : registry) : result error registry :=
  match r !! id with
  | None => Err (Wrapped ("node " +:+ id) ErrNotFound)
  | Some s => Ok (<[id := s <| LastHeartbeat := now |> <| nStatus := ServerStatusActive |>]> r)
  end.

Definition UpdateLoad (id : ServerID) (load : NodeLoad) (now : Time) (r : registry) : result error registry :=
  match r !! id with
  | None => Err (Wrapped ("node " +:+ id) ErrNotFound)
  | Some s => Ok (<[id := s <| Load := load |> <| LastHeartbeat := now |> <| nStatus := ServerStatusActive |>]> r)
  end.

Definition reg_Remove (id : ServerID) (r : registry) : registry := delete id r.

Definition reg_List (r : registry) : list NodeDescriptor := (range_list r).*2.

Definition LeastLoaded (r : registry) : option NodeDescriptor :=
  match Select (Some <$> reg_List r) with Ok n => Some n | Err _ => None end.

(** ** Ownership *)

Abbreviation ownership := (gmap string ServerID).

Definition own_Claim (zoneID : string) (serverID : ServerID) (zo : ownership) : result error ownership :=
  match zo !! zoneID with
  | Some _ => Err (Wrapped ("zone " +:+ zoneID) ErrConflict)
  | None => Ok (<[zoneID := serverID]> zo)
  end.

Definition own_Release (zoneID : string) (serverID : ServerID) (zo : ownership) : result error ownership :=
  match zo !! zoneID with
  | None => Err (Wrapped ("zone " +:+ zoneID) ErrNotFound)
  | Some owner =>
      if bool_decide (owner ≠ serverID) then Err (Wrapped ("zone " +:+ zoneID) ErrNotOwned)
      else Ok (delete zoneID zo)
  end.

Definition own_Lookup (zoneID : string) (zo : ownership) : option ServerID := zo !! zoneID.

Definition ResolveZone (zo : ownership) (reg : registry) (zoneID : string) : result error (ServerID * string) :=
  match own_Lookup zoneID zo with
  | None => Err (Wrapped ("zone " +:+ zoneID) ErrNotFound)
  | Some serverID =>
      match reg_Get serverID reg with
      | None => Err (Wrapped ("node " +:+ serverID) ErrNotFound)
      | Some info => Ok (serverID, Address info)
      end
  end.

(** ** Watchers *)

Record OwnershipChange := mkChange { cZoneId : string; cServerId : string; cHost : string; cPort : Z }.

Record WatcherFanout := mkFanout { channels : gmap string (list OwnershipChange); nextID : Z }.

Definition watchBuffer : nat := 16.

Definition Subscribe (f : WatcherFanout) : string * WatcherFanout :=
  let n := wrap64 (nextID f + 1) in
  let id := "w" +:+ itoa n in
  (id, mkFanout (<[id := []]> (channels f)) n).

Definition Unsubscribe (id : string) (f : WatcherFanout) : WatcherFanout :=
  mkFanout (delete id (channels f)) (nextID f).

(** A non-blocking send to every channel. *)
Definition Broadcast (change : OwnershipChange) (f : WatcherFanout) : WatcherFanout :=
  mkFanout ((λ ch, if (length ch <? watchBuffer)%nat then ch ++ [change] else ch) <$> channels f) (nextID f).

(** ** Transfer of zones *)

Record zoneRow := mkZoneRow { rowner : ServerID; rstatus : Z }.

(** The table, and the calls made to every listener. *)
Record MigrationCoordinator := mkCoordinator {
  rows : gmap string zoneRow;
  listeners : nat;
  notified : list (nat * string * ServerID * Z)
}.

Definition table_set (zoneID : string) (owner : ServerID) (status : Z) (m : MigrationCoordinator) : MigrationCoordinator :=
  mkCoordinator (<[zoneID := mkZoneRow owner status]> (rows m)) (listeners m) (notified m).

Definition NewMigrationCoordinator : MigrationCoordinator := mkCoordinator ∅ 0 [].

Definition WithListener (m : MigrationCoordinator) : MigrationCoordinator :=
  mkCoordinator (rows m) (S (listeners m)) (notified m).

Definition PrepareTransfer (zoneID : string) (target : ServerID) (m : MigrationCoordinator)
    : result error MigrationCoordinator :=
  match rows m !! zoneID with
  | None => Err (Wrapped ("zone " +:+ zoneID) ErrNotFound)
  | Some row =>
      if negb (rstatus row =? ZoneStatusActive)
      then Err (Wrapped ("zone " +:+ zoneID +:+ " status " +:+ ZoneStatus_String (rstatus row)) ErrConflict)
      else Ok (table_set zoneID (rowner row) ZoneStatusTransferring m)
  end.

Definition CompleteTransfer (zoneID : string) (target : ServerID) (m : MigrationCoordinator)
    : result error MigrationCoordinator :=
  match rows m !! zoneID with
  | None => Err (Wrapped ("zone " +:+ zoneID) ErrNotFound)
  | Some row =>
      if negb (rstatus row =? ZoneStatusTransferring)
      then Err (Wrapped ("zone " +:+ zoneID +:+ " status " +:+ ZoneStatus_String (rstatus row)) ErrInvalidArg)
      else
        let m := table_set zoneID target ZoneStatusActive m in
        Ok (mkCoordinator (rows m) (listeners m)
              (notified m ++ ((λ i, (i, zoneID, target, ZoneStatusActive)) <$> seq 0 (listeners m))))
  end.

Definition coord_Status (zoneID : string) (m : MigrationCoordinator) : Z * bool :=
  match rows m !! zoneID with Some row => (rstatus row, true) | None => (0, false) end.

(** ** Leadership *)

(** [FakeLease], the lease of the repository, is the flag [held]. *)
Definition lease_Acquire (held : bool) : bool * bool := (true, true).
Definition lease_Renew (held : bool) : bool := held.
Definition lease_Release (held : bool) : bool := false.

(** A gate holds a lease or nil; [IsHeld] reads it. *)
Definition IsLeader (lease : option bool) : bool := match lease with Some held => held | None => false end.
Definition DoIfLeader {S} (lease : option bool) (fn : S → S) (s : S) : S :=
  if negb (IsLeader lease) then s else fn s.

(** ** The sweeper *)

Record SweeperConfig := mkSweeperConfig { Interval : Duration; MissThreshold : Duration }.

Definition sweeper_defaults (cfg : SweeperConfig) : SweeperConfig :=
  mkSweeperConfig (if Interval cfg =? 0 then 5 * Second else Interval cfg)
                  (if MissThreshold cfg =? 0 then 15 * Second else MissThreshold cfg).

(** The registry, the ownership table, and the calls of the [reassign] callback. *)
Record Sweeper := mkSweeper {
  reg : registry;
  zo : ownership;
  reassigned : list (string * ServerID)
}.

Definition missed (cfg : SweeperConfig) (now : Time) (info : NodeDescriptor) : bool :=
  if nStatus info =? ServerStatusShutdown then false
  else MissThreshold cfg <? time_sub now (LastHeartbeat info).

Definition dead_servers (cfg : SweeperConfig) (now : Time) (r : registry) : list ServerID :=
  '(id, info) ← range_list r; if missed cfg now info then [id] else [].

Definition mark_shutdown (id : ServerID) (r : registry) : registry :=
  match r !! id with
  | Some info => <[id := info <| nStatus := ServerStatusShutdown |>]> r
  | None => r
  end.

Definition orphans_of (dead : ServerID) (zo : ownership) : list string :=
  '(zoneID, owner) ← range_list zo; if bool_decide (owner = dead) then [zoneID] else [].

(** The [ReassignFunc] callback, nil or a function that may claim the zone. *)
Abbreviation reassigner := (option (string → ServerID → ownership → ownership)).

Definition reassign_one (reassign : reassigner) (s : Sweeper) (zoneID : string) : Sweeper :=
  match LeastLoaded (reg s) with
  | None => s
  | Some target =>
      match reassign with
      | Some f => mkSweeper (reg s) (f zoneID (NodeID target) (zo s)) (reassigned s ++ [(zoneID, NodeID target)])
      | None => s
      end
  end.

Definition reassignZonesOf (reassign : reassigner) (dead : ServerID) (s : Sweeper) : Sweeper :=
  let orphaned := orphans_of dead (zo s) in
  let s := mkSweeper (reg s) (foldl (λ zo z, delete z zo) (zo s) orphaned) (reassigned s) in
  foldl (reassign_one reassign) s orphaned.

Definition sweep (cfg : SweeperConfig) (reassign : reassigner) (now : Time) (s : Sweeper) : Sweeper :=
  foldl (λ s id, reassignZonesOf reassign id (mkSweeper (mark_shutdown id (reg s)) (zo s) (reassigned s)))
    s (dead_servers cfg now (reg s)).

(** ** Runtimes *)

Record RuntimeRecord := mkRuntime {
  rtID : string;
  rtStatus : Z;
  rtZoneCount : Z;
  rtZoneSize : float64;
  rtZoneIDs : list string;
  rtPlayerCount : Z;
  rtCreatedAt : Time
}.

Abbreviation runtimes := (gmap string RuntimeRecord).

(** [fmt.Sprintf("%s-z%d", id, i+1)] for [i] from 0. *)
Definition zone_name (id : string) (i : nat) : string := id +:+ "-z" +:+ itoa (Z.of_nat i + 1).
Definition zone_names (id : string) (n : Z) : list string := zone_name id <$> seq 0 (Z.to_nat n).

Definition rt_Create (id : string) (zoneCount : Z) (zoneSize : float64) (now : Time) (m : runtimes)
    : result error (RuntimeRecord * runtimes) :=
  match m !! id with
  | Some _ => Err ErrConflict
  | None =>
      let r := mkRuntime id RuntimeStatusActive zoneCount zoneSize (zone_names id zoneCount) 0 now in
      Ok (r, <[id := r]> m)
  end.

Definition rt_Get (id : string) (m : runtimes) : result error RuntimeRecord :=
  match m !! id with Some r => Ok r | None => Err ErrNotFound end.

Definition rt_Destroy (id : string) (m : runtimes) : result error runtimes :=
  match m !! id with
  | None => Err ErrNotFound
  | Some r =>
      Ok (<[id := mkRuntime (rtID r) RuntimeStatusDestroyed (rtZoneCount r) (rtZoneSize r) (rtZoneIDs r)
                    (rtPlayerCount r) (rtCreatedAt r)]> m)
  end.

Definition rt_List (m : runtimes) : list RuntimeRecord :=
  '(_, r) ← range_list m; if rtStatus r =? RuntimeStatusDestroyed then [] else [r].

(** The gRPC codes the API answers with. *)
Inductive code := InvalidArgument | NotFound | Internal | Unavailable.
#[export] Instance code_eq_dec : EqDecision code.
Proof. solve_decision. Defined.

Record CreateRuntimeResponse := mkCreated { crRuntimeId : string; crGatewayAddr : string; crZoneCount : Z; crZones : list string }.

Definition CreateRuntime (gatewayAddr runtimeId : string) (zoneCount : Z) (zoneSize : float64) (now : Time)
    (m : runtimes) : result code CreateRuntimeResponse * runtimes :=
  if bool_decide (runtimeId = "") then (Err InvalidArgument, m)
  else
    let zc := if zoneCount <=? 0 then 1 else zoneCount in
    let zs := if fleb zoneSize fzero then of_int 100 else zoneSize in
    match rt_Create runtimeId zc zs now m with
    | Err _ => (Err Internal, m)
    | Ok (rec, m) =>
        (Ok (mkCreated (rtID rec) gatewayAddr (wrap32 (rtZoneCount rec)) (zone_names (rtID rec) (rtZoneCount rec))), m)
    end.

Definition DestroyRuntime (runtimeId : string) (m : runtimes) : result code bool * runtimes :=
  match rt_Destroy runtimeId m with
  | Err e => (Err (if bool_decide (e = ErrNotFound) then NotFound else Internal), m)
  | Ok m => (Ok true, m)
  end.

(** The protobuf status: 0 is unspecified. *)
Definition toProtoStatus (s : Z) : Z :=
  if s =? RuntimeStatusCreating then 1
  else if s =? RuntimeStatusActive then 2
  else if s =? RuntimeStatusDraining then 3
  else if s =? RuntimeStatusDestroyed then 4
  else 0.

Record RuntimeInfo := mkInfo { riID : string; riStatus : Z; riZoneCount : Z; riPlayerCount : Z; riCreatedAt : Time }.

Definition info_of (r : RuntimeRecord) : RuntimeInfo :=
  mkInfo (rtID r) (toProtoStatus (rtStatus r)) (wrap32 (rtZoneCount r)) (wrap32 (rtPlayerCount r)) (rtCreatedAt r).

Definition GetRuntimeInfo (runtimeId : string) (m : runtimes) : result code RuntimeInfo :=
  match rt_Get runtimeId m with
  | Err e => Err (if bool_decide (e = ErrNotFound) then NotFound else Internal)
  | Ok rec => Ok (info_of rec)
  end.

Definition GetRuntimeMetrics (runtimeId : string) (m : runtimes) : result code (string * Z) :=
  match rt_Get runtimeId m with
  | Err e => Err (if bool_decide (e = ErrNotFound) then NotFound else Internal)
  | Ok rec => Ok (rtID rec, wrap32 (rtPlayerCount rec))
  end.

(** The memory store ignores the page token and size and answers no token. *)
Definition ListRuntimes (m : runtimes) : list RuntimeInfo * string := (info_of <$> rt_List m, "").

End room.

(** ** Allocation picks the least loaded node *)

(** Loads for which the score is exact in binary64 and entities never
    outweigh a zone. *)
Definition load_ok (n : NodeDescriptor) : Prop :=
  0 ≤ ZoneCount (Load n) ≤ 1000000000 ∧ 0 ≤ ActiveEntities (Load n) < 100000.

Definition less_loaded (a b : NodeDescriptor) : Prop :=
  ZoneCount (Load a) < ZoneCount (Load b) ∨
  ZoneCount (Load a) = ZoneCount (Load b) ∧ ActiveEntities (Load a) ≤ ActiveEntities (Load b).

Definition score (n : NodeDescriptor) : Z := ZoneCount (Load n) * 100000 + ActiveEntities (Load n).

Lemma loadScore_exact n : load_ok n → loadScore n = of_int (score n) ∧ exact (score n).
Proof.
  intros [Hz He]. unfold loadScore, score. unfold exact.
  rewrite fmul_exact by (unfold exact; lia). rewrite fadd_exact by (unfold exact; lia).
  split; [done|lia].
Qed.

Lemma loadScore_lt a b : load_ok a → load_ok b → fltb (loadScore a) (loadScore b) = (score a <? score b).
Proof.
  intros Ha Hb. destruct (loadScore_exact a Ha) as [-> ?], (loadScore_exact b Hb) as [-> ?].
  by apply fltb_exact.
Qed.

Lemma score_less a b : load_ok a → load_ok b → score a ≤ score b → less_loaded a b.
Proof. unfold load_ok, score, less_loaded. lia. Qed.

(** The best candidate among those seen so far, ties going to the earlier one. *)
Lemma select_loop l best :
  (∀ n, Some n ∈ l → load_ok n) → (∀ b, best = Some b → load_ok b) →
  match foldl select_step best l with
  | None => best = None ∧ ∀ n, Some n ∈ l → CanAccept n = false
  | Some b => (best = Some b ∨ Some b ∈ l ∧ CanAccept b = true) ∧
              (∀ n, Some n ∈ l → CanAccept n = true → score b ≤ score n) ∧
              (∀ c, best = Some c → score b ≤ score c)
  end.
Proof.
  revert best. induction l as [|x l IH]; intros best Hl Hb; cbn [foldl].
  { destruct best as [b|]; [|split; [done|set_solver]].
    split_and!; [by left|set_solver|]. intros c [= ->]. lia. }
  assert (Hb' : ∀ b, select_step best x = Some b → load_ok b).
  { intros b. unfold select_step. destruct x as [d|]; [|auto].
    assert (load_ok d) by (apply Hl; set_solver). repeat case_match; naive_solver. }
  specialize (IH (select_step best x) (λ n Hn, Hl n (list_elem_of_further _ _ _ Hn)) Hb').
  assert (Hskip : select_step best x = best → (∀ n, x = Some n → CanAccept n = false) →
    match foldl select_step (select_step best x) l with
    | None => best = None ∧ ∀ n, Some n ∈ x :: l → CanAccept n = false
    | Some b => (best = Some b ∨ Some b ∈ x :: l ∧ CanAccept b = true) ∧
                (∀ n, Some n ∈ x :: l → CanAccept n = true → score b ≤ score n) ∧
                (∀ c, best = Some c → score b ≤ score c)
    end).
  { intros Hs Hx. rewrite Hs in *.
    destruct (foldl select_step best l) as [r|]; setoid_rewrite elem_of_cons.
    - destruct IH as (H1 & H2 & H3). split_and!; [naive_solver| |done].
      intros n [Hn|Hn] Hc; [|auto]. by rewrite (Hx n) in Hc.
    - destruct IH as (H1 & H2). split; [done|]. intros n [Hn|Hn]; auto. }
  destruct x as [d|]; [|by apply Hskip].
  assert (Hd : load_ok d) by (apply Hl; set_solver).
  destruct (CanAccept d) eqn:Ed; [|apply Hskip; [cbn; by rewrite Ed|by intros ? [= <-]]].
  clear Hskip. assert (Hstep : select_step best (Some d) = match best with
    | None => Some d | Some b => if fltb (loadScore d) (loadScore b) then Some d else best end)
    by (cbn; by rewrite Ed).
  rewrite Hstep in *. clear Hstep. destruct best as [b|].
  - specialize (Hb b eq_refl). rewrite (loadScore_lt d b Hd Hb) in *.
    destruct (score d <? score b) eqn:Es; [apply Z.ltb_lt in Es|apply Z.ltb_ge in Es];
      (destruct (foldl _ _ l) as [r|]; [destruct IH as (H1 & H2 & H3)|by destruct IH]).
    + specialize (H3 d eq_refl). split_and!.
      * right. destruct H1 as [[= ->]|[? ?]]; split; (set_solver || done).
      * intros n [[= ->]|Hn]%elem_of_cons Hc; [lia|auto].
      * intros c [= ->]. lia.
    + specialize (H3 b eq_refl). split_and!.
      * destruct H1 as [?|[? ?]]; [by left|right; split; [set_solver|done]].
      * intros n [[= ->]|Hn]%elem_of_cons Hc; [lia|auto].
      * intros c [= ->]. lia.
  - destruct (foldl _ _ l) as [r|]; [destruct IH as (H1 & H2 & H3)|by destruct IH].
    specialize (H3 d eq_refl). split_and!; [|intros n [[= ->]|Hn]%elem_of_cons Hc; [lia|auto]|done].
    right. destruct H1 as [[= ->]|[? ?]]; split; (set_solver || done).
Qed.

#[export] Instance LeastLoaded_laws : AllocatorLaws LeastLoadedAllocator.
Proof.
  assert (Hloop : ∀ l best,
    match foldl select_step best l with
    | Some b => best = Some b ∨ Some b ∈ l ∧ CanAccept b = true
    | None => best = None ∧ ∀ n, Some n ∈ l → CanAccept n = false
    end).
  { induction l as [|x l IH]; intros best; cbn [foldl].
    - destruct best; [by left|split; [done|set_solver]].
    - specialize (IH (select_step best x)). destruct (foldl _ _ l) as [r|].
      + destruct IH as [IH|[? ?]]; [|right; split; [set_solver|done]].
        unfold select_step in IH. destruct x as [d|]; [|by left].
        destruct (CanAccept d) eqn:Ed; [|by left]. cbn in IH.
        destruct best as [b|]; [case_match|]; simplify_eq; [right|left|right]; set_solver.
      + destruct IH as [IH1 IH2]. unfold select_step in IH1.
        destruct x as [d|]; [|split; [done|set_solver]].
        destruct (CanAccept d) eqn:Ed; cbn in IH1; [by repeat case_match|]. split; [done|set_solver]. }
  split; unfold allocate, LeastLoadedAllocator, Select.
  - intros l n Hn. specialize (Hloop l None). case_match; simplify_eq. by destruct Hloop.
  - intros l e He n Hn. specialize (Hloop l None). case_match; simplify_eq. by apply Hloop.
Qed.

(** C38. Zones go to the least loaded node: among candidates whose reported
    loads are in range, the allocator returns one that is active, below its
    capacity and has the fewest zones, and among those the fewest entities;
    it fails only when no candidate can take a zone. *)
Theorem select_least_loaded (candidates : list (option NodeDescriptor)) :
  (∀ n, Some n ∈ candidates → load_ok n) →
  match Select candidates with
  | Ok n => Some n ∈ candidates ∧ nStatus n = ServerStatusActive ∧
            (0 < MaxZones (Capacity n) → ZoneCount (Load n) < MaxZones (Capacity n)) ∧
            ∀ m, Some m ∈ candidates → CanAccept m = true → less_loaded n m
  | Err e => e = ErrNoCapacity ∧ ∀ m, Some m ∈ candidates → CanAccept m = false
  end.
Proof.
  intros Hl. pose proof (select_loop candidates None Hl ltac:(done)) as H. unfold Select.
  destruct (foldl select_step None candidates) as [n|]; [|by destruct H].
  destruct H as ([?|[Hn Hc]] & Hmin & _); [done|]. pose proof Hc as Hc'.
  unfold CanAccept in Hc'. split_and!; [done| | |].
  - destruct (nStatus n =? ServerStatusActive) eqn:E; [by apply Z.eqb_eq|done].
  - intros Hm. apply Z.ltb_lt in Hm. rewrite Hm in Hc'. repeat case_match; try done. lia.
  - intros m Hm Ham. apply score_less; auto.
Qed.

Definition sample_node (id : ServerID) (zones entities maxZones : Z) : NodeDescriptor :=
  mkNode id "" "10.0.0.1" 9000 "" "" (mkCapacity maxZones 0) (mkLoad zones entities 0 0 0 fzero) ∅
    ServerStatusActive 1 1.

Lemma select_least_loaded_witness :
  ∃ n, Select [None; Some (sample_node "a" 3 10 10); Some (sample_node "b" 2 99999 10);
               Some (sample_node "c" 2 7 10); Some (sample_node "d" 1 0 1)] = Ok n ∧ NodeID n = "c" ∧
       less_loaded n (sample_node "b" 2 99999 10).
Proof.
  assert (Hl : ∀ n, Some n ∈ [None; Some (sample_node "a" 3 10 10); Some (sample_node "b" 2 99999 10);
               Some (sample_node "c" 2 7 10); Some (sample_node "d" 1 0 1)] → load_ok n).
  { intros n Hn. repeat (apply elem_of_cons in Hn as [Hn|Hn]; [try discriminate Hn; try (injection Hn as ->; cbv; repeat split; discriminate)|]).
    by apply not_elem_of_nil in Hn. }
  pose proof (select_least_loaded _ Hl) as H.
  exists (sample_node "c" 2 7 10). split; [vm_compute; reflexivity|]. split; [reflexivity|].
  change (Select _) with (Ok (E := error) (sample_node "c" 2 7 10)) in H.
  apply H; [set_solver|reflexivity].
Defined.

(** ** Transfers *)

Inductive coord_op :=
| CoSet (z : string) (owner : ServerID) (status : Z)
| CoPrepare (z : string) (target : ServerID)
| CoComplete (z : string) (target : ServerID).

Definition coord_exec (m : MigrationCoordinator) (o : coord_op) : MigrationCoordinator :=
  match o with
  | CoSet z owner status => table_set z owner status m
  | CoPrepare z t => match PrepareTransfer z t m with Ok m' => m' | Err _ => m end
  | CoComplete z t => match CompleteTransfer z t m with Ok m' => m' | Err _ => m end
  end.

(** What one step may do to a row. *)
Definition row_step (o : coord_op) (z : string) (old new : option zoneRow) : Prop :=
  new = old ∨
  (∃ owner status, o = CoSet z owner status ∧ new = Some (mkZoneRow owner status)) ∨
  (∃ t owner, o = CoPrepare z t ∧ old = Some (mkZoneRow owner ZoneStatusActive) ∧
              new = Some (mkZoneRow owner ZoneStatusTransferring)) ∨
  (∃ t owner, o = CoComplete z t ∧ old = Some (mkZoneRow owner ZoneStatusTransferring) ∧
              new = Some (mkZoneRow t ZoneStatusActive)).

Lemma coord_exec_row m o z : row_step o z (rows m !! z) (rows (coord_exec m o) !! z).
Proof.
  unfold row_step. destruct o as [z' owner status|z' t|z' t]; cbn.
  - rewrite lookup_insert. case_decide; subst; [|by left]. right; left. eauto.
  - unfold PrepareTransfer. destruct (rows m !! z') as [[owner status]|] eqn:E; [|by left].
    destruct (status =? ZoneStatusActive) eqn:Es; cbn; rewrite Es; cbn; [|by left].
    apply Z.eqb_eq in Es. rewrite lookup_insert. case_decide; [|by left].
    subst. right; right; left. eauto.
  - unfold CompleteTransfer. destruct (rows m !! z') as [[owner status]|] eqn:E; [|by left].
    destruct (status =? ZoneStatusTransferring) eqn:Es; cbn; rewrite Es; cbn; [|by left].
    apply Z.eqb_eq in Es. rewrite lookup_insert. case_decide; [|by left].
    subst. right; right; right. eauto.
Qed.

(** A zone has one owner throughout a transfer: in any history of the
    coordinator the owner recorded for a zone changes only by an explicit
    registration or by completing a transfer that was prepared and not yet
    completed; a second preparation of the same zone is refused as a conflict
    while the first is pending, and completing without preparing is refused. *)
Theorem transfer_protocol (m0 : MigrationCoordinator) (ops : list coord_op) (o : coord_op) (z : string) :
  let m := foldl coord_exec m0 ops in
  row_step o z (rows m !! z) (rows (coord_exec m o) !! z) ∧
  (∀ owner t, rows m !! z = Some (mkZoneRow owner ZoneStatusTransferring) →
     ∃ e, PrepareTransfer z t m = Err e ∧ errors_is e ErrConflict = true) ∧
  (∀ owner t, rows m !! z = Some (mkZoneRow owner ZoneStatusActive) →
     (∃ e, CompleteTransfer z t m = Err e ∧ errors_is e ErrInvalidArg = true) ∧
     ∃ m1 m2, PrepareTransfer z t m = Ok m1 ∧ rows m1 !! z = Some (mkZoneRow owner ZoneStatusTransferring) ∧
       CompleteTransfer z t m1 = Ok m2 ∧ rows m2 !! z = Some (mkZoneRow t ZoneStatusActive) ∧
       notified m2 = notified m ++ ((λ i, (i, z, t, ZoneStatusActive)) <$> seq 0 (listeners m))).
Proof.
  cbv zeta. generalize (foldl coord_exec m0 ops). intros m. split_and!.
  - apply coord_exec_row.
  - intros owner t E. unfold PrepareTransfer. rewrite E. by eexists.
  - intros owner t E. split; [unfold CompleteTransfer; rewrite E; by eexists|].
    unfold PrepareTransfer, CompleteTransfer. rewrite E. cbn.
    eexists _, _. split; [done|]. cbn. rewrite lookup_insert_eq. cbn.
    split_and!; [done|done|apply lookup_insert_eq|done].
Qed.
