(* ===== verification/RoomStore.v ===== *)
(** * The room service on PostgreSQL

    [internal/room/store.go] (the storage interfaces), [internal/storage/room]
    (their SQL implementation), the [roomServiceServer] of
    [apps/room-service/main.go] and [internal/room/sweeper_production.go].

    The services are written against the interfaces [ServerStore] and
    [ZoneStore]; the SQL repositories are their instances over [world]: the
    two tables and the schedule of the statements to come.  Each statement is
    atomic.  The schedule says what precedes it: nothing, a failure of the
    statement (connection, timeout), or a change of the tables by other
    clients.  An empty schedule is a quiet database. *)

From S2P Require Import Prelude GoFloat Types Room.
From stdpp Require Import base tactics list gmap strings.
From Stdlib Require Import ZArith Lia.

Local Open Scope Z_scope.

(** ** Interfaces *)

Class ServerStore (W : Type) := {
  ss_Register : NodeDescriptor → Time → W → option error * W;
  ss_Heartbeat : ServerID → NodeLoad → Time → W → option error * W;
  ss_Get : ServerID → Time → W → result error NodeDescriptor * W;
  ss_List : W → result error (list NodeDescriptor) * W;
  ss_Remove : ServerID → W → option error * W
}.

Class ZoneStore (W : Type) := {
  zs_Claim : string → RuntimeID → ServerID → W → option error * W;
  zs_Release : string → ServerID → W → option error * W;
  zs_Lookup : string → W → result error ServerID * W
}.

Class ServerDeadLister (W : Type) := {
  ListDead : Duration → Time → W → result error (list ServerID) * W;
  MarkShutdown : ServerID → W → option error * W
}.

Class ZoneByOwnerLister (W : Type) := {
  ListByServer : ServerID → W → result error (list string) * W
}.

(** ** The database *)

Record ServerRow := mkServerRow {
  sHost : string; sPort : Z; sStatus : string; sMaxZones : Z;
  registered_at : Time; last_heartbeat : Time
}.
Definition eta_ServerRow (r : ServerRow) :=
  mkServerRow (sHost r) (sPort r) (sStatus r) (sMaxZones r) (registered_at r) (last_heartbeat r).
#[export] Instance set_sHost : Setter sHost. Proof. solve_setter eta_ServerRow. Defined.
#[export] Instance set_sPort : Setter sPort. Proof. solve_setter eta_ServerRow. Defined.
#[export] Instance set_sStatus : Setter sStatus. Proof. solve_setter eta_ServerRow. Defined.
#[export] Instance set_sMaxZones : Setter sMaxZones. Proof. solve_setter eta_ServerRow. Defined.
#[export] Instance set_last_heartbeat : Setter last_heartbeat. Proof. solve_setter eta_ServerRow. Defined.

(** The column [server_id] is NULL or references [game_servers]. *)
Record ZoneRow := mkZRow { zruntime_id : string; server_id : option ServerID; zstatus : string }.

Record tables := mkTables { game_servers : gmap string ServerRow; zones : gmap string ZoneRow }.
Definition eta_tables (t : tables) := mkTables (game_servers t) (zones t).
#[export] Instance set_game_servers : Setter game_servers. Proof. solve_setter eta_tables. Defined.
#[export] Instance set_zones : Setter zones. Proof. solve_setter eta_tables. Defined.

Inductive event := Quiet | Fault | Env (f : tables → tables).

Record world := mkWorld { tbl : tables; schedule : list event }.

Definition db_error : error := Other "database error".

(** One statement. *)
Definition stmt {A} (f : tables → result error A * tables) (w : world) : result error A * world :=
  let run t s := let '(r, t') := f t in (r, mkWorld t' s) in
  match schedule w with
  | [] => run (tbl w) []
  | Quiet :: s => run (tbl w) s
  | Fault :: s => (Err db_error, mkWorld (tbl w) s)
  | Env h :: s => run (h (tbl w)) s
  end.

Definition query {A} (f : tables → A) : world → result error A * world := stmt (λ t, (Ok (f t), t)).

Section repo.
Context `{RO : RangeOrder}.

(** *** [ServerRepository] *)

Definition insert_server (info : NodeDescriptor) (now : Time) (t : tables) : tables :=
  let row := match game_servers t !! NodeID info with
             | Some old => old <| sHost := Host info |> <| sPort := Port info |> <| sMaxZones := MaxZones (Capacity info) |>
             | None => mkServerRow (Host info) (Port info) (ServerStatus_String (nStatus info))
                         (MaxZones (Capacity info)) now now
             end in
  t <| game_servers ::= <[NodeID info := row]> |>.

Definition repo_Register (info : NodeDescriptor) (now : Time) (w : world) : option error * world :=
  match stmt (λ t, (Ok tt, insert_server info now t)) w with
  | (Err e, w) => (Some (Wrapped ("register server " +:+ NodeID info) e), w)
  | (Ok _, w) => (None, w)
  end.

(** An update of one server row; the result is the number of affected rows. *)
Definition update_server (id : ServerID) (f : ServerRow → ServerRow) (t : tables) : result error nat * tables :=
  match game_servers t !! id with
  | Some row => (Ok 1%nat, t <| game_servers ::= <[id := f row]> |>)
  | None => (Ok 0%nat, t)
  end.

Definition repo_Heartbeat (id : ServerID) (load : NodeLoad) (now : Time) (w : world) : option error * world :=
  match stmt (update_server id (λ r, r <| sStatus := "active" |> <| last_heartbeat := now |>)) w with
  | (Err e, w) => (Some (Wrapped ("heartbeat server " +:+ id) e), w)
  | (Ok 0%nat, w) => (Some (Wrapped ("server " +:+ id) ErrNotFound), w)
  | (Ok _, w) => (None, w)
  end.

(** The columns scanned into a descriptor: everything else is zero. *)
Definition scan_node (id : ServerID) (row : ServerRow) (heartbeat : Time) : NodeDescriptor :=
  mkNode id "" (sHost row) (sPort row) "" "" (mkCapacity (sMaxZones row) 0) zero_load ∅
    ServerStatusActive zero_time heartbeat.

Definition repo_Get (id : ServerID) (now : Time) (w : world) : result error NodeDescriptor * world :=
  match query (λ t, game_servers t !! id) w with
  | (Err e, w) => (Err e, w)
  | (Ok None, w) => (Err (Wrapped "server" ErrNotFound), w)
  | (Ok (Some row), w) => (Ok (scan_node id row now), w)
  end.

Definition active_rows (t : tables) : list (ServerID * ServerRow) :=
  List.filter (λ x, bool_decide (sStatus x.2 = "active")) (range_list (game_servers t)).

Definition repo_List (w : world) : result error (list NodeDescriptor) * world :=
  match query active_rows w with
  | (Err e, w) => (Err (Wrapped "list servers" e), w)
  | (Ok rows, w) => (Ok ((λ x, scan_node x.1 x.2 zero_time) <$> rows), w)
  end.

(** [last_heartbeat < NOW() - '<n> seconds'], with [n] the whole seconds of [since]. *)
Definition is_dead (since : Duration) (now : Time) (row : ServerRow) : bool :=
  bool_decide (sStatus row = "active") && (last_heartbeat row <? now - Z.quot since Second * Second).

Definition dead_rows (since : Duration) (now : Time) (t : tables) : list ServerID :=
  (List.filter (λ x, is_dead since now x.2) (range_list (game_servers t))).*1.

Definition repo_ListDead (since : Duration) (now : Time) (w : world) : result error (list ServerID) * world :=
  match query (dead_rows since now) w with
  | (Err e, w) => (Err (Wrapped "list dead servers" e), w)
  | (Ok ids, w) => (Ok ids, w)
  end.

Definition repo_MarkShutdown (id : ServerID) (w : world) : option error * world :=
  match stmt (update_server id (λ r, r <| sStatus := "shutdown" |>)) w with
  | (Err e, w) => (Some (Wrapped ("mark shutdown server " +:+ id) e), w)
  | (Ok _, w) => (None, w)
  end.

(** [ON DELETE SET NULL]. *)
Definition delete_server (id : ServerID) (t : tables) : tables :=
  mkTables (delete id (game_servers t))
    ((λ r, if bool_decide (server_id r = Some id) then mkZRow (zruntime_id r) None (zstatus r) else r) <$> zones t).

Definition repo_Remove (id : ServerID) (w : world) : option error * world :=
  match stmt (λ t, (Ok tt, delete_server id t)) w with
  | (Err e, w) => (Some (Wrapped ("remove server " +:+ id) e), w)
  | (Ok _, w) => (None, w)
  end.

(** *** [ZoneRepository] *)

Definition repo_EnsureRow (zoneID runtimeID : string) (w : world) : option error * world :=
  match stmt (λ t, (Ok tt, match zones t !! zoneID with
                           | Some _ => t
                           | None => t <| zones ::= <[zoneID := mkZRow runtimeID None "unowned"]> |>
                           end)) w with
  | (Err e, w) => (Some (Wrapped ("ensure zone " +:+ zoneID) e), w)
  | (Ok _, w) => (None, w)
  end.

(** [UPDATE zones SET server_id=$1 ... WHERE id=$2 AND server_id IS NULL]:
    the foreign key refuses a server that has no row. *)
Definition update_claim (zoneID : string) (serverID : ServerID) (t : tables) : result error nat * tables :=
  match zones t !! zoneID with
  | Some row =>
      match server_id row with
      | Some _ => (Ok 0%nat, t)
      | None =>
          match game_servers t !! serverID with
          | Some _ => (Ok 1%nat, t <| zones ::= <[zoneID := mkZRow (zruntime_id row) (Some serverID) "active"]> |>)
          | None => (Err (Other "foreign key violation"), t)
          end
      end
  | None => (Ok 0%nat, t)
  end.

(** [SELECT server_id FROM zones WHERE id=$1]: no row, NULL, or a value. *)
Definition select_owner (zoneID : string) (t : tables) : option (option ServerID) := server_id <$> zones t !! zoneID.

Definition repo_Claim (zoneID : string) (runtimeID : RuntimeID) (serverID : ServerID) (w : world) : option error * world :=
  match stmt (update_claim zoneID serverID) w with
  | (Err e, w) => (Some (Wrapped ("claim zone " +:+ zoneID) e), w)
  | (Ok 0%nat, w) =>
      match query (select_owner zoneID) w with
      | (Ok None, w) => (Some (Wrapped ("zone " +:+ zoneID) ErrNotFound), w)
      | (Ok (Some (Some owner)), w) =>
          if bool_decide (owner ≠ "" ∧ owner ≠ serverID)
          then (Some (Wrapped ("zone " +:+ zoneID) ErrConflict), w) else (None, w)
      | (Ok (Some None), w) => (None, w)
      | (Err _, w) => (None, w)
      end
  | (Ok _, w) => (None, w)
  end.

Definition update_release (zoneID : string) (serverID : ServerID) (t : tables) : result error nat * tables :=
  match zones t !! zoneID with
  | Some row =>
      if bool_decide (server_id row = Some serverID)
      then (Ok 1%nat, t <| zones ::= <[zoneID := mkZRow (zruntime_id row) None "unowned"]> |>)
      else (Ok 0%nat, t)
  | None => (Ok 0%nat, t)
  end.

Definition repo_Release (zoneID : string) (serverID : ServerID) (w : world) : option error * world :=
  match stmt (update_release zoneID serverID) w with
  | (Err e, w) => (Some (Wrapped ("release zone " +:+ zoneID) e), w)
  | (Ok 0%nat, w) =>
      match query (select_owner zoneID) w with
      | (Ok None, w) => (Some (Wrapped ("zone " +:+ zoneID) ErrNotFound), w)
      | (_, w) => (Some (Wrapped ("zone " +:+ zoneID) ErrNotOwned), w)
      end
  | (Ok _, w) => (None, w)
  end.

Definition zones_of (serverID : ServerID) (t : tables) : list string :=
  (List.filter (λ x, bool_decide (server_id x.2 = Some serverID)) (range_list (zones t))).*1.

Definition repo_ListByServer (serverID : ServerID) (w : world) : result error (list string) * world :=
  match query (zones_of serverID) w with
  | (Err e, w) => (Err (Wrapped ("list zones by server " +:+ serverID) e), w)
  | (Ok ids, w) => (Ok ids, w)
  end.

Definition repo_Lookup (zoneID : string) (w : world) : result error ServerID * world :=
  match query (select_owner zoneID) w with
  | (Err e, w) => (Err (Wrapped ("lookup zone " +:+ zoneID) e), w)
  | (Ok None, w) => (Err (Wrapped ("zone " +:+ zoneID) ErrNotFound), w)
  | (Ok (Some owner), w) =>
      match owner with
      | None => (Err (Wrapped ("zone " +:+ zoneID) ErrNotFound), w)
      | Some o => if bool_decide (o = "") then (Err (Wrapped ("zone " +:+ zoneID) ErrNotFound), w) else (Ok o, w)
      end
  end.

#[export] Instance ServerRepository : ServerStore world := {|
  ss_Register := repo_Register; ss_Heartbeat := repo_Heartbeat; ss_Get := repo_Get;
  ss_List := repo_List; ss_Remove := repo_Remove |}.
#[export] Instance ZoneRepository : ZoneStore world := {|
  zs_Claim := repo_Claim; zs_Release := repo_Release; zs_Lookup := repo_Lookup |}.
#[export] Instance ServerRepository_dead : ServerDeadLister world := {|
  ListDead := repo_ListDead; MarkShutdown := repo_MarkShutdown |}.
#[export] Instance ZoneRepository_owner : ZoneByOwnerLister world := {| ListByServer := repo_ListByServer |}.

End repo.

(** ** The services, on the interfaces *)

Section services.
Context {W : Type} `{SS : !ServerStore W} `{ZS : !ZoneStore W} `{AL : Allocator}.

(** The response carries only whether the store accepted the call. *)
Definition svc_Register (serverId advertiseAddr host : string) (port : Z) (version build : string) (maxZones : Z)
    (labels : gmap string string) (now : Time) (w : W) : bool * W :=
  let info := mkNode serverId advertiseAddr host port version build (mkCapacity maxZones 0) zero_load labels
                0 zero_time zero_time in
  match ss_Register info now w with (Some _, w) => (false, w) | (None, w) => (true, w) end.

Definition svc_Heartbeat (nodeId : string) (activeEntities activeSpaces connectedUsers queueDepth : Z)
    (tickDurationMs : float64) (now : Time) (w : W) : bool * W :=
  let load := mkLoad 0 activeEntities activeSpaces connectedUsers queueDepth tickDurationMs in
  match ss_Heartbeat nodeId load now w with (Some _, w) => (false, w) | (None, w) => (true, w) end.

(** The part of [LookupZone] that assigns an unowned zone. *)
Definition assign_zone (zoneID : string) (w : W) : result code (ServerID * string) * W :=
  match ss_List w with
  | (Err _, w) | (Ok [], w) => (Err Unavailable, w)
  | (Ok nodes, w) =>
      match allocate (Some <$> nodes) with
      | Err _ => (Err Unavailable, w)
      | Ok server =>
          match zs_Claim zoneID "" (NodeID server) w with
          | (Some _, w) => (Err Internal, w)
          | (None, w) => (Ok (NodeID server, Address server), w)
          end
      end
  end.

Definition LookupZone (zoneID : string) (now : Time) (w : W) : result code (ServerID * string) * W :=
  match zs_Lookup zoneID w with
  | (Ok serverID, w) =>
      match ss_Get serverID now w with
      | (Ok info, w) => (Ok (NodeID info, Address info), w)
      | (Err _, w) => assign_zone zoneID w
      end
  | (Err _, w) => assign_zone zoneID w
  end.

(** *** [ProductionSweeper]: the store and the fan-out of ownership changes *)

Definition reassign_zone (dead : ServerID) (wf : W * option WatcherFanout) (zoneID : string) : W * option WatcherFanout :=
  let '(w, f) := wf in
  match zs_Release zoneID dead w with
  | (Some _, w) => (w, f)
  | (None, w) =>
      match ss_List w with
      | (Err _, w) | (Ok [], w) => (w, f)
      | (Ok nodes, w) =>
          match allocate (Some <$> nodes) with
          | Err _ => (w, f)
          | Ok target =>
              match zs_Claim zoneID "" (NodeID target) w with
              | (Some _, w) => (w, f)
              | (None, w) =>
                  (w, Broadcast (mkChange zoneID (NodeID target) (Host target) (wrap32 (Port target))) <$> f)
              end
          end
      end
  end.

Definition reassignZonesFor (ol : option (ZoneByOwnerLister W)) (dead : ServerID) (wf : W * option WatcherFanout)
    : W * option WatcherFanout :=
  match ol with
  | None => wf
  | Some L =>
      match @ListByServer W L dead wf.1 with
      | (Err _, w) => (w, wf.2)
      | (Ok zoneIDs, w) => foldl (reassign_zone dead) (w, wf.2) zoneIDs
      end
  end.

Definition sweep_server (D : ServerDeadLister W) (ol : option (ZoneByOwnerLister W)) (wf : W * option WatcherFanout)
    (deadID : ServerID) : W * option WatcherFanout :=
  match @MarkShutdown W D deadID wf.1 with
  | (Some _, w) => (w, wf.2)
  | (None, w) => reassignZonesFor ol deadID (w, wf.2)
  end.

Definition production_sweep (dl : option (ServerDeadLister W)) (ol : option (ZoneByOwnerLister W)) (cfg : SweeperConfig)
    (now : Time) (wf : W * option WatcherFanout) : W * option WatcherFanout :=
  match dl with
  | None => wf
  | Some D =>
      match @ListDead W D (MissThreshold cfg) now wf.1 with
      | (Err _, w) => (w, wf.2)
      | (Ok dead, w) => foldl (sweep_server D ol) (w, wf.2) dead
      end
  end.

End services.

(** ** What the sweeper relies on

    [ok] are the states in which no other client interferes; [owner] is the
    owner the store records for a zone. *)

Class StoreLaws {W : Type} (SS : ServerStore W) (ZS : ZoneStore W) (D : ServerDeadLister W) (L : ZoneByOwnerLister W)
    (ok : W → Prop) (owner : W → string → option ServerID) : Prop := {
  law_List : ∀ w, ok w → ok (ss_List w).2 ∧ ∀ z, owner (ss_List w).2 z = owner w z;
  law_ListDead : ∀ d t w, ok w → ok (ListDead d t w).2 ∧ ∀ z, owner (ListDead d t w).2 z = owner w z;
  law_MarkShutdown : ∀ s w, ok w → ok (MarkShutdown s w).2 ∧ ∀ z, owner (MarkShutdown s w).2 z = owner w z;
  law_ListByServer : ∀ s w, ok w → ok (ListByServer s w).2 ∧ (∀ z, owner (ListByServer s w).2 z = owner w z) ∧
    ∀ ids z, (ListByServer s w).1 = Ok ids → z ∈ ids → owner w z = Some s;
  law_Release : ∀ z s w, ok w → ok (zs_Release z s w).2 ∧
    ∀ z', z' ≠ z → owner (zs_Release z s w).2 z' = owner w z';
  law_Claim : ∀ z r s w, ok w → ok (zs_Claim z r s w).2 ∧
    ∀ z', z' ≠ z → owner (zs_Claim z r s w).2 z' = owner w z'
}.

Section sweeper.
Context {W : Type} {SS : ServerStore W} {ZS : ZoneStore W} {D : ServerDeadLister W} {L : ZoneByOwnerLister W}.
Context {ok : W → Prop} {owner : W → string → option ServerID} `{LW : !StoreLaws SS ZS D L ok owner} `{AL : Allocator}.

Lemma reassign_zone_frame dead w f z z0 :
  ok w → z ≠ z0 →
  ok (reassign_zone dead (w, f) z0).1 ∧ owner (reassign_zone dead (w, f) z0).1 z = owner w z.
Proof.
  intros Hok Hne. unfold reassign_zone.
  pose proof (law_Release z0 dead w Hok) as [H1 H2]. specialize (H2 z Hne).
  destruct (zs_Release z0 dead w) as [[e|] w1]; cbn in H1, H2; [done|].
  pose proof (law_List w1 H1) as [H3 H4]. specialize (H4 z).
  destruct (ss_List w1) as [[[|n ns]|e] w2]; cbn in H3, H4; cbn [fst]; try (by split; [|congruence]).
  destruct (allocate _) as [target|e]; cbn [fst]; [|by split; [|congruence]].
  pose proof (law_Claim z0 "" (NodeID target) w2 H3) as [H5 H6]. specialize (H6 z Hne).
  destruct (zs_Claim z0 "" (NodeID target) w2) as [[e|] w3]; cbn in *; (split; [done|congruence]).
Qed.

Lemma reassign_loop_frame dead l w f z :
  ok w → z ∉ l →
  ok (foldl (reassign_zone dead) (w, f) l).1 ∧ owner (foldl (reassign_zone dead) (w, f) l).1 z = owner w z.
Proof.
  revert w f. induction l as [|z0 l IH]; intros w f Hok Hz; [done|].
  apply not_elem_of_cons in Hz as [Hne Hz]. cbn [foldl].
  destruct (reassign_zone_frame dead w f z z0 Hok Hne) as [H1 H2].
  destruct (reassign_zone dead (w, f) z0) as [w1 f1]. cbn [fst] in *.
  destruct (IH w1 f1 H1 Hz) as [H3 H4]. split; [done|congruence].
Qed.

Lemma sweep_server_frame d wf z :
  ok wf.1 → owner wf.1 z ≠ Some d →
  ok (sweep_server D (Some L) wf d).1 ∧ owner (sweep_server D (Some L) wf d).1 z = owner wf.1 z.
Proof.
  destruct wf as [w f]. cbn [fst]. intros Hok Hne. unfold sweep_server. cbn [fst snd].
  pose proof (law_MarkShutdown d w Hok) as [H1 H2]. specialize (H2 z).
  destruct (MarkShutdown d w) as [[e|] w1]; cbn in H1, H2; cbn [fst]; [done|].
  unfold reassignZonesFor. cbn [fst snd].
  pose proof (law_ListByServer d w1 H1) as (H3 & H4 & H5). specialize (H4 z).
  destruct (ListByServer d w1) as [[ids|e] w2]; cbn in H3, H4, H5; cbn [fst]; [|by split; [|congruence]].
  destruct (reassign_loop_frame d ids w2 f z) as [H6 H7]; [done| |by split; [|congruence]].
  intros Hz. apply Hne. rewrite <-H2. eauto.
Qed.

Lemma sweep_loop_frame dead wf z :
  ok wf.1 → (∀ d, d ∈ dead → owner wf.1 z ≠ Some d) →
  owner (foldl (sweep_server D (Some L)) wf dead).1 z = owner wf.1 z.
Proof.
  revert wf. induction dead as [|d dead IH]; intros wf Hok Hz; [done|]. cbn [foldl].
  destruct (sweep_server_frame d wf z Hok) as [H1 H2]; [apply Hz; set_solver|].
  rewrite IH; [done|done|]. rewrite H2. intros d' Hd'. apply Hz. set_solver.
Qed.

Lemma production_sweep_frame (cfg : SweeperConfig) (now : Time) (w : W) (f : option WatcherFanout) (z : string) :
  ok w →
  (∀ dead d, (ListDead (MissThreshold cfg) now w).1 = Ok dead → d ∈ dead → owner w z ≠ Some d) →
  owner (production_sweep (Some D) (Some L) cfg now (w, f)).1 z = owner w z.
Proof.
  intros Hok Hz. unfold production_sweep. cbn [fst snd].
  pose proof (law_ListDead (MissThreshold cfg) now w Hok) as [H1 H2]. specialize (H2 z).
  destruct (ListDead (MissThreshold cfg) now w) as [[dead|e] w1]; cbn in H1, H2, Hz; cbn [fst]; [|done].
  rewrite sweep_loop_frame; cbn [fst]; [done|done|]. intros d Hd. rewrite H2. by eapply Hz.
Qed.

(** C14. The sweeper never takes a zone from a live server: for any store that
    keeps the contracts of the storage interfaces, whatever statements fail
    on the way, a sweep changes the owner of a zone only if that owner is one
    of the servers the store reported dead; zones of all other servers, and
    unowned zones, are untouched. *)
Theorem sweep_respects_owners (cfg : SweeperConfig) (now : Time) (w : W) (f : option WatcherFanout) (z : string) :
  ok w →
  (∀ dead d, (ListDead (MissThreshold cfg) now w).1 = Ok dead → d ∈ dead → owner w z ≠ Some d) →
  owner (production_sweep (Some D) (Some L) cfg now (w, f)).1 z = owner w z.
Proof. apply production_sweep_frame. Qed.
End sweeper.
