(* ===== verification/RoomSpec.v ===== *)
(** * Properties of the room service on its database

    The SQL repositories keep the contracts of the storage interfaces, and
    what follows for zone lookup and for the production sweeper. *)

From S2P Require Import Prelude GoFloat Types Room RoomStore.
From stdpp Require Import base tactics list gmap strings.
From Stdlib Require Import ZArith Lia.

Local Open Scope Z_scope.

Section dbspec.
Context `{RO : RangeOrder}.
Implicit Types (t : tables) (w : world) (z : string).

(** ** The repositories keep the contracts *)

Definition owner_of t z : option ServerID := zones t !! z ≫= server_id.
Definition db_owner w z : option ServerID := owner_of (tbl w) z.

(** No other client writes; statements may fail. *)
Definition quiet w : Prop := Forall (λ e, match e with Env _ => False | _ => True end) (schedule w).

Lemma stmt_quiet {A} (f : tables → result error A * tables) w :
  quiet w →
  quiet (stmt f w).2 ∧
  (stmt f w = (Err db_error, mkWorld (tbl w) (tail (schedule w))) ∨
   stmt f w = ((f (tbl w)).1, mkWorld (f (tbl w)).2 (tail (schedule w)))).
Proof.
  destruct w as [t s]. unfold quiet, stmt. cbn. intros Hs.
  destruct s as [|[| |h] s]; try apply Forall_cons in Hs as [? Hs]; cbn in *;
    try destruct (f t) as [r t'] eqn:Ef; cbn; try done; (split; [done|auto]).
Qed.

Lemma stmt_owner {A} (f : tables → result error A * tables) w (P : string → Prop) :
  quiet w → (∀ z, P z → owner_of (f (tbl w)).2 z = owner_of (tbl w) z) →
  quiet (stmt f w).2 ∧ ∀ z, P z → db_owner (stmt f w).2 z = db_owner w z.
Proof.
  intros Hq Hf. destruct (stmt_quiet f w Hq) as [H1 [E|E]]; (split; [done|]); intros z Hz; rewrite E.
  - done.
  - by apply Hf.
Qed.

Lemma query_owner {A} (f : tables → A) w :
  quiet w → quiet (query f w).2 ∧ ∀ z, db_owner (query f w).2 z = db_owner w z.
Proof.
  intros Hq. destruct (stmt_owner (λ t, (Ok (f t), t)) w (λ _, True)) as [? ?]; [done|done|].
  split; [done|]. intros z. by apply H0.
Qed.

Lemma query_result {A} (f : tables → A) w x :
  quiet w → (query f w).1 = Ok x → x = f (tbl w).
Proof.
  intros Hq Hx. destruct (stmt_quiet (λ t, (Ok (f t), t)) w Hq) as [_ [E|E]]; unfold query in Hx; rewrite E in Hx; by simplify_eq/=.
Qed.

Lemma update_server_owner id f t z : owner_of (update_server id f t).2 z = owner_of t z.
Proof. unfold update_server. by case_match. Qed.

Lemma owner_of_insert t z z' row :
  owner_of (t <| zones ::= <[z := row]> |>) z' = if decide (z = z') then server_id row else owner_of t z'.
Proof. unfold owner_of. cbn. rewrite lookup_insert. by case_decide. Qed.

Lemma update_claim_frame z s t z' : z' ≠ z → owner_of (update_claim z s t).2 z' = owner_of t z'.
Proof.
  intros Hne. unfold update_claim. repeat case_match; try done. cbn. by rewrite owner_of_insert, decide_False.
Qed.

Lemma update_release_frame z s t z' : z' ≠ z → owner_of (update_release z s t).2 z' = owner_of t z'.
Proof.
  intros Hne. unfold update_release. repeat case_match; try done. cbn. by rewrite owner_of_insert, decide_False.
Qed.

Lemma elem_of_zones_of s t z : z ∈ zones_of s t ↔ owner_of t z = Some s.
Proof.
  unfold zones_of, owner_of. rewrite list_elem_of_fmap. split.
  - intros ([z' row] & -> & [H1 H2]%elem_of_bfilter). rewrite elem_of_range_list in H1.
    apply bool_decide_eq_true in H2. cbn in *. by rewrite H1.
  - intros H. destruct (zones t !! z) as [row|] eqn:E; [|done]. cbn in H.
    exists (z, row). split; [done|]. rewrite elem_of_bfilter, elem_of_range_list. cbn.
    by rewrite bool_decide_eq_true_2.
Qed.

#[export] Instance repository_laws :
  StoreLaws ServerRepository ZoneRepository ServerRepository_dead ZoneRepository_owner quiet db_owner.
Proof.
  split; cbn.
  - intros w Hq. unfold repo_List. pose proof (query_owner active_rows w Hq) as [? ?].
    by destruct (query active_rows w) as [[|] ?].
  - intros d now w Hq. unfold repo_ListDead. pose proof (query_owner (dead_rows d now) w Hq) as [? ?].
    by destruct (query (dead_rows d now) w) as [[|] ?].
  - intros s w Hq. unfold repo_MarkShutdown.
    destruct (stmt_owner (update_server s (λ r, r <| sStatus := "shutdown" |>)) w (λ _, True)) as [? Ho];
      [done|intros; apply update_server_owner|].
    destruct (stmt _ w) as [[|] ?]; cbn in *; (split; [done|]; intros z; by apply Ho).
  - intros s w Hq. unfold repo_ListByServer. pose proof (query_owner (zones_of s) w Hq) as [? ?].
    pose proof (λ x, query_result (zones_of s) w x Hq) as Hr.
    destruct (query (zones_of s) w) as [[ids'|] ?]; cbn in *; (split_and!; [done|done|]); [|done].
    intros ids z [= <-] Hz. rewrite (Hr ids' eq_refl) in Hz. by apply elem_of_zones_of in Hz.
  - intros z s w Hq. unfold repo_Release.
    destruct (stmt_owner (update_release z s) w (λ z', z' ≠ z) Hq) as [H1 H2];
      [intros; by apply update_release_frame|].
    destruct (stmt (update_release z s) w) as [[[|n]|e] w1]; cbn in H1, H2; cbn; try done.
    pose proof (query_owner (select_owner z) w1 H1) as [H3 H4].
    destruct (query (select_owner z) w1) as [[[o|]|] w2]; cbn in *; (split; [done|]); intros z' Hz'; rewrite H4; auto.
  - intros z r s w Hq. unfold repo_Claim.
    destruct (stmt_owner (update_claim z s) w (λ z', z' ≠ z) Hq) as [H1 H2];
      [intros; by apply update_claim_frame|].
    destruct (stmt (update_claim z s) w) as [[[|n]|e] w1]; cbn in H1, H2; cbn; try done.
    pose proof (query_owner (select_owner z) w1 H1) as [H3 H4].
    destruct (query (select_owner z) w1) as [[[[o|]|]|] w2]; cbn in *; try case_bool_decide; cbn;
      (split; [done|]); intros z' Hz'; rewrite H4; auto.
Qed.

(** ** A quiet database *)

Lemma stmt_nil {A} (f : tables → result error A * tables) t :
  stmt f (mkWorld t []) = ((f t).1, mkWorld (f t).2 []).
Proof. unfold stmt. cbn. by destruct (f t). Qed.

Lemma query_nil {A} (f : tables → A) t : query f (mkWorld t []) = (Ok (f t), mkWorld t []).
Proof. apply stmt_nil. Qed.

Definition active t (s : ServerID) : Prop := ∃ row, game_servers t !! s = Some row ∧ sStatus row = "active".

Lemma elem_of_active_rows t s row :
  (s, row) ∈ active_rows t ↔ game_servers t !! s = Some row ∧ sStatus row = "active".
Proof. unfold active_rows. rewrite elem_of_bfilter, elem_of_range_list. cbn. by rewrite bool_decide_eq_true. Qed.

(** Every row the store lists can take a zone: the listing carries no load. *)
Lemma scan_node_accepts s row now : CanAccept (scan_node s row now) = true.
Proof. unfold CanAccept. cbn. by destruct (sMaxZones row). Qed.

Context `{AL : Allocator} `{ALL : !AllocatorLaws AL}.

Lemma allocate_listed t n ns :
  (λ x, scan_node x.1 x.2 zero_time) <$> active_rows t = n :: ns →
  ∃ target, allocate (Some <$> n :: ns) = Ok target ∧ active t (NodeID target).
Proof.
  intros Hn. rewrite <-Hn. destruct (allocate _) as [target|e] eqn:E.
  - exists target. split; [done|]. apply allocate_member in E as [Ht _].
    apply list_elem_of_fmap in Ht as (m & [= ->] & ([s row] & -> & Hrow)%list_elem_of_fmap).
    apply elem_of_active_rows in Hrow. by exists row.
  - destruct (active_rows t) as [|[s row] rest] eqn:Er; [done|].
    pose proof (allocate_fails _ _ E (scan_node s row zero_time)) as H.
    rewrite scan_node_accepts in H. by discriminate H; left.
Qed.

Lemma reassign_zone_db dead t f z :
  owner_of t z = Some dead →
  ∃ t' f', reassign_zone dead (mkWorld t [], f) z = (mkWorld t' [], f') ∧
    game_servers t' = game_servers t ∧ (∀ z', z' ≠ z → owner_of t' z' = owner_of t z') ∧
    ((∃ s, active t s) → ∃ s, owner_of t' z = Some s ∧ active t s).
Proof.
  intros Ho. unfold owner_of in Ho. destruct (zones t !! z) as [row|] eqn:Ez; [|done]. cbn in Ho.
  set (t1 := t <| zones ::= <[z := mkZRow (zruntime_id row) None "unowned"]> |>).
  assert (Hrel : repo_Release z dead (mkWorld t []) = (None, mkWorld t1 [])).
  { unfold repo_Release. rewrite stmt_nil. unfold update_release. by rewrite Ez, bool_decide_eq_true_2. }
  assert (Hfr : ∀ z', z' ≠ z → owner_of t1 z' = owner_of t z').
  { intros z' Hne. unfold t1. by rewrite owner_of_insert, decide_False. }
  unfold reassign_zone. cbn [zs_Release ZoneRepository]. rewrite Hrel.
  cbn [ss_List ServerRepository]. unfold repo_List. rewrite query_nil.
  destruct ((λ x, scan_node x.1 x.2 zero_time) <$> active_rows t1) as [|n ns] eqn:Er.
  - exists t1, f. split_and!; [done|done|done|]. intros (s & srow & Hs).
    change (game_servers t) with (game_servers t1) in Hs. apply elem_of_active_rows in Hs.
    apply fmap_nil_inv in Er. rewrite Er in Hs. set_solver.
  - destruct (allocate_listed t1 n ns Er) as (target & Ha & srow & Hs & Hact). rewrite Ha.
    set (t2 := t1 <| zones ::= <[z := mkZRow (zruntime_id row) (Some (NodeID target)) "active"]> |>).
    assert (Hcl : repo_Claim z "" (NodeID target) (mkWorld t1 []) = (None, mkWorld t2 [])).
    { unfold repo_Claim. rewrite stmt_nil. unfold update_claim.
      assert (zones t1 !! z = Some (mkZRow (zruntime_id row) None "unowned")) as -> by apply lookup_insert_eq.
      cbn [server_id]. by rewrite Hs. }
    cbn [zs_Claim ZoneRepository]. rewrite Hcl. eexists t2, _. split; [done|].
    split_and!; [done| |].
    + intros z' Hne. unfold t2. rewrite owner_of_insert, decide_False by done. by apply Hfr.
    + intros _. exists (NodeID target). split; [|by exists srow].
      unfold t2. by rewrite owner_of_insert, decide_True.
Qed.

Lemma reassign_loop_db dead l t f :
  NoDup l → (∀ z, z ∈ l → owner_of t z = Some dead) →
  ∃ t' f', foldl (reassign_zone dead) (mkWorld t [], f) l = (mkWorld t' [], f') ∧
    game_servers t' = game_servers t ∧ (∀ z, z ∉ l → owner_of t' z = owner_of t z) ∧
    ((∃ s, active t s) → ∀ z, z ∈ l → ∃ s, owner_of t' z = Some s ∧ active t s).
Proof.
  revert t f. induction l as [|z l IH]; intros t f Hnd Hl.
  { exists t, f. split_and!; [done..|]. intros _ z ?%not_elem_of_nil. done. }
  apply NoDup_cons in Hnd as [Hz Hnd]. cbn [foldl].
  destruct (reassign_zone_db dead t f z) as (t1 & f1 & -> & Hg & Hfr & Hz'); [apply Hl; set_solver|].
  destruct (IH t1 f1) as (t2 & f2 & -> & Hg2 & Hfr2 & Hl2); [done| |].
  { intros z' Hin. rewrite Hfr by set_solver. apply Hl. set_solver. }
  exists t2, f2. split_and!; [done|congruence| |].
  - intros z' [Hne Hn]%not_elem_of_cons. rewrite Hfr2, Hfr by done. done.
  - unfold active in *. rewrite Hg in Hl2. intros Hact z' [->|Hin]%elem_of_cons.
    + rewrite Hfr2 by done. auto.
    + auto.
Qed.

Lemma NoDup_zones_of s t : NoDup (zones_of s t).
Proof.
  unfold zones_of. apply NoDup_fmap_fst.
  - intros z r1 r2 [H1 _]%elem_of_bfilter [H2 _]%elem_of_bfilter. rewrite !elem_of_range_list in H1, H2. congruence.
  - apply NoDup_bfilter, NoDup_range_list.
Qed.

Lemma sweep_server_db d t f row :
  game_servers t !! d = Some row →
  let t0 := t <| game_servers ::= <[d := (row <| sStatus := "shutdown" |>)]> |> in
  ∃ t' f', sweep_server ServerRepository_dead (Some ZoneRepository_owner) (mkWorld t [], f) d = (mkWorld t' [], f') ∧
    game_servers t' = game_servers t0 ∧ (∀ z, owner_of t z ≠ Some d → owner_of t' z = owner_of t z) ∧
    ((∃ s, active t0 s) → ∀ z, owner_of t z = Some d → ∃ s, owner_of t' z = Some s ∧ active t0 s).
Proof.
  intros Hd t0. unfold sweep_server. cbn [fst snd MarkShutdown ServerRepository_dead].
  assert (Hm : repo_MarkShutdown d (mkWorld t []) = (None, mkWorld t0 [])).
  { unfold repo_MarkShutdown. rewrite stmt_nil. unfold update_server. by rewrite Hd. }
  rewrite Hm. unfold reassignZonesFor. cbn [fst snd ListByServer ZoneRepository_owner].
  unfold repo_ListByServer. rewrite query_nil.
  assert (Ho : ∀ z, owner_of t0 z = owner_of t z) by done.
  destruct (reassign_loop_db d (zones_of d t0) t0 f (NoDup_zones_of d t0)) as (t' & f' & -> & Hg & Hfr & Hl).
  { intros z. by rewrite elem_of_zones_of. }
  exists t', f'. split_and!; [done|done| |].
  - intros z Hz. apply Hfr. by rewrite elem_of_zones_of.
  - intros Hact z Hz. apply Hl; [done|]. by rewrite elem_of_zones_of.
Qed.

Lemma elem_of_dead_rows since now t d :
  d ∈ dead_rows since now t ↔ ∃ row, game_servers t !! d = Some row ∧ is_dead since now row = true.
Proof.
  unfold dead_rows. rewrite list_elem_of_fmap. split.
  - intros ([d' row] & -> & [H1 H2]%elem_of_bfilter). rewrite elem_of_range_list in H1. eauto.
  - intros (row & H1 & H2). exists (d, row). by rewrite elem_of_bfilter, elem_of_range_list.
Qed.

Lemma NoDup_dead_rows since now t : NoDup (dead_rows since now t).
Proof.
  unfold dead_rows. apply NoDup_fmap_fst.
  - intros d r1 r2 [H1 _]%elem_of_bfilter [H2 _]%elem_of_bfilter. rewrite !elem_of_range_list in H1, H2. congruence.
  - apply NoDup_bfilter, NoDup_range_list.
Qed.

(** The loop over the dead servers: [l] are those still to be handled. *)
Record sweeping (t : tables) (dead l : list ServerID) (t' : tables) : Prop := {
  sw_live : ∀ s row, game_servers t !! s = Some row → s ∉ dead → game_servers t' !! s = Some row;
  sw_done : ∀ d, d ∈ dead → d ∉ l → ∃ row, game_servers t' !! d = Some row ∧ sStatus row = "shutdown";
  sw_todo : ∀ d, d ∈ l → d ∈ dead ∧ is_Some (game_servers t' !! d);
  sw_zones : ∀ z d, owner_of t z = Some d → d ∈ dead →
    ∃ s, owner_of t' z = Some s ∧ (s ∈ l ∨ (s ∉ dead) ∧ active t' s)
}.

Lemma sweeping_step t dead d l t' f :
  NoDup (d :: l) → (∃ s row, game_servers t !! s = Some row ∧ sStatus row = "active" ∧ s ∉ dead) →
  sweeping t dead (d :: l) t' →
  ∃ t'' f', sweep_server ServerRepository_dead (Some ZoneRepository_owner) (mkWorld t' [], f) d = (mkWorld t'' [], f') ∧
    sweeping t dead l t''.
Proof.
  intros Hnd (live & lrow & Hlive & Hlact & Hldead) [S1 S2 S3 S4].
  apply NoDup_cons in Hnd as [Hdl Hnd].
  destruct (S3 d) as [Hdd [row Hrow]]; [left|].
  destruct (sweep_server_db d t' f row Hrow) as (t'' & f' & E & Hg & Hfr & Hre). cbn in Hg.
  assert (Hgl : ∀ s, s ≠ d → game_servers t'' !! s = game_servers t' !! s)
    by (intros s Hs; by rewrite Hg, lookup_insert_ne).
  assert (Hgd : ∃ r, game_servers t'' !! d = Some r ∧ sStatus r = "shutdown")
    by (rewrite Hg, lookup_insert_eq; eauto).
  assert (Hact : ∀ s, active t'' s → s ∈ l ∨ s ∉ dead).
  { intros s (r & Hr & Ha). destruct (decide (s ∈ dead)) as [Hs|Hs]; [|by right].
    destruct (decide (s = d)) as [->|Hne]; [destruct Hgd as (r' & ? & ?); congruence|].
    destruct (decide (s ∈ l)) as [|Hsl]; [by left|].
    destruct (S2 s Hs) as (r' & Hr' & ?); [set_solver|]. rewrite Hgl in Hr by done. congruence. }
  exists t'', f'. split; [done|]. split.
  - intros s r Hs Hsd. rewrite Hgl by (intros ->; done). auto.
  - intros s Hs Hsl. destruct (decide (s = d)) as [->|Hne]; [done|].
    rewrite Hgl by done. apply S2; set_solver.
  - intros s Hs. destruct (S3 s) as [? ?]; [by right|]. split; [done|].
    rewrite Hgl; [done|]. intros ->. done.
  - intros z d0 Hz Hd0. destruct (S4 z d0 Hz Hd0) as (s & Ho & Hs).
    destruct (decide (s = d)) as [->|Hne].
    + destruct (Hre) with (z := z) as (s' & Hs' & Hact'); [|done|].
      { exists live, lrow. unfold active. cbn. rewrite lookup_insert_ne by (intros ->; done).
        split; [by apply S1|done]. }
      exists s'. split; [done|].
      assert (active t'' s') as Ha by (unfold active in *; by rewrite Hg).
      destruct (Hact s' Ha); [by left|by right].
    + exists s. rewrite Hfr by congruence. split; [done|].
      destruct Hs as [Hs|[Hs (r & Hr & Ha)]]; [left; set_solver|right]. split; [done|].
      exists r. by rewrite Hgl.
Qed.

(** One sweep of a database that answers. *)
Lemma production_sweep_full (cfg : SweeperConfig) (now : Time) (t : tables) (f : option WatcherFanout) :
  let dead := dead_rows (MissThreshold cfg) now t in
  (∃ s row, game_servers t !! s = Some row ∧ sStatus row = "active" ∧ is_dead (MissThreshold cfg) now row = false) →
  ∃ t' f', production_sweep (Some ServerRepository_dead) (Some ZoneRepository_owner) cfg now (mkWorld t [], f)
             = (mkWorld t' [], f') ∧
    (∀ s row, game_servers t !! s = Some row → s ∉ dead → game_servers t' !! s = Some row) ∧
    (∀ d, d ∈ dead → ∃ row, game_servers t' !! d = Some row ∧ sStatus row = "shutdown") ∧
    (∀ z d, owner_of t z = Some d → d ∈ dead → ∃ s, owner_of t' z = Some s ∧ active t' s ∧ s ∉ dead).
Proof.
  cbv zeta. intros (live & lrow & Hl1 & Hl2 & Hl3).
  unfold production_sweep. cbn [fst snd ListDead ServerRepository_dead]. unfold repo_ListDead. rewrite query_nil.
  set (dead := dead_rows (MissThreshold cfg) now t).
  assert (Hlive : live ∉ dead).
  { unfold dead. rewrite elem_of_dead_rows. intros (row & ? & ?). congruence. }
  assert (Hloop : ∀ l t0 f0, NoDup l → sweeping t dead l t0 →
    ∃ t' f', foldl (sweep_server ServerRepository_dead (Some ZoneRepository_owner)) (mkWorld t0 [], f0) l = (mkWorld t' [], f') ∧
      sweeping t dead [] t').
  { induction l as [|d l IH]; intros t0 f0 Hnd Hs; [by exists t0, f0|]. cbn [foldl].
    destruct (sweeping_step t dead d l t0 f0 Hnd) as (t1 & f1 & -> & Hs1); [by eauto|done|].
    apply NoDup_cons in Hnd as [_ Hnd]. by apply IH. }
  destruct (Hloop dead t f) as (t' & f' & -> & [S1 S2 S3 S4]).
  - apply NoDup_dead_rows.
  - split; [done|done| |].
    + intros d Hd. split; [done|]. unfold dead in Hd. apply elem_of_dead_rows in Hd as (row & ? & _). eauto.
    + intros z d Hz Hd. exists d. split; [done|by left].
  - exists t', f'. split_and!; [done|done| |].
    + intros d Hd. apply S2; [done|set_solver].
    + intros z d Hz Hd. destruct (S4 z d Hz Hd) as (s & ? & [?%not_elem_of_nil|[? ?]]); [done|]. by exists s.
Qed.

Lemma production_sweep_db (cfg : SweeperConfig) (now : Time) (t : tables) (f : option WatcherFanout) :
  let dead := dead_rows (MissThreshold cfg) now t in
  (∃ s row, game_servers t !! s = Some row ∧ sStatus row = "active" ∧ is_dead (MissThreshold cfg) now row = false) →
  ∃ t' f', production_sweep (Some ServerRepository_dead) (Some ZoneRepository_owner) cfg now (mkWorld t [], f)
             = (mkWorld t' [], f') ∧
    (∀ d, d ∈ dead → ∃ row, game_servers t' !! d = Some row ∧ sStatus row = "shutdown") ∧
    (∀ z d, owner_of t z = Some d → d ∈ dead → ∃ s, owner_of t' z = Some s ∧ active t' s ∧ s ∉ dead).
Proof. cbv zeta. intros H. destruct (production_sweep_full cfg now t f H) as (t' & f' & ? & _ & ? & ?). by exists t', f'. Qed.

(** C13. No zone is lost when servers die: on a database that answers, one
    sweep marks every server that missed its heartbeats as shut down and
    hands each of its zones to a server that is still active and was not
    reported dead, provided one exists, whatever the allocation policy. *)
Theorem sweep_reassigns (cfg : SweeperConfig) (now : Time) (t : tables) (f : option WatcherFanout) :
  let dead := dead_rows (MissThreshold cfg) now t in
  (∃ s row, game_servers t !! s = Some row ∧ sStatus row = "active" ∧ is_dead (MissThreshold cfg) now row = false) →
  ∃ t' f', production_sweep (Some ServerRepository_dead) (Some ZoneRepository_owner) cfg now (mkWorld t [], f)
             = (mkWorld t' [], f') ∧
    (∀ d, d ∈ dead → ∃ row, game_servers t' !! d = Some row ∧ sStatus row = "shutdown") ∧
    (∀ z d, owner_of t z = Some d → d ∈ dead → ∃ s, owner_of t' z = Some s ∧ active t' s ∧ s ∉ dead).
Proof. apply production_sweep_db. Qed.

(** ** Failures *)

(** A server that is not active is never reported dead again. *)
Lemma inactive_not_dead since now t d row :
  game_servers t !! d = Some row → sStatus row ≠ "active" → d ∉ dead_rows since now t.
Proof.
  intros Hd Hs. rewrite elem_of_dead_rows. intros (row' & ? & Hdead). simplify_eq.
  unfold is_dead in Hdead. by rewrite bool_decide_eq_false_2 in Hdead.
Qed.

Definition db_sweep (cfg : SweeperConfig) (wf : world * option WatcherFanout) (now : Time) : world * option WatcherFanout :=
  production_sweep (Some ServerRepository_dead) (Some ZoneRepository_owner) cfg now wf.

(** A failed statement strands zones: if the database fails while a
    sweep lists the zones of a server it has just marked as shut down, the
    zones keep that server as their owner, and, the server no longer being
    active, no later sweep on an answering database ever reassigns them. *)
Theorem sweep_strands_zones (cfg : SweeperConfig) (now : Time) (later : list Time) (t : tables)
    (f : option WatcherFanout) (d z : string) :
  dead_rows (MissThreshold cfg) now t = [d] → owner_of t z = Some d →
  let wf := db_sweep cfg (mkWorld t [Quiet; Quiet; Fault], f) now in
  schedule wf.1 = [] ∧ db_owner wf.1 z = Some d ∧
  (∃ row, game_servers (tbl wf.1) !! d = Some row ∧ sStatus row = "shutdown") ∧
  db_owner (foldl (db_sweep cfg) wf later).1 z = Some d.
Proof.
  intros Hdead Ho. cbv zeta.
  assert (Hd : d ∈ dead_rows (MissThreshold cfg) now t) by (rewrite Hdead; set_solver).
  apply elem_of_dead_rows in Hd as (row & Hrow & _).
  set (t0 := t <| game_servers ::= <[d := (row <| sStatus := "shutdown" |>)]> |>).
  assert (E : db_sweep cfg (mkWorld t [Quiet; Quiet; Fault], f) now = (mkWorld t0 [], f)).
  { unfold db_sweep, production_sweep. cbn [fst snd ListDead ServerRepository_dead]. unfold repo_ListDead, query, stmt at 1.
    cbn [schedule tbl]. rewrite Hdead. cbn [foldl]. unfold sweep_server.
    cbn [fst snd MarkShutdown ServerRepository_dead]. unfold repo_MarkShutdown, stmt at 1. cbn [schedule tbl].
    unfold update_server at 1. rewrite Hrow. fold t0. done. }
  rewrite E. cbn [fst]. split_and!; [done|done|exists (row <| sStatus := "shutdown" |>); split; [apply lookup_insert_eq|done]|].
  set (P := λ wf : world * option WatcherFanout, schedule wf.1 = [] ∧ db_owner wf.1 z = Some d ∧
     ∃ r, game_servers (tbl wf.1) !! d = Some r ∧ sStatus r = "shutdown").
  assert (P (foldl (db_sweep cfg) (mkWorld t0 [], f) later)) as (_ & ? & _); [|done].
  apply (foldl_invariant _ P).
  { split_and!; [done|done|]. exists (row <| sStatus := "shutdown" |>). split; [apply lookup_insert_eq|done]. }
  clear -ALL. intros [[t1 s1] f1] now1 _ (Hs & Hz & r & Hr & Hrs). cbn in Hs, Hz, Hr. subst s1.
  unfold db_sweep, production_sweep. cbn [fst snd ListDead ServerRepository_dead]. unfold repo_ListDead. rewrite query_nil.
  set (Q := λ wf : world * option WatcherFanout, (∃ t2, wf.1 = mkWorld t2 []) ∧ P wf).
  enough (Q (foldl (sweep_server ServerRepository_dead (Some ZoneRepository_owner)) (mkWorld t1 [], f1)
               (dead_rows (MissThreshold cfg) now1 t1))) as [_ ?]; [done|].
  assert (Hnd : d ∉ dead_rows (MissThreshold cfg) now1 t1)
    by (eapply inactive_not_dead; [done|by rewrite Hrs]).
  apply (foldl_invariant _ Q).
  - split; [by eexists|]. by split_and!; [..|exists r].
  - intros [w2 f2] d2 Hd2 ((t2 & Hw) & (_ & Hz2 & r2 & Hr2 & Hrs2)). cbn in Hw. subst w2. cbn in Hz2, Hr2.
    assert (d2 ≠ d) as Hne by (intros ->; done).
    destruct (game_servers t2 !! d2) as [row2|] eqn:E2.
    + destruct (sweep_server_db d2 t2 f2 row2 E2) as (t3 & f3 & -> & Hg & Hfr & _). cbn in Hg.
      split; [by eexists|]. split_and!; [done| |].
      * cbn. unfold db_owner in *. cbn in *. rewrite Hfr; [done|]. unfold db_owner in Hz2. cbn in Hz2. congruence.
      * exists r2. cbn. rewrite Hg. by rewrite lookup_insert_ne.
    + unfold sweep_server. cbn [fst snd MarkShutdown ServerRepository_dead]. unfold repo_MarkShutdown. rewrite stmt_nil.
      unfold update_server. rewrite E2. cbn [fst snd]. unfold reassignZonesFor. cbn [fst snd ListByServer ZoneRepository_owner].
      unfold repo_ListByServer. rewrite query_nil.
      destruct (reassign_loop_db d2 (zones_of d2 t2) t2 f2 (NoDup_zones_of d2 t2)) as (t3 & f3 & -> & Hg & Hfr & _).
      { intros z'. by rewrite elem_of_zones_of. }
      split; [by eexists|]. split_and!; [done| |].
      * cbn. unfold db_owner in *. cbn in *. rewrite Hfr; [done|]. rewrite elem_of_zones_of. congruence.
      * exists r2. cbn. by rewrite Hg.
Qed.

(** A failed check is reported as success: when the zone is owned by
    another server, so that the conditional update changes nothing, and the
    query that should find out why fails, the claim reports success; a lookup
    of an owned zone during which the two reads fail answers with a server
    that does not own the zone, and the table still names the owner. *)
Theorem claim_masks_failure (z : string) (o : ServerID) (now : Time) (t : tables) (server : NodeDescriptor) (nodes : list NodeDescriptor) :
  owner_of t z = Some o →
  (repo_List (mkWorld t [])).1 = Ok nodes → allocate (Some <$> nodes) = Ok server →
  NodeID server ≠ o →
  repo_Claim z "" (NodeID server) (mkWorld t [Quiet; Fault]) = (None, mkWorld t []) ∧
  LookupZone z now (mkWorld t [Fault; Quiet; Quiet; Fault]) =
    (Ok (NodeID server, Address server), mkWorld t []).
Proof.
  intros Ho Hl Ha Hne.
  assert (Hcl : repo_Claim z "" (NodeID server) (mkWorld t [Quiet; Fault]) = (None, mkWorld t [])).
  { unfold repo_Claim, stmt at 1. cbn [schedule tbl]. unfold update_claim.
    unfold owner_of in Ho. destruct (zones t !! z) as [row|]; [|done]. cbn in Ho. by rewrite Ho. }
  split; [done|]. unfold LookupZone. cbn [zs_Lookup ZoneRepository]. unfold repo_Lookup, query, stmt at 1.
  cbn [schedule tbl]. unfold assign_zone. cbn [ss_List ServerRepository].
  assert (repo_List (mkWorld t [Quiet; Quiet; Fault]) = (Ok nodes, mkWorld t [Quiet; Fault])) as ->.
  { unfold repo_List, query, stmt in *. cbn in *. by simplify_eq. }
  destruct nodes as [|n ns].
  - apply allocate_member in Ha as [Hin _]. set_solver.
  - rewrite Ha. cbn [zs_Claim ZoneRepository]. by rewrite Hcl.
Qed.

(** Scheduling on the database ignores load: the rows the store lists
    carry neither zone counts nor entity counts, so every active server
    counts as having free capacity however many zones it owns, and the
    least-loaded policy returns the first row of the listing. *)
Theorem production_ignores_load (t : tables) (n : NodeDescriptor) (ns : list NodeDescriptor) :
  (repo_List (mkWorld t [])).1 = Ok (n :: ns) →
  Select (Some <$> n :: ns) = Ok n ∧ ∀ m, m ∈ n :: ns → CanAccept m = true ∧ Load m = zero_load.
Proof.
  unfold repo_List. rewrite query_nil. cbn [fst]. intros [= Hl].
  assert (Hall : ∀ m, m ∈ n :: ns → CanAccept m = true ∧ Load m = zero_load).
  { intros m. rewrite <-Hl. intros ([s row] & -> & _)%list_elem_of_fmap. split; [apply scan_node_accepts|done]. }
  split; [|done]. unfold Select. rewrite fmap_cons. cbn [foldl].
  assert (select_step None (Some n) = Some n) as ->.
  { unfold select_step. by rewrite (proj1 (Hall n ltac:(left))). }
  assert (Hloop : ∀ l, (∀ m, m ∈ l → CanAccept m = true ∧ Load m = zero_load) →
                    foldl select_step (Some n) (Some <$> l) = Some n).
  { induction l as [|m l IH]; intros Hm; [done|]. rewrite fmap_cons. cbn [foldl].
    destruct (Hm m ltac:(left)) as [Hc HL]. assert (select_step (Some n) (Some m) = Some n) as ->.
    { unfold select_step. rewrite Hc. cbn [negb]. unfold loadScore. rewrite HL, (proj2 (Hall n ltac:(left))). done. }
    apply IH. intros m' Hm'. apply Hm. by right. }
  rewrite Hloop; [done|]. intros m Hm. apply Hall. by right.
Qed.

(** ** Lookup under interference *)

(** Foreign keys hold and no server has the empty identifier. *)
Definition db_ok t : Prop :=
  game_servers t !! "" = None ∧
  ∀ z s, owner_of t z = Some s → is_Some (game_servers t !! s).

(** Other clients may do anything except drop the row of [z], take [z] away
    from an owner, or break the foreign keys. *)
Definition env_ok z (h : tables → tables) : Prop :=
  ∀ t, db_ok t → db_ok (h t) ∧
    (is_Some (zones t !! z) → is_Some (zones (h t) !! z)) ∧
    (∀ s, owner_of t z = Some s → owner_of (h t) z = Some s).

Definition interference z w : Prop :=
  Forall (λ e, match e with Env h => env_ok z h | Quiet => True | Fault => False end) (schedule w) ∧
  db_ok (tbl w) ∧ is_Some (zones (tbl w) !! z).

(** A statement runs on tables that others may have moved on. *)
Lemma stmt_interference {A} (f : tables → result error A * tables) z w :
  interference z w →
  ∃ t s, stmt f w = ((f t).1, mkWorld (f t).2 s) ∧
    interference z (mkWorld t s) ∧ ∀ o, db_owner w z = Some o → owner_of t z = Some o.
Proof.
  intros (Hs & Hok & Hrow). destruct w as [t s]. unfold stmt. cbn in *.
  destruct s as [|[| |h] s]; try apply Forall_cons in Hs as [? Hs]; cbn in *; try done.
  - exists t, []. destruct (f t). by split_and!.
  - exists t, s. destruct (f t). by split_and!.
  - destruct (H t Hok) as (H1 & H2 & H3). exists (h t), s. destruct (f (h t)). split_and!; [done| |done].
    split_and!; [done|done|]. by apply H2.
Qed.

Lemma query_interference {A} (f : tables → A) z w :
  interference z w →
  ∃ t s, query f w = (Ok (f t), mkWorld t s) ∧ interference z (mkWorld t s) ∧
    ∀ o, db_owner w z = Some o → owner_of t z = Some o.
Proof. intros Hi. destruct (stmt_interference (λ t, (Ok (f t), t)) z w Hi) as (t & s & ? & ? & ?). by exists t, s. Qed.

Lemma claim_interference z s w w' :
  interference z w → repo_Claim z "" s w = (None, w') → db_owner w' z = Some s.
Proof.
  intros Hi. unfold repo_Claim.
  destruct (stmt_interference (update_claim z s) z w Hi) as (t & sc & -> & (Hs & Hok & Hrow) & _).
  destruct Hrow as [row Hrow]. cbn in Hrow. unfold update_claim. rewrite Hrow.
  destruct (server_id row) as [o|] eqn:Eo; cbn [fst snd].
  - destruct (query_interference (select_owner z) z (mkWorld t sc)) as (t2 & s2 & -> & (_ & Hok2 & _) & Ho2).
    { split_and!; [done..|]. cbn. by rewrite Hrow. }
    assert (owner_of t2 z = Some o) as Hz2.
    { apply Ho2. unfold db_owner, owner_of. cbn. by rewrite Hrow. }
    unfold select_owner, owner_of in *. cbn in Hok2.
    destruct (zones t2 !! z) as [row2|] eqn:E2; [|done]. cbn in Hz2 |- *. rewrite Hz2.
    case_bool_decide as Hc; [done|]. intros [= <-]. unfold db_owner, owner_of. cbn. rewrite E2. cbn. rewrite Hz2.
    destruct (decide (o = s)) as [->|Hne]; [done|]. exfalso. apply Hc. split; [|done]. intros ->.
    destruct Hok2 as [Hemp Hfk]. destruct (Hfk z "") as [x Hx]; [unfold owner_of; by rewrite E2|]. congruence.
  - destruct (game_servers t !! s) eqn:Es; cbn [fst snd]; [|done]. intros [= <-].
    unfold db_owner. cbn [tbl]. by rewrite owner_of_insert, decide_True.
Qed.

Lemma assign_interference z w r w' :
  interference z w → assign_zone z w = (Ok r, w') → db_owner w' z = Some r.1.
Proof.
  intros Hi. unfold assign_zone. cbn [ss_List ServerRepository]. unfold repo_List.
  destruct (query_interference active_rows z w Hi) as (t & sc & -> & Hi' & _).
  destruct (_ <$> active_rows t) as [|n ns]; [done|].
  destruct (allocate _) as [server|e]; [|done]. cbn [zs_Claim ZoneRepository].
  destruct (repo_Claim z "" (NodeID server) (mkWorld t sc)) as [[e|] w1] eqn:E; [done|].
  intros [= <- <-]. cbn. by eapply claim_interference.
Qed.

(** C12. Lookup answers with the owner, also under contention: however other
    clients claim zones, register servers or heartbeat between the statements
    of a lookup, as long as nobody releases the zone meanwhile and the
    database answers, the server a lookup returns is the one the ownership
    table names for that zone when the lookup returns. *)
Theorem lookup_returns_owner (z : string) (now : Time) (w w' : world) (s : ServerID) (addr : string) :
  interference z w → LookupZone z now w = (Ok (s, addr), w') → db_owner w' z = Some s.
Proof.
  intros Hi. unfold LookupZone. cbn [zs_Lookup ZoneRepository]. unfold repo_Lookup.
  destruct (query_interference (select_owner z) z w Hi) as (t & sc & -> & Hi' & _).
  unfold select_owner. pose proof Hi' as (_ & _ & [row Hrow]). cbn in Hrow. rewrite Hrow. cbn [fmap option_fmap option_map].
  destruct (server_id row) as [o|] eqn:Eo; [|intros H; by apply assign_interference in H].
  case_bool_decide; [intros H0; by apply assign_interference in H0|].
  cbn [ss_Get ServerRepository]. unfold repo_Get.
  destruct (query_interference (λ t, game_servers t !! o) z (mkWorld t sc) Hi') as (t2 & s2 & -> & Hi2 & Ho2).
  destruct (game_servers t2 !! o) as [srow|]; [|intros H0; by apply assign_interference in H0].
  intros [= <- <- <-]. unfold db_owner. cbn. apply Ho2. unfold db_owner, owner_of. cbn. by rewrite Hrow.
Qed.
End dbspec.
