(* ===== verification/Cluster.v ===== *)
(** * The processes together

    How the processes of the system reach each other: a game server joins the
    room service and sends heartbeats ([apps/game-server/main.go]), a gateway
    asks it for the address of a zone ([apps/gateway/main.go]), and it streams
    ownership changes to the gateways ([WatchOwnership] of
    [apps/room-service/main.go]). *)

From S2P Require Import Prelude GoFloat Types Room RoomStore RoomSpec.
From stdpp Require Import base tactics list gmap strings pretty.
From Stdlib Require Import ZArith Lia.

Local Open Scope Z_scope.

(** ** Joining and routing *)

Section cluster.
Context `{RO : RangeOrder} `{AL : Allocator}.

(** The registration of a game server.  The room service answers a failure by
    [Success: false] and no error, and only an error is looked at: the result
    is the answer nobody reads. *)
Definition join (serverID host : string) (port : Z) (now : Time) (w : world) : bool * world :=
  svc_Register serverID "" host (wrap32 port) "" "" 10 ∅ now w.

(** A heartbeat carries no load; its answer is not read either. *)
Definition beat (serverID : string) (now : Time) (w : world) : bool * world :=
  svc_Heartbeat serverID 0 0 0 0 fzero now w.

Record LookupZoneResponse := mkLookupResponse { lrServer : string; lrAdvertiseAddr : string; lrHost : string; lrPort : Z }.

(** The response of the room service: only the server and its address are set. *)
Definition lookup_response (r : ServerID * string) : LookupZoneResponse := mkLookupResponse r.1 r.2 "" 0.

(** [roomLookuper.LookupZone]. *)
Definition roomLookuper_LookupZone (resp : result code LookupZoneResponse) : result code string :=
  match resp with
  | Err e => Err e
  | Ok r => if bool_decide (lrAdvertiseAddr r ≠ "") then Ok (lrAdvertiseAddr r)
            else Ok (lrHost r +:+ ":" +:+ itoa (lrPort r))
  end.

(** The look-up of a gateway, through the room service. *)
Definition route (zoneID : string) (now : Time) (w : world) : result code string * world :=
  let '(res, w) := LookupZone zoneID now w in
  (roomLookuper_LookupZone (match res with Ok r => Ok (lookup_response r) | Err e => Err e end), w).

(** ** Streams of ownership changes *)

(** The fan-out with the open streams and what was sent on each. *)
Record watch_server := mkWatch { fan : WatcherFanout; streams : gmap string (list OwnershipChange) }.

Inductive stream_event :=
| SSubscribe                              (* a gateway opens a stream *)
| SForward (id : string) (ok : bool)      (* the handler sends the next change; [ok]: without an error *)
| SCancel (id : string)                   (* the context of the stream ends *)
| SBroadcast (c : OwnershipChange).       (* the sweeper announces a change *)

(** The deferred [Unsubscribe] of the handler. *)
Definition end_stream (id : string) (s : watch_server) : watch_server :=
  mkWatch (Unsubscribe id (fan s)) (delete id (streams s)).

Definition watch_srv (s : watch_server) (ev : stream_event) : option watch_server :=
  match ev with
  | SSubscribe => let '(id, f) := Subscribe (fan s) in Some (mkWatch f (<[id := []]> (streams s)))
  | SForward id ok =>
      match channels (fan s) !! id, streams s !! id with
      | Some (c :: q), Some sent =>
          if ok : bool
          then Some (mkWatch (mkFanout (<[id := q]> (channels (fan s))) (nextID (fan s))) (<[id := sent ++ [c]]> (streams s)))
          else Some (end_stream id s)
      | _, _ => None
      end
  | SCancel id => match streams s !! id with Some _ => Some (end_stream id s) | None => None end
  | SBroadcast c => Some (mkWatch (Broadcast c (fan s)) (streams s))
  end.
End cluster.

Section routing.
Context `{RO : RangeOrder} `{AL : Allocator} `{ALL : !AllocatorLaws AL}.
Implicit Types (t : tables) (w : world) (z : string).

Definition host_port (row : ServerRow) : string := sHost row +:+ ":" +:+ itoa (sPort row).

Lemma Address_scan_node s row now : Address (scan_node s row now) = host_port row.
Proof. done. Qed.

Lemma host_port_nonempty row : host_port row ≠ "".
Proof. unfold host_port. by destruct (sHost row). Qed.

Lemma route_of_lookup z now w s row w' :
  LookupZone z now w = (Ok (s, host_port row), w') → route z now w = (Ok (host_port row), w').
Proof.
  unfold route. intros ->. cbn. rewrite bool_decide_true; [done|]. apply host_port_nonempty.
Qed.

(** An unowned zone goes to an active server. *)
Lemma assign_zone_db z t row0 :
  zones t !! z = Some row0 → server_id row0 = None → (∃ s, active t s) →
  ∃ s row t', assign_zone z (mkWorld t []) = (Ok (s, host_port row), mkWorld t' []) ∧
    game_servers t' = game_servers t ∧ game_servers t !! s = Some row ∧ sStatus row = "active" ∧ owner_of t' z = Some s.
Proof.
  intros Hz Ho (s0 & srow & Hs0 & Hact). unfold assign_zone. cbn [ss_List ServerRepository]. unfold repo_List. rewrite query_nil.
  destruct (_ <$> active_rows t) as [|n ns] eqn:El.
  { apply fmap_nil_inv in El. assert ((s0, srow) ∈ active_rows t) as H by (by apply elem_of_active_rows). rewrite El in H. by apply not_elem_of_nil in H. }
  destruct (allocate_listed t n ns El) as (target & Ha & _). rewrite Ha. pose proof (allocate_member _ _ Ha) as [Hm _].
  rewrite <-El in Hm. apply list_elem_of_fmap in Hm as (m & [= ->] & ([s row] & -> & [Hrow Hst]%elem_of_active_rows)%list_elem_of_fmap).
  cbn [fst snd scan_node NodeID]. cbn [zs_Claim ZoneRepository]. unfold repo_Claim. rewrite stmt_nil.
  unfold update_claim. rewrite Hz, Ho, Hrow. cbn [fst snd].
  eexists s, row, _. split; [rewrite Address_scan_node; reflexivity|]. split_and!; [done|done|done|].
  by rewrite owner_of_insert, decide_True.
Qed.

(** A zone with a registered owner is routed to it. *)
Lemma route_owned z o row now t :
  owner_of t z = Some o → o ≠ "" → game_servers t !! o = Some row → route z now (mkWorld t []) = (Ok (host_port row), mkWorld t []).
Proof.
  unfold owner_of. intros Ho Hne Hrow. destruct (zones t !! z) as [zr|] eqn:Ez; [|done]. cbn in Ho.
  apply (route_of_lookup z now _ o). unfold LookupZone. cbn [zs_Lookup ZoneRepository]. unfold repo_Lookup. rewrite query_nil.
  unfold select_owner. rewrite Ez. cbn. rewrite Ho, bool_decide_false by done.
  cbn [ss_Get ServerRepository]. unfold repo_Get. by rewrite query_nil, Hrow.
Qed.

Lemma route_db (z : string) (now : Time) (t : tables) :
  db_ok t → is_Some (zones t !! z) → (is_Some (owner_of t z) ∨ ∃ s, active t s) →
  ∃ t' s row, route z now (mkWorld t []) = (Ok (host_port row), mkWorld t' []) ∧
    owner_of t' z = Some s ∧ game_servers t' !! s = Some row ∧ (∀ o, owner_of t z = Some o → s = o ∧ t' = t).
Proof.
  intros [Hemp Hfk] [row0 Hz] Hav.
  assert (zs_Lookup z (mkWorld t []) =
    (match server_id row0 with
     | Some o => if bool_decide (o = "") then Err (Wrapped ("zone " +:+ z) ErrNotFound) else Ok o
     | None => Err (Wrapped ("zone " +:+ z) ErrNotFound) end, mkWorld t [])) as Hl.
  { cbn [zs_Lookup ZoneRepository]. unfold repo_Lookup. rewrite query_nil. unfold select_owner. rewrite Hz. cbn.
    destruct (server_id row0); [by case_bool_decide|done]. }
  assert (owner_of t z = server_id row0) as Ho by (unfold owner_of; by rewrite Hz).
  destruct (server_id row0) as [o|] eqn:Es.
  - destruct (Hfk z o Ho) as [row Hrow]. exists t, o, row.
    split_and!; [|done|done|intros o'; rewrite Ho; by intros [= ->]].
    apply (route_owned z o); [done|intros ->; congruence|done].
  - destruct Hav as [[? ?]|Hact]; [congruence|].
    destruct (assign_zone_db z t row0 Hz Es Hact) as (s & row & t' & Ha & Hgs & Hrow & _ & Ho'). exists t', s, row.
    split_and!; [|done|by rewrite Hgs|by rewrite Ho].
    apply (route_of_lookup z now _ s). unfold LookupZone. by rewrite Hl.
Qed.

(** A player is sent to the owner of the zone: on a database that answers,
    with the row of the zone there, the address a gateway gets is the
    host and port the owner of the zone registered, an owner being chosen
    among the active servers if the zone has none; the zone of an owner stays
    with it. *)
Theorem route_reaches_owner (z : string) (now : Time) (t : tables) :
  db_ok t → is_Some (zones t !! z) → (is_Some (owner_of t z) ∨ ∃ s, active t s) →
  ∃ t' s row, route z now (mkWorld t []) = (Ok (host_port row), mkWorld t' []) ∧
    owner_of t' z = Some s ∧ game_servers t' !! s = Some row ∧ (∀ o, owner_of t z = Some o → s = o ∧ t' = t).
Proof. apply route_db. Qed.

(** No server is active: an unowned zone cannot be routed. *)
Lemma route_unavailable z now t row0 :
  zones t !! z = Some row0 → server_id row0 = None → (∀ s, ¬ active t s) →
  route z now (mkWorld t []) = (Err Unavailable, mkWorld t []).
Proof.
  intros Hz Ho Hna. unfold route, LookupZone. cbn [zs_Lookup ZoneRepository]. unfold repo_Lookup. rewrite query_nil.
  unfold select_owner. rewrite Hz. cbn [fmap option_fmap option_map]. rewrite Ho. unfold assign_zone.
  cbn [ss_List ServerRepository]. unfold repo_List. rewrite query_nil.
  destruct (active_rows t) as [|[s row] l] eqn:E; [done|]. exfalso. apply (Hna s). exists row.
  apply elem_of_active_rows. rewrite E. left.
Qed.

Lemma beat_row id now t row :
  game_servers t !! id = Some row →
  beat id now (mkWorld t []) =
  (true, mkWorld (t <| game_servers ::= <[id := row <| sStatus := "active" |> <| last_heartbeat := now |>]> |>) []).
Proof.
  intros Hr. unfold beat, svc_Heartbeat. cbn [ss_Heartbeat ServerRepository]. unfold repo_Heartbeat. rewrite stmt_nil.
  unfold update_server. by rewrite Hr.
Qed.

(** C36. A server that joins is routed to after its first heartbeat, at its host
    and port: until then it is not active, so that a zone without an owner
    cannot be served; from then on it owns the zones that are asked for.  The
    address it advertises plays no role, since the table does not keep it. *)
Theorem join_then_route (id addr host : string) (port maxZones : Z) (version build : string) (labels : gmap string string)
    (t : tables) (z : string) (row0 : ZoneRow) (now now' now'' : Time) :
  game_servers t !! id = None → (∀ s, ¬ active t s) → zones t !! z = Some row0 → server_id row0 = None →
  ∃ t1 t2 t3,
    svc_Register id addr host port version build maxZones labels now (mkWorld t []) = (true, mkWorld t1 []) ∧
    route z now' (mkWorld t1 []) = (Err Unavailable, mkWorld t1 []) ∧
    beat id now' (mkWorld t1 []) = (true, mkWorld t2 []) ∧
    route z now'' (mkWorld t2 []) = (Ok (host +:+ ":" +:+ itoa port), mkWorld t3 []) ∧
    owner_of t3 z = Some id.
Proof.
  intros Hid Hna Hz Ho.
  set (row := mkServerRow host port "joining" maxZones now now).
  set (t1 := t <| game_servers ::= <[id := row]> |>).
  set (t2 := t1 <| game_servers ::= <[id := row <| sStatus := "active" |> <| last_heartbeat := now' |>]> |>).
  assert (∀ s, ¬ active t1 s) as Hna1.
  { intros s (r & Hr & Hst). unfold t1 in Hr. cbn in Hr. apply lookup_insert_Some in Hr as [[<- <-]|[? Hr]]; [done|].
    apply (Hna s). by exists r. }
  assert (∀ s, active t2 s → s = id) as Hact2.
  { intros s (r & Hr & Hst). unfold t2 in Hr. cbn in Hr. apply lookup_insert_Some in Hr as [[<- _]|[? Hr]]; [done|].
    destruct (Hna1 s). by exists r. }
  assert (zones t2 !! z = Some row0) as Hz2 by done.
  destruct (assign_zone_db z t2 row0 Hz2 Ho) as (s & row' & t3 & Ha & _ & Hrow & Hst & Ho3).
  { exists id, (row <| sStatus := "active" |> <| last_heartbeat := now' |>). split; [|done]. unfold t2. cbn. by rewrite lookup_insert_eq. }
  assert (s = id) as -> by (apply Hact2; by exists row').
  assert (host_port row' = host +:+ ":" +:+ itoa port) as Hhp.
  { unfold t2 in Hrow. cbn in Hrow. rewrite lookup_insert_eq in Hrow. by injection Hrow as <-. }
  exists t1, t2, t3. split_and!; [| | | |done].
  - unfold svc_Register. cbn [ss_Register ServerRepository]. unfold repo_Register. rewrite stmt_nil. unfold insert_server.
    cbn [NodeID]. rewrite Hid. done.
  - by apply route_unavailable with row0.
  - apply beat_row. unfold t1. cbn. by rewrite lookup_insert_eq.
  - rewrite <-Hhp. apply (route_of_lookup z now'' _ id). unfold LookupZone. cbn [zs_Lookup ZoneRepository]. unfold repo_Lookup.
    rewrite query_nil. unfold select_owner. rewrite Hz2. cbn [fmap option_fmap option_map]. rewrite Ho. exact Ha.
Qed.

(** A heartbeat revives a server that was swept, without its zones: after a
    sweep handed the zones of a server that missed its heartbeats to others,
    one late heartbeat makes it active, and eligible for new zones, again, but
    the zones it still simulates belong to the others, and its process is not
    told. *)
Theorem late_heartbeat_revives (cfg : SweeperConfig) (now now' : Time) (t : tables) (f : option WatcherFanout) (d : ServerID) :
  (∃ s row, game_servers t !! s = Some row ∧ sStatus row = "active" ∧ is_dead (MissThreshold cfg) now row = false) →
  d ∈ dead_rows (MissThreshold cfg) now t →
  ∃ t' f' t'',
    production_sweep (Some ServerRepository_dead) (Some ZoneRepository_owner) cfg now (mkWorld t [], f) = (mkWorld t' [], f') ∧
    ¬ active t' d ∧ beat d now' (mkWorld t' []) = (true, mkWorld t'' []) ∧ active t'' d ∧
    ∀ z, owner_of t z = Some d → ∃ s, owner_of t'' z = Some s ∧ s ≠ d ∧ active t'' s.
Proof.
  intros Hlive Hd. destruct (production_sweep_db cfg now t f Hlive) as (t' & f' & E & Hdead & Hz).
  destruct (Hdead d Hd) as (row & Hrow & Hst).
  exists t', f', (t' <| game_servers ::= <[d := row <| sStatus := "active" |> <| last_heartbeat := now' |>]> |>).
  split_and!; [done| |by apply beat_row| |].
  - intros (row' & Hrow' & Hst'). congruence.
  - exists (row <| sStatus := "active" |> <| last_heartbeat := now' |>). split; [|done]. cbn. by rewrite lookup_insert_eq.
  - intros z Ho. destruct (Hz z d Ho Hd) as (s & Hs & (srow & Hsrow & Hact) & Hnd). exists s.
    assert (s ≠ d) as Hne by (intros ->; done). split_and!; [done|done|].
    exists srow. split; [|done]. cbn. by rewrite lookup_insert_ne.
Qed.

(** A failed registration goes unnoticed: when the statement that inserts the
    row of a server fails, the process goes on, no heartbeat it sends is
    acknowledged or creates the row, and it is never active. *)
Theorem failed_join_unnoticed (id host : string) (port : Z) (t : tables) (now : Time) (beats : list Time) :
  game_servers t !! id = None →
  join id host port now (mkWorld t [Fault]) = (false, mkWorld t []) ∧
  (let w := foldl (λ w now, (beat id now w).2) (mkWorld t []) beats in
   w = mkWorld t [] ∧ ¬ active (tbl w) id ∧ ∀ now, (beat id now w).1 = false).
Proof.
  intros Hid.
  assert (∀ now, beat id now (mkWorld t []) = (false, mkWorld t [])) as Hb.
  { intros n. unfold beat, svc_Heartbeat. cbn [ss_Heartbeat ServerRepository]. unfold repo_Heartbeat. rewrite stmt_nil.
    unfold update_server. by rewrite Hid. }
  assert (foldl (λ w now, (beat id now w).2) (mkWorld t []) beats = mkWorld t []) as Hf.
  { induction beats as [|n beats IH]; [done|]. cbn [foldl]. by rewrite Hb. }
  split; [done|]. cbv zeta. rewrite Hf. split_and!; [done| |intros n; by rewrite Hb].
  intros (row & Hrow & _). cbn in Hrow. congruence.
Qed.
End routing.

(** ** The streams *)

Definition broadcasts (evs : list stream_event) : list OwnershipChange :=
  omap (λ ev, match ev with SBroadcast c => Some c | _ => None end) evs.

Definition watcher_id (k : Z) : string := "w" +:+ itoa k.

Lemma watcher_id_inj k k' : watcher_id k = watcher_id k' → k = k'.
Proof. unfold watcher_id, itoa. intros H%(inj (String.app "w")). by apply (inj pretty) in H. Qed.

(** Channels and streams go together, under identifiers handed out before. *)
Record watch_wf (s : watch_server) : Prop := {
  ww_open : ∀ id, is_Some (channels (fan s) !! id) ↔ is_Some (streams s !! id);
  ww_id : ∀ id, is_Some (channels (fan s) !! id) → ∃ k, k ≤ nextID (fan s) ∧ id = watcher_id k;
  ww_buffer : ∀ id q, channels (fan s) !! id = Some q → (length q ≤ watchBuffer)%nat;
  ww_next : 0 ≤ nextID (fan s)
}.

(** What is queued and sent on an open stream. *)
Definition stream_at (s : watch_server) (id : string) (q sent : list OwnershipChange) : Prop :=
  channels (fan s) !! id = Some q ∧ streams s !! id = Some sent.

Lemma Subscribe_next f : 0 ≤ nextID f < max_int64 →
  Subscribe f = (watcher_id (nextID f + 1), mkFanout (<[watcher_id (nextID f + 1) := []]> (channels f)) (nextID f + 1)).
Proof. intros H. unfold Subscribe. by rewrite wrap64_id by (unfold in_int64, max_int64 in *; lia). Qed.

Lemma end_stream_wf id s : watch_wf s → watch_wf (end_stream id s).
Proof.
  intros [H1 H2 H3 H4]. split; cbn; [| | |done].
  - intros i. destruct (decide (i = id)) as [-> | Hne]; [rewrite !lookup_delete_eq; split; by intros []|].
    by rewrite !lookup_delete_ne.
  - intros i [q [_ Hq]%lookup_delete_Some]. apply H2. by eauto.
  - intros i q [_ Hq]%lookup_delete_Some. by eapply H3.
Qed.

Lemma watch_srv_wf s ev s' :
  watch_wf s → nextID (fan s) < max_int64 → watch_srv s ev = Some s' →
  watch_wf s' ∧ nextID (fan s) ≤ nextID (fan s') ≤ nextID (fan s) + 1 ∧
  (∀ k, k ≤ nextID (fan s) → channels (fan s) !! watcher_id k = None → channels (fan s') !! watcher_id k = None).
Proof.
  intros Hw Hn. pose proof Hw as [H1 H2 H3 H4].
  destruct ev as [|id ok|id|c]; cbn [watch_srv].
  - rewrite Subscribe_next by lia. intros [= <-]. cbn. split; [|split; [lia|]].
    + split; cbn; [| | |lia].
      * intros i. destruct (decide (i = watcher_id (nextID (fan s) + 1))) as [-> | Hne]; [by rewrite !lookup_insert_eq|].
        by rewrite !lookup_insert_ne.
      * intros i [q [[<- _]|[_ Hq]]%lookup_insert_Some]; [by exists (nextID (fan s) + 1)|].
        destruct (H2 i) as (k & ? & ?); [by eauto|]. exists k. split; [lia|done].
      * intros i q [[_ <-]|[_ Hq]]%lookup_insert_Some; [cbn; lia|by eapply H3].
    + intros k Hk Hc. rewrite lookup_insert_ne; [done|]. intros ?%watcher_id_inj. lia.
  - destruct (channels (fan s) !! id) as [[|c q]|] eqn:Ec; try done. destruct (streams s !! id) as [sent|] eqn:Es; [|done].
    destruct ok; intros [= <-].
    + cbn. split; [|split; [lia|]].
      * split; cbn; [| | |done].
        -- intros i. destruct (decide (i = id)) as [-> | Hne]; [rewrite !lookup_insert_eq; split; by eauto|]. by rewrite !lookup_insert_ne.
        -- intros i [q' [[<- _]|[_ Hq]]%lookup_insert_Some]; apply H2; by eauto.
        -- intros i q' [[<- <-]|[_ Hq]]%lookup_insert_Some; [|by eapply H3]. pose proof (H3 _ _ Ec). cbn in *. lia.
      * intros k _ Hk. rewrite lookup_insert_ne; [done|]. intros ->. congruence.
    + split; [by apply end_stream_wf|]. cbn. split; [lia|]. intros k _ Hk. rewrite lookup_delete_None. by right.
  - destruct (streams s !! id) as [sent|]; [|done]. intros [= <-]. split; [by apply end_stream_wf|]. cbn. split; [lia|].
    intros k _ Hk. rewrite lookup_delete_None. by right.
  - intros [= <-]. cbn. split; [|split; [lia|]].
    + split; cbn; [| | |done].
      * intros i. rewrite lookup_fmap, fmap_is_Some. apply H1.
      * intros i. rewrite lookup_fmap, fmap_is_Some. apply H2.
      * intros i q. rewrite lookup_fmap. intros (q0 & Hq0 & ->)%fmap_Some_1. pose proof (H3 _ _ Hq0).
        case_match eqn:El; [|done]. apply Nat.leb_le in El. rewrite length_app. unfold watchBuffer in *. cbn. lia.
    + intros k _ Hk. by rewrite lookup_fmap, Hk.
Qed.

(** One step, on a stream that stays open. *)
Lemma watch_srv_stream s ev s' id q sent q' sent' :
  watch_wf s → nextID (fan s) < max_int64 → watch_srv s ev = Some s' →
  stream_at s id q sent → stream_at s' id q' sent' →
  ∃ new, sent' ++ q' = sent ++ q ++ new ∧ new `sublist_of` broadcasts [ev] ∧
    ((∀ c, ev = SBroadcast c → (length q < watchBuffer)%nat) → new = broadcasts [ev]).
Proof.
  intros [H1 H2 H3 H4] Hn Hs [Hc Ht] [Hc' Ht'].
  assert (q' = q → sent' = sent → broadcasts [ev] = [] → ∃ new, sent' ++ q' = sent ++ q ++ new ∧ new `sublist_of` broadcasts [ev] ∧
    ((∀ c, ev = SBroadcast c → (length q < watchBuffer)%nat) → new = broadcasts [ev])) as Hsame.
  { intros -> -> ->. exists []. by rewrite app_nil_r. }
  destruct ev as [|i ok|i|c]; cbn [watch_srv] in Hs.
  - rewrite Subscribe_next in Hs by lia. injection Hs as <-. cbn in Hc', Ht'.
    assert (watcher_id (nextID (fan s) + 1) ≠ id) as Hne.
    { intros <-. destruct (H2 _ ltac:(by eauto)) as (k & Hk & ?%watcher_id_inj). lia. }
    rewrite lookup_insert_ne in Hc', Ht' by done. apply Hsame; congruence || done.
  - destruct (channels (fan s) !! i) as [[|c l]|] eqn:Ei; try done. destruct (streams s !! i) as [st|] eqn:Est; [|done].
    destruct ok; injection Hs as <-; cbn in Hc', Ht'.
    + destruct (decide (i = id)) as [-> | Hne]; [|rewrite lookup_insert_ne in Hc', Ht' by done; apply Hsame; congruence || done].
      rewrite lookup_insert_eq in Hc', Ht'. simplify_eq. exists []. cbn. rewrite app_nil_r, <-app_assoc. done.
    + apply lookup_delete_Some in Hc' as [_ ?], Ht' as [_ ?]. apply Hsame; congruence || done.
  - destruct (streams s !! i); [|done]. injection Hs as <-. cbn in Hc', Ht'.
    apply lookup_delete_Some in Hc' as [_ ?], Ht' as [_ ?]. apply Hsame; congruence || done.
  - injection Hs as <-. cbn in Hc', Ht'. rewrite lookup_fmap, Hc in Hc'. cbn in Hc'. rewrite Ht in Ht'. simplify_eq.
    case_match eqn:Hl; [apply Nat.leb_le in Hl|apply Nat.leb_gt in Hl].
    + exists [c]. by rewrite <-?app_assoc.
    + exists []. rewrite app_nil_r. split_and!; [done|apply sublist_nil_l|]. intros H. specialize (H c eq_refl). unfold watchBuffer in *. lia.
Qed.

(** The channel of [id] has room at every announcement. *)
Fixpoint keeps_up (id : string) (s : watch_server) (evs : list stream_event) : Prop :=
  match evs with
  | [] => True
  | ev :: evs =>
      (∀ c q, ev = SBroadcast c → channels (fan s) !! id = Some q → (length q < watchBuffer)%nat) ∧
      ∀ s1, watch_srv s ev = Some s1 → keeps_up id s1 evs
  end.

(** A closed stream stays closed. *)
Lemma closed_stays evs s s' k :
  watch_wf s → nextID (fan s) + Z.of_nat (length evs) ≤ max_int64 → fold_option watch_srv s evs = Some s' →
  k ≤ nextID (fan s) → channels (fan s) !! watcher_id k = None → channels (fan s') !! watcher_id k = None.
Proof.
  revert s. induction evs as [|ev evs IH]; intros s Hw Hn; cbn [fold_option length] in *; [by intros [= <-]|].
  destruct (watch_srv s ev) as [s1|] eqn:E; cbn; [|done]. intros Hf Hk Hc.
  destruct (watch_srv_wf s ev s1 Hw ltac:(lia) E) as (Hw1 & Hn1 & Hcl).
  apply (IH s1); [done|lia|done|lia|by apply Hcl].
Qed.

(** C37. The streams of ownership changes: what a stream carries, followed by what
    waits in its buffer of sixteen, is what it carried before followed by a
    subsequence of the changes announced since, in their order; and it is all
    of them if the buffer had room at each announcement.  Others that open or
    close streams do not matter. *)
Theorem watch_delivers (evs : list stream_event) (s s' : watch_server) (id : string) (q sent q' sent' : list OwnershipChange) :
  watch_wf s → nextID (fan s) + Z.of_nat (length evs) ≤ max_int64 →
  fold_option watch_srv s evs = Some s' → stream_at s id q sent → stream_at s' id q' sent' →
  (length q' ≤ watchBuffer)%nat ∧
  ∃ new, sent' ++ q' = sent ++ q ++ new ∧ new `sublist_of` broadcasts evs ∧ (keeps_up id s evs → new = broadcasts evs).
Proof.
  revert s q sent. induction evs as [|ev evs IH]; intros s q sent Hw Hn; cbn [fold_option length] in *.
  { intros [= <-] [Hc Ht] [Hc' Ht']. simplify_eq. split; [by eapply (ww_buffer s)|]. exists []. by rewrite app_nil_r. }
  destruct (watch_srv s ev) as [s1|] eqn:E; cbn [mbind option_bind]; [|done]. intros Hf Hst Hst'.
  destruct (watch_srv_wf s ev s1 Hw ltac:(lia) E) as (Hw1 & Hn1 & Hcl).
  destruct (ww_id s Hw id) as (k & Hk & ->); [destruct Hst as [-> _]; by eauto|].
  destruct (channels (fan s1) !! watcher_id k) as [q1|] eqn:Ec1.
  2:{ exfalso. destruct Hst' as [Hc' _]. rewrite (closed_stays evs s1 s' k) in Hc'; [done|done|lia|done|lia|done]. }
  destruct (proj1 (ww_open s1 Hw1 (watcher_id k)) ltac:(by eauto)) as [sent1 Et1].
  assert (stream_at s1 (watcher_id k) q1 sent1) as Hst1 by done.
  destruct (watch_srv_stream s ev s1 _ _ _ _ _ Hw ltac:(lia) E Hst Hst1) as (n1 & E1 & S1 & L1).
  destruct (IH s1 q1 sent1 Hw1 ltac:(lia) Hf Hst1 Hst') as (Hlen & n2 & E2 & S2 & L2). split; [done|].
  exists (n1 ++ n2). assert (broadcasts (ev :: evs) = broadcasts [ev] ++ broadcasts evs) as -> by (cbn; by destruct ev).
  split_and!.
  - rewrite E2, (app_assoc sent1), E1, <-!app_assoc. done.
  - by apply sublist_app.
  - intros [Hk1 Hk2]. f_equal; [|by apply L2, Hk2]. apply L1. intros c ->. destruct Hst as [Hc _]. by eapply Hk1.
Qed.

(** ** Sample executions *)

Section samples.
Local Existing Instance canonical_order.
Local Existing Instance LeastLoadedAllocator.

(** [s1] has missed its heartbeats, [s2] is alive; [z9] has no owner. *)
Definition cluster_row (status : string) (heartbeat : Time) : ServerRow := mkServerRow "10.0.0.1" 9000 status 10 1 heartbeat.
Definition cluster_tables : tables :=
  mkTables {["s1" := cluster_row "active" 0; "s2" := cluster_row "active" (100 * Second)]}
           {["z1" := mkZRow "r" (Some "s1") "active"; "z9" := mkZRow "r" None "unowned"]}.
Definition cluster_cfg : SweeperConfig := mkSweeperConfig (5 * Second) (15 * Second).

Lemma route_reaches_owner_witness :
  ∃ t', route "z1" 0 (mkWorld cluster_tables []) = (Ok "10.0.0.1:9000", mkWorld t' []).
Proof.
  destruct (route_reaches_owner "z1" 0 cluster_tables) as (t' & s & row & H1 & H2 & H3 & H4).
  - split; [reflexivity|]. intros z s. unfold owner_of, cluster_tables. cbn.
    destruct (decide (z = "z1")) as [-> | H1]; [intros [= <-]; by eexists|].
    destruct (decide (z = "z9")) as [-> | H2]; [done|]. by rewrite lookup_insert_ne, lookup_singleton_ne by done.
  - by eexists.
  - left. by eexists.
  - exists t'. rewrite H1. destruct (H4 "s1" eq_refl) as [-> ->]. injection H3 as <-. reflexivity.
Defined.

Lemma join_then_route_witness :
  ∃ t1 t2 t3, join "s7" "10.0.0.7" 9000 0 (mkWorld (mkTables ∅ {["z9" := mkZRow "r" None "unowned"]}) []) = (true, mkWorld t1 []) ∧
    beat "s7" Second (mkWorld t1 []) = (true, mkWorld t2 []) ∧
    route "z9" Second (mkWorld t2 []) = (Ok "10.0.0.7:9000", mkWorld t3 []).
Proof.
  destruct (join_then_route "s7" "" "10.0.0.7" 9000 10 "" "" ∅ (mkTables ∅ {["z9" := mkZRow "r" None "unowned"]}) "z9"
              (mkZRow "r" None "unowned") 0 Second Second) as (t1 & t2 & t3 & H1 & _ & H2 & H3 & _).
  - reflexivity.
  - intros s (row & Hrow & _). discriminate Hrow.
  - reflexivity.
  - reflexivity.
  - exists t1, t2, t3. split; [exact H1|]. split; [exact H2|exact H3].
Defined.

Lemma late_heartbeat_revives_witness :
  ∃ t'' s, active t'' "s1" ∧ owner_of t'' "z1" = Some s ∧ s ≠ "s1".
Proof.
  destruct (late_heartbeat_revives cluster_cfg (100 * Second) (101 * Second) cluster_tables None "s1")
    as (t' & f' & t'' & _ & _ & _ & H & Hz).
  - exists "s2", (cluster_row "active" (100 * Second)). split; [reflexivity|]. split; reflexivity.
  - vm_compute. left.
  - destruct (Hz "z1" eq_refl) as (s & H1 & H2 & _). exists t'', s. split; [exact H|]. split; [exact H1|exact H2].
Defined.

Lemma failed_join_unnoticed_witness :
  join "s7" "10.0.0.7" 9000 0 (mkWorld cluster_tables [Fault]) = (false, mkWorld cluster_tables []) ∧
  (beat "s7" (5 * Second) (mkWorld cluster_tables [])).1 = false.
Proof.
  destruct (failed_join_unnoticed "s7" "10.0.0.7" 9000 cluster_tables 0 []) as (H1 & _ & _ & H2); [reflexivity|].
  split; [exact H1|]. exact (H2 (5 * Second)).
Defined.

Definition change1 : OwnershipChange := mkChange "z1" "s2" "10.0.0.2" 9000.
Definition change2 : OwnershipChange := mkChange "z2" "s2" "10.0.0.2" 9000.
Definition watched : watch_server := mkWatch (mkFanout {["w1" := []]} 1) {["w1" := []]}.

Lemma watch_delivers_witness :
  ∃ s', fold_option watch_srv watched [SBroadcast change1; SSubscribe; SBroadcast change2; SForward "w1" true] = Some s' ∧
    stream_at s' "w1" [change2] [change1].
Proof.
  destruct (fold_option watch_srv watched [SBroadcast change1; SSubscribe; SBroadcast change2; SForward "w1" true]) as [s'|] eqn:E;
    [|vm_compute in E; discriminate E].
  assert (stream_at s' "w1" [change2] [change1]) as Hs by (vm_compute in E; injection E as <-; split; reflexivity).
  destruct (watch_delivers [SBroadcast change1; SSubscribe; SBroadcast change2; SForward "w1" true] watched s' "w1" [] [] [change2] [change1]) as [_ (new & Hnew & _ & Hall)].
  - split.
    + intros id. unfold watched. cbn. destruct (decide (id = "w1")) as [-> | Hne]; [done|].
      by rewrite !lookup_singleton_ne.
    + unfold watched. cbn. intros id [q [<- _]%lookup_singleton_Some]. exists 1. split; [reflexivity|]. vm_compute. reflexivity.
    + unfold watched. cbn. intros id q [_ <-]%lookup_singleton_Some. cbn. lia.
    + vm_compute. discriminate.
  - vm_compute. discriminate.
  - exact E.
  - split; reflexivity.
  - exact Hs.
  - exists s'. split; [reflexivity|exact Hs].
Defined.
End samples.
