(* ===== verification/Failover.v ===== *)
(** * Failover

    The loop of the production sweeper ([internal/room/sweeper_production.go],
    [Run]) beside the calls the room service receives meanwhile: heartbeats,
    registrations and zone look-ups, in the order of their times on a database
    that answers.  The theorem bounds the time until the zones of a silent
    server have a live owner. *)

From S2P Require Import Prelude GoFloat Types Room RoomStore RoomSpec Cluster.
From stdpp Require Import base tactics list gmap strings sorting.
From Stdlib Require Import ZArith Lia.

Local Open Scope Z_scope.

(** [NewProductionSweeper]: the zero values stand for the defaults. *)
Definition NewProductionSweeper (cfg : SweeperConfig) : SweeperConfig :=
  mkSweeperConfig (if Interval cfg =? 0 then 5 * Second else Interval cfg)
                  (if MissThreshold cfg =? 0 then 15 * Second else MissThreshold cfg).

(** The sweeper of the room service. *)
Definition service_sweeper : SweeperConfig := NewProductionSweeper (mkSweeperConfig (5 * Second) (15 * Second)).

Inductive room_event :=
| RHeartbeat (id : ServerID)
| RRegister (id : ServerID) (host : string) (port : Z)
| RLookup (zoneID : string)
| RSweep.

Section failover.
Context `{RO : RangeOrder} `{AL : Allocator} `{ALL : !AllocatorLaws AL}.

(** One call, or one round of [Run], at its time. *)
Definition room_step (cfg : SweeperConfig) (wf : world * option WatcherFanout) (te : Time * room_event)
    : world * option WatcherFanout :=
  match te.2 with
  | RHeartbeat id => ((beat id te.1 wf.1).2, wf.2)
  | RRegister id host port => ((Cluster.join id host port te.1 wf.1).2, wf.2)
  | RLookup z => ((LookupZone z te.1 wf.1).2, wf.2)
  | RSweep => production_sweep (Some ServerRepository_dead) (Some ZoneRepository_owner) cfg te.1 wf
  end.

Definition room_run (cfg : SweeperConfig) : world * option WatcherFanout → list (Time * room_event) → world * option WatcherFanout :=
  foldl (room_step cfg).

Definition sweep_times (tr : list (Time * room_event)) : list Time :=
  omap (λ te, match te.2 with RSweep => Some te.1 | _ => None end) tr.

(** The ticks of a ticker started at [t0]. *)
Definition ticker (interval : Duration) (t0 : Time) (n : nat) : list Time :=
  (λ k, t0 + (Z.of_nat k + 1) * interval) <$> seq 0 n.

(** A server is heard of: each sweep is preceded by one of its heartbeats, at
    most [since] earlier. *)
Definition heard (s : ServerID) (since : Duration) (tr : list (Time * room_event)) : Prop :=
  ∀ pre u post, tr = pre ++ (u, RSweep) :: post → ∃ b, (b, RHeartbeat s) ∈ pre ∧ u ≤ b + since.

(** The threshold as the query sees it: its whole seconds. *)
Definition miss (cfg : SweeperConfig) : Duration := Z.quot (MissThreshold cfg) Second * Second.

Implicit Types (t : tables) (f : option WatcherFanout) (tr : list (Time * room_event)).

(** ** Frames *)

(** Calls that only register or beat touch one row; look-ups give owners to
    zones that have none. *)
Lemma repo_Claim_db z r s t :
  ∃ res t', repo_Claim z r s (mkWorld t []) = (res, mkWorld t' []) ∧ game_servers t' = game_servers t ∧
    ∀ z' o, owner_of t z' = Some o → owner_of t' z' = Some o.
Proof.
  unfold repo_Claim. rewrite stmt_nil. unfold update_claim.
  destruct (zones t !! z) as [row|] eqn:Ez; [destruct (server_id row) as [o|] eqn:Eo; [|destruct (game_servers t !! s) eqn:Es]|];
    cbn [fst snd].
  - rewrite query_nil. unfold select_owner. rewrite Ez. cbn. rewrite Eo. case_bool_decide; by eexists _, t.
  - eexists _, _. split; [done|]. split; [done|]. intros z' o Ho. rewrite owner_of_insert. case_decide as Hz; [|done].
    subst z'. unfold owner_of in Ho. rewrite Ez in Ho. cbn in Ho. congruence.
  - by eexists _, t.
  - rewrite query_nil. unfold select_owner. rewrite Ez. by eexists _, t.
Qed.

Lemma assign_zone_frame z t :
  ∃ res t', assign_zone z (mkWorld t []) = (res, mkWorld t' []) ∧ game_servers t' = game_servers t ∧
    ∀ z' o, owner_of t z' = Some o → owner_of t' z' = Some o.
Proof.
  unfold assign_zone. cbn [ss_List ServerRepository]. unfold repo_List. rewrite query_nil.
  destruct (_ <$> active_rows t) as [|n ns]; [by eexists _, t|].
  destruct (allocate _) as [server|e]; [|by eexists _, t].
  cbn [zs_Claim ZoneRepository]. destruct (repo_Claim_db z "" (NodeID server) t) as (res & t' & -> & H1 & H2).
  destruct res; by eexists _, t'.
Qed.

Lemma LookupZone_frame z now t :
  ∃ res t', LookupZone z now (mkWorld t []) = (res, mkWorld t' []) ∧ game_servers t' = game_servers t ∧
    ∀ z' o, owner_of t z' = Some o → owner_of t' z' = Some o.
Proof.
  unfold LookupZone. cbn [zs_Lookup ZoneRepository]. unfold repo_Lookup. rewrite query_nil.
  destruct (select_owner z t) as [[o|]|]; [|apply assign_zone_frame|apply assign_zone_frame].
  case_bool_decide; [apply assign_zone_frame|]. cbn [ss_Get ServerRepository]. unfold repo_Get. rewrite query_nil.
  destruct (game_servers t !! o); [by eexists _, t|apply assign_zone_frame].
Qed.

Lemma beat_frame id now t :
  ∃ res t', beat id now (mkWorld t []) = (res, mkWorld t' []) ∧ zones t' = zones t ∧
    game_servers t' = alter (λ r, r <| sStatus := "active" |> <| last_heartbeat := now |>) id (game_servers t).
Proof.
  unfold beat, svc_Heartbeat. cbn [ss_Heartbeat ServerRepository]. unfold repo_Heartbeat. rewrite stmt_nil. unfold update_server.
  destruct (game_servers t !! id) as [row|] eqn:E; cbn [fst snd]; eexists _, _; (split; [reflexivity|]); (split; [done|]); cbn.
  - apply map_eq. intros i. destruct (decide (i = id)) as [->|Hne].
    + by rewrite lookup_insert_eq, lookup_alter_eq, E.
    + by rewrite lookup_insert_ne, lookup_alter_ne.
  - symmetry. apply map_eq. intros i. destruct (decide (i = id)) as [->|Hne]; [by rewrite lookup_alter_eq, E|by rewrite lookup_alter_ne].
Qed.

(** A registration under a known identifier keeps its status and heartbeat. *)
Lemma join_frame id host port now t :
  ∃ res t', Cluster.join id host port now (mkWorld t []) = (res, mkWorld t' []) ∧ zones t' = zones t ∧
    ∀ s row, game_servers t !! s = Some row →
      ∃ row', game_servers t' !! s = Some row' ∧ sStatus row' = sStatus row ∧ last_heartbeat row' = last_heartbeat row.
Proof.
  unfold Cluster.join, svc_Register. cbn [ss_Register ServerRepository]. unfold repo_Register. rewrite stmt_nil. cbn [fst snd].
  eexists _, _. split; [reflexivity|]. unfold insert_server. cbn [NodeID]. split; [done|]. intros s row Hs. cbn.
  destruct (decide (s = id)) as [->|Hne]; [|rewrite lookup_insert_ne by done; by exists row].
  rewrite lookup_insert_eq, Hs. by eexists.
Qed.

(** ** Before the deciding sweep *)

(** [d] was last heard of at [T] and [s] sends heartbeats; [pre] has happened
    since the tables were [t], and they are now [t1]. *)
Record watching (T : Time) (d s : ServerID) t (pre : list (Time * room_event)) t1 : Prop := {
  wa_silent : ∃ r, game_servers t1 !! d = Some r ∧ sStatus r = "active" ∧ last_heartbeat r = T;
  wa_zones : ∀ z, owner_of t z = Some d → owner_of t1 z = Some d;
  wa_known : is_Some (game_servers t1 !! s);
  wa_heard : ∀ b, (b, RHeartbeat s) ∈ pre →
    ∃ r, game_servers t1 !! s = Some r ∧ sStatus r = "active" ∧ b ≤ last_heartbeat r
}.

Lemma alive_not_dead cfg now t s r :
  game_servers t !! s = Some r → now ≤ last_heartbeat r + miss cfg → s ∉ dead_rows (MissThreshold cfg) now t.
Proof.
  intros Hs Hn. rewrite elem_of_dead_rows. intros (r' & ? & Hd). simplify_eq. unfold is_dead in Hd.
  apply andb_true_iff in Hd as [_ Hd%Z.ltb_lt]. unfold miss in Hn. lia.
Qed.

Lemma silent_dead cfg now t s r :
  game_servers t !! s = Some r → sStatus r = "active" → last_heartbeat r + miss cfg < now →
  s ∈ dead_rows (MissThreshold cfg) now t.
Proof.
  intros Hs Ha Hn. apply elem_of_dead_rows. exists r. split; [done|]. unfold is_dead.
  rewrite bool_decide_true by done. unfold miss in Hn. cbn. apply Z.ltb_lt. lia.
Qed.

(** A sweep leaves the zones of the servers that are not dead alone. *)
Lemma sweep_zone_frame cfg now t f t' f' z :
  production_sweep (Some ServerRepository_dead) (Some ZoneRepository_owner) cfg now (mkWorld t [], f) = (mkWorld t' [], f') →
  (∀ d, owner_of t z = Some d → d ∉ dead_rows (MissThreshold cfg) now t) → owner_of t' z = owner_of t z.
Proof.
  intros E Hz. pose proof (production_sweep_frame cfg now (mkWorld t []) f z) as Hfr. rewrite E in Hfr.
  apply Hfr; [by constructor|]. intros dead i. cbn [ListDead ServerRepository_dead]. unfold repo_ListDead.
  rewrite query_nil. cbn. intros [= <-] Hi Ho. by eapply Hz.
Qed.

(** The heartbeat that precedes a sweep makes [s] a live server there. *)
Lemma watching_live cfg T d s t pre t1 now :
  watching T d s t pre t1 → (∃ b, (b, RHeartbeat s) ∈ pre ∧ now ≤ b + miss cfg) →
  ∃ r, game_servers t1 !! s = Some r ∧ sStatus r = "active" ∧ now ≤ last_heartbeat r + miss cfg.
Proof.
  intros [_ _ _ W4] (b & Hb & Hn). destruct (W4 b Hb) as (r & Hr & Ha & Hlb). exists r. split_and!; [done|done|lia].
Qed.

Lemma watching_rows T d s t pre t1 te t2 :
  watching T d s t pre t1 → (∀ z, owner_of t1 z = Some d → owner_of t2 z = Some d) → te.2 ≠ RHeartbeat s →
  (∀ i r, i ∈ [d; s] → game_servers t1 !! i = Some r →
     ∃ r', game_servers t2 !! i = Some r' ∧ sStatus r' = sStatus r ∧ last_heartbeat r' = last_heartbeat r) →
  watching T d s t (pre ++ [te]) t2.
Proof.
  intros [(rd & Hd & Ha & Hl) W2 [rs Hs] W4] Hz Hte Hr. split.
  - destruct (Hr d rd) as (r' & ? & ? & ?); [set_solver|done|]. exists r'. split_and!; congruence.
  - auto.
  - destruct (Hr s rs) as (r' & ? & _); [set_solver|done|by eauto].
  - intros b [Hb|Hb%list_elem_of_singleton]%elem_of_app; [|by subst te].
    destruct (W4 b Hb) as (r & Hsr & ? & ?). destruct (Hr s r) as (r' & ? & ? & ?); [set_solver|done|].
    exists r'. split_and!; [done|congruence|lia].
Qed.

Lemma watching_step cfg T d s t pre t1 f1 te :
  s ≠ d → watching T d s t pre t1 → te.2 ≠ RHeartbeat d →
  (∀ b, (b, RHeartbeat s) ∈ pre → b ≤ te.1) →
  (te.2 = RSweep → te.1 ≤ T + miss cfg ∧ ∃ b, (b, RHeartbeat s) ∈ pre ∧ te.1 ≤ b + miss cfg) →
  ∃ t2 f2, room_step cfg (mkWorld t1 [], f1) te = (mkWorld t2 [], f2) ∧ watching T d s t (pre ++ [te]) t2.
Proof.
  intros Hsd W Hte Hsort Hsw. destruct te as [now [id|id host port|z|]]; cbn [fst snd] in *; unfold room_step; cbn [fst snd].
  - destruct (beat_frame id now t1) as (res & t2 & -> & Hz & Hg). exists t2, f1. split; [done|].
    assert (id ≠ d) as Hid by congruence. destruct (decide (id = s)) as [->|Hne].
    + destruct W as [(rd & Hd & ?) W2 [rs Hs] W4].
      set (rs' := rs <| sStatus := "active" |> <| last_heartbeat := now |>).
      assert (game_servers t2 !! s = Some rs') as Hs2 by (by rewrite Hg, lookup_alter_eq, Hs). split.
      * exists rd. by rewrite Hg, lookup_alter_ne.
      * unfold owner_of. by rewrite Hz.
      * by eauto.
      * intros b Hb. exists rs'. split_and!; [done|done|]. cbn.
        apply elem_of_app in Hb as [Hb|Hb%list_elem_of_singleton]; [by apply Hsort|injection Hb; lia].
    + apply (watching_rows _ _ _ _ _ t1); [done|unfold owner_of; by rewrite Hz|cbn; congruence|].
      intros i r Hi Hr. exists r. rewrite Hg, lookup_alter_ne; [done|]. intros <-. set_solver.
  - destruct (join_frame id host port now t1) as (res & t2 & -> & Hz & Hg). exists t2, f1. split; [done|].
    apply (watching_rows _ _ _ _ _ t1); [done|unfold owner_of; by rewrite Hz|done|]. intros i r _. apply Hg.
  - destruct (LookupZone_frame z now t1) as (res & t2 & -> & Hg & Hz). exists t2, f1. split; [done|].
    apply (watching_rows _ _ _ _ _ t1); [done|by eauto|done|]. intros i r _ Hr. exists r. by rewrite Hg.
  - destruct (Hsw eq_refl) as [Hn Hb]. destruct (watching_live cfg _ _ _ _ _ _ now W Hb) as (rs & Hs & Ha & Hl).
    destruct (wa_silent _ _ _ _ _ _ W) as (rd & Hd & Had & HT).
    assert (s ∉ dead_rows (MissThreshold cfg) now t1) as Hs1 by by eapply alive_not_dead.
    assert (d ∉ dead_rows (MissThreshold cfg) now t1) as Hd1 by (eapply alive_not_dead; [done|lia]).
    destruct (production_sweep_full cfg now t1 f1) as (t2 & f2 & E & Hlive & _ & _).
    { exists s, rs. split_and!; [done|done|]. unfold is_dead. rewrite bool_decide_true by done. cbn. unfold miss in Hl. apply Z.ltb_ge. lia. }
    rewrite E. exists t2, f2. split; [done|]. apply (watching_rows _ _ _ _ _ t1); [done| |done|].
    + intros z Hz. rewrite (sweep_zone_frame cfg now t1 f1 t2 f2 z E); [done|]. congruence.
    + intros i r Hi Hr. exists r. split; [|done]. apply Hlive; [done|]. set_solver.
Qed.
(** Up to any point before the first sweep that finds [d] silent for too long. *)
Lemma watching_run cfg T d s t f tr :
  s ≠ d → watching T d s t [] t → StronglySorted Z.le tr.*1 → (∀ b, (b, RHeartbeat d) ∉ tr) →
  heard s (miss cfg) tr → (∀ u, u ∈ sweep_times tr → u ≤ T + miss cfg) →
  ∃ t1 f1, room_run cfg (mkWorld t [], f) tr = (mkWorld t1 [], f1) ∧ watching T d s t tr t1.
Proof.
  intros Hsd W. induction tr as [|te tr IH] using rev_ind; intros Hsort Hno Hh Hsw; [by exists t, f|].
  rewrite fmap_app in Hsort. destruct IH as (t1 & f1 & E & W1).
  - by apply StronglySorted_app_1_l in Hsort.
  - intros b Hb. apply (Hno b). set_solver.
  - intros pre u post ->. apply (Hh pre u (post ++ [te])). by rewrite <-app_assoc.
  - intros u Hu. apply Hsw. unfold sweep_times. rewrite omap_app. set_solver.
  - destruct (watching_step cfg T d s t tr t1 f1 te) as (t2 & f2 & E2 & W2); [done|done| | | |].
    + intros He. apply (Hno te.1). rewrite <-He, <-surjective_pairing. set_solver.
    + intros b Hb. apply (StronglySorted_app_1_elem_of _ _ _ _ _ Hsort); [|by left].
      apply list_elem_of_fmap. by exists (b, RHeartbeat s).
    + intros He. split.
      * apply Hsw. unfold sweep_times. rewrite omap_app. apply elem_of_app. right. cbn. rewrite He. by left.
      * apply (Hh tr te.1 []). by rewrite <-He, <-surjective_pairing.
    + exists t2, f2. split; [|done]. unfold room_run. rewrite foldl_app. unfold room_run in E. by rewrite E.
Qed.

(** ** The deciding sweep *)

Lemma sweep_times_app tr tr' : sweep_times (tr ++ tr') = sweep_times tr ++ sweep_times tr'.
Proof. apply omap_app. Qed.

Lemma sweep_split tr u : u ∈ sweep_times tr → ∃ pre post, tr = pre ++ (u, RSweep) :: post.
Proof.
  intros ([u' ev] & Hin & He)%list_elem_of_omap. destruct ev; try done. injection He as ->.
  apply list_elem_of_split in Hin as (pre & post & ->). by exists pre, post.
Qed.

Lemma elem_of_ticker i (t0 : Time) n u : u ∈ ticker i t0 n ↔ ∃ k, 1 ≤ k ≤ Z.of_nat n ∧ u = t0 + k * i.
Proof.
  unfold ticker. rewrite list_elem_of_fmap. split.
  - intros (k & -> & Hk%elem_of_seq). exists (Z.of_nat k + 1). split; [lia|done].
  - intros (k & Hk & ->). exists (Z.to_nat (k - 1)). split; [f_equal; f_equal; lia|]. apply elem_of_seq. lia.
Qed.

Lemma ticker_sorted i (t0 : Time) n : 0 < i → StronglySorted Z.lt (ticker i t0 n).
Proof.
  intros Hi. unfold ticker. generalize 0%nat. induction n as [|n IH]; intros m; cbn; [constructor|]. constructor; [apply IH|].
  apply Forall_forall. intros u (k & -> & Hk%elem_of_seq)%list_elem_of_fmap. nia.
Qed.

(** The first tick after [D]: ticks before it are not after [D]. *)
Lemma first_tick i (t0 : Time) n D tr :
  0 < i → sweep_times tr = ticker i t0 n → t0 ≤ D < t0 + Z.of_nat n * i →
  ∃ pre u post, tr = pre ++ (u, RSweep) :: post ∧ D < u ≤ D + i ∧ ∀ u', u' ∈ sweep_times pre → u' ≤ D.
Proof.
  intros Hi Htick HD.
  pose proof (Z.mul_div_le (D - t0) i Hi) as H1. pose proof (Z.mul_succ_div_gt (D - t0) i Hi) as H2.
  pose proof (Z.div_pos (D - t0) i ltac:(lia) Hi) as H3. revert H1 H2 H3. generalize ((D - t0) / i) as q. intros q H1 H2 H3.
  set (k := Z.succ q). assert (t0 + k * i = t0 + i * k) as Hk by lia.
  destruct (sweep_split tr (t0 + k * i)) as (pre & post & ->).
  { rewrite Htick, elem_of_ticker. exists k. split; [|done]. split; [lia|]. unfold k. nia. }
  exists pre, (t0 + k * i), post. split; [done|]. split; [unfold k in *; lia|]. intros u' Hu'.
  assert (u' < t0 + k * i).
  { pose proof (ticker_sorted i t0 n Hi) as Hs. rewrite <-Htick, sweep_times_app in Hs.
    apply (StronglySorted_app_1_elem_of _ _ _ _ _ Hs); [done|]. by left. }
  assert (u' ∈ ticker i t0 n) as (k' & Hk' & ->)%elem_of_ticker by (rewrite <-Htick, sweep_times_app; set_solver).
  assert (k' ≤ q) by (unfold k in *; nia). nia.
Qed.

Lemma deciding_sweep cfg T d s t pre t1 f1 u :
  s ≠ d → watching T d s t pre t1 → T + miss cfg < u → (∃ b, (b, RHeartbeat s) ∈ pre ∧ u ≤ b + miss cfg) →
  ∃ t2 f2, room_step cfg (mkWorld t1 [], f1) (u, RSweep) = (mkWorld t2 [], f2) ∧ ¬ active t2 d ∧
    (∀ z, owner_of t2 z ≠ Some d) ∧
    ∀ z, owner_of t z = Some d → ∃ s', owner_of t2 z = Some s' ∧ active t2 s'.
Proof.
  intros Hsd W Hu Hb. destruct (watching_live cfg _ _ _ _ _ _ u W Hb) as (rs & Hs & Ha & Hl).
  destruct W as [(rd & Hd & Had & HT) W2 _ _].
  assert (d ∈ dead_rows (MissThreshold cfg) u t1) as Hdead by (eapply silent_dead; [done|done|lia]).
  destruct (production_sweep_full cfg u t1 f1) as (t2 & f2 & E & _ & Hsh & Hz).
  { exists s, rs. split_and!; [done|done|]. unfold is_dead. rewrite bool_decide_true by done. cbn. unfold miss in Hl. apply Z.ltb_ge. lia. }
  exists t2, f2. split; [exact E|]. destruct (Hsh d Hdead) as (r & Hr & Hst). split_and!.
  - intros (r' & Hr' & ?). congruence.
  - intros z Hzd. destruct (owner_of t1 z) as [o|] eqn:Eo; [destruct (decide (o ∈ dead_rows (MissThreshold cfg) u t1))|].
    + destruct (Hz z o) as (s' & Hs' & _ & Hn); [done|done|]. congruence.
    + rewrite (sweep_zone_frame cfg u t1 f1 t2 f2 z E) in Hzd; congruence.
    + rewrite (sweep_zone_frame cfg u t1 f1 t2 f2 z E) in Hzd; congruence.
  - intros z Ho. destruct (Hz z d) as (s' & ? & ? & _); [by apply W2|done|]. by exists s'.
Qed.

(** A gateway that asks for [z] is given the address of [s]. *)
Definition routed t (z : string) (s : ServerID) : Prop :=
  s ≠ "" → ∃ row, game_servers t !! s = Some row ∧ ∀ now, (route z now (mkWorld t [])).1 = Ok (host_port row).

Lemma active_routed t z s : owner_of t z = Some s → active t s → routed t z s.
Proof. intros Ho (row & Hrow & _) Hne. exists row. split; [done|]. intros now. by rewrite (route_owned z s row). Qed.

(** C15. The zones of a silent server are taken over in time: while the sweeper
    ticks, a server that is active and last heard of at [T] is declared shut
    down by a sweep at most one interval after its silence exceeded the
    threshold, no zone is left with it then, and the zones it had all have an
    active owner, whatever calls arrive meanwhile, as long as one other server
    keeps sending heartbeats and the database answers.  Until that sweep the
    server counts as active and its zones stay with it.  With the intervals of
    the room service this is within twenty seconds of the last heartbeat.  So
    a gateway that looks up one of the zones is sent to the silent server
    until then, and to the registered address of an active one from then on
    (the empty identifier, which the look-up takes for no owner, aside). *)
Theorem failover_bound (cfg : SweeperConfig) (t0 T : Time) (n : nat) (d s : ServerID) (t : tables) (f : option WatcherFanout)
    (tr : list (Time * room_event)) :
  0 < Interval cfg → t0 ≤ T + miss cfg < t0 + Z.of_nat n * Interval cfg →
  (∃ r, game_servers t !! d = Some r ∧ sStatus r = "active" ∧ last_heartbeat r = T) →
  s ≠ d → is_Some (game_servers t !! s) →
  StronglySorted Z.le tr.*1 → sweep_times tr = ticker (Interval cfg) t0 n →
  (∀ b, (b, RHeartbeat d) ∉ tr) → heard s (miss cfg) tr →
  ∃ pre u post t1 f1 t2 f2, tr = pre ++ (u, RSweep) :: post ∧
    T + miss cfg < u ≤ T + miss cfg + Interval cfg ∧
    room_run cfg (mkWorld t [], f) pre = (mkWorld t1 [], f1) ∧
    (active t1 d ∧ ∀ z, owner_of t z = Some d → owner_of t1 z = Some d ∧ routed t1 z d) ∧
    room_run cfg (mkWorld t [], f) (pre ++ [(u, RSweep)]) = (mkWorld t2 [], f2) ∧
    (¬ active t2 d ∧ (∀ z, owner_of t2 z ≠ Some d) ∧
     ∀ z, owner_of t z = Some d → ∃ s', owner_of t2 z = Some s' ∧ active t2 s' ∧ routed t2 z s').
Proof.
  intros Hi HD Hd Hsd Hs Hsort Htick Hno Hh.
  destruct (first_tick (Interval cfg) t0 n (T + miss cfg) tr Hi Htick HD) as (pre & u & post & -> & Hu & Hpre).
  destruct (watching_run cfg T d s t f pre) as (t1 & f1 & E1 & W); [done| | | | |done|].
  - split; [done|done|done|]. by intros b ?%not_elem_of_nil.
  - rewrite fmap_app in Hsort. by apply StronglySorted_app_1_l in Hsort.
  - intros b Hb. apply (Hno b). set_solver.
  - intros p v q ->. apply (Hh p v (q ++ (u, RSweep) :: post)). by rewrite <-app_assoc.
  - destruct (deciding_sweep cfg T d s t pre t1 f1 u) as (t2 & f2 & E2 & H1 & H2 & H3); [done|done|lia|by eapply Hh|].
    destruct W as [(r & Hr & Ha & _) W2 _ _].
    assert (active t1 d) as Hact by by exists r.
    exists pre, u, post, t1, f1, t2, f2. split_and!; [done|lia|lia|done|done| | |done|done|].
    + intros z Hz. split; [by apply W2|]. by apply active_routed; [apply W2|].
    + unfold room_run in *. rewrite foldl_app, E1. exact E2.
    + intros z Hz. destruct (H3 z Hz) as (s' & Ho & Ha'). exists s'. split_and!; [done|done|by apply active_routed].
Qed.
End failover.

(** [heard], computed: [seen] are the times of the heartbeats so far. *)
Fixpoint heard_b (s : ServerID) (since : Duration) (seen : list Time) (tr : list (Time * room_event)) : bool :=
  match tr with
  | [] => true
  | (u, RSweep) :: tr => existsb (λ b, u <=? b + since) seen && heard_b s since seen tr
  | (b, RHeartbeat i) :: tr => heard_b s since (if bool_decide (i = s) then b :: seen else seen) tr
  | _ :: tr => heard_b s since seen tr
  end.

Lemma heard_b_sound s since seen before tr :
  (∀ b, b ∈ seen → (b, RHeartbeat s) ∈ before) → heard_b s since seen tr = true →
  ∀ pre u post, tr = pre ++ (u, RSweep) :: post → ∃ b, (b, RHeartbeat s) ∈ before ++ pre ∧ u ≤ b + since.
Proof.
  revert seen before. induction tr as [|[v ev] tr IH]; intros seen before Hseen Hb pre u post E; [by destruct pre|].
  destruct pre as [|e pre].
  - injection E as -> -> ->. cbn in Hb. apply andb_true_iff in Hb as [(b & Hin & Hle%Z.leb_le)%existsb_exists _].
    exists b. rewrite app_nil_r. split; [by apply Hseen, list_elem_of_In|done].
  - injection E as <- ->. rewrite (cons_middle (v, ev) before pre), app_assoc.
    destruct ev; cbn in Hb; [|by eapply IH; [|exact Hb|]; set_solver..|apply andb_true_iff in Hb as [_ Hb]; eapply IH; [|exact Hb|done]; set_solver].
    eapply IH; [|exact Hb|done]. intros b Hin. case_bool_decide as Hid; [subst id|set_solver].
    apply elem_of_cons in Hin as [->|Hin]; set_solver.
Qed.

(** ** A sample execution *)

Section sample.
Local Existing Instance canonical_order.
Local Existing Instance LeastLoadedAllocator.

(** [s1] falls silent at 0 s; [s2] beats every 5 s and the sweeper ticks in between. *)
Definition failover_tables : tables :=
  mkTables {["s1" := cluster_row "active" 0; "s2" := cluster_row "active" 0]} {["z1" := mkZRow "r" (Some "s1") "active"]}.
Definition failover_trace : list (Time * room_event) :=
  seq 0 4 ≫= λ k, [(Z.of_nat k * (5 * Second), RHeartbeat "s2"); (Z.of_nat k * (5 * Second), RLookup "z1");
                   ((Z.of_nat k + 1) * (5 * Second), RSweep)].

Lemma failover_bound_witness :
  ∃ pre u post t2 f2, failover_trace = pre ++ (u, RSweep) :: post ∧ u ≤ 20 * Second ∧
    room_run service_sweeper (mkWorld failover_tables [], None) (pre ++ [(u, RSweep)]) = (mkWorld t2 [], f2) ∧
    ¬ active t2 "s1" ∧ ∃ s, owner_of t2 "z1" = Some s ∧ active t2 s ∧ routed t2 "z1" s.
Proof.
  destruct (failover_bound service_sweeper 0 0 4 "s1" "s2" failover_tables None failover_trace)
    as (pre & u & post & t1 & f1 & t2 & f2 & H1 & H2 & _ & _ & H3 & H4 & _ & H5).
  - vm_compute. reflexivity.
  - vm_compute. split; [discriminate|reflexivity].
  - eexists. split; [reflexivity|]. split; reflexivity.
  - discriminate.
  - by eexists.
  - vm_compute. repeat constructor; discriminate.
  - vm_compute. reflexivity.
  - intros b Hb. vm_compute in Hb. repeat (apply elem_of_cons in Hb as [Hb|Hb]; [discriminate Hb|]). by apply not_elem_of_nil in Hb.
  - intros pre u post. apply (heard_b_sound "s2" (miss service_sweeper) [] [] failover_trace); [|vm_compute; reflexivity].
    intros b Hb. by apply not_elem_of_nil in Hb.
  - exists pre, u, post, t2, f2. split; [exact H1|]. 
    split; [replace (20 * Second) with (0 + miss service_sweeper + Interval service_sweeper) by reflexivity; exact (proj2 H2)|]. split; [exact H3|].
    split; [exact H4|]. by apply H5.
Defined.
End sample.
