(* ===== verification/Gateway.v ===== *)
(** * The gateway

    [internal/gateway] (rate limits, the router cache, the HTTP handlers and
    the client side of the relay), [internal/session] and [internal/auth].

    The JWT library is a parameter; the clock is an argument of the functions
    that read it.  Counters that are Go atomics are fields of the record they
    belong to. *)

From S2P Require Import Prelude GoFloat Types Room.
From stdpp Require Import base tactics list gmap strings.
From Stdlib Require Import ZArith Lia.

Local Open Scope Z_scope.

(** ** Rate limits *)

Record tokenBucket := mkBucket { tokens : float64; rate : float64; burst : float64; lastTime : Time }.

Definition newTokenBucket (rate burst : float64) (now : Time) : tokenBucket := mkBucket burst rate burst now.

Definition bucket_allow (now : Time) (b : tokenBucket) : bool * tokenBucket :=
  let elapsed := seconds (time_sub now (lastTime b)) in
  let t := fadd (tokens b) (fmul elapsed (rate b)) in
  let t := if fltb (burst b) t then burst b else t in
  if fltb t (of_int 1) then (false, mkBucket t (rate b) (burst b) now)
  else (true, mkBucket (fsub t (of_int 1)) (rate b) (burst b) now).

(** A counter of type [uint64]. *)
Definition uint64_inc (n : Z) : Z := (n + 1) `mod` 2 ^ 64.

Record connectionLimiter := mkConnLimiter { cbucket : tokenBucket; cdrops : Z }.

Definition newConnectionLimiter (rate burst : float64) (now : Time) : connectionLimiter :=
  mkConnLimiter (newTokenBucket rate burst now) 0.

Definition conn_allow (now : Time) (l : connectionLimiter) : bool * connectionLimiter :=
  let '(ok, b) := bucket_allow now (cbucket l) in
  (ok, mkConnLimiter b (if ok : bool then cdrops l else uint64_inc (cdrops l))).

Record ipLimiter := mkIPLimiter { buckets : gmap string tokenBucket; iprate : float64; ipburst : float64; ipdrops : Z }.

Definition newIPLimiter (rate burst : float64) : ipLimiter := mkIPLimiter ∅ rate burst 0.

Definition ip_allow (ip : string) (now : Time) (l : ipLimiter) : bool * ipLimiter :=
  let b := default (newTokenBucket (iprate l) (ipburst l) now) (buckets l !! ip) in
  let '(ok, b) := bucket_allow now b in
  (ok, mkIPLimiter (<[ip := b]> (buckets l)) (iprate l) (ipburst l)
         (if ok : bool then ipdrops l else uint64_inc (ipdrops l))).

(** The two limiters a packet passes on its way in ([relayWS]); the result is
    the label of the drop, if it is dropped. *)
Definition admit_packet (clientID : string) (now : Time) (conn : connectionLimiter) (ip : option ipLimiter)
    : option string * connectionLimiter * option ipLimiter :=
  let '(ok, conn) := conn_allow now conn in
  if negb ok then (Some "packets_in_rate", conn, ip)
  else match ip with
       | None => (None, conn, None)
       | Some l =>
           let '(ok, l) := ip_allow clientID now l in
           (if ok : bool then None else Some "packets_in_ip_rate", conn, Some l)
       end.

(** ** The router cache *)

Record CacheEntry := mkCacheEntry { ceServerID : string; ceHost : string; cePort : Z }.
Record cacheItem := mkCacheItem { entry : CacheEntry; ciExpiresAt : Time }.
Record RouterCache := mkCache { ttl : Duration; entries : gmap string cacheItem }.

Definition NewRouterCache (ttl : Duration) : RouterCache := mkCache ttl ∅.

Definition cache_Set (zoneID serverID host : string) (port : Z) (now : Time) (rc : RouterCache) : RouterCache :=
  mkCache (ttl rc) (<[zoneID := mkCacheItem (mkCacheEntry serverID host port) (time_add now (ttl rc))]> (entries rc)).

Definition cache_Invalidate (zoneID : string) (rc : RouterCache) : RouterCache :=
  mkCache (ttl rc) (delete zoneID (entries rc)).

Definition ApplyChange (c : OwnershipChange) (now : Time) (rc : RouterCache) : RouterCache :=
  cache_Set (cZoneId c) (cServerId c) (cHost c) (cPort c) now rc.

Definition cache_Get (zoneID : string) (now : Time) (rc : RouterCache) : option CacheEntry * RouterCache :=
  match entries rc !! zoneID with
  | None => (None, rc)
  | Some item =>
      if time_after now (ciExpiresAt item) then (None, cache_Invalidate zoneID rc)
      else (Some (entry item), rc)
  end.

(** ** Sessions *)

Record Session := mkSess { ClientID_ : string; PlayerID_ : string; sZoneID : ZoneID; sServerID : ServerID; Closed : bool }.

Definition NewSession (clientID playerID : string) (zoneID : ZoneID) (serverID : ServerID) : Session :=
  mkSess clientID playerID zoneID serverID false.
Definition sess_Close (s : Session) : Session := mkSess (ClientID_ s) (PlayerID_ s) (sZoneID s) (sServerID s) true.

Abbreviation Pool := (gmap string Session).
Definition pool_Add (s : Session) (p : Pool) : Pool := <[ClientID_ s := s]> p.
Definition pool_Get (clientID : string) (p : Pool) : option Session := p !! clientID.
Definition pool_Remove (clientID : string) (p : Pool) : Pool := delete clientID p.
Definition pool_Count (p : Pool) : nat := size p.

(** ** Authentication *)

(** JSON values, as far as the claims are read. *)
Inductive json := JString (s : string) | JOther.

Record Token := mkToken { method_hmac : bool; method_ed25519 : bool; algHeader : string; mapClaims : option (gmap string json); Valid : bool }.

(** [jwt.Parse]: it reads the header, asks the key function for the key and
    verifies the signature. *)
Class Jwt := {
  Key : Type;
  secret_key : list Byte.byte → Key;
  jwt_parse : string → (Token → result error Key) → result error Token;
  (** the signature of a token string verifies under a key *)
  signed : string → Key → Prop
}.

Class JwtLaws (J : Jwt) : Prop := {
  jwt_parse_checked : ∀ s keyfunc tok, jwt_parse s keyfunc = Ok tok →
    ∃ key, keyfunc tok = Ok key ∧ signed s key
}.

Record Claims := mkClaims { cRuntimeID : string; cPlayerID : string; cZoneID : string }.

Definition getString (claims : gmap string json) (key : string) : string :=
  match claims !! key with Some (JString s) => s | _ => "" end.

Section auth.
Context `{J : Jwt}.

Definition hmac_keyfunc (secret : list Byte.byte) (t : Token) : result error Key :=
  if negb (method_hmac t) then Err (Other ("unexpected signing method: " +:+ algHeader t)) else Ok (secret_key secret).

Definition ValidateToken (tokenStr : string) (secret : list Byte.byte) : result error Claims :=
  match jwt_parse tokenStr (hmac_keyfunc secret) with
  | Err e => Err (Wrapped "parse token" e)
  | Ok token =>
      match mapClaims token with
      | Some claims =>
          if Valid token
          then Ok (mkClaims (getString claims "runtime_id") (getString claims "player_id") (getString claims "zone_id"))
          else Err (Other "invalid token claims")
      | None => Err (Other "invalid token claims")
      end
  end.

(** *** JWKS *)

Record jwk := mkJwk { Kid : string; Kty : string; Crv : string; Alg : string; jX : string }.

Definition ed25519_size : nat := 32.

Record JWKSProvider := mkProvider { pttl : Duration; keys : gmap string (list Byte.byte); fetched : Time }.

Definition NewJWKSProvider (ttl : Duration) : JWKSProvider := mkProvider ttl ∅ zero_time.

(** [b64] is [base64.RawURLEncoding.DecodeString]. *)
Definition usable_key (b64 : string → option (list Byte.byte)) (k : jwk) : option (list Byte.byte) :=
  if negb (bool_decide (Alg k = "EdDSA")) || negb (bool_decide (Crv k = "Ed25519")) then None
  else match b64 (jX k) with
       | Some x => if (length x =? ed25519_size)%nat then Some x else None
       | None => None
       end.

(** [fetch] is the outcome of the HTTP request and of decoding its body. *)
Definition Refresh (b64 : string → option (list Byte.byte)) (fetch : result error (list jwk)) (now : Time)
    (p : JWKSProvider) : option error * JWKSProvider :=
  match fetch with
  | Err e => (Some e, p)
  | Ok body =>
      let ks := foldl (λ m k, match usable_key b64 k with Some x => <[Kid k := x]> m | None => m end) ∅ body in
      (None, mkProvider (pttl p) ks now)
  end.

Definition Verifier (kid : string) (now : Time) (p : JWKSProvider) (t : Token) : result error (list Byte.byte) :=
  if negb (method_ed25519 t)
  then Err (Other ("unexpected signing method " +:+ algHeader t +:+ " (EdDSA required)"))
  else if pttl p <? time_sub now (fetched p) then Err (Other "jwks cache stale past ttl, refusing to verify")
  else match keys p !! kid with
       | None => Err (Other ("unknown kid " +:+ kid))
       | Some k => Ok k
       end.

(** ** The handlers *)

Record Handler := mkHandler {
  jwtSecret : list Byte.byte;
  pool : Pool;
  draining : bool;
  conns : Z;
  softLimit : Z;
  readyFn : option bool;     (* the answer of the readiness callback *)
  activeConnections : Z      (* the gauge *)
}.

Definition NewHandler (secret : list Byte.byte) : Handler := mkHandler secret ∅ false 0 9000 None 0.

Inductive http := StatusOK | BadRequest | Unauthorized | MethodNotAllowed | ServiceUnavailable | Upgraded | NoStatus.
#[export] Instance http_eq_dec : EqDecision http.
Proof. solve_decision. Defined.

Definition handleHealth (get : bool) : http := if get then StatusOK else MethodNotAllowed.
Definition handleLive (get : bool) : http := if get then StatusOK else MethodNotAllowed.

Definition SetDraining (v : bool) (h : Handler) : Handler :=
  mkHandler (jwtSecret h) (pool h) v (conns h) (softLimit h) (readyFn h) (activeConnections h).

Definition handleReady (get : bool) (h : Handler) : http :=
  if negb get then MethodNotAllowed
  else if draining h then ServiceUnavailable
  else if negb (default true (readyFn h)) then ServiceUnavailable
  else if softLimit h <=? conns h then ServiceUnavailable
  else StatusOK.

(** [handleWS]: [lookup] is the answer of the zone lookup, [accepted] whether
    the upgrade succeeds.  The deferred decrements run when the handler
    returns, and the relay goes on in a goroutine of its own: the result
    names the player, the address and the claims it was started with. *)
Definition handleWS (token : string) (lookup : string → option string) (accepted : bool) (h : Handler)
    : http * Handler * option (string * string * Claims) :=
  if draining h then (ServiceUnavailable, h, None)
  else if bool_decide (token = "") then (BadRequest, h, None)
  else match ValidateToken token (jwtSecret h) with
       | Err _ => (Unauthorized, h, None)
       | Ok claims =>
           match lookup (cZoneID claims) with
           | None => (ServiceUnavailable, h, None)
           | Some addr =>
               if negb accepted then (NoStatus, h, None)
               else
                 let sess := NewSession (cPlayerID claims) (cPlayerID claims) (cZoneID claims) "" in
                 (Upgraded,
                  mkHandler (jwtSecret h) (pool_Add sess (pool h)) (draining h) (conns h) (softLimit h)
                    (readyFn h) (activeConnections h),
                  Some (cPlayerID claims, addr, claims))
           end
       end.

(** The end of [relayWS]: its deferred call removes the player's session. *)
Definition relay_ended (clientID : string) (h : Handler) : Handler :=
  mkHandler (jwtSecret h) (pool_Remove clientID (pool h)) (draining h) (conns h) (softLimit h) (readyFn h) (activeConnections h).


End auth.

(** ** The token bucket counts exactly

    At whole seconds the floating-point bucket is an integer bucket. *)

Definition spec_allow (r b gap n : Z) : bool * Z :=
  let n := Z.min b (n + gap * r) in
  if n <? 1 then (false, n) else (true, n - 1).

(** Requests arriving at the given gaps, in seconds. *)
Fixpoint run_bucket (gaps : list Z) (k : tokenBucket) : list bool :=
  match gaps with
  | [] => []
  | gap :: gaps =>
      let '(ok, k') := bucket_allow (time_add (lastTime k) (gap * Second)) k in ok :: run_bucket gaps k'
  end.

Fixpoint run_spec (r b : Z) (gaps : list Z) (n : Z) : list bool :=
  match gaps with
  | [] => []
  | gap :: gaps => let '(ok, n') := spec_allow r b gap n in ok :: run_spec r b gaps n'
  end.

Definition admitted (oks : list bool) : Z := Z.of_nat (length (List.filter (λ ok : bool, ok) oks)).

(** Ranges in which the arithmetic is exact: up to 285 years between requests. *)
Definition gap_ok (gap : Z) : Prop := 0 ≤ gap ≤ 9000000000.
Definition limits_ok (r b : Z) : Prop := 0 ≤ r ≤ 100000 ∧ 0 ≤ b ≤ 1000000.

Lemma seconds_whole gap : gap_ok gap → seconds (gap * Second) = of_int gap.
Proof.
  intros Hg. unfold seconds. unfold gap_ok in Hg. unfold Second, Millisecond.
  rewrite Z.quot_mul, Z.rem_mul by lia.
  change (fdiv (of_int 0) (of_int 1000000000)) with (of_int 0).
  rewrite fadd_exact by (unfold exact; lia). by rewrite Z.add_0_r.
Qed.

Lemma bucket_refines r b gap n t :
  limits_ok r b → gap_ok gap → 0 ≤ n ≤ b →
  let '(ok, n') := spec_allow r b gap n in
  bucket_allow (time_add t (gap * Second)) (mkBucket (of_int n) (of_int r) (of_int b) t) =
    (ok, mkBucket (of_int n') (of_int r) (of_int b) (time_add t (gap * Second))) ∧ 0 ≤ n' ≤ b.
Proof.
  unfold limits_ok. intros [Hr Hb] Hg Hn. pose proof Hg as Hg'. unfold gap_ok in Hg'.
  assert (Hgr : 0 ≤ gap * r ≤ 900000000000000) by nia.
  assert (Ht : time_sub (time_add t (gap * Second)) t = gap * Second).
  { unfold time_add. rewrite time_sub_spec; [lia|]. unfold in_int64, Second, Millisecond. lia. }
  unfold spec_allow, bucket_allow. cbn [tokens rate burst lastTime]. rewrite Ht, seconds_whole by done.
  rewrite fmul_exact, fadd_exact by (unfold exact; lia).
  rewrite fltb_exact by (unfold exact; lia).
  assert (Hmin : (if b <? n + gap * r then of_int b else of_int (n + gap * r)) = of_int (Z.min b (n + gap * r))).
  { destruct (Z.ltb_spec b (n + gap * r)); f_equal; lia. }
  rewrite Hmin. set (m := Z.min b (n + gap * r)). assert (0 ≤ m ≤ b) by (unfold m; lia).
  rewrite fltb_exact by (unfold exact; lia).
  destruct (Z.ltb_spec m 1); [by split|]. rewrite fsub_exact by (unfold exact; lia). split; [done|lia].
Qed.

Lemma run_refines r b gaps n t :
  limits_ok r b → Forall gap_ok gaps → 0 ≤ n ≤ b →
  run_bucket gaps (mkBucket (of_int n) (of_int r) (of_int b) t) = run_spec r b gaps n.
Proof.
  intros Hl Hg. revert n t. induction Hg as [|gap gaps Hgap Hg IH]; intros n t Hn; [done|].
  cbn [run_bucket run_spec lastTime]. pose proof (bucket_refines r b gap n t Hl Hgap Hn) as H.
  destruct (spec_allow r b gap n) as [ok n']. destruct H as [-> Hn']. f_equal. by apply IH.
Qed.

Lemma run_spec_bound r b gaps n :
  0 ≤ r → 0 ≤ n ≤ b → Forall gap_ok gaps → admitted (run_spec r b gaps n) ≤ n + r * foldr Z.add 0 gaps.
Proof.
  intros Hr Hn Hg. revert n Hn. induction Hg as [|gap gaps Hgap Hg IH]; intros n Hn.
  { unfold admitted. cbn. lia. }
  unfold gap_ok in Hgap. assert (0 ≤ gap * r) by nia. cbn [run_spec foldr]. unfold spec_allow.
  rewrite Z.mul_add_distr_l. set (rest := r * foldr Z.add 0 gaps) in *.
  destruct (Z.ltb_spec (Z.min b (n + gap * r)) 1).
  - specialize (IH (Z.min b (n + gap * r)) ltac:(lia)). unfold admitted in *. cbn. lia.
  - specialize (IH (Z.min b (n + gap * r) - 1) ltac:(lia)). unfold admitted in *. cbn. lia.
Qed.

Lemma run_spec_burst r b k n : 0 ≤ n ≤ b → Z.of_nat k ≤ n → run_spec r b (replicate k 0) n = replicate k true.
Proof.
  revert n. induction k as [|k IH]; intros n Hn Hk; [done|]. cbn. unfold spec_allow.
  rewrite Z.min_r by lia. rewrite (proj2 (Z.ltb_ge _ _)) by lia. f_equal. apply IH; lia.
Qed.

(** C33. The rate limit holds: a bucket of rate [r] and burst [b], driven by
    any sequence of requests at whole-second distances, admits at most [b]
    requests plus [r] per second elapsed since its creation, decides exactly
    as an integer bucket would (no drift of the floating-point count), and
    never refuses the first [b] requests of a burst. *)
Theorem rate_limit_bound (r b : Z) (gaps : list Z) (t0 : Time) :
  limits_ok r b → Forall gap_ok gaps →
  let k := newTokenBucket (of_int r) (of_int b) t0 in
  admitted (run_bucket gaps k) ≤ b + r * foldr Z.add 0 gaps ∧
  run_bucket gaps k = run_spec r b gaps b ∧
  (∀ n, Z.of_nat n ≤ b → run_bucket (replicate n 0) k = replicate n true).
Proof.
  intros Hl Hg. cbv zeta. unfold newTokenBucket. pose proof Hl as [Hr Hb].
  assert (∀ n, Forall gap_ok (replicate n 0)) as Hrep.
  { intros n. apply Forall_forall. intros x [-> _]%elem_of_replicate. unfold gap_ok. lia. }
  split_and!.
  - rewrite run_refines by (done || lia). apply run_spec_bound; (done || lia).
  - apply run_refines; (done || lia).
  - intros n Hn. rewrite run_refines by (done || lia). apply run_spec_burst; lia.
Qed.

Lemma rate_limit_bound_witness :
  admitted (run_bucket [0; 0; 0; 1; 0; 0] (newTokenBucket (of_int 1) (of_int 2) 5)) ≤ 2 + 1 * 1 ∧
  run_bucket [0; 0; 0; 1; 0; 0] (newTokenBucket (of_int 1) (of_int 2) 5) = [true; true; false; true; false; false].
Proof.
  destruct (rate_limit_bound 1 2 [0; 0; 0; 1; 0; 0] 5) as (H1 & H2 & _).
  - unfold limits_ok. lia.
  - repeat constructor; unfold gap_ok; lia.
  - split; [exact H1|]. rewrite H2. reflexivity.
Defined.

(** A verifier that accepts one token. *)
Definition sample_jwt : Jwt := {|
  Key := nat;
  secret_key := length;
  jwt_parse := λ s kf,
    let tok := mkToken (bool_decide (s = "good")) false "HS256"
                 (Some {["player_id" := JString "alice"; "zone_id" := JString "z1"]}) true in
    match kf tok with
    | Ok k => if bool_decide (s = "good" ∧ k = 1%nat) then Ok tok else Err (Other "signature is invalid")
    | Err e => Err e
    end;
  signed := λ s k, s = "good" ∧ k = 1%nat
|}.

#[export] Instance sample_jwt_laws : JwtLaws sample_jwt.
Proof.
  split. intros s kf tok. cbn. destruct (kf _) as [k|e] eqn:E; [|done].
  match goal with |- (if ?b then _ else _) = _ → _ => destruct b eqn:Eb end; [|done].
  apply bool_decide_eq_true in Eb. intros [= <-]. exists k. by split.
Qed.

