(* ===== verification/GameServer.v ===== *)
(** * The game server process

    [apps/game-server]: the per-client send queues and their registry, the
    relay stream, the RPCs of a neighbouring server, the translation of
    runtime events to packets and crash recovery.

    A [clientEntry] is shared by pointer between the registry and the sender
    goroutine of its connection, so entries live in a heap; the goroutines of
    a stream are the functions [relay_recv] (one received packet),
    [sender_step] (one packet sent to the client), [sender_exit] (the end of
    a sender) and [relay_cleanup] (the deferred cleanup of the stream). *)

From S2P Require Import Prelude GoFloat Types Protocol Aoi Entity Game Boundary GameInv GameSpec.
From stdpp Require Import base tactics list gmap strings.
From Stdlib Require Import ZArith Lia.

Local Open Scope Z_scope.

(** ** Send queues *)

Record boundedSendQueue := mkQueue { ch : list (list Byte.byte); capacity : nat; drops : Z }.

Definition newBoundedSendQueue (capacity : nat) : boundedSendQueue := mkQueue [] capacity 0.

Definition inc64 (n : Z) : Z := (n + 1) `mod` 2 ^ 64.

(** The three [select]s of [push]. *)
Definition push (data : list Byte.byte) (q : boundedSendQueue) : boundedSendQueue :=
  if (length (ch q) <? capacity q)%nat then mkQueue (ch q ++ [data]) (capacity q) (drops q)
  else
    let q := match ch q with
             | [] => q
             | _ :: rest => mkQueue rest (capacity q) (inc64 (drops q))
             end in
    if (length (ch q) <? capacity q)%nat then mkQueue (ch q ++ [data]) (capacity q) (drops q)
    else mkQueue (ch q) (capacity q) (inc64 (drops q)).

(** ** The client registry *)

Record clientEntry := mkEntry { q : boundedSendQueue; done_ : bool }.

Record clientRegistry := mkRegistry {
  clients : gmap string loc;
  cheap : gmap loc clientEntry;
  cnext : loc
}.

Definition newClientRegistry : clientRegistry := mkRegistry ∅ ∅ 1%positive.

Definition register_client (id : string) (r : clientRegistry) : loc * clientRegistry :=
  (cnext r, mkRegistry (<[id := cnext r]> (clients r))
              (<[cnext r := mkEntry (newBoundedSendQueue 64) false]> (cheap r)) (Pos.succ (cnext r))).

Definition unregister (id : string) (r : clientRegistry) : clientRegistry :=
  match clients r !! id with
  | Some l => mkRegistry (delete id (clients r)) (alter (λ e, mkEntry (q e) true) l (cheap r)) (cnext r)
  | None => r
  end.

Definition send (id : string) (data : list Byte.byte) (r : clientRegistry) : clientRegistry :=
  match clients r !! id with
  | None => r
  | Some l => mkRegistry (clients r) (alter (λ e, mkEntry (push data (q e)) (done_ e)) l (cheap r)) (cnext r)
  end.

(** ** Wire encoding of runtime events *)

(** [proto.Marshal] for the three messages, and [proto.Unmarshal] on the client. *)
Class Wire := {
  marshal_snapshot : EntitySnapshot → list Byte.byte;
  marshal_id : string → list Byte.byte;
  marshal_update : EntityUpdate → list Byte.byte;
  unmarshal_snapshot : list Byte.byte → option EntitySnapshot;
  unmarshal_id : list Byte.byte → option string;
  unmarshal_move : list Byte.byte → option EntityUpdate
}.

Class WireLaws (M : Wire) : Prop := {
  wire_snapshot : ∀ s, unmarshal_snapshot (marshal_snapshot s) = Some s;
  wire_id : ∀ i, unmarshal_id (marshal_id i) = Some i;
  wire_update : ∀ u, unmarshal_move (marshal_update u) = Some u
}.

Section server.
Context `{GM : GoMath} `{GZ : Gzip} `{GB : Gob} `{CD : Codecs} `{RO : RangeOrder} `{WI : Wire}.

Definition encodeSpawnEvent (evt : Event) : list Byte.byte :=
  Encode PacketIDEntitySpawn
    (marshal_snapshot (mkEntitySnapshot (evEntityID evt) (evType evt) (Some (evPosition evt)))) false 0.
Definition encodeDespawnEvent (id : EntityID) : list Byte.byte :=
  Encode PacketIDEntityDespawn (marshal_id id) false 0.
Definition encodeMoveEvent (id : EntityID) (pos : Vector3) : list Byte.byte :=
  Encode PacketIDEntityMove (marshal_update (mkEntityUpdate id (Some pos))) false 0.

Definition encodeEvent (evt : Event) : list Byte.byte :=
  match evKind evt with
  | EventSpawn => encodeSpawnEvent evt
  | EventDespawn => encodeDespawnEvent (evEntityID evt)
  | EventMove => encodeMoveEvent (evEntityID evt) (evPosition evt)
  | EventState => Encode PacketIDEntityState (evPayload evt) false 0
  end.

(** ** The server *)

Record gameServerServer := mkServer { game : Game; registry_ : clientRegistry; inbox_dropped : Z }.

(** One iteration of the loop over the event channel, and the whole batch
    waiting there. *)
Definition drain_one (s : gameServerServer) : option gameServerServer :=
  match Events (game s) with
  | [] => None
  | evt :: rest =>
      Some (mkServer ((game s) <| Events := rest |>) (send (evObserver evt) (encodeEvent evt) (registry_ s)) (inbox_dropped s))
  end.

Fixpoint drain_events (n : nat) (s : gameServerServer) : gameServerServer :=
  match n with
  | O => s
  | S n => match drain_one s with None => s | Some s => drain_events n s end
  end.
Definition drainEvents (s : gameServerServer) : gameServerServer := drain_events (length (Events (game s))) s.

Record ConnectMeta := mkMeta { mPlayerId : string; mRuntimeId : string; mZoneId : string }.

Inductive Kind :=
| KIND_CONNECT (meta : ConnectMeta)
| KIND_DATA (payload : list Byte.byte)
| KIND_RECONNECT
| KIND_PEER_DISCONNECTED
| KIND_DISCONNECT
| KIND_OTHER.

Record RelayPacket := mkPacket { pClientId : string; pKind : Kind }.

(** One iteration of the receive loop of [Relay]; [owned] are the clients of
    this stream; [None]: the loop is blocked on a full command queue. *)
Definition relay_recv (timer_fires : bool) (now : Time) (pkt : RelayPacket) (s : gameServerServer) (owned : list string)
    : option (gameServerServer * list string) :=
  let id := pClientId pkt in
  match pKind pkt with
  | KIND_CONNECT meta =>
      let '(_, r) := register_client id (registry_ s) in
      let '(p, g) := alloc_entity (Entity.New id "avatar" (mRuntimeId meta)) (game s) in
      g ← EnqueueAddEntity timer_fires p g;
      Some (mkServer g r (inbox_dropped s), owned ++ [id])
  | KIND_DATA payload =>
      if (length (Inbox (game s)) <? InboxBufferSize)%nat
      then Some (mkServer ((game s) <| Inbox ::= λ l, l ++ [mkInbound id payload] |>) (registry_ s) (inbox_dropped s), owned)
      else Some (mkServer (game s) (registry_ s) (inbox_dropped s + 1), owned)
  | KIND_RECONNECT => Some (mkServer (MarkReconnected id (game s)) (registry_ s) (inbox_dropped s), owned)
  | KIND_PEER_DISCONNECTED => Some (mkServer (MarkDisconnected id now (game s)) (registry_ s) (inbox_dropped s), owned)
  | KIND_DISCONNECT =>
      g ← EnqueueRemoveEntity timer_fires id (game s);
      Some (mkServer g (unregister id (registry_ s)) (inbox_dropped s), owned)
  | KIND_OTHER => Some (s, owned)
  end.

(** The deferred [unregister] of a sender goroutine. *)
Definition sender_exit (id : string) (s : gameServerServer) : gameServerServer :=
  mkServer (game s) (unregister id (registry_ s)) (inbox_dropped s).

(** A sender takes a packet from the queue of its entry and sends it on the
    stream; an error ends it. *)
Definition sender_step (id : string) (l : loc) (send_fails : bool) (s : gameServerServer)
    : option (list Byte.byte * gameServerServer) :=
  e ← cheap (registry_ s) !! l;
  match ch (q e) with
  | [] => None
  | data :: rest =>
      let e' := mkEntry (mkQueue rest (capacity (q e)) (drops (q e))) (done_ e) in
      let s' := mkServer (game s) (mkRegistry (clients (registry_ s)) (<[l := e']> (cheap (registry_ s))) (cnext (registry_ s)))
                         (inbox_dropped s) in
      Some (data, if send_fails then sender_exit id s' else s')
  end.

(** The deferred cleanup of a stream. *)
Definition relay_cleanup (timer_fires : bool) (owned : list string) (s : gameServerServer) : option gameServerServer :=
  fold_option (λ s id,
    g ← EnqueueRemoveEntity timer_fires id (game s);
    Some (mkServer g (unregister id (registry_ s)) (inbox_dropped s))) s owned.

(** *** RPCs *)

Definition rpc_AssignZone (zoneId runtimeId : string) (gridX gridY : Z) (size : float64) (s : gameServerServer)
    : bool * gameServerServer :=
  match AssignZone (Zone.New zoneId runtimeId gridX gridY size) (game s) with
  | Err _ => (false, s)
  | Ok g => (true, mkServer g (registry_ s) (inbox_dropped s))
  end.

Definition rpc_ReleaseZone (zoneId : string) (s : gameServerServer) : bool * gameServerServer :=
  match ReleaseZone zoneId (game s) with
  | Err _ => (false, s)
  | Ok g => (true, mkServer g (registry_ s) (inbox_dropped s))
  end.

(** One zone is queried: the first the iteration over the map yields. *)
Definition rpc_QueryEntities (gridX gridY : Z) (radius : float64) (s : gameServerServer) : list EntitySnapshot :=
  match (range_list (Zones (game s))).*1 with
  | [] => []
  | zid :: _ => QueryLocal zid gridX gridY radius (game s)
  end.

Definition on_game (f : Game → Game) (s : gameServerServer) : gameServerServer :=
  mkServer (f (game s)) (registry_ s) (inbox_dropped s).

Definition NotifyEntityEnter (zoneId entityId : string) (pos : option Vector3) (now : Time) (s : gameServerServer) : gameServerServer :=
  on_game (ApplyEntityEnter zoneId entityId "" (default zero_vec pos) now) s.

Definition NotifyEntityLeave (zoneId entityId : string) (s : gameServerServer) : gameServerServer :=
  on_game (ApplyEntityLeave zoneId entityId) s.

Definition SendEntityUpdate (entityId : string) (pos : option Vector3) (now : Time) (s : gameServerServer) : bool * gameServerServer :=
  match pos with
  | None => (false, s)
  | Some v => (true, on_game (λ g, ApplyEntityUpdate (ZoneOf entityId g) entityId v now g) s)
  end.

Definition MigrateEntity (snap : EntitySnapshot) (targetZone : string) (s : gameServerServer) : gameServerServer :=
  on_game (MigrateEntityIn snap targetZone) s.

Definition ZoneStateSync (snaps : list ZoneSnapshot) (s : gameServerServer) : gameServerServer :=
  foldl (λ s snap, on_game (LoadZoneSnapshot snap) s) s snaps.

(** ** Recovery and seeding *)

Record NPCSpec := mkSpec { npcType : string; npcBehavior : string; npcPosition : Vector3; npcWaypoints : list Vector3; npcRadius : float64 }.

Definition newBehaviorFor (spec : NPCSpec) : Behavior :=
  if bool_decide (npcBehavior spec = "patrol") then Patrol (mkPatrol (of_int 10) (npcWaypoints spec) 0)
  else if bool_decide (npcBehavior spec = "wander")
       then Wander (mkWander _ (npcPosition spec) (npcRadius spec) (of_int 10) None zero_vec 0)
       else Idle (mkIdle Entity.half (of_int 2) fzero).

(** A recovered row; [spec] is the literal of the source, with no waypoints
    and no radius. *)
Definition entity_of_row (r : SnapshotRow) : Entity :=
  let pos := mkVector3 (rX r) (rY r) (rZ r) in
  Entity.New (rId r) (rType r) ""
    <| Position := pos |>
    <| Attrs ::= <["behavior" := String.list_byte_of_string (rBehavior r)]> |>
    <| eLifecycle := Some (NPCLifecycle (Some (newBehaviorFor (mkSpec "" (rBehavior r) pos [] fzero)))) |>.

Definition hydrateFromSnapshot (data : bytes) (g : Game) : Game :=
  match unjson_rows data with
  | None => g
  | Some rows => foldl (λ g r, let '(p, g) := alloc_entity (entity_of_row r) g in AddEntity p g) g rows
  end.

(** ** Properties *)

(** The packets pushed to a queue, from any state within its capacity. *)
Lemma push_all (ds : list (list Byte.byte)) (k : boundedSendQueue) :
  (0 < capacity k)%nat → (length (ch k) ≤ capacity k)%nat → 0 ≤ drops k < 2 ^ 64 →
  let lost := (length (ch k) + length ds - capacity k)%nat in
  foldl (λ k d, push d k) k ds =
  mkQueue (drop lost (ch k ++ ds)) (capacity k) ((drops k + Z.of_nat lost) `mod` 2 ^ 64).
Proof.
  intros Hc. revert k Hc. induction ds as [|d ds IH]; intros k Hc Hl Hd; cbv zeta; cbn [foldl length].
  { replace (length (ch k) + 0 - capacity k)%nat with 0%nat by lia.
    rewrite drop_0, app_nil_r, Z.add_0_r, Z.mod_small by done. by destruct k. }
  unfold push. destruct (Nat.ltb_spec (length (ch k)) (capacity k)).
  - rewrite IH by (cbn [ch capacity drops]; rewrite ?length_app; cbn; lia).
    cbn [ch capacity drops]. rewrite length_app, <-app_assoc. cbn.
    by replace (length (ch k) + 1 + length ds)%nat with (length (ch k) + S (length ds))%nat by lia.
  - destruct (ch k) as [|x rest] eqn:E; cbn [length] in *; [lia|]. cbn [ch capacity drops].
    rewrite (proj2 (Nat.ltb_lt (length rest) (capacity k))) by lia.
    assert (0 ≤ inc64 (drops k) < 2 ^ 64) by (apply Z.mod_pos_bound; lia).
    rewrite IH by (cbn [ch capacity drops]; rewrite ?length_app; cbn [length]; lia).
    cbn [ch capacity drops]. rewrite length_app, <-app_assoc. cbn [length app].
    replace (S (length rest) + S (length ds) - capacity k)%nat with (S (length rest + 1 + length ds - capacity k)) by lia.
    cbn [drop app]. f_equal. unfold inc64. rewrite Zplus_mod_idemp_l. f_equal. lia.
Qed.

(** Slow clients lose the oldest data only: whatever is pushed to a send
    queue of positive capacity, the queue holds exactly the most recent
    packets in order, as many as fit, so that the latest packet is always
    kept, and the counter tells, modulo 2^64, how many older ones were lost. *)
Theorem push_keeps_newest (cap : nat) (history : list (list Byte.byte)) :
  (0 < cap)%nat →
  let k := foldl (λ k d, push d k) (newBoundedSendQueue cap) history in
  ch k = drop (length history - cap) history ∧
  (length (ch k) ≤ cap)%nat ∧
  drops k = Z.of_nat (length history - cap) `mod` 2 ^ 64 ∧
  (∀ d rest, history = rest ++ [d] → last (ch k) = Some d).
Proof.
  intros Hc. cbv zeta. rewrite push_all by (cbn; lia). cbn. split_and!; [done|rewrite length_drop; lia|done|].
  intros d rest ->. rewrite length_app. cbn [length]. rewrite drop_app_le by lia. by rewrite last_snoc.
Qed.

Lemma decode_event id payload :
  0 ≤ id < 2 ^ 16 → Decode (Encode id payload false 0) = (ProtocolVersionV1, id, payload, false, 0, None).
Proof. intros Hid. by apply Decode_Encode_plain. Qed.

(** What a client reads from a packet. *)
Inductive ClientEvent :=
| SawSpawn (id : EntityID) (typ : string) (pos : Vector3)
| SawDespawn (id : EntityID)
| SawMove (id : EntityID) (pos : Vector3)
| SawState (payload : list Byte.byte).

Definition client_read (data : list Byte.byte) : option ClientEvent :=
  match Decode data with
  | (_, id, payload, _, _, None) =>
      if id =? PacketIDEntitySpawn then
        s ← unmarshal_snapshot payload; Some (SawSpawn (snEntityId s) (snType s) (default zero_vec (snPosition s)))
      else if id =? PacketIDEntityDespawn then i ← unmarshal_id payload; Some (SawDespawn i)
      else if id =? PacketIDEntityMove then
        u ← unmarshal_move payload; Some (SawMove (uEntityId u) (default zero_vec (uPosition u)))
      else if id =? PacketIDEntityState then Some (SawState payload)
      else None
  | _ => None
  end.

(** The wire format is faithful: a client that decodes the packet of any
    runtime event recovers the kind of the event, its subject, and its type
    and position (spawn), its position (move) or the opaque payload
    unchanged (state). *)
Theorem event_roundtrip `{!WireLaws WI} (evt : Event) :
  client_read (encodeEvent evt) =
  Some (match evKind evt with
        | EventSpawn => SawSpawn (evEntityID evt) (evType evt) (evPosition evt)
        | EventDespawn => SawDespawn (evEntityID evt)
        | EventMove => SawMove (evEntityID evt) (evPosition evt)
        | EventState => SawState (evPayload evt)
        end).
Proof.
  unfold client_read, encodeEvent, encodeSpawnEvent, encodeDespawnEvent, encodeMoveEvent.
  destruct (evKind evt); rewrite decode_event by done; cbn;
    rewrite ?wire_snapshot, ?wire_id, ?wire_update; done.
Qed.

(** A reconnecting client is cut off by its old connection: when a
    client connects again, on any stream, before the sender of its previous
    connection has ended, both connects register it; the end of the old
    sender then unregisters and closes the new entry while the game keeps the
    client's entity, and everything published to the client afterwards is
    discarded. *)
Theorem old_sender_closes_new (id : string) (rt1 rt2 : ConnectMeta) (t1 t2 : bool) (now1 now2 : Time)
    (s s1 s2 : gameServerServer) (o1 o1' o2 o2' : list string) :
  relay_recv t1 now1 (mkPacket id (KIND_CONNECT rt1)) s o1 = Some (s1, o1') →
  relay_recv t2 now2 (mkPacket id (KIND_CONNECT rt2)) s1 o2 = Some (s2, o2') →
  ∃ l, clients (registry_ s2) !! id = Some l ∧ (done_ <$> cheap (registry_ s2) !! l) = Some false ∧
    let s3 := sender_exit id s2 in
    game s3 = game s2 ∧ clients (registry_ s3) !! id = None ∧
    (done_ <$> cheap (registry_ s3) !! l) = Some true ∧
    ∀ evt, evObserver evt = id → send (evObserver evt) (encodeEvent evt) (registry_ s3) = registry_ s3.
Proof.
  intros _ H2. unfold relay_recv in H2. cbn in H2. unfold EnqueueAddEntity in H2.
  destruct (enqueueCmd _ _ _ _); simplify_eq/=. eexists.
  rewrite lookup_insert_eq. split; [done|]. rewrite lookup_insert_eq. split; [done|].
  unfold unregister. cbn. rewrite lookup_insert_eq. cbn.
  rewrite lookup_delete_eq, lookup_alter_eq, lookup_insert_eq. split_and!; [done..|].
  intros evt ->. unfold send. cbn. by rewrite lookup_delete_eq.
Qed.
End server.
