(* ===== verification/GameProcess.v ===== *)
(** * The life of a game server process

    [internal/storage/game] (the snapshot table), the start of
    [apps/game-server] (recovery from the latest snapshot or seeding from the
    configuration) and the process as a transition system: relay streams,
    their senders, the event consumer, the tick loop and the RPCs, each an
    atomic step, interleaved in any order.

    The theorems tie the process to the simulation: every step of the process
    is a sequence of steps of [GameSpec], so the properties proved there hold
    in every state the process reaches. *)

From S2P Require Import Prelude GoFloat Types Protocol Aoi Entity Game Boundary GameInv GameSpec GameView Migration GameServer.
From stdpp Require Import base tactics list gmap strings relations.
From Stdlib Require Import ZArith Lia.

Local Open Scope Z_scope.
#[local] Opaque cmdChannelBuffer maxPacketsPerTick InboxBufferSize.

(** ** The table [zone_state] *)

Record StateRow := mkStateRow {
  stZone : string; stRuntime : string; stSnapshot : bytes; stTick : Z; taken_at : Time
}.

(** [runtime_id] references [runtimes]; the key is [(zone_id, taken_at)]. *)
Record snapDB := mkSnapDB { runtimes : gset string; zone_state : list StateRow }.

(** PostgreSQL stores [snapshot] as JSONB: [jsonb] is the text it gives back,
    [None] for what it rejects.  [exact_row] are the rows JSON and JSONB
    represent exactly: strings of valid UTF-8 without U+0000 and coordinates
    other than negative zero, which JSONB stores as zero. *)
Class Jsonb := { jsonb : bytes → option bytes; exact_row : SnapshotRow → Prop }.
Class JsonbLaws `{Codecs} (J : Jsonb) : Prop :=
  json_back : ∀ rows d d', Forall exact_row rows → json_rows rows = Some d → jsonb d = Some d' →
    unjson_rows d' = Some rows.

Definition ErrNoSnapshot : error := Other "no snapshot".

Section store.
Context `{JB : Jsonb}.

(** [fault]: the statement fails (connection, timeout). *)
Definition Save (fault : bool) (zoneID runtimeID : string) (snapshot : bytes) (tick : Z) (now : Time) (db : snapDB)
    : option error * snapDB :=
  let failed := (Some (Wrapped ("save snapshot " +:+ zoneID) (Other "database error")), db) in
  if fault then failed
  else match jsonb snapshot with
       | None => failed
       | Some s =>
           if bool_decide (runtimeID ∉ runtimes db) then failed
           else if existsb (λ r, bool_decide (stZone r = zoneID) && (taken_at r =? now)) (zone_state db) then failed
           else (None, mkSnapDB (runtimes db) (zone_state db ++ [mkStateRow zoneID runtimeID s tick now]))
       end.

(** [ORDER BY taken_at DESC LIMIT 1]: the times of a zone's rows are distinct. *)
Definition newer (zoneID : string) (best : option StateRow) (r : StateRow) : option StateRow :=
  if bool_decide (stZone r = zoneID)
  then match best with
       | Some b => if taken_at b <? taken_at r then Some r else Some b
       | None => Some r
       end
  else best.

Definition Latest (fault : bool) (zoneID : ZoneID) (db : snapDB) : result error (bytes * Z) :=
  if fault then Err (Wrapped ("latest snapshot " +:+ zoneID) (Other "database error"))
  else match foldl (newer zoneID) None (zone_state db) with
       | None => Err (Wrapped ("snapshot " +:+ zoneID) ErrNoSnapshot)
       | Some r => Ok (stSnapshot r, stTick r)
       end.

(** [snapshotAdapter.Save] drops the error. *)
Definition snapshotAdapter_Save (runtime : string) (fault : bool) (now : Time) (w : ZoneID * bytes * Z) (db : snapDB) : snapDB :=
  (Save fault w.1.1 runtime w.1.2 w.2 now db).2.
End store.

(** ** Start of the process *)

Section process.
Context `{GM : GoMath} `{GZ : Gzip} `{GB : Gob} `{CD : Codecs} `{RO : RangeOrder} `{WI : Wire} `{JB : Jsonb}.

(** An NPC of the configuration, under a generated identifier. *)
Definition seed_npc (id : EntityID) (spec : NPCSpec) (g : Game) : Game :=
  let npc := Entity.New id (npcType spec) ""
    <| Position := npcPosition spec |>
    <| Attrs ::= <["behavior" := String.list_byte_of_string (npcBehavior spec)]> |>
    <| eLifecycle := Some (NPCLifecycle (Some (newBehaviorFor spec))) |> in
  let '(p, g) := alloc_entity npc g in AddEntity p g.

Definition recovery_zone (serverID : ServerID) : ZoneID := serverID +:+ "-z1".

Definition startup (serverID : ServerID) (opts : list Option_) (fault : bool) (db : snapDB)
    (npcs : list (EntityID * NPCSpec)) : Game :=
  let g := Game.New serverID opts in
  match Latest fault (recovery_zone serverID) db with
  | Ok (snap, _) => hydrateFromSnapshot snap g
  | Err _ => foldl (λ g n, seed_npc n.1 n.2 g) g npcs
  end.

(** ** Executions of the process *)

(** The open relay streams, each with the clients that connected on it. *)
Record process := mkProcess { srv : gameServerServer; streams : gmap nat (list string) }.

Inductive process_step : process → process → Prop :=
| step_open k s m : m !! k = None → process_step (mkProcess s m) (mkProcess s (<[k := []]> m))
| step_recv k t now pkt s s' m owned owned' :
    m !! k = Some owned → relay_recv t now pkt s owned = Some (s', owned') →
    process_step (mkProcess s m) (mkProcess s' (<[k := owned']> m))
| step_send id l fails data s s' m :
    sender_step id l fails s = Some (data, s') → process_step (mkProcess s m) (mkProcess s' m)
| step_sender_exit id s m : process_step (mkProcess s m) (mkProcess (sender_exit id s) m)
| step_close k t s s' m owned :
    m !! k = Some owned → relay_cleanup t owned s = Some s' →
    process_step (mkProcess s m) (mkProcess s' (delete k m))
| step_drain s s' m : drain_one s = Some s' → process_step (mkProcess s m) (mkProcess s' m)
| step_tick c g s m :
    tick c (game s) = Some g → process_step (mkProcess s m) (mkProcess (on_game (λ _, g) s) m)
| step_assign z r gx gy size s m : process_step (mkProcess s m) (mkProcess (rpc_AssignZone z r gx gy size s).2 m)
| step_release z s m : process_step (mkProcess s m) (mkProcess (rpc_ReleaseZone z s).2 m)
| step_enter z id pos now s m : process_step (mkProcess s m) (mkProcess (NotifyEntityEnter z id pos now s) m)
| step_leave z id s m : process_step (mkProcess s m) (mkProcess (NotifyEntityLeave z id s) m)
| step_update id pos now s m : process_step (mkProcess s m) (mkProcess (SendEntityUpdate id pos now s).2 m)
| step_migrate snap z s m : process_step (mkProcess s m) (mkProcess (MigrateEntity snap z s) m)
| step_sync snap s m : process_step (mkProcess s m) (mkProcess (ZoneStateSync [snap] s) m).

(** A Go slice has fewer than 2^63 elements. *)
Definition spec_ok (spec : NPCSpec) : Prop := Z.of_nat (length (npcWaypoints spec)) < 2 ^ 63.

Definition starts (p : process) : Prop :=
  ∃ sid opts fault db npcs, Forall (λ n, spec_ok n.2) npcs ∧
    p = mkProcess (mkServer (startup sid opts fault db npcs) newClientRegistry 0) ∅.

(** ** The process refines the simulation *)

Lemma reachable_exec g o g' : reachable g → op_ok o → exec g o = Some g' → reachable g'.
Proof.
  intros (sid & opts & ops & Hok & Hrun) Ho Hg. exists sid, opts, (ops ++ [o]).
  split; [by apply Forall_app; split; [|constructor]|]. by rewrite fold_option_app, Hrun; cbn; rewrite Hg.
Qed.

Lemma reachable_alloc e g : reachable g → entity_wf e → reachable (alloc_entity e g).2.
Proof. intros Hg He. by eapply (reachable_exec g (OpNewEntity e)). Qed.

Lemma reachable_add_new e g : reachable g → entity_wf e → reachable (add_new e g).
Proof.
  intros Hg He. pose proof (reachable_alloc e g Hg He).
  eapply (reachable_exec _ (OpAddEntity (next g))); [done|done|].
  cbn. unfold with_object. cbn. by rewrite lookup_insert_eq.
Qed.

Lemma reachable_New sid opts : reachable (Game.New sid opts).
Proof. exists sid, opts, []. by split. Qed.

Lemma newBehaviorFor_wf spec : spec_ok spec → behavior_wf (newBehaviorFor spec).
Proof.
  intros Hs. unfold newBehaviorFor. case_bool_decide; [|by case_bool_decide].
  split; [|done]. unfold patrol_wf. cbn. destruct (npcWaypoints spec); [by left|right; cbn; lia].
Qed.

Lemma hydrate_eq data g :
  hydrateFromSnapshot data g =
  match unjson_rows data with None => g | Some rows => foldl (λ g e, add_new e g) g (entity_of_row <$> rows) end.
Proof.
  unfold hydrateFromSnapshot. destruct (unjson_rows data) as [rows|]; [|done].
  revert g. induction rows as [|r rows IH]; intros g; [done|]. apply IH.
Qed.

Lemma entity_of_row_wf r : entity_wf (entity_of_row r).
Proof. apply newBehaviorFor_wf. unfold spec_ok. cbn. lia. Qed.

Lemma reachable_hydrate data g : reachable g → reachable (hydrateFromSnapshot data g).
Proof.
  rewrite hydrate_eq. destruct (unjson_rows data) as [rows|]; [|done]. intros Hg.
  apply (foldl_invariant _ reachable); [done|]. intros h e (r & -> & _)%list_elem_of_fmap Hh.
  apply reachable_add_new; [done|apply entity_of_row_wf].
Qed.

Lemma reachable_startup sid opts fault db npcs :
  Forall (λ n, spec_ok n.2) npcs → reachable (startup sid opts fault db npcs).
Proof.
  intros Hn. unfold startup. destruct (Latest _ _ _) as [[snap n]|e]; [apply reachable_hydrate, reachable_New|].
  apply (foldl_invariant _ reachable); [apply reachable_New|]. intros g [id spec] Hin Hg.
  rewrite Forall_forall in Hn. apply reachable_add_new; [done|]. by apply newBehaviorFor_wf, (Hn _ Hin).
Qed.

(** Every step of the process is a sequence of steps of the simulation. *)
Lemma recv_reachable t now pkt s owned s' owned' :
  reachable (game s) → relay_recv t now pkt s owned = Some (s', owned') → reachable (game s').
Proof.
  intros Hg. unfold relay_recv. destruct (pKind pkt) as [meta|data| | | |].
  - destruct (register_client _ _) as [l r].
    pose proof (reachable_alloc (Entity.New (pClientId pkt) "avatar" (mRuntimeId meta)) (game s) Hg I) as Ha.
    revert Ha. cbn [alloc_entity snd]. set (h := _ <| next ::= _ |>). intros Ha.
    destruct (EnqueueAddEntity t _ h) as [g|] eqn:E; intros ?; simplify_eq/=.
    eapply (reachable_exec h (OpEnqueueAdd t (next (game s)))); [done..|].
    cbn. unfold with_object. cbn. by rewrite lookup_insert_eq.
  - destruct (_ <? _)%nat eqn:E; intros ?; simplify_eq/=; [|done].
    eapply (reachable_exec _ (OpPacket (mkInbound (pClientId pkt) data))); [done..|]. unfold exec. by rewrite E.
  - intros ?; simplify_eq/=. by eapply (reachable_exec _ (OpMarkReconnected _)).
  - intros ?; simplify_eq/=. by eapply (reachable_exec _ (OpMarkDisconnected _ _)).
  - destruct (EnqueueRemoveEntity t _ _) as [g|] eqn:E; intros ?; simplify_eq/=.
    by eapply (reachable_exec _ (OpEnqueueRemove t _)).
  - intros ?; simplify_eq/=. done.
Qed.

Lemma cleanup_reachable t owned s s' :
  reachable (game s) → relay_cleanup t owned s = Some s' → reachable (game s').
Proof.
  intros Hs. apply (fold_option_preserves _ (λ s, reachable (game s))); [done|].
  intros k id k' Hk. destruct (EnqueueRemoveEntity t id (game k)) as [g|] eqn:E; intros ?; simplify_eq/=.
  by eapply (reachable_exec _ (OpEnqueueRemove t _)).
Qed.

Lemma step_reachable p p' : process_step p p' → reachable (game (srv p)) → reachable (game (srv p')).
Proof.
  intros Hs Hg. destruct Hs; cbn [srv] in *; try done.
  - by eapply recv_reachable.
  - unfold sender_step in *. destruct (cheap _ !! l) as [e|]; simplify_eq/=.
    destruct (ch (q e)); simplify_eq/=. by destruct fails.
  - by eapply cleanup_reachable.
  - unfold drain_one in *. destruct (Events (game s)) as [|evt rest] eqn:E; simplify_eq/=.
    eapply (reachable_exec _ OpTakeEvent); [done..|]. cbn. by rewrite E.
  - by eapply (reachable_exec _ (OpTick c)).
  - unfold rpc_AssignZone. destruct (AssignZone _ _) as [g|e] eqn:E; [|done].
    eapply (reachable_exec _ (OpAssignZone _)); [done..|]. cbn. by rewrite E.
  - unfold rpc_ReleaseZone. destruct (ReleaseZone _ _) as [g|e] eqn:E; [|done].
    eapply (reachable_exec _ (OpReleaseZone _)); [done..|]. cbn. by rewrite E.
  - by eapply (reachable_exec _ (OpApplyEnter _ _ "" _ _)).
  - by eapply (reachable_exec _ (OpApplyLeave _ _)).
  - destruct pos as [v|]; [|done]. by eapply (reachable_exec _ (OpApplyUpdate _ _ _ _)).
  - by eapply (reachable_exec _ (OpMigrateIn _ _)).
  - by eapply (reachable_exec _ (OpLoadZone _)).
Qed.
(** ** The client registry *)

(** A send queue within its capacity of 64 packets. *)
Definition queue_ok (k : boundedSendQueue) : Prop :=
  capacity k = 64%nat ∧ (length (ch k) ≤ 64)%nat ∧ 0 ≤ drops k < 2 ^ 64.

(** A registered client has an entry of its own that is still open, so that
    closing its channel cannot panic. *)
Record registry_ok (r : clientRegistry) : Prop := {
  reg_entry : ∀ id l, clients r !! id = Some l → ∃ e, cheap r !! l = Some e ∧ done_ e = false;
  reg_inj : ∀ id id' l, clients r !! id = Some l → clients r !! id' = Some l → id = id';
  reg_heap : ∀ l e, cheap r !! l = Some e → (l < cnext r)%positive ∧ queue_ok (q e)
}.

Lemma queue_ok_push d k : queue_ok k → queue_ok (push d k).
Proof.
  intros (Hc & Hl & Hd). pose proof (push_all [d] k) as H. cbn [foldl] in H. rewrite H by lia.
  split_and!; cbn [ch capacity drops]; [done|rewrite length_drop, length_app; cbn; lia|apply Z.mod_pos_bound; lia..].
Qed.

Lemma registry_register id r : registry_ok r → registry_ok (register_client id r).2.
Proof.
  intros [He Hi Hh]. assert (Hf : ∀ i, clients r !! i ≠ Some (cnext r)).
  { intros i Hc. destruct (He _ _ Hc) as (e & Hl & _). apply Hh in Hl as [? _]. lia. }
  split; cbn.
  - intros i l. rewrite !lookup_insert. case_decide; [intros [= <-]; rewrite decide_True by done; by eexists|].
    intros Hl. case_decide; [by subst; destruct (Hf i)|by eapply He].
  - intros i j l. rewrite !lookup_insert. destruct (decide (id = i)), (decide (id = j)); [congruence|..].
    + intros [= <-] ?. by destruct (Hf j).
    + intros ? [= <-]. by destruct (Hf i).
    + apply Hi.
  - intros l e. rewrite lookup_insert. case_decide; [intros [= <-]; subst; split; [lia|split_and!; cbn; lia]|].
    intros Hl. apply Hh in Hl as [? ?]. split; [lia|done].
Qed.

Lemma registry_unregister id r : registry_ok r → registry_ok (unregister id r).
Proof.
  intros Hr. unfold unregister. destruct (clients r !! id) as [l0|] eqn:E; [|done]. destruct Hr as [He Hi Hh]. split; cbn.
  - intros i l [Hne Hl]%lookup_delete_Some. rewrite lookup_alter_ne; [by eapply He|].
    intros <-. by destruct Hne; eapply Hi.
  - intros i j l [_ ?]%lookup_delete_Some [_ ?]%lookup_delete_Some. by eapply Hi.
  - intros l e [(-> & e0 & Hl & ->)|[_ Hl]]%lookup_alter_Some; by apply Hh in Hl.
Qed.

Lemma registry_send id data r : registry_ok r → registry_ok (send id data r).
Proof.
  intros Hr. unfold send. destruct (clients r !! id) as [l0|] eqn:E; [|done]. destruct Hr as [He Hi Hh]. split; cbn.
  - intros i l Hl. destruct (He _ _ Hl) as (e & Hle & Hd). destruct (decide (l0 = l)) as [->|].
    + rewrite lookup_alter_eq, Hle. by eexists.
    + rewrite lookup_alter_ne by done. by eexists.
  - done.
  - intros l e [(-> & e0 & Hl & ->)|[_ Hl]]%lookup_alter_Some; apply Hh in Hl as [? Hq]; [|done].
    split; [done|by apply queue_ok_push].
Qed.

Lemma registry_sender_step id l fails s data s' :
  sender_step id l fails s = Some (data, s') → registry_ok (registry_ s) → registry_ok (registry_ s').
Proof.
  unfold sender_step. destruct (cheap _ !! l) as [e|] eqn:El; cbn; [|done].
  destruct (ch (q e)) as [|d rest] eqn:Ech; [done|]. intros ? [He Hi Hh]; simplify_eq/=.
  set (r' := mkRegistry _ _ _). assert (registry_ok r') as Hr'; [|destruct fails; [by apply registry_unregister|done]].
  split; [|done|].
  - intros i l' Hl. destruct (He _ _ Hl) as (e' & Hl' & Hd). cbn. rewrite lookup_insert.
    case_decide; [simplify_eq/=; by eexists|by eexists].
  - intros l' e'. cbn. rewrite lookup_insert. case_decide as Hd; [|apply Hh].
    intros [= <-]. subst l'. destruct (Hh _ _ El) as (? & ? & Hlen & ?). rewrite Ech in Hlen.
    split; [done|]. split_and!; cbn in *; lia.
Qed.

Lemma step_registry p p' :
  process_step p p' → registry_ok (registry_ (srv p)) → registry_ok (registry_ (srv p')).
Proof.
  intros Hs Hr. destruct Hs; cbn [srv] in *; try done.
  - unfold relay_recv in *. destruct (pKind pkt) as [rt|data| | | |]; simplify_eq/=; try done.
    + destruct (EnqueueAddEntity _ _ _); simplify_eq/=. by apply registry_register.
    + case_match; simplify_eq/=; done.
    + destruct (EnqueueRemoveEntity _ _ _); simplify_eq/=. by apply registry_unregister.
  - by eapply registry_sender_step.
  - by apply registry_unregister.
  - match goal with H : relay_cleanup _ _ _ = _ |- _ => revert H end.
    apply (fold_option_preserves _ (λ s, registry_ok (registry_ s))); [done|].
    intros h id h' Hh. destruct (EnqueueRemoveEntity t id (game h)); intros ?; simplify_eq/=.
    by apply registry_unregister.
  - unfold drain_one in *. destruct (Events (game s)); simplify_eq/=. by apply registry_send.
  - unfold rpc_AssignZone. by destruct (AssignZone _ _).
  - unfold rpc_ReleaseZone. by destruct (ReleaseZone _ _).
  - by destruct pos.
Qed.

Lemma process_reachable (p0 p : process) :
  starts p0 → rtc process_step p0 p → reachable (game (srv p)) ∧ registry_ok (registry_ (srv p)).
Proof.
  intros (sid & opts & fault & db & npcs & Hn & ->) Hsteps.
  set (Q := λ p, reachable (game (srv p)) ∧ registry_ok (registry_ (srv p))). change (Q p).
  assert (∀ x y, process_step x y → Q x → Q y) as Hstep.
  { intros x y Hxy []. split; [by eapply step_reachable|by eapply step_registry]. }
  revert Hsteps. generalize p. refine (rtc_ind_r Q _ _ _).
  - split; [by apply reachable_startup|]. split; cbn; by intros *; rewrite lookup_empty.
  - intros y z _ Hyz. by apply Hstep.
Qed.


(** ** Delivery *)

Definition deliver (r : clientRegistry) (evt : Event) : clientRegistry := send (evObserver evt) (encodeEvent evt) r.

Lemma drainEvents_eq s :
  drainEvents s = mkServer ((game s) <| Events := [] |>) (foldl deliver (registry_ s) (Events (game s))) (inbox_dropped s).
Proof.
  unfold drainEvents. remember (length (Events (game s))) as n eqn:Hn. revert s Hn.
  induction n as [|n IH]; intros s Hn; cbn [drain_events]; unfold drain_one;
    destruct (Events (game s)) as [|evt rest] eqn:E; cbn in Hn; try lia.
  - cbn. destruct s as [g r d]. cbn in *. destruct g. cbn in *. by subst.
  - injection Hn as Hn. rewrite IH by done. done.
Qed.

Lemma deliver_clients r evts : clients (foldl deliver r evts) = clients r.
Proof.
  apply (foldl_frame _ clients). intros h evt. unfold deliver, send. by case_match.
Qed.

(** Only the queue of the observer changes. *)
Lemma deliver_lookup r evts id l e :
  registry_ok r → clients r !! id = Some l → cheap r !! l = Some e →
  cheap (foldl deliver r evts) !! l =
  Some (mkEntry (foldl (λ k d, push d k) (q e) (encodeEvent <$> filter (λ evt, evObserver evt = id) evts)) (done_ e)).
Proof.
  revert r e. induction evts as [|evt evts IH]; intros r e Hr Hc He; [by destruct e|]. cbn [foldl].
  assert (clients (deliver r evt) !! id = Some l) as Hc' by (rewrite <-Hc; apply (f_equal (.!! id)), (deliver_clients r [evt])).
  pose proof (registry_send (evObserver evt) (encodeEvent evt) r Hr) as Hr'. fold (deliver r evt) in Hr'.
  destruct (decide (evObserver evt = id)) as [Hid|Hid].
  - rewrite filter_cons_True by done. rewrite (IH _ (mkEntry (push (encodeEvent evt) (q e)) (done_ e)) Hr' Hc'); [done|].
    unfold deliver, send. rewrite Hid, Hc. cbn. by rewrite lookup_alter_eq, He.
  - rewrite filter_cons_False by done. apply IH; [done..|]. unfold deliver, send.
    destruct (clients r !! evObserver evt) as [l'|] eqn:E; [|done]. cbn. rewrite lookup_alter_ne; [done|].
    intros <-. by destruct Hid; eapply (reg_inj _ Hr).
Qed.

(** C22. Events go to their observer and to nobody else: in every state of the
    process, draining the event channel leaves it empty and nothing else of
    the game changed, keeps the set of clients, and for every registered
    client appends to its queue the packets of exactly the events addressed to
    it, in the order they were published, of which the newest 64 waiting
    packets are kept. *)
Theorem events_routed (p0 p : process) (id : string) (l : loc) (e : clientEntry) :
  starts p0 → rtc process_step p0 p →
  clients (registry_ (srv p)) !! id = Some l → cheap (registry_ (srv p)) !! l = Some e →
  let s' := drainEvents (srv p) in
  let waiting := ch (q e) ++ (encodeEvent <$> filter (λ evt, evObserver evt = id) (Events (game (srv p)))) in
  game s' = (game (srv p)) <| Events := [] |> ∧
  clients (registry_ s') = clients (registry_ (srv p)) ∧
  ∃ e', cheap (registry_ s') !! l = Some e' ∧ ch (q e') = drop (length waiting - 64) waiting ∧ done_ e' = done_ e.
Proof.
  intros H0 Hs Hc He. cbv zeta. destruct (process_reachable p0 p H0 Hs) as [_ Hr].
  rewrite drainEvents_eq. cbn [game registry_]. split_and!; [done|apply deliver_clients|].
  eexists. split; [by apply deliver_lookup|]. cbn [q done_]. split; [|done].
  destruct (reg_heap _ Hr _ _ He) as (_ & Hcap & Hl & Hd). rewrite push_all by lia. cbn [ch].
  by rewrite Hcap, length_app.
Qed.

(** ** Crash recovery *)

Lemma latest_elem z l b : foldl (newer z) None l = Some b → b ∈ l ∧ stZone b = z.
Proof.
  induction l as [|r l IH] using rev_ind; [done|]. rewrite foldl_app. cbn [foldl]. unfold newer at 1.
  destruct (foldl (newer z) None l) as [b'|] eqn:E; case_bool_decide as Hz; try case_match; intros [= <-];
    try (destruct IH; [done|]); set_solver.
Qed.

Lemma Latest_Save z rt d n now db db' :
  (∀ r, r ∈ zone_state db → stZone r = z → taken_at r < now) →
  Save false z rt d n now db = (None, db') →
  ∃ s, jsonb d = Some s ∧ Latest false z db' = Ok (s, n).
Proof.
  intros Hnew. unfold Save. destruct (jsonb d) as [s|]; [|done].
  case_bool_decide; [done|]. destruct (existsb _ _); [done|]. intros [= <-]. exists s. split; [done|].
  unfold Latest. cbn. rewrite foldl_app. cbn [foldl]. unfold newer at 1. cbn. rewrite bool_decide_true by done.
  destruct (foldl (newer z) None (zone_state db)) as [b|] eqn:E; [|done].
  apply latest_elem in E as [Hb Hz]. by rewrite (proj2 (Z.ltb_lt _ _) (Hnew b Hb Hz)).
Qed.

(** What a snapshot writes. *)
Definition zone_write g (zs : ZoneID * zoneSim) : list (ZoneID * bytes * Z) :=
  match json_rows (snapshot_rows g zs.2) with Some d => [(zs.1, d, tickCount g)] | None => [] end.

Lemma snapshotAllZones_saved g :
  snapshotter g = true → saved (snapshotAllZones g) = saved g ++ (range_list (Zones g) ≫= zone_write g).
Proof.
  intros Hs. unfold snapshotAllZones. rewrite Hs. cbn [negb]. generalize (range_list (Zones g)). intros l.
  assert (∀ h, eheap h = eheap g → tickCount h = tickCount g →
    saved (foldl snapshot_zone h l) = saved h ++ (l ≫= zone_write g)) as H; [|by apply H].
  induction l as [|zs l IH]; intros h Hh Ht; [by cbn; rewrite app_nil_r|]. cbn [foldl mbind list_bind].
  assert (snapshot_rows h zs.2 = snapshot_rows g zs.2) as Hrows by (unfold snapshot_rows; by rewrite Hh).
  unfold snapshot_zone at 2, zone_write at 1. rewrite Hrows.
  destruct (json_rows _); rewrite IH by done; [|done]. cbn. by rewrite Ht, <-app_assoc.
Qed.

Lemma snapshot_rows_spec g z sim :
  game_wf g → Zones g !! z = Some sim →
  NoDup (rId <$> snapshot_rows g sim) ∧
  (∀ id, id ∈ rId <$> snapshot_rows g sim ↔ is_Some (sentities sim !! id)) ∧
  (∀ id p e, sentities sim !! id = Some p → eheap g !! p = Some e →
     mkRow id (eType e) (String.string_of_list_byte (default [] (Attrs e !! "behavior")))
       (X (Position e)) (Y (Position e)) (Z_ (Position e)) ∈ snapshot_rows g sim).
Proof.
  intros Hwf Hz. set (row := λ kp : EntityID * loc, match eheap g !! kp.2 with
    | Some e => [mkRow (eID e) (eType e) (String.string_of_list_byte (default [] (Attrs e !! "behavior")))
                   (X (Position e)) (Y (Position e)) (Z_ (Position e))] | None => [] end).
  assert (snapshot_rows g sim = range_list (sentities sim) ≫= row) as Hrows.
  { unfold snapshot_rows. apply list_bind_ext; [by intros []|done]. }
  assert (Hid : ∀ l, (∀ kp, kp ∈ l → sentities sim !! kp.1 = Some kp.2) → rId <$> (l ≫= row) = l.*1).
  { induction l as [|[id p] l IH]; intros Hl; [done|]. cbn [mbind list_bind]. rewrite fmap_app, IH by set_solver.
    destruct (wf_sims _ Hwf _ _ _ _ Hz (Hl (id, p) ltac:(set_solver))) as (e & He & Hei & _).
    unfold row. cbn [snd] in He |- *. rewrite He. cbn. by rewrite Hei. }
  assert (rId <$> snapshot_rows g sim = (range_list (sentities sim)).*1) as Hids.
  { rewrite Hrows. apply Hid. intros [id p] Hin. by apply elem_of_range_list in Hin. }
  rewrite Hids. split_and!; [apply NoDup_fst_range_list|intros; apply elem_of_range_keys|].
  intros id p e Hp He. rewrite Hrows. apply list_elem_of_bind. exists (id, p). rewrite elem_of_range_list. split; [|done].
  destruct (wf_sims _ Hwf _ _ _ _ Hz Hp) as (e' & He' & Hei & _). simplify_eq.
  unfold row. cbn. rewrite He. by apply list_elem_of_singleton.
Qed.

Lemma New_empty sid opts :
  (∀ id, entity_of (Game.New sid opts) id = None) ∧ (∀ z, zone_obj (Game.New sid opts) z = None).
Proof.
  assert (Entities (Game.New sid opts) = ∅ ∧ Zones (Game.New sid opts) = ∅) as [HE HZ].
  { unfold Game.New. apply (foldl_invariant _ (λ g, Entities g = ∅ ∧ Zones g = ∅)); [done|]. by intros g [] _. }
  split; intros; [unfold entity_of; by rewrite HE, lookup_empty|unfold zone_obj; by rewrite HZ, lookup_empty].
Qed.

(** Hydration of a fresh game from the rows of a zone. *)
Lemma hydrate_spec data rows sid opts :
  unjson_rows data = Some rows → NoDup (rId <$> rows) →
  let g' := hydrateFromSnapshot data (Game.New sid opts) in
  (∀ r, r ∈ rows → entity_of g' (rId r) = Some (settled None (entity_of_row r)) ∧
     entityZone g' !! rId r = Some DefaultZoneID) ∧
  (∀ id, id ∉ rId <$> rows → entity_of g' id = None).
Proof.
  intros Hd Hnd. cbv zeta. rewrite hydrate_eq, Hd. destruct (New_empty sid opts) as [HE HZ].
  assert (eID <$> (entity_of_row <$> rows) = rId <$> rows) as Hids by by rewrite <-list_fmap_compose.
  destruct (add_loop_spec (entity_of_row <$> rows) (Game.New sid opts)) as [H1 H2].
  - apply wf_New.
  - apply Forall_fmap, Forall_forall. intros r _. apply entity_of_row_wf.
  - by rewrite Hids.
  - rewrite Hids in H2. split; [|intros id Hid; rewrite <-(HE id); by apply H2].
    intros r Hr. pose proof (H1 (entity_of_row r)) as H. rewrite HZ in H. apply H.
    apply list_elem_of_fmap. by exists r.
Qed.


(** In production nothing is ever recovered: the process saves its
    snapshots under its own server identifier as the runtime, which the
    foreign key of the table rejects unless a runtime happens to have that
    identifier; so every save leaves the table as it was, and a process whose
    identifier has no rows (every new process generates one) starts from the
    configuration, whatever was served before. *)
Theorem recovery_never_happens (sid sid' : ServerID) (opts : list Option_) (fault : bool)
    (writes : list (bool * Time * (ZoneID * bytes * Z))) (db : snapDB) (npcs : list (EntityID * NPCSpec)) :
  sid ∉ runtimes db → (∀ r, r ∈ zone_state db → stZone r ≠ recovery_zone sid') →
  let db' := foldl (λ db w, snapshotAdapter_Save sid w.1.1 w.1.2 w.2 db) db writes in
  db' = db ∧ startup sid' opts fault db' npcs = foldl (λ g n, seed_npc n.1 n.2 g) (Game.New sid' opts) npcs.
Proof.
  intros Hs Hr. cbv zeta. assert (foldl (λ db w, snapshotAdapter_Save sid w.1.1 w.1.2 w.2 db) db writes = db) as ->.
  { apply (foldl_invariant _ (λ d, d = db)); [done|]. intros d [[f now] w] _ ->. unfold snapshotAdapter_Save, Save. cbn.
    destruct f; [done|]. destruct (jsonb _); [|done]. by rewrite bool_decide_true. }
  split; [done|]. unfold startup, Latest. destruct fault; [done|].
  destruct (foldl (newer _) None _) as [b|] eqn:E; [|done]. apply latest_elem in E as [Hb Hz]. by destruct (Hr b Hb).
Qed.
End process.
