(* ===== verification/Services.v ===== *)
(** * The services: start and end

    The [main] functions of [apps/game-server], [apps/room-service] and
    [apps/gateway], with [internal/storage/pools.go] and
    [internal/migration].  A start is a sequence of calls, each of which may
    fail and then ends the process by [os.Exit(1)], without running the
    deferred calls; the answers of the calls are inputs.  The result is what
    the process serves, or [None].

    Then the end of a game server: after SIGTERM the tick loop and the
    heartbeats are cancelled, and [GracefulStop] waits for the open streams. *)

From S2P Require Import Prelude GoFloat Types Protocol Aoi Entity Game Boundary GameInv GameSpec GameView Migration.
From S2P Require Import Room RoomStore RoomSpec Cluster Failover Gateway GameServer GameProcess Config.
From stdpp Require Import base tactics list gmap strings relations.
From Stdlib Require Import ZArith Lia.

Local Open Scope Z_scope.
#[local] Opaque cmdChannelBuffer maxPacketsPerTick InboxBufferSize.

(** ** Connections *)

(** The answers of [pgxpool]: parsing the DSN, creating the pool, the ping. *)
Record pg_answers := mkPg { pg_parse : option string; pg_create : option string; pg_ping : option string }.

(** The result, and whether a pool was left open. *)
Definition NewPostgresPool (a : pg_answers) : result string unit * bool :=
  match pg_parse a with
  | Some e => (Err ("parse pgx config: " +:+ e), false)
  | None =>
      match pg_create a with
      | Some e => (Err ("create pgx pool: " +:+ e), false)
      | None =>
          match pg_ping a with
          | Some e => (Err ("ping postgres: " +:+ e), false)   (* the pool was closed *)
          | None => (Ok tt, true)
          end
      end
  end.

Definition NewRedisClient (ping : option string) : result string unit :=
  match ping with Some e => Err ("ping redis: " +:+ e) | None => Ok tt end.

Inductive up_answer := UpDone | UpNoChange | UpFailed (e : string).
Record migrate_answers := mkMigrate { mg_driver : option string; mg_migrator : option string; mg_up : up_answer }.

(** [migration.Run]. *)
Definition migration_Run (a : migrate_answers) : result string unit :=
  match mg_driver a with
  | Some e => Err ("create migration driver: " +:+ e)
  | None =>
      match mg_migrator a with
      | Some e => Err ("create migrator: " +:+ e)
      | None => match mg_up a with UpFailed e => Err ("run migrations: " +:+ e) | _ => Ok tt end
      end
  end.

(** ** The room service *)

Record room_calls := mkRoomCalls { rc_pg : pg_answers; rc_redis : option string; rc_migrate : migrate_answers; rc_listen : bool }.

(** What it serves: the sweeper's intervals, the gateway address handed out by
    the runtime API, and its port. *)
Record room_service := mkRoomService { rs_sweeper : SweeperConfig; rs_gatewayAddr : string; rs_port : Z }.

Definition room_service_main (cfgr : result string Config) (c : room_calls) : option room_service :=
  match cfgr with
  | Err _ => None
  | Ok cfg =>
      if negb (is_ok (NewPostgresPool (rc_pg c)).1) then None
      else if negb (is_ok (NewRedisClient (rc_redis c))) then None
      else if negb (is_ok (migration_Run (rc_migrate c))) then None
      else if negb (rc_listen c) then None
      else Some (mkRoomService (NewProductionSweeper (mkSweeperConfig (5 * Second) (15 * Second)))
                   ("gateway:" +:+ itoa (gwWSPort (cfGateway cfg))) (grPort (cfGRPC cfg)))
  end.

(** ** The gateway *)

(** [dial]: [grpc.NewClient] accepts the address of the room service. *)
Definition gateway_main (cfgr : result string Config) (dial : bool) : option Handler :=
  match cfgr with
  | Err _ => None
  | Ok cfg => if negb dial then None
              else Some (NewHandler (String.list_byte_of_string (gwJWTSecret (cfGateway cfg))))
  end.

(** After SIGTERM, before [Shutdown]. *)
Definition gateway_stop (h : Handler) : Handler := SetDraining true h.

(** While it drains, a gateway reports that it is not ready and admits nobody. *)
Lemma gateway_stop_refuses `{J : Jwt} get token lookup accepted h :
  handleReady get (gateway_stop h) ≠ StatusOK ∧ handleWS token lookup accepted (gateway_stop h) = (ServiceUnavailable, gateway_stop h, None).
Proof. unfold handleReady, handleWS, gateway_stop. cbn. by destruct get. Qed.

(** The shared secret of a gateway is the one of its environment, if that has one. *)
Theorem gateway_secret `{KL : KoanfLaws} (files : list string) (environ : list (string * string)) (dial : bool) (h : Handler) (s : string) :
  gateway_main (Load files environ) dial = Some h →
  (env_name "gateway.jwt_secret", s) ∈ environ →
  (∀ f doc q, f ∈ files → read_yaml f = Ok doc → is_Some (leaf doc q) → overlaps "gateway.jwt_secret" q = false) →
  (∀ q v, (q, v) ∈ renamed Config.prefix env_key environ → overlaps "gateway.jwt_secret" q = false) →
  (∀ v v', ("gateway.jwt_secret", v) ∈ renamed Config.prefix env_key environ → ("gateway.jwt_secret", v') ∈ renamed Config.prefix env_key environ → v = v') →
  jwtSecret h = String.list_byte_of_string s.
Proof.
  unfold gateway_main. intros H Hs Hd Hq Hu. destruct (Load files environ) as [cfg|] eqn:E; [|done].
  destruct dial; [|done]. injection H as <-. cbn.
  destruct (load_settings _ _ _ E) as (docs & Hdocs & Hp).
  destruct (Hp "gateway.jwt_secret" (FString (gwJWTSecret (cfGateway cfg)))) as [Hset _]; [do 10 right; left| |done|done|].
  - intros doc q (i & Hi)%list_elem_of_lookup. destruct (Forall2_lookup_r _ _ _ _ _ Hdocs Hi) as (f & Hf & Hr).
    apply (Hd f); [by eapply list_elem_of_lookup_2|done].
  - by rewrite (decodes_string _ _ (Hset s Hs)).
Qed.

(** The address the runtime API hands out: with no port for the gateway in
    the files of the room service or in its environment, it is [gateway:0]. *)
Theorem api_address `{KL : KoanfLaws} (files : list string) (environ : list (string * string)) (c : room_calls) (rs : room_service) :
  room_service_main (Load files environ) c = Some rs →
  (∀ f doc q, f ∈ files → read_yaml f = Ok doc → is_Some (leaf doc q) → q ≠ "gateway.ws_port" ∧ overlaps "gateway.ws_port" q = false) →
  (∀ n v, (n, v) ∈ environ → String.prefix Config.prefix n = true → env_key n ≠ "gateway.ws_port" ∧ overlaps "gateway.ws_port" (env_key n) = false) →
  rs_gatewayAddr rs = "gateway:0".
Proof.
  unfold room_service_main. intros H Hd Hq. destruct (Load files environ) as [cfg|] eqn:E; [|done].
  repeat case_match; try done. injection H as <-. cbn.
  destruct (load_settings _ _ _ E) as (docs & Hdocs & Hp).
  assert (∀ doc, doc ∈ docs → ∃ f, f ∈ files ∧ read_yaml f = Ok doc) as Hfile.
  { intros doc (i & Hi)%list_elem_of_lookup. destruct (Forall2_lookup_r _ _ _ _ _ Hdocs Hi) as (f & Hf & Hr).
    exists f. split; [by eapply list_elem_of_lookup_2|done]. }
  destruct (Hp "gateway.ws_port" (FInt (gwWSPort (cfGateway cfg)))) as [_ Hset]; [do 9 right; left| | | |].
  - intros doc q (f & Hf & Hr)%Hfile Hl. by destruct (Hd f doc q).
  - intros q v (_ & n & Hn & Hpre & <-)%elem_of_renamed. by destruct (Hq n v).
  - intros v v' (_ & n & Hn & Hpre & Hk)%elem_of_renamed. by destruct (Hq n v).
  - specialize (Hset ltac:(intros n v Hn Hpre; by destruct (Hq n v))).
    assert (file_setting docs "gateway.ws_port" = None) as Hnone.
    { unfold file_setting. apply (foldl_invariant _ (λ acc, acc = None)); [done|]. intros acc doc Hdoc ->.
      destruct (leaf doc "gateway.ws_port") eqn:El; [|done]. destruct (Hfile doc Hdoc) as (f & Hf & Hr).
      destruct (Hd f doc "gateway.ws_port") as [? _]; [done|done|by rewrite El|done]. }
    rewrite Hnone in Hset. injection Hset as ->. done.
Qed.

Section game_server.
Context `{GM : GoMath} `{GZ : Gzip} `{GB : Gob} `{CD : Codecs} `{RO : RangeOrder} `{WI : Wire} `{JB : Jsonb} `{AL : Allocator}.

(** ** The game server *)

(** The call of [Register]: answered, or failed with or without having been
    executed. *)
Inductive rpc := Answered | Failed (executed : bool).

Record game_calls := mkGameCalls {
  gs_dial : bool; gs_register : rpc; gs_listen : bool; gs_pg : pg_answers; gs_migrate : migrate_answers;
  gs_latest_fault : bool                       (* the query of the latest snapshot fails *)
}.

(** [ids i] is the identifier drawn for the [i]-th NPC of the configuration.  The heartbeats,
    which begin after the registration, are events of their own. *)
Definition game_server_main (cfgr : result string Config) (serverID : ServerID) (c : game_calls) (ids : nat → EntityID)
    (db : snapDB) (now : Time) (w : world) : option process * world :=
  match cfgr with
  | Err _ => (None, w)
  | Ok cfg =>
      if negb (gs_dial c) then (None, w)
      else
        let registered := (Cluster.join serverID (grHost (cfGRPC cfg)) (grPort (cfGRPC cfg)) now w).2 in
        match gs_register c with
        | Failed executed => (None, if executed : bool then registered else w)
        | Answered =>
            let w := registered in
            if negb (gs_listen c) then (None, w)
            else if negb (is_ok (NewPostgresPool (gs_pg c)).1) then (None, w)
            else if negb (is_ok (migration_Run (gs_migrate c))) then (None, w)
            else
              let opts := [WithTickRate (gcTickRate (cfGame cfg)); WithSnapshotter (gcSnapshotInterval (cfGame cfg)); WithMetrics] in
              let g := startup serverID opts (gs_latest_fault c) db (imap (λ i spec, (ids i, spec)) (gcNPCs (cfGame cfg))) in
              (Some (mkProcess (mkServer g newClientRegistry 0) ∅), w)
        end
  end.

(** ** The end of a game server *)

(** While [GracefulStop] waits: the open streams go on, there are no ticks, no
    new streams and no new calls. *)
Inductive stopping_step : process → process → Prop :=
| stop_recv k t now pkt s s' m owned owned' :
    m !! k = Some owned → relay_recv t now pkt s owned = Some (s', owned') →
    stopping_step (mkProcess s m) (mkProcess s' (<[k := owned']> m))
| stop_send id l fails data s s' m :
    sender_step id l fails s = Some (data, s') → stopping_step (mkProcess s m) (mkProcess s' m)
| stop_sender_exit id s m : stopping_step (mkProcess s m) (mkProcess (sender_exit id s) m)
| stop_close k t s s' m owned :
    m !! k = Some owned → relay_cleanup t owned s = Some s' →
    stopping_step (mkProcess s m) (mkProcess s' (delete k m))
| stop_drain s s' m : drain_one s = Some s' → stopping_step (mkProcess s m) (mkProcess s' m).

(** [GracefulStop] has returned. *)
Definition stopped (p : process) : Prop := GameProcess.streams p = ∅.

(** ** Starting *)

Lemma addEntity_tickRate p g : tickRate (addEntity p g) = tickRate g.
Proof. unfold addEntity, ensure_sim, on_aoi. by repeat (case_match; simplify_eq/=). Qed.

Lemma startup_tickRate sid opts fault db npcs : tickRate (startup sid opts fault db npcs) = tickRate (Game.New sid opts).
Proof.
  assert (∀ e g, tickRate (let '(p, g) := alloc_entity e g in AddEntity p g) = tickRate g) as Hadd
    by (intros e g; cbn; unfold AddEntity; by rewrite addEntity_tickRate).
  unfold startup. destruct (Latest _ _ _) as [[snap n]|e].
  - unfold hydrateFromSnapshot. destruct (unjson_rows snap); [|done]. apply (foldl_frame _ tickRate). intros g r. apply Hadd.
  - apply (foldl_frame _ tickRate). intros g [id spec]. apply Hadd.
Qed.

Lemma join_row id host port now t :
  game_servers t !! id = None →
  (Cluster.join id host port now (mkWorld t [])).2 =
  mkWorld (t <| game_servers ::= <[id := mkServerRow host (wrap32 port) "joining" 10 now now]> |>) [].
Proof.
  intros Hid. unfold Cluster.join, svc_Register. cbn [ss_Register ServerRepository]. unfold repo_Register. rewrite stmt_nil.
  unfold insert_server. cbn [NodeID]. by rewrite Hid.
Qed.


(** ** Stopping *)

(** What a step of a stopping server keeps. *)
Record frozen (g g' : Game) : Prop := {
  fz_entities : Entities g' = Entities g;
  fz_zones : Zones g' = Zones g;
  fz_aheap : aheap g' = aheap g;
  fz_eheap : ∀ l e, eheap g !! l = Some e → eheap g' !! l = Some e;
  fz_inbox : Inbox g `prefix_of` Inbox g';
  fz_cmds : cmds g `prefix_of` cmds g'
}.

#[export] Instance frozen_preorder : PreOrder frozen.
Proof.
  split.
  - intros g. by split.
  - intros g1 g2 g3 [] []. split; try congruence; try by etrans. auto.
Qed.

Lemma frozen_enqueue t c label g g' : enqueueCmd t c label g = Some g' → frozen g g'.
Proof.
  unfold enqueueCmd, count_metric. repeat case_match; intros [= <-]; split; try done. by eexists.
Qed.

Lemma frozen_alloc e g : game_wf g → frozen g (alloc_entity e g).2.
Proof.
  intros Hwf. split; try done. cbn. intros l e' Hl. rewrite lookup_insert_ne; [done|]. intros <-.
  destruct (wf_eheap g Hwf _ _ Hl). lia.
Qed.

Lemma frozen_recv t now pkt s owned s' owned' :
  game_wf (game s) → relay_recv t now pkt s owned = Some (s', owned') → frozen (game s) (game s').
Proof.
  intros Hwf. unfold relay_recv. destruct (pKind pkt) as [meta|data| | | |].
  - destruct (register_client _ _). destruct (alloc_entity _ _) as [l g] eqn:Ea. intros (g' & Hg' & [= <- <-])%bind_Some.
    etrans; [|by eapply frozen_enqueue]. pose proof (frozen_alloc (Entity.New (pClientId pkt) "avatar" (mRuntimeId meta)) (game s) Hwf) as Hf.
    by rewrite Ea in Hf.
  - case_match; intros [= <- <-]; [|done]. split; try done. by eexists.
  - intros [= <- <-]. by split.
  - intros [= <- <-]. unfold MarkDisconnected. cbn. case_match; [by split|done].
  - intros (g' & Hg' & [= <- <-])%bind_Some. by eapply frozen_enqueue.
  - by intros [= <- <-].
Qed.

Lemma frozen_cleanup t owned s s' : relay_cleanup t owned s = Some s' → frozen (game s) (game s').
Proof.
  unfold relay_cleanup. apply (fold_option_preserves _ (λ s', frozen (game s) (game s'))); [done|].
  intros s1 id s2 H1 (g & Hg & [= <-])%bind_Some. etrans; [done|]. by eapply frozen_enqueue.
Qed.

Lemma frozen_sender id l fails s data s' : sender_step id l fails s = Some (data, s') → game s' = game s.
Proof. unfold sender_step. destruct (cheap _ !! l) as [e|]; cbn; [|done]. destruct (ch (q e)); [done|]. intros [= <- <-]. by destruct fails. Qed.

Lemma frozen_step p p' : game_wf (game (srv p)) → stopping_step p p' →
  frozen (game (srv p)) (game (srv p')) ∧ dom (GameProcess.streams p') ⊆ dom (GameProcess.streams p).
Proof.
  intros Hwf Hs. destruct Hs; cbn in *.
  - split; [by eapply frozen_recv|]. rewrite dom_insert. apply elem_of_dom_2 in H. set_solver.
  - apply frozen_sender in H as ->. done.
  - done.
  - split; [by eapply frozen_cleanup|]. rewrite dom_delete. set_solver.
  - unfold drain_one in H. destruct (Events (game s)); simplify_eq/=. by split.
Qed.

Lemma stopping_process p p' : stopping_step p p' → process_step p p'.
Proof. destruct 1; by econstructor. Qed.

Lemma stopping_run p0 p p' : starts p0 → rtc process_step p0 p → rtc stopping_step p p' →
  rtc process_step p0 p' ∧ frozen (game (srv p)) (game (srv p')) ∧ dom (GameProcess.streams p') ⊆ dom (GameProcess.streams p).
Proof.
  intros H0 Hp Hs. revert Hs. generalize p'. refine (rtc_ind_r _ p _ _); [by split_and!|]. intros y z _ Hyz (Hy & Hf & Hd).
  destruct (frozen_step y z) as [Hf' Hd']; [by apply reachable_wf, (process_reachable p0 y)|done|].
  split_and!; [|by etrans|set_solver]. etrans; [exact Hy|]. by apply rtc_once, stopping_process.
Qed.

End game_server.
