(* ===== verification/Relay.v ===== *)
(** * The gateway relay

    [relayWS] of [internal/gateway/relay.go]: the two goroutines that copy
    frames between a player's websocket and the stream to the game server,
    the error channel through which they end, and the main goroutine that
    announces the disconnection.  A step is one iteration of one goroutine;
    their order, the clock and the outcome of every call on the two
    connections are the environment's.

    Also [StartOwnershipWatch] with the router cache it feeds, and the path of
    a player from the token to the simulation. *)

From S2P Require Import Prelude GoFloat Types Protocol Aoi Entity Game Boundary GameInv GameSpec Migration Room GameServer Gateway.
From stdpp Require Import base tactics list gmap strings.
From Stdlib Require Import ZArith Lia.

Local Open Scope Z_scope.
#[local] Opaque cmdChannelBuffer maxPacketsPerTick InboxBufferSize.

(** ** The relay *)

Inductive relayPhase :=
| Running     (* waiting for the first error *)
| Ended       (* the error was received *)
| Closed_.    (* the deferred calls have run: context cancelled, stream closed *)

Record relayState := mkRelay {
  rclient : string;
  rconn : connectionLimiter;
  rip : option ipLimiter;            (* shared by the relays of the handler *)
  sent : list RelayPacket;           (* packets the stream accepted *)
  written : list bytes;              (* frames written to the websocket *)
  dropped_in : list string;          (* DroppedTotal, by label *)
  errs : nat;                        (* errors waiting in errCh *)
  reader_up : bool;
  writer_up : bool;
  phase : relayPhase
}.
Definition eta_relay (r : relayState) :=
  mkRelay (rclient r) (rconn r) (rip r) (sent r) (written r) (dropped_in r) (errs r) (reader_up r) (writer_up r) (phase r).
#[export] Instance set_rconn : Setter rconn. Proof. solve_setter eta_relay. Defined.
#[export] Instance set_rip : Setter rip. Proof. solve_setter eta_relay. Defined.
#[export] Instance set_sent : Setter sent. Proof. solve_setter eta_relay. Defined.
#[export] Instance set_written : Setter written. Proof. solve_setter eta_relay. Defined.
#[export] Instance set_dropped_in : Setter dropped_in. Proof. solve_setter eta_relay. Defined.
#[export] Instance set_errs : Setter errs. Proof. solve_setter eta_relay. Defined.
#[export] Instance set_reader_up : Setter reader_up. Proof. solve_setter eta_relay. Defined.
#[export] Instance set_writer_up : Setter writer_up. Proof. solve_setter eta_relay. Defined.
#[export] Instance set_phase : Setter phase. Proof. solve_setter eta_relay. Defined.

Definition connect_packet (clientID : string) (c : Claims) : RelayPacket :=
  mkPacket clientID (KIND_CONNECT (mkMeta (cPlayerID c) (cRuntimeID c) (cZoneID c))).

(** Up to the start of the goroutines; [None]: dialling or opening the stream
    failed.  The error of the first [Send] is ignored. *)
Definition relay_start (dial_ok stream_ok connect_ok : bool) (clientID : string) (c : Claims)
    (ip : option ipLimiter) (now : Time) : option relayState :=
  if negb dial_ok || negb stream_ok then None
  else Some (mkRelay clientID (newConnectionLimiter (of_int 100) (of_int 100) now) ip
               (if connect_ok then [connect_packet clientID c] else []) [] [] 0 true true Running).

Inductive relay_event :=
| Frame (data : bytes) (now : Time) (send_ok : bool)   (* the reader got a frame *)
| ReadError
| Packet (payload : bytes) (write_ok : bool)           (* the writer got a packet *)
| RecvError
| OtherTraffic (ip : string) (now : Time)              (* another relay uses the shared limiter *)
| Finish (send_ok : bool)                              (* the main goroutine takes an error *)
| Deferred.

(** An error ends its goroutine. *)
Definition reader_fails (r : relayState) : relayState := r <| errs ::= S |> <| reader_up := false |>.
Definition writer_fails (r : relayState) : relayState := r <| errs ::= S |> <| writer_up := false |>.

Definition relay_step (r : relayState) (ev : relay_event) : option relayState :=
  match ev with
  | Frame data now send_ok =>
      if negb (reader_up r) then None
      else match phase r with
           | Closed_ => None
           | _ =>
               let '(drop, conn, ip) := admit_packet (rclient r) now (rconn r) (rip r) in
               let r := r <| rconn := conn |> <| rip := ip |> in
               match drop with
               | Some label => Some (r <| dropped_in ::= λ l, l ++ [label] |>)
               | None => if send_ok : bool
                         then Some (r <| sent ::= λ l, l ++ [mkPacket (rclient r) (KIND_DATA data)] |>)
                         else Some (reader_fails r)
               end
           end
  | ReadError => if reader_up r then Some (reader_fails r) else None
  | Packet payload write_ok =>
      if negb (writer_up r) then None
      else match phase r with
           | Closed_ => None
           | _ => if write_ok : bool then Some (r <| written ::= λ l, l ++ [payload] |>) else Some (writer_fails r)
           end
  | RecvError => if writer_up r then Some (writer_fails r) else None
  | OtherTraffic ip now => Some (r <| rip ::= fmap (λ l, (ip_allow ip now l).2) |>)
  | Finish send_ok =>
      match phase r, errs r with
      | Running, S n =>
          let r := r <| errs := n |> <| phase := Ended |> in
          Some (if send_ok : bool then r <| sent ::= λ l, l ++ [mkPacket (rclient r) KIND_PEER_DISCONNECTED] |> else r)
      | _, _ => None
      end
  | Deferred => match phase r with Ended => Some (r <| phase := Closed_ |>) | _ => None end
  end.

(** ** Properties *)

Definition data_of (p : RelayPacket) : list bytes := match pKind p with KIND_DATA d => [d] | _ => [] end.
Definition is_goodbye (p : RelayPacket) : bool := match pKind p with KIND_PEER_DISCONNECTED => true | _ => false end.
Definition frame_of (ev : relay_event) : list bytes := match ev with Frame d _ _ => [d] | _ => [] end.
Definition goodbyes (l : list RelayPacket) : nat := length (List.filter is_goodbye l).
Definition over (r : relayState) : nat := match phase r with Running => 0 | _ => 1 end.

(** What a step adds to the stream. *)
Record extends (r r' : relayState) (frames : list bytes) : Prop := {
  ext_client : rclient r' = rclient r;
  ext_sent : ∃ new, sent r' = sent r ++ new ∧ Forall (λ p, pClientId p = rclient r) new ∧
    (new ≫= data_of) `sublist_of` frames ∧ (goodbyes new + over r ≤ over r')%nat ∧
    Forall (λ p, match pKind p with KIND_CONNECT _ => False | _ => True end) new
}.

Lemma extends_nothing r r' frames :
  rclient r' = rclient r → sent r' = sent r → (over r ≤ over r')%nat → extends r r' frames.
Proof.
  intros Hc Hs Ho. split; [done|]. exists []. rewrite app_nil_r. split_and!; [done|constructor|apply sublist_nil_l|done|constructor].
Qed.

Lemma extends_trans r1 r2 r3 f1 f2 : extends r1 r2 f1 → extends r2 r3 f2 → extends r1 r3 (f1 ++ f2).
Proof.
  intros [Hc1 (n1 & Hs1 & Hf1 & Hd1 & Hg1 & Hk1)] [Hc2 (n2 & Hs2 & Hf2 & Hd2 & Hg2 & Hk2)].
  split; [congruence|]. exists (n1 ++ n2). rewrite Hs2, Hs1, <-app_assoc, bind_app. rewrite Hc1 in Hf2.
  unfold goodbyes in *. rewrite List.filter_app, length_app.
  split_and!; [done|by apply Forall_app|by apply sublist_app|lia|by apply Forall_app].
Qed.

Lemma relay_step_extends r ev r' : relay_step r ev = Some r' → extends r r' (frame_of ev).
Proof.
  destruct ev as [data now ok| |payload ok| |ip now|ok|]; cbn [relay_step].
  - destruct (reader_up r); [|done]. cbn [negb]. destruct (admit_packet _ _ _ _) as [[[label|] conn] ip].
    + destruct (phase r); intros ?; simplify_eq; by apply extends_nothing.
    + assert (∀ k, k = (if ok then Some (r <| rconn := conn |> <| rip := ip |> <| sent ::= λ l, l ++ [mkPacket (rclient r) (KIND_DATA data)] |>)
                        else Some (reader_fails (r <| rconn := conn |> <| rip := ip |>))) → k = Some r' → extends r r' [data]) as H.
      { intros k -> H. destruct ok; simplify_eq; [|by apply extends_nothing]. split; [done|].
        exists [mkPacket (rclient r) (KIND_DATA data)]. unfold over. cbn.
        split_and!; [done|by constructor|done|lia|by constructor]. }
      destruct (phase r); [by apply H|by apply H|done].
  - destruct (reader_up r); intros ?; simplify_eq. by apply extends_nothing.
  - destruct (writer_up r); [|done]. cbn [negb].
    destruct (phase r), ok; intros ?; simplify_eq; by apply extends_nothing.
  - destruct (writer_up r); intros ?; simplify_eq. by apply extends_nothing.
  - intros [= <-]. by apply extends_nothing.
  - destruct (phase r) eqn:Ep, (errs r) as [|n]; try done. intros [= <-].
    destruct ok; [|apply extends_nothing; [done|done|unfold over; rewrite Ep; lia]].
    split; [done|]. exists [mkPacket (rclient r) KIND_PEER_DISCONNECTED]. unfold over. rewrite Ep. cbn.
    split_and!; [done|by constructor|apply sublist_nil_l|lia|by constructor].
  - destruct (phase r) eqn:Ep; try done. intros [= <-].
    apply extends_nothing; [done|done|unfold over; rewrite Ep; cbn; lia].
Qed.

(** The error channel, of capacity two, never blocks its senders: each of the
    two goroutines sends one error, and the main goroutine takes one. *)
Definition balanced (r : relayState) : Prop :=
  (errs r + Nat.b2n (reader_up r) + Nat.b2n (writer_up r) + over r = 2)%nat.

Lemma relay_step_balanced r ev r' : relay_step r ev = Some r' → balanced r → balanced r'.
Proof.
  unfold balanced. destruct ev as [data now ok| |payload ok| |ip now|ok|]; cbn [relay_step].
  - destruct (reader_up r) eqn:Er; [|done]. cbn [negb]. destruct (admit_packet _ _ _ _) as [[[label|] conn] ip].
    + destruct (phase r) eqn:Ep; intros ?; simplify_eq; unfold over; cbn; rewrite Ep, Er; done.
    + destruct (phase r) eqn:Ep, ok; intros ?; simplify_eq; unfold over; cbn; rewrite Ep, ?Er; cbn; lia.
  - destruct (reader_up r) eqn:Er; intros ?; simplify_eq. unfold over. cbn. lia.
  - destruct (writer_up r) eqn:Er; [|done]. cbn [negb].
    destruct (phase r) eqn:Ep, ok; intros ?; simplify_eq; unfold over; cbn; rewrite Ep, ?Er; cbn; lia.
  - destruct (writer_up r) eqn:Er; intros ?; simplify_eq. unfold over. cbn. lia.
  - intros [= <-]. done.
  - destruct (phase r) eqn:Ep, (errs r) as [|n] eqn:En; try done. intros [= <-].
    destruct ok; unfold over; rewrite Ep; cbn; lia.
  - destruct (phase r) eqn:Ep; try done. intros [= <-]. unfold over. rewrite Ep. cbn. lia.
Qed.

(** *** Rate of the forwarded packets *)

Definition frame_time (ev : relay_event) : list Time := match ev with Frame _ now _ => [now] | _ => [] end.

(** The times of frames that arrive at the given gaps, in seconds. *)
Fixpoint stamps (t : Time) (gaps : list Z) : list Time :=
  match gaps with [] => [] | gap :: gaps => time_add t (gap * Second) :: stamps (time_add t (gap * Second)) gaps end.

Definition forwarded (r : relayState) : Z := Z.of_nat (length (sent r ≫= data_of)).

(** A frame is forwarded only if the connection's bucket admits it. *)
Lemma relay_step_frame r data now ok r' n t gap :
  0 ≤ n ≤ 100 → gap_ok gap → now = time_add t (gap * Second) →
  cbucket (rconn r) = mkBucket (of_int n) (of_int 100) (of_int 100) t →
  relay_step r (Frame data now ok) = Some r' →
  let '(adm, n') := spec_allow 100 100 gap n in
  0 ≤ n' ≤ 100 ∧ cbucket (rconn r') = mkBucket (of_int n') (of_int 100) (of_int 100) now ∧
  forwarded r' ≤ forwarded r + (if adm : bool then 1 else 0).
Proof.
  intros Hn Hg -> Hb. assert (limits_ok 100 100) as Hl by (unfold limits_ok; lia).
  pose proof (bucket_refines 100 100 gap n t Hl Hg Hn) as H.
  destruct (spec_allow 100 100 gap n) as [adm n']. destruct H as [Hallow Hn'].
  cbn [relay_step]. destruct (reader_up r); [|done]. cbn [negb].
  unfold admit_packet, conn_allow. rewrite Hb, Hallow.
  destruct adm; cbn [negb].
  - destruct (rip r) as [l|]; [destruct (ip_allow _ _ l) as [[] l']|];
      destruct (phase r), ok; intros ?; simplify_eq; (split_and!; [lia|lia|done|]); unfold forwarded; cbn;
      rewrite ?bind_app, ?length_app; cbn; lia.
  - destruct (phase r); intros ?; simplify_eq; (split_and!; [lia|lia|done|]); unfold forwarded; cbn; lia.
Qed.

Lemma relay_step_other r ev r' :
  frame_time ev = [] → relay_step r ev = Some r' → rconn r' = rconn r ∧ forwarded r' = forwarded r.
Proof.
  intros He Hs. split.
  - destruct ev as [data now ok| |payload ok| |ip now|ok|]; [done|..]; cbn [relay_step] in Hs; repeat case_match; by simplify_eq.
  - destruct (relay_step_extends r ev r' Hs) as [_ (new & Hs' & _ & Hd & _)].
    assert (frame_of ev = []) as Hf by (by destruct ev). rewrite Hf in Hd. apply sublist_nil_r in Hd.
    unfold forwarded. by rewrite Hs', bind_app, Hd, app_nil_r.
Qed.

Lemma relay_rate evs r r' n t gaps :
  0 ≤ n ≤ 100 → Forall gap_ok gaps → evs ≫= frame_time = stamps t gaps →
  cbucket (rconn r) = mkBucket (of_int n) (of_int 100) (of_int 100) t →
  fold_option relay_step r evs = Some r' →
  forwarded r' ≤ forwarded r + admitted (run_spec 100 100 gaps n).
Proof.
  intros Hn Hg Ht Hb. revert r n t gaps Hn Hg Ht Hb. induction evs as [|ev evs IH]; intros r n t gaps Hn Hg Ht Hb; cbn [fold_option].
  { intros [= <-]. unfold admitted. lia. }
  destruct (relay_step r ev) as [r1|] eqn:Es; cbn; [|done]. intros Hrun.
  destruct (frame_time ev) eqn:Ef.
  { destruct (relay_step_other r ev r1 Ef Es) as [Hc <-]. eapply IH; [done|done| |by rewrite Hc|done].
    cbn [mbind list_bind] in Ht. by rewrite Ef in Ht. }
  destruct ev as [data now ok| | | | | |]; try done.
  destruct gaps as [|gap gaps]; [done|]. cbn [mbind list_bind frame_time app stamps] in Ht. injection Ht as Hnow Ht.
  apply Forall_cons in Hg as [Hgap Hg].
  pose proof (relay_step_frame r data now ok r1 n t gap Hn Hgap Hnow Hb Es) as H. cbn [run_spec].
  destruct (spec_allow 100 100 gap n) as [adm n']. destruct H as (Hn' & Hb' & Hf).
  rewrite <-Hnow in Ht. specialize (IH r1 n' now gaps Hn' Hg Ht Hb' Hrun). unfold admitted in *. cbn.
  destruct adm; cbn [List.filter length]; lia.
Qed.

Lemma relay_run evs r r' :
  fold_option relay_step r evs = Some r' → balanced r → extends r r' (evs ≫= frame_of) ∧ balanced r'.
Proof.
  revert r. induction evs as [|ev evs IH]; intros r; cbn [fold_option mbind list_bind].
  { intros [= <-] Hb. split; [by apply extends_nothing|done]. }
  destruct (relay_step r ev) as [r1|] eqn:Es; cbn; [|done]. intros Hrun Hb.
  destruct (IH r1 Hrun (relay_step_balanced r ev r1 Es Hb)). split; [|done].
  eapply extends_trans; [by apply relay_step_extends|done].
Qed.

(** C20. The relay speaks for its player only: under any interleaving of its
    goroutines and any failure of the two connections, what it sends to the
    game server is the connect packet with the player's claims (if that first
    send worked), then data packets under the player's identifier that carry
    frames of that player in the order they were read, and at most one
    announcement of the disconnection, never before the relay has ended; when
    the frames arrive at whole-second distances at most 100 of them, plus 100
    per second elapsed, are forwarded; and the error channel never holds more
    than its two slots, so no goroutine is left blocked on it. *)
Theorem relay_protocol (dial_ok stream_ok connect_ok : bool) (client : string) (c : Claims) (ip : option ipLimiter)
    (now : Time) (evs : list relay_event) (r0 r : relayState) :
  relay_start dial_ok stream_ok connect_ok client c ip now = Some r0 →
  fold_option relay_step r0 evs = Some r →
  (∃ body, sent r = (if connect_ok then [connect_packet client c] else []) ++ body ∧
    Forall (λ p, pClientId p = client) body ∧
    Forall (λ p, match pKind p with KIND_CONNECT _ => False | _ => True end) body ∧
    (body ≫= data_of) `sublist_of` (evs ≫= frame_of) ∧
    (goodbyes body ≤ 1)%nat ∧ (phase r = Running → goodbyes body = 0%nat)) ∧
  (∀ gaps, Forall gap_ok gaps → evs ≫= frame_time = stamps now gaps →
    forwarded r ≤ 100 + 100 * foldr Z.add 0 gaps) ∧
  (errs r ≤ 2)%nat.
Proof.
  unfold relay_start. destruct (_ || _); [done|]. intros <-%(inj Some) Hrun.
  destruct (relay_run _ _ _ Hrun) as [[Hc (new & Hs & Hf & Hd & Hg & Hk)] Hb]; [done|]. cbn in Hs, Hf, Hg.
  assert (over r ≤ 1)%nat as Ho by (unfold over; by destruct (phase r); lia). split_and!.
  - exists new. split_and!; [done..|unfold over in *; cbn in *; lia|].
    intros Hp. unfold over in Hg. rewrite Hp in Hg. cbn in Hg. lia.
  - intros gaps Hgaps Ht.
    assert (0 ≤ 100 ≤ 100) as H100 by lia.
    pose proof (λ E, relay_rate _ _ _ 100 now gaps H100 Hgaps Ht E Hrun) as H. specialize (H eq_refl).
    pose proof (run_spec_bound 100 100 gaps 100 ltac:(lia) H100 Hgaps) as H'.
    assert (forwarded (mkRelay client (newConnectionLimiter (of_int 100) (of_int 100) now) ip
               (if connect_ok then [connect_packet client c] else []) [] [] 0 true true Running) = 0) as H0 by by destruct connect_ok.
    lia.
  - unfold balanced in Hb. lia.
Qed.

(** ** Watching ownership changes *)

(** The loop of [StartOwnershipWatch]: opening the stream or receiving may
    fail, after which it waits two seconds, or ends if its context has, and
    opens the stream again. *)
Inductive watch_pc := Opening | Receiving | Pausing (since : Time) | WatchEnded.

Inductive watch_event :=
| WatchOpens
| WatchFails (now : Time)
| RecvChange (c : OwnershipChange) (now : Time)
| RecvFails (now : Time)
| PauseOver (now : Time)
| WatchCancelled.                  (* the case for the context *)

Record watcher := mkWatcher { w_pc : watch_pc; w_cache : RouterCache; w_clock : Time }.

Definition watch_pause : Duration := 2 * Second.

Definition watch_step (w : watcher) (ev : watch_event) : option watcher :=
  match w_pc w, ev with
  | Opening, WatchOpens => Some (mkWatcher Receiving (w_cache w) (w_clock w))
  | Opening, WatchFails now | Receiving, RecvFails now =>
      if w_clock w <=? now then Some (mkWatcher (Pausing now) (w_cache w) now) else None
  | Receiving, RecvChange c now =>
      if w_clock w <=? now then Some (mkWatcher Receiving (ApplyChange c now (w_cache w)) now) else None
  | Pausing since, PauseOver now => if since + watch_pause <=? now then Some (mkWatcher Opening (w_cache w) now) else None
  | Pausing _, WatchCancelled => Some (mkWatcher WatchEnded (w_cache w) (w_clock w))
  | _, _ => None
  end.

Fixpoint watch_run (evs : list watch_event) (w : watcher) : option watcher :=
  match evs with
  | [] => Some w
  | ev :: evs => match watch_step w ev with Some w => watch_run evs w | None => None end
  end.

Definition StartOwnershipWatch (rc : RouterCache) (now : Time) : watcher := mkWatcher Opening rc now.

Lemma watch_run_snoc evs ev w : watch_run (evs ++ [ev]) w = match watch_run evs w with Some w => watch_step w ev | None => None end.
Proof.
  revert w. induction evs as [|e evs IH]; intros w; cbn; [by destruct (watch_step w ev)|].
  destruct (watch_step w e); [apply IH|done].
Qed.

Definition last_change (z : string) (evs : list watch_event) : option (OwnershipChange * Time) :=
  foldl (λ best ev, match ev with
                    | RecvChange c now => if bool_decide (cZoneId c = z) then Some (c, now) else best
                    | _ => best
                    end) None evs.

Definition watch_failures (evs : list watch_event) : Z :=
  foldl (λ n ev, match ev with WatchFails _ | RecvFails _ => n + 1 | _ => n end) 0 evs.

(** What a run keeps: the entry of a zone is that of its last change, and every
    failure but the last has cost a pause. *)
Record watched (d : Duration) (t0 : Time) (z : string) (evs : list watch_event) (w : watcher) : Prop := {
  wd_ttl : ttl (w_cache w) = d;
  wd_entry : entries (w_cache w) !! z =
    (λ ct, mkCacheItem (mkCacheEntry (cServerId ct.1) (cHost ct.1) (cPort ct.1)) (time_add ct.2 d)) <$> last_change z evs;
  wd_pauses : match w_pc w with
    | Pausing t => watch_pause * (watch_failures evs - 1) ≤ t - t0 ∧ t ≤ w_clock w
    | WatchEnded => watch_pause * (watch_failures evs - 1) ≤ w_clock w - t0
    | _ => watch_pause * watch_failures evs ≤ w_clock w - t0
    end
}.

Lemma watch_step_watched d t0 z evs w ev w' : watched d t0 z evs w → watch_step w ev = Some w' → watched d t0 z (evs ++ [ev]) w'.
Proof.
  intros [Ht He Hp] Hs. destruct w as [pc rc t]. unfold watch_step in Hs. cbn [w_pc w_cache w_clock] in *.
  destruct pc as [| |since|], ev as [|now|c now|now|now|]; try discriminate Hs;
    try (destruct (Z.leb_spec t now) as [Hle|]; [|discriminate Hs]); try (destruct (Z.leb_spec (since + watch_pause) now); [|discriminate Hs]);
    injection Hs as <-; (split; cbn [w_pc w_cache w_clock]);
    try (unfold last_change in *; rewrite foldl_app; exact He); try exact Ht;
    try (unfold watch_failures in *; rewrite foldl_app; cbn [foldl]; lia).
  cbn. unfold last_change in *. rewrite foldl_app, lookup_insert, Ht, He. cbn [foldl]. case_decide as Hz.
  - by rewrite bool_decide_true.
  - by rewrite bool_decide_false.
Qed.

Lemma watch_run_watched d t0 z evs w : watch_run evs (StartOwnershipWatch (NewRouterCache d) t0) = Some w → watched d t0 z evs w.
Proof.
  revert w. induction evs as [|ev evs IH] using rev_ind; intros w; [intros [= <-]; split; cbn; [done|done|unfold watch_failures; cbn; lia]|].
  rewrite watch_run_snoc. destruct (watch_run evs _) as [w1|]; [|done]. by apply watch_step_watched, IH.
Qed.

(** The cache answers with the last announced owner of a zone, for the
    lifetime of an entry after the announcement, and with nothing else; the
    watch does not spin, since every failure but the last costs two seconds,
    and it ends only in a pause, when its context has ended. *)
Theorem cache_serves_last_change (d : Duration) (t0 : Time) (evs : list watch_event) (w : watcher) (z : string) (now : Time) :
  watch_run evs (StartOwnershipWatch (NewRouterCache d) t0) = Some w →
  (cache_Get z now (w_cache w)).1 =
  match last_change z evs with
  | Some (c, t) => if time_after now (time_add t d) then None
                   else Some (mkCacheEntry (cServerId c) (cHost c) (cPort c))
  | None => None
  end ∧
  watch_pause * (watch_failures evs - 1) ≤ w_clock w - t0 ∧
  (w_pc w = WatchEnded → last evs = Some WatchCancelled).
Proof.
  intros Hrun. destruct (watch_run_watched d t0 z evs w Hrun) as [_ He Hp]. split_and!.
  - unfold cache_Get. rewrite He. destruct (last_change z evs) as [[c t]|]; [|done]. cbn [fmap option_fmap option_map fst snd ciExpiresAt]. by destruct (time_after now _).
  - assert (0 < watch_pause) by done. destruct (w_pc w); lia.
  - intros Hend. destruct evs as [|ev evs _] using rev_ind; [by injection Hrun as <-|]. rewrite last_snoc.
    rewrite watch_run_snoc in Hrun. destruct (watch_run evs _) as [[pc rc t]|]; [|done].
    unfold watch_step in Hrun. cbn [w_pc] in Hrun. destruct pc, ev; try discriminate Hrun; try reflexivity;
      try (destruct (_ <=? _) in Hrun; [|discriminate Hrun]); injection Hrun as <-; discriminate Hend.
Qed.

(** ** From the token to the simulation *)

Section join.
Context `{GM : GoMath} `{GZ : Gzip} `{GB : Gob} `{CD : Codecs} `{RO : RangeOrder} `{J : Jwt}.

(** Receiving a connect packet queues the avatar; running the queue adds it. *)
Lemma connect_applied now id m s owned s' owned' :
  game_wf (game s) → cmds (game s) = [] →
  relay_recv false now (mkPacket id (KIND_CONNECT m)) s owned = Some (s', owned') →
  applyCmds (game s') = add_new (Entity.New id "avatar" (mRuntimeId m)) (game s).
Proof.
  intros Hwf Hq. set (e0 := Entity.New id "avatar" (mRuntimeId m)). set (h := (alloc_entity e0 (game s)).2).
  assert (cmds h = []) as Hh by done.
  assert (EnqueueAddEntity false (next (game s)) h = Some (h <| cmds := [CmdAdd (next (game s))] |>)) as Henq.
  { unfold EnqueueAddEntity, enqueueCmd. rewrite Hh. change (length (@nil cmd) <? cmdChannelBuffer)%nat with true.
    unfold set_field, set_cmds. by rewrite Hh. }
  unfold relay_recv. cbn [pKind pClientId]. fold e0. destruct (register_client id (registry_ s)) as [l r].
  change (alloc_entity e0 (game s)) with (next (game s), h). cbv beta iota. rewrite Henq. cbn [mbind option_bind]. intros [= <- <-]. cbn [game].
  unfold applyCmds. rewrite applyCmds_loop_all by (cbn [cmds length]; apply (Nat.le_trans _ 1); [done|]; by apply Nat.leb_le).
  cbn [foldl run_cmd cmds]. unfold add_new, AddEntity. fold h. f_equal.
  revert Hh. clear. intros Hh. clearbody h. destruct h. cbn in *. by subst.
Qed.

(** C21. An admitted player appears in the simulation, in the default zone:
    the connect packet that the gateway's relay sends for an admitted token
    makes the game server queue an avatar, and the next run of the command
    queue registers it under the player's identifier, without touching any
    other entity.  The zone named in the token, through which the gateway
    found this server, plays no part: the avatar always enters the zone
    [default], and takes the token's Space unless that zone has one. *)
Theorem player_joins (token : string) (lookup : string → option string) (h h' : Handler) (client addr : string)
    (claims : Claims) (ip : option ipLimiter) (t0 now : Time) (r0 : relayState)
    (pkt : RelayPacket) (s s' : gameServerServer) (owned owned' : list string) :
  handleWS token lookup true h = (Upgraded, h', Some (client, addr, claims)) →
  relay_start true true true client claims ip t0 = Some r0 →
  reachable (game s) → cmds (game s) = [] →
  sent r0 = [pkt] → relay_recv false now pkt s owned = Some (s', owned') →
  let g' := applyCmds (game s') in
  client = cPlayerID claims ∧
  (∃ e, entity_of g' client = Some e ∧ eType e = "avatar" ∧ entityZone g' !! client = Some "default" ∧
     Position e = zero_vec ∧ (zone_obj (game s) "default" = None → eRuntimeID e = cRuntimeID claims)) ∧
  (∀ id, id ≠ client → entity_of g' id = entity_of (game s) id ∧ entityZone g' !! id = entityZone (game s) !! id).
Proof.
  intros Hws Hst Hg Hq Hpkt Hrecv. cbv zeta.
  assert (client = cPlayerID claims) as Hcl.
  { unfold handleWS in Hws. repeat case_match; by simplify_eq. }
  split; [done|]. cbn in Hst. apply (inj Some) in Hst. subst r0. apply reachable_wf in Hg.
  injection Hpkt as <-. rewrite (connect_applied _ _ _ _ _ _ _ Hg Hq Hrecv). cbn [mRuntimeId].
  set (e0 := Entity.New client "avatar" (cRuntimeID claims)).
  destruct (add_new_spec e0 (game s) Hg I) as (_ & He & Hez & _).
  destruct (settled_spec (zone_obj (game s) (zone_for e0)) e0) as (_ & Ht & Hp & _ & _ & _ & _).
  rewrite Hez. split.
  - eexists. rewrite He, decide_True by done. split_and!; [done|done|by rewrite lookup_insert_eq|done|].
    intros Hz. unfold settled, enter_zone. change (zone_for e0) with "default". by rewrite Hz.
  - intros id Hne. rewrite He, decide_False by done. by rewrite lookup_insert_ne.
Qed.
End join.
