(* ===== verification/Client.v ===== *)
(** * The command-line client

    [tools/client/main.go]: it provisions a runtime, signs a token, connects
    to a gateway, walks around a square by position updates, optionally sends
    one action, and prints what it receives.  The theorems follow what it
    sends through the room service, the gateway and the simulation. *)

From S2P Require Import Prelude GoFloat Types Protocol Aoi Entity Game GameInv GameSpec GameView Room RoomStore RoomSpec Cluster Gateway GameServer.
From stdpp Require Import base tactics list gmap strings.
From Stdlib Require Import ZArith Lia.

Local Open Scope Z_scope.

Record client_flags := mkFlags {
  fAddr : string; fPlayer : string; fRuntime : string; fZone : string; fSecret : list Byte.byte; fAction : string;
  fProvision : bool; fZoneCount : Z
}.

(** [proto.Marshal] of the messages it sends, with their time stamp in
    milliseconds; and the signing of claims with HS256. *)
Class ClientWire := {
  marshal_position : EntityUpdate → Z → option (list Byte.byte);
  marshal_action : string → string → Z → list Byte.byte
}.
Class ClientWireLaws (CW : ClientWire) (CD : Codecs) : Prop := {
  position_wire : ∀ u ts d, marshal_position u ts = Some d → unmarshal_update d = Some u;
  action_wire : ∀ id act ts, unmarshal_action (marshal_action id act ts) = Some (mkEntityAction id act [])
}.

Class Signer `{J : Jwt} := jwt_sign : gmap string json → list Byte.byte → string.
(** A signed token is not empty, and until it expires it parses to its claims
    under the key it was signed with. *)
Class SignerLaws `{J : Jwt} (SG : Signer) : Prop := {
  sign_nonempty : ∀ claims secret, jwt_sign claims secret ≠ "";
  sign_parse : ∀ claims secret keyfunc,
    let tok := mkToken true false "HS256" (Some claims) true in
    keyfunc tok = Ok (secret_key secret) → jwt_parse (jwt_sign claims secret) keyfunc = Ok tok
}.

(** ** Provisioning *)

(** [seed_runtime]: the error of the insertion into [runtimes]; the one into
    [zones] is a statement on the tables of the room service. *)
Definition doProvision (pg_ok dial_ok : option string) (api : result code CreateRuntimeResponse) (runtimeID : string)
    (seed_runtime : option string) (w : world) : result string string * world :=
  match pg_ok with
  | Some e => (Err ("connect postgres: " +:+ e), w)
  | None =>
  match dial_ok with
  | Some e => (Err ("dial room-service: " +:+ e), w)
  | None =>
      let zone := match api with
                  | Err _ => Ok (runtimeID +:+ "-z1")
                  | Ok resp => match crZones resp with [] => Err "create runtime returned no zones" | z :: _ => Ok z end
                  end in
      match zone with
      | Err e => (Err e, w)
      | Ok zoneID =>
          match seed_runtime with
          | Some e => (Err ("seed runtime: " +:+ e), w)
          | None =>
              match stmt (λ t, (Ok tt, match zones t !! zoneID with
                                       | Some _ => t
                                       | None => t <| zones ::= <[zoneID := mkZRow runtimeID None "unowned"]> |>
                                       end)) w with
              | (Err _, w) => (Err "seed zone: database error", w)
              | (Ok _, w) => (Ok zoneID, w)
              end
          end
      end
  end
  end.

(** ** Sending *)

(** The corners (100,100), (110,100), (110,110), (100,110). *)
Definition box_corner (tick : Z) : Vector3 :=
  let phase := Z.rem tick 4 in
  if phase =? 0 then mkVector3 (of_int 100) (of_int 0) (of_int 100)
  else if phase =? 1 then mkVector3 (of_int 110) (of_int 0) (of_int 100)
  else if phase =? 2 then mkVector3 (of_int 110) (of_int 0) (of_int 110)
  else if phase =? 3 then mkVector3 (of_int 100) (of_int 0) (of_int 110)
  else mkVector3 (of_int 0) (of_int 0) (of_int 0).

(** One firing of the ticker: the times put in the two messages and whether the writes succeed. *)
Record firing := mkFiring { fi_now : Z; fi_write_ok : bool; fi_action_now : Z; fi_action_ok : bool }.

Section client.
Context `{GZ : Gzip} `{CW : ClientWire}.

(** The frames put on the connection, the counter, and whether the loop goes on. *)
Definition write_step (fl : client_flags) (tick : Z) (f : firing) : list (list Byte.byte) * Z * bool :=
  let pos := box_corner tick in
  let tick := wrap64 (tick + 1) in
  match marshal_position (mkEntityUpdate (fPlayer fl) (Some pos)) (fi_now f) with
  | None => ([], tick, true)
  | Some payload =>
      if negb (fi_write_ok f) then ([], tick, false)
      else
        let act := if bool_decide (fAction fl ≠ "") && (tick =? 1) && fi_action_ok f
                   then [Encode PacketIDEntityAction (marshal_action (fPlayer fl) (fAction fl) (fi_action_now f)) false 1] else [] in
        (Encode PacketIDPositionUpdate payload false 0 :: act, tick, true)
  end.

Fixpoint write_loop (fl : client_flags) (tick : Z) (fs : list firing) : list (list Byte.byte) :=
  match fs with
  | [] => []
  | f :: fs =>
      let '(frames, tick, go) := write_step fl tick f in
      frames ++ (if go : bool then write_loop fl tick fs else [])
  end.
Definition client_frames (fl : client_flags) (fs : list firing) : list (list Byte.byte) := write_loop fl 0 fs.
End client.

(** ** The token *)

Definition client_token `{J : Jwt} {SG : Signer} (fl : client_flags) : string :=
  jwt_sign (<["player_id" := JString (fPlayer fl)]> (<["runtime_id" := JString (fRuntime fl)]>
             (<["zone_id" := JString (fZone fl)]> {["exp" := JOther]}))) (fSecret fl).

(** ** Receiving *)

Inductive client_line :=
| LSpawn (typ id : string) (pos : Vector3)
| LMove (id : string) (pos : Vector3)
| LDespawn (id : string)
| LAction (id action : string)
| LState (id : string)
| LDecodeError (e : error)
| LUnmarshalError (what : string)
| LUnknown (id : Z) (len : nat).

Section reading.
Context `{GZ : Gzip} `{CD : Codecs} `{WI : Wire}.

(** One message of the read loop. *)
Definition read_message (msg : list Byte.byte) : client_line :=
  match Decode msg with
  | (_, _, _, _, _, Some e) => LDecodeError e
  | (_, id, payload, _, _, None) =>
      if id =? PacketIDEntitySpawn then
        match unmarshal_snapshot payload with
        | None => LUnmarshalError "spawn"
        | Some s => LSpawn (snType s) (snEntityId s) (default zero_vec (snPosition s))
        end
      else if id =? PacketIDEntityMove then
        match unmarshal_move payload with
        | None => LUnmarshalError "move"
        | Some u => LMove (uEntityId u) (default zero_vec (uPosition u))
        end
      else if id =? PacketIDEntityDespawn then
        match unmarshal_id payload with None => LUnmarshalError "despawn" | Some i => LDespawn i end
      else if id =? PacketIDEntityAction then
        match unmarshal_action payload with None => LUnmarshalError "action" | Some a => LAction (aEntityId a) (aAction a) end
      else if id =? PacketIDEntityState then
        match unmarshal_state payload with None => LUnmarshalError "state" | Some st => LState (sEntityId st) end
      else LUnknown id (length payload)
  end.
End reading.

(** ** From provisioning to admission *)

Section arrival.
Context `{RO : RangeOrder} `{AL : Allocator} `{ALL : !AllocatorLaws AL} `{J : Jwt} {SG : Signer} {SL : SignerLaws SG}.

Lemma first_zone (id : string) (n : Z) : 0 < n → ∃ l, zone_names id n = (id +:+ "-z1") :: l.
Proof.
  intros Hn. unfold zone_names. replace (Z.to_nat n) with (S (Z.to_nat (n - 1))) by lia. cbn. by eexists.
Qed.

Lemma provision_db api rid t :
  (∀ resp, api = Ok resp → ∃ l, crZones resp = (rid +:+ "-z1") :: l) → db_ok t →
  ∃ t', doProvision None None api rid None (mkWorld t []) = (Ok (rid +:+ "-z1"), mkWorld t' []) ∧
    db_ok t' ∧ is_Some (zones t' !! (rid +:+ "-z1")) ∧ game_servers t' = game_servers t ∧
    ∀ z, owner_of t' z = owner_of t z.
Proof.
  intros Hapi [Hemp Hfk]. unfold doProvision.
  assert ((match api with
           | Err _ => Ok (rid +:+ "-z1")
           | Ok resp => match crZones resp with [] => Err "create runtime returned no zones" | z :: _ => Ok z end
           end : result string string) = Ok (rid +:+ "-z1")) as ->.
  { destruct api as [resp|e]; [|done]. by destruct (Hapi resp eq_refl) as [l ->]. }
  rewrite stmt_nil. cbn [fst snd]. set (zid := rid +:+ "-z1").
  destruct (zones t !! zid) as [row|] eqn:Ez.
  - exists t. split; [done|]. split; [done|]. split; [by rewrite Ez|done].
  - exists (t <| zones ::= <[zid := mkZRow rid None "unowned"]> |>).
    assert (∀ z, owner_of (t <| zones ::= <[zid := mkZRow rid None "unowned"]> |>) z = owner_of t z) as Ho.
    { intros z. rewrite owner_of_insert. case_decide as Hz; [|done]. subst z. unfold owner_of. by rewrite Ez. }
    split; [done|]. split; [split; [done|intros z s; rewrite Ho; apply Hfk]|].
    split; [cbn; by rewrite lookup_insert_eq|done].
Qed.

End arrival.

(** ** What the simulation makes of the frames *)

Section walking.
Context `{GM : GoMath} `{GZ : Gzip} `{GB : Gob} `{CD : Codecs} `{RO : RangeOrder} `{CW : ClientWire} {CL : ClientWireLaws CW CD}.
Implicit Types g : Game.

(** The game handles the frames of a client in order. *)
Definition deliver (client : string) (frames : list (list Byte.byte)) g : Game :=
  foldl (λ g f, dispatch (mkInbound client f) g) g frames.

Lemma deliver_app client l1 l2 g : deliver client (l1 ++ l2) g = deliver client l2 (deliver client l1 g).
Proof. apply foldl_app. Qed.

Lemma dispatch_position_entity client payload u g e :
  unmarshal_update payload = Some u → entity_of g client = Some e →
  entity_of (dispatch_position client payload g) client = Some (e <| Position := default zero_vec (uPosition u) |>).
Proof.
  intros Hu He. unfold entity_of in He. destruct (Entities g !! client) as [p|] eqn:Hp; [|done]. cbn in He.
  unfold dispatch_position. rewrite Hu, Hp, He. cbv zeta.
  set (g1 := g <| eheap ::= _ |>). unfold entity_of.
  rewrite (fr_Entities _ _ (fr_enqueueMove _ _ _)), (fr_Entities _ _ (fr_move_in_zone _ _ _)).
  rewrite (enqueueMove_proj eheap) by apply publish_eheap. rewrite move_in_zone_eheap.
  change (Entities g1) with (Entities g). rewrite Hp. unfold g1. cbn. by rewrite lookup_insert_eq.
Qed.

(** An action on an entity the client does not own is ignored. *)
Lemma dispatch_action_foreign client payload a g e :
  unmarshal_action payload = Some a → entity_of g (aEntityId a) = Some e → eOwnerID e ≠ client →
  dispatch_action client payload g = g.
Proof.
  intros Ha He Ho. unfold entity_of in He. destruct (Entities g !! aEntityId a) as [p|] eqn:Hp; [|done]. cbn in He.
  unfold dispatch_action. by rewrite Ha, Hp, He, bool_decide_true.
Qed.

(** One round of the client at the game. *)
Lemma write_step_delivered fl tick f frames tick' go g e :
  0 ≤ tick < max_int64 → fi_write_ok f = true → (∀ u ts, is_Some (marshal_position u ts)) →
  entity_of g (fPlayer fl) = Some e → eOwnerID e ≠ fPlayer fl →
  write_step fl tick f = (frames, tick', go) →
  go = true ∧ tick' = tick + 1 ∧ ∃ payload,
    deliver (fPlayer fl) frames g = dispatch_position (fPlayer fl) payload g ∧
    entity_of (deliver (fPlayer fl) frames g) (fPlayer fl) = Some (e <| Position := box_corner tick |>) ∧
    marshal_position (mkEntityUpdate (fPlayer fl) (Some (box_corner tick))) (fi_now f) = Some payload.
Proof.
  intros Ht Hw Hm He Ho. unfold write_step. rewrite Hw. cbn [negb].
  destruct (Hm (mkEntityUpdate (fPlayer fl) (Some (box_corner tick))) (fi_now f)) as [payload Hp]. rewrite Hp.
  rewrite wrap64_id by (unfold in_int64, max_int64 in *; lia). intros [= <- <- <-]. split; [done|]. split; [done|].
  exists payload. pose proof (position_wire _ _ _ Hp) as Hu.
  pose proof (dispatch_position_entity (fPlayer fl) payload _ g e Hu He) as Hpos. cbn in Hpos.
  assert (dispatch (mkInbound (fPlayer fl) (Encode PacketIDPositionUpdate payload false 0)) g =
          dispatch_position (fPlayer fl) payload g) as Hd.
  { unfold dispatch. cbn [Data ClientID]. by rewrite Decode_Encode_plain by done. }
  assert (deliver (fPlayer fl) (Encode PacketIDPositionUpdate payload false 0 ::
    (if bool_decide (fAction fl ≠ "") && (tick + 1 =? 1) && fi_action_ok f
     then [Encode PacketIDEntityAction (marshal_action (fPlayer fl) (fAction fl) (fi_action_now f)) false 1] else [])) g =
    dispatch_position (fPlayer fl) payload g) as Hdel.
  { unfold deliver. cbn [foldl]. rewrite Hd. destruct (_ && _ && _); [|done]. cbn [foldl].
    unfold dispatch. cbn [Data ClientID]. rewrite Decode_Encode_plain by done. cbn.
    apply (dispatch_action_foreign _ _ _ _ _ (action_wire _ _ _) Hpos). done. }
  split_and!; [done| |done]. rewrite Hdel. exact Hpos.
Qed.

(** The client walks around its square: when its writes succeed, the frames
    it sends move the avatar the relay made for it to the corner of the last
    firing of its ticker, whatever else it is, and nothing is changed by the
    action it may send: the relay makes avatars without an owner, so the
    simulation refuses the action of the player that controls it. *)
Theorem client_walks (fl : client_flags) (fs : list firing) (f : firing) (g : Game) (e : Entity) :
  (∀ u ts, is_Some (marshal_position u ts)) → Forall (λ f, fi_write_ok f = true) (fs ++ [f]) →
  Z.of_nat (length fs) < max_int64 → entity_of g (fPlayer fl) = Some e → eOwnerID e = "" → fPlayer fl ≠ "" →
  let quiet := mkFlags (fAddr fl) (fPlayer fl) (fRuntime fl) (fZone fl) (fSecret fl) "" (fProvision fl) (fZoneCount fl) in
  entity_of (deliver (fPlayer fl) (client_frames fl (fs ++ [f])) g) (fPlayer fl) =
    Some (e <| Position := box_corner (Z.of_nat (length fs)) |>) ∧
  deliver (fPlayer fl) (client_frames fl (fs ++ [f])) g = deliver (fPlayer fl) (client_frames quiet (fs ++ [f])) g.
Proof.
  intros Hm Hall Hlen He Ho Hpl quiet.
  assert (∀ l t h e0, Forall (λ f, fi_write_ok f = true) (l ++ [f]) → 0 ≤ t → t + Z.of_nat (length l) < max_int64 →
    entity_of h (fPlayer fl) = Some e0 → eOwnerID e0 = "" →
    entity_of (deliver (fPlayer fl) (write_loop fl t (l ++ [f])) h) (fPlayer fl) = Some (e0 <| Position := box_corner (t + Z.of_nat (length l)) |>) ∧
    deliver (fPlayer fl) (write_loop fl t (l ++ [f])) h = deliver (fPlayer fl) (write_loop quiet t (l ++ [f])) h) as H.
  { clear fs Hall Hlen g e He Ho. induction l as [|f0 l IH]; intros t h e0 Hall Ht Hlen He Ho; cbn [app write_loop length] in *;
      apply Forall_cons in Hall as [Hf Hall];
      (destruct (write_step fl t _) as [[fr1 t1] go1] eqn:E1; destruct (write_step quiet t _) as [[fr2 t2] go2] eqn:E2;
       assert (eOwnerID e0 ≠ fPlayer fl) as Hne by (rewrite Ho; congruence);
       destruct (write_step_delivered fl t _ fr1 t1 go1 h e0 ltac:(lia) Hf Hm He Hne E1) as (-> & -> & p1 & D1 & P1 & M1);
       destruct (write_step_delivered quiet t _ fr2 t2 go2 h e0 ltac:(lia) Hf Hm He Hne E2) as (-> & -> & p2 & D2 & _ & M2)).
    - rewrite !app_nil_r. rewrite Z.add_0_r. split; [exact P1|].
      cbn [fPlayer quiet] in M2, D2. rewrite M1 in M2. injection M2 as <-. by rewrite D1, D2.
    - cbn [fPlayer quiet] in M2, D2. rewrite M1 in M2. injection M2 as <-. rewrite !deliver_app, D2, <-D1.
      destruct (IH (t + 1) (deliver (fPlayer fl) fr1 h) (e0 <| Position := box_corner t |>)) as [I1 I2]; [done|lia|lia|done|done|].
      split; [|exact I2]. replace (t + Z.of_nat (S (length l))) with (t + 1 + Z.of_nat (length l)) by lia. exact I1. }
  destruct (H fs 0 g e) as [H1 H2]; [done|lia|lia|done|done|]. by split.
Qed.

(** *** What the client prints *)

(** The client understands the server: the line it prints for the packet of an
    event tells the event. *)
Theorem client_reads_events `{WI : Wire} `{!WireLaws WI} (evt : Event) (st : EntityState) :
  (evKind evt = EventState → unmarshal_state (evPayload evt) = Some st) →
  read_message (encodeEvent evt) =
  match evKind evt with
  | EventSpawn => LSpawn (evType evt) (evEntityID evt) (evPosition evt)
  | EventDespawn => LDespawn (evEntityID evt)
  | EventMove => LMove (evEntityID evt) (evPosition evt)
  | EventState => LState (sEntityId st)
  end.
Proof.
  intros Hst. unfold read_message, encodeEvent, encodeSpawnEvent, encodeDespawnEvent, encodeMoveEvent.
  destruct (evKind evt) eqn:E; rewrite Decode_Encode_plain by done; cbn; rewrite ?wire_snapshot, ?wire_id, ?wire_update; try done.
  by rewrite Hst.
Qed.
End walking.
