(* ===== verification/Sessions.v ===== *)
(** * The session store of the gateway

    [internal/gateway/token.go] and [store.go]: opaque tokens drawn from 32
    random bytes, and the records behind them in Redis under a sliding
    expiry.

    Redis is a parameter: a class of the four commands the store uses, each
    executed at a time of the server's clock and each of which may fail; its
    laws state the documented effect of a command on the keys and their
    deadlines, where a command that reports a failure may or may not have
    been executed.  The JSON encoding of a record is a parameter with its
    round-trip law; [crypto/rand] is an input. *)

From S2P Require Import Prelude Types Protocol.
From stdpp Require Import base tactics list gmap strings.
From Stdlib Require Import ZArith Lia Ascii.
From Stdlib.Strings Require Import Byte.

Local Open Scope Z_scope.

(** ** Tokens *)

(** [base64.RawURLEncoding]: six bits per character, no padding. *)
Definition url_alphabet : list ascii :=
  String.list_ascii_of_string "ABCDEFGHIJKLMNOPQRSTUVWXYZabcdefghijklmnopqrstuvwxyz0123456789-_".
Definition b64_char (n : Z) : ascii := default "A"%char (url_alphabet !! Z.to_nat n).
Definition sextet (v : Z) (shift : Z) : ascii := b64_char (Z.land (Z.shiftr v shift) 63).

Fixpoint encode64 (l : list byte) : list ascii :=
  match l with
  | a :: b :: c :: l =>
      let v := Z.lor (Z.shiftl (Z_of_byte a) 16) (Z.lor (Z.shiftl (Z_of_byte b) 8) (Z_of_byte c)) in
      sextet v 18 :: sextet v 12 :: sextet v 6 :: sextet v 0 :: encode64 l
  | [a; b] =>
      let v := Z.lor (Z.shiftl (Z_of_byte a) 16) (Z.shiftl (Z_of_byte b) 8) in
      [sextet v 18; sextet v 12; sextet v 6]
  | [a] => let v := Z.shiftl (Z_of_byte a) 16 in [sextet v 18; sextet v 12]
  | [] => []
  end.
Definition EncodeToString (l : list byte) : string := String.string_of_list_ascii (encode64 l).

Example base64_samples :
  (EncodeToString [x4d; x61; x6e], EncodeToString [xff; xff], EncodeToString [xfb], EncodeToString []) =
  ("TWFu", "__8", "-w", "")%string.
Proof. reflexivity. Qed.

(** [b] is the outcome of [rand.Read] on a slice of 32 bytes. *)
Definition GenerateToken (b : result string (list byte)) : result string string :=
  match b with
  | Err e => Err ("generate token: " +:+ e)
  | Ok b => Ok (EncodeToString b)
  end.

(** ** Records *)

Record SessionRecord := mkSessionRecord {
  srPlayerID : string; srRuntimeID : string; srZoneID : string; srGameServerAddr : string;
  srCreatedAt : Time; srLastActivity : Time; srSourceIP : string
}.
Definition eta_session (s : SessionRecord) :=
  mkSessionRecord (srPlayerID s) (srRuntimeID s) (srZoneID s) (srGameServerAddr s) (srCreatedAt s) (srLastActivity s) (srSourceIP s).
#[export] Instance set_srCreatedAt : Setter srCreatedAt. Proof. solve_setter eta_session. Defined.
#[export] Instance set_srLastActivity : Setter srLastActivity. Proof. solve_setter eta_session. Defined.

Class SessionJson := {
  marshal_session : SessionRecord → result string (list byte);
  unmarshal_session : list byte → result string SessionRecord
}.
Class SessionJsonLaws (J : SessionJson) : Prop := {
  session_json_roundtrip : ∀ rec d, marshal_session rec = Ok d → unmarshal_session d = Ok rec
}.

(** ** Redis *)

Inductive redis_error := RedisNil | RedisFailure (msg : string).

(** The commands with the time the server executes them at. *)
Class Redis (R : Type) := {
  redis_Set : string → list byte → Duration → Time → R → option string * R;
  redis_Get : string → Time → R → result redis_error (list byte) * R;
  redis_Expire : string → Duration → Time → R → option string * R;
  redis_Del : string → Time → R → option string * R
}.

(** The keys with their values and deadlines; a key past its deadline is gone. *)
Abbreviation keyspace := (gmap string (list byte * Time)) (only parsing).
Definition live {A} (k : string) (now : Time) (m : gmap string (A * Time)) : option A :=
  match m !! k with Some (v, d) => if now <? d then Some v else None | None => None end.
Definition slide {A} (ttl : Duration) (k : string) (now : Time) (m : gmap string (A * Time)) : gmap string (A * Time) :=
  match live k now m with Some v => <[k := (v, time_add now ttl)]> m | None => m end.

(** Expiry times the client transmits exactly: whole milliseconds. *)
Definition ttl_ok (ttl : Duration) : Prop := Millisecond ≤ ttl ∧ ttl `mod` Millisecond = 0.

(** A command that answers [e] and would change [m] to [m1] left [m']. *)
Definition executed {M} (e : option string) (m m1 m' : M) : Prop := m' = m1 ∨ (e ≠ None ∧ m' = m).

Class RedisLaws {R : Type} (RD : Redis R) := {
  entries : R → keyspace;
  redis_Set_law : ∀ k v ttl now r, ttl_ok ttl →
    let '(e, r') := redis_Set k v ttl now r in
    executed e (entries r) (<[k := (v, time_add now ttl)]> (entries r)) (entries r');
  redis_Get_law : ∀ k now r,
    let '(res, r') := redis_Get k now r in
    entries r' = entries r ∧
    match res with Ok v => live k now (entries r) = Some v | Err RedisNil => live k now (entries r) = None | Err _ => True end;
  redis_Expire_law : ∀ k ttl now r, ttl_ok ttl →
    let '(e, r') := redis_Expire k ttl now r in
    executed e (entries r) (slide ttl k now (entries r)) (entries r');
  redis_Del_law : ∀ k now r,
    let '(e, r') := redis_Del k now r in
    executed e (entries r) (delete k (entries r)) (entries r')
}.

(** ** The store *)

Definition sessionKeyPrefix : string := "session:".
Definition session_key (token : string) : string := sessionKeyPrefix +:+ token.

Section store.
Context `{J : SessionJson} {R : Type} {RD : Redis R}.

Record RedisSessionStore := NewRedisSessionStore { client : R; ttl : Duration }.

(** The record as it is written. *)
Definition stamped (clock : Time) (rec : SessionRecord) : SessionRecord :=
  let rec := if time_is_zero (srCreatedAt rec) then rec <| srCreatedAt := clock |> else rec in
  rec <| srLastActivity := srCreatedAt rec |>.

Definition Issue (b : result string (list byte)) (rec : SessionRecord) (clock now : Time) (s : RedisSessionStore)
    : result string string * RedisSessionStore :=
  match GenerateToken b with
  | Err e => (Err e, s)
  | Ok token =>
      match marshal_session (stamped clock rec) with
      | Err e => (Err ("marshal session record: " +:+ e), s)
      | Ok data =>
          let '(e, r) := redis_Set (session_key token) data (ttl s) now (client s) in
          let s := NewRedisSessionStore r (ttl s) in
          match e with Some e => (Err ("redis set session: " +:+ e), s) | None => (Ok token, s) end
      end
  end.

Definition Touch (token : string) (now : Time) (s : RedisSessionStore) : option string * RedisSessionStore :=
  let '(e, r) := redis_Expire (session_key token) (ttl s) now (client s) in
  ((λ e, "redis expire session: " +:+ e) <$> e, NewRedisSessionStore r (ttl s)).

(** [Ok None]: there is no such session.  The expiry is renewed by a second
    command, at its own time. *)
Definition LookupSession (token : string) (now now' : Time) (s : RedisSessionStore)
    : result string (option SessionRecord) * RedisSessionStore :=
  let '(raw, r) := redis_Get (session_key token) now (client s) in
  let s := NewRedisSessionStore r (ttl s) in
  match raw with
  | Err RedisNil => (Ok None, s)
  | Err (RedisFailure e) => (Err ("redis get session: " +:+ e), s)
  | Ok raw =>
      match unmarshal_session raw with
      | Err e => (Err ("unmarshal session record: " +:+ e), s)
      | Ok rec =>
          let '(e, s) := Touch token now' s in
          match e with Some e => (Err e, s) | None => (Ok (Some rec), s) end
      end
  end.

Definition Revoke (token : string) (now : Time) (s : RedisSessionStore) : option string * RedisSessionStore :=
  let '(e, r) := redis_Del (session_key token) now (client s) in
  ((λ e, "redis del session: " +:+ e) <$> e, NewRedisSessionStore r (ttl s)).

(** Sequences of operations, of any number of gateways, with their answers. *)
Inductive session_op :=
| OpIssue (b : result string (list byte)) (rec : SessionRecord) (clock now : Time)
| OpLookup (token : string) (now now' : Time)
| OpTouch (token : string) (now : Time)
| OpRevoke (token : string) (now : Time).

Inductive session_answer :=
| Issued (res : result string string)
| Found (res : result string (option SessionRecord))
| Done (e : option string).

Definition session_step (op : session_op) (s : RedisSessionStore) : session_answer * RedisSessionStore :=
  match op with
  | OpIssue b rec clock now => let '(res, s) := Issue b rec clock now s in (Issued res, s)
  | OpLookup token now now' => let '(res, s) := LookupSession token now now' s in (Found res, s)
  | OpTouch token now => let '(e, s) := Touch token now s in (Done e, s)
  | OpRevoke token now => let '(e, s) := Revoke token now s in (Done e, s)
  end.

Fixpoint session_run (ops : list session_op) (s : RedisSessionStore) : list session_answer * RedisSessionStore :=
  match ops with
  | [] => ([], s)
  | op :: ops =>
      let '(a, s) := session_step op s in
      let '(l, s) := session_run ops s in (a :: l, s)
  end.
End store.
Arguments RedisSessionStore : clear implicits.

(** ** Tokens are distinct *)

Lemma url_alphabet_nodup : NoDup url_alphabet.
Proof. apply (bool_decide_eq_true _). vm_compute. reflexivity. Qed.

Lemma b64_char_inj n m : 0 ≤ n < 64 → 0 ≤ m < 64 → b64_char n = b64_char m → n = m.
Proof.
  intros Hn Hm. unfold b64_char.
  assert (length url_alphabet = 64%nat) as Hl by reflexivity.
  destruct (lookup_lt_is_Some_2 url_alphabet (Z.to_nat n)) as [c Hc]; [lia|].
  destruct (lookup_lt_is_Some_2 url_alphabet (Z.to_nat m)) as [c' Hc']; [lia|].
  rewrite Hc, Hc'. cbn. intros <-.
  pose proof (NoDup_lookup _ _ _ _ url_alphabet_nodup Hc Hc'). lia.
Qed.

Lemma sextet_inj v w s : 0 ≤ s → sextet v s = sextet w s → (v / 2 ^ s) `mod` 64 = (w / 2 ^ s) `mod` 64.
Proof.
  intros Hs. unfold sextet. change 63 with (Z.ones 6). rewrite !Z.land_ones, !Z.shiftr_div_pow2 by lia. change (2 ^ 6) with 64.
  apply b64_char_inj; apply Z.mod_pos_bound; lia.
Qed.

(** The 24 bits of a group. *)
Lemma group_sum a b c :
  Z.lor (Z.shiftl (Z_of_byte a) 16) (Z.lor (Z.shiftl (Z_of_byte b) 8) (Z_of_byte c)) =
  Z_of_byte a * 65536 + Z_of_byte b * 256 + Z_of_byte c.
Proof.
  pose proof (Z_of_byte_range b). pose proof (Z_of_byte_range c).
  rewrite (Z.lor_comm (Z.shiftl (Z_of_byte b) 8)), lor_shiftl_add, Z.lor_comm, lor_shiftl_add by lia. lia.
Qed.

Lemma group_inj a b c a' b' c' :
  let v := Z_of_byte a * 65536 + Z_of_byte b * 256 + Z_of_byte c in
  let w := Z_of_byte a' * 65536 + Z_of_byte b' * 256 + Z_of_byte c' in
  sextet v 18 = sextet w 18 → sextet v 12 = sextet w 12 → sextet v 6 = sextet w 6 → sextet v 0 = sextet w 0 →
  a = a' ∧ b = b' ∧ c = c'.
Proof.
  cbv zeta. pose proof (Z_of_byte_range a). pose proof (Z_of_byte_range b). pose proof (Z_of_byte_range c).
  pose proof (Z_of_byte_range a'). pose proof (Z_of_byte_range b'). pose proof (Z_of_byte_range c').
  intros S1%sextet_inj S2%sextet_inj S3%sextet_inj S4%sextet_inj; try lia.
  change (2 ^ 18) with 262144 in *. change (2 ^ 12) with 4096 in *. change (2 ^ 6) with 64 in *. change (2 ^ 0) with 1 in *.
  assert (Z_of_byte a = Z_of_byte a' ∧ Z_of_byte b = Z_of_byte b' ∧ Z_of_byte c = Z_of_byte c') as (E1 & E2 & E3).
  { Z.to_euclidean_division_equations. lia. }
  apply (f_equal byte_of_Z) in E1, E2, E3. by rewrite !byte_of_Z_of_byte in E1, E2, E3.
Qed.

(** A group of one or two bytes is a full group with zeros, of which fewer
    characters are written. *)
Lemma group_sum2 a b :
  Z.lor (Z.shiftl (Z_of_byte a) 16) (Z.shiftl (Z_of_byte b) 8) = Z_of_byte a * 65536 + Z_of_byte b * 256 + Z_of_byte x00.
Proof. rewrite <-group_sum. change (Z_of_byte x00) with 0. by rewrite Z.lor_0_r. Qed.

Lemma group_sum1 a : Z.shiftl (Z_of_byte a) 16 = Z_of_byte a * 65536 + Z_of_byte x00 * 256 + Z_of_byte x00.
Proof. rewrite <-group_sum2. change (Z_of_byte x00) with 0. by rewrite Z.shiftl_0_l, Z.lor_0_r. Qed.

(** The low bits of such a group are zero. *)
Lemma sextet_low a b : sextet (Z_of_byte a * 65536 + Z_of_byte b * 256 + Z_of_byte x00) 0 = "A"%char.
Proof.
  unfold sextet. change 63 with (Z.ones 6). rewrite Z.land_ones, Z.shiftr_div_pow2 by lia. change (Z_of_byte x00) with 0.
  replace (_ `mod` 2 ^ 6) with 0; [done|]. change (2 ^ 0) with 1. change (2 ^ 6) with 64. Z.to_euclidean_division_equations. lia.
Qed.

Lemma sextet_mid a : sextet (Z_of_byte a * 65536 + Z_of_byte x00 * 256 + Z_of_byte x00) 6 = "A"%char.
Proof.
  unfold sextet. change 63 with (Z.ones 6). rewrite Z.land_ones, Z.shiftr_div_pow2 by lia. change (Z_of_byte x00) with 0.
  replace (_ `mod` 2 ^ 6) with 0; [done|]. change (2 ^ 6) with 64. Z.to_euclidean_division_equations. lia.
Qed.

Lemma encode64_inj l l' : encode64 l = encode64 l' → l = l'.
Proof.
  revert l'. induction l as [l IH] using (induction_ltof1 _ length). unfold ltof in IH. intros l'.
  destruct l as [|a [|b [|c l]]], l' as [|a' [|b' [|c' l']]]; cbn [encode64]; try done.
  - rewrite !group_sum1. intros [= E1 E2].
    destruct (group_inj a x00 x00 a' x00 x00) as (-> & _ & _); rewrite ?sextet_low, ?sextet_mid; done.
  - rewrite !group_sum2. intros [= E1 E2 E3].
    destruct (group_inj a b x00 a' b' x00) as (-> & -> & _); rewrite ?sextet_low; done.
  - rewrite !group_sum. intros [= E1 E2 E3 E4 E5].
    destruct (group_inj a b c a' b' c') as (-> & -> & ->); [done..|]. do 3 f_equal. apply IH; [cbn; lia|done].
Qed.

Lemma length_encode64 l : Z.of_nat (length (encode64 l)) = (Z.of_nat (length l) * 8 + 5) / 6.
Proof.
  induction l as [l IH] using (induction_ltof1 _ length). unfold ltof in IH.
  destruct l as [|a [|b [|c l]]]; try reflexivity. cbn [encode64 length].
  rewrite !Nat2Z.inj_succ, IH by (cbn; lia). Z.to_euclidean_division_equations. lia.
Qed.

(** ** Refinement of a table of sessions

    What the store promises: a table from tokens to records and deadlines. *)

Abbreviation sessions := (gmap string (SessionRecord * Time)) (only parsing).

Section spec.
Context (lifetime : Duration).

Definition with_session (b : list byte) (rec : SessionRecord) (clock now : Time) (m : sessions) : sessions :=
  <[EncodeToString b := (stamped clock rec, time_add now lifetime)]> m.

(** One operation of the table, for the answer it gave.  An operation that
    answers with an error may have been executed. *)
Definition spec_step (m : sessions) (op : session_op) (a : session_answer) (m' : sessions) : Prop :=
  match op, a with
  | OpIssue b rec clock now, Issued (Ok token) =>
      ∃ bs, b = Ok bs ∧ token = EncodeToString bs ∧ m' = with_session bs rec clock now m
  | OpIssue b rec clock now, Issued (Err _) => m' = m ∨ ∃ bs, b = Ok bs ∧ m' = with_session bs rec clock now m
  | OpLookup token now now', Found (Ok (Some rec)) => live token now m = Some rec ∧ m' = slide lifetime token now' m
  | OpLookup token now now', Found (Ok None) => live token now m = None ∧ m' = m
  | OpLookup token now now', Found (Err _) => m' = m ∨ m' = slide lifetime token now' m
  | OpTouch token now, Done e => executed e m (slide lifetime token now m) m'
  | OpRevoke token now, Done e => executed e m (delete token m) m'
  | _, _ => False
  end.

Fixpoint spec_run (m : sessions) (ops : list session_op) (l : list session_answer) (m' : sessions) : Prop :=
  match ops, l with
  | [], [] => m' = m
  | op :: ops, a :: l => ∃ m1, spec_step m op a m1 ∧ spec_run m1 ops l m'
  | _, _ => False
  end.
End spec.

Section refinement.
Context `{J : SessionJson} {JL : SessionJsonLaws J} {R : Type} {RD : Redis R} {RL : RedisLaws RD}.

(** The keys of the store hold the table. *)
Definition holds (E : keyspace) (m : sessions) : Prop :=
  ∀ token, match m !! token, E !! session_key token with
           | Some (rec, d), Some (data, d') => marshal_session rec = Ok data ∧ d' = d
           | None, None => True
           | _, _ => False
           end.

Lemma session_key_inj t t' : session_key t = session_key t' → t = t'.
Proof. by intros H%(inj (String.app sessionKeyPrefix)). Qed.

Lemma holds_insert E m token rec data d :
  holds E m → marshal_session rec = Ok data → holds (<[session_key token := (data, d)]> E) (<[token := (rec, d)]> m).
Proof.
  intros H Hd t. destruct (decide (t = token)) as [-> | Hne]; [by rewrite !lookup_insert_eq|].
  rewrite !lookup_insert_ne by (done || by intros ?%session_key_inj). apply H.
Qed.

Lemma holds_delete E m token : holds E m → holds (delete (session_key token) E) (delete token m).
Proof.
  intros H t. destruct (decide (t = token)) as [-> | Hne]; [by rewrite !lookup_delete_eq|].
  rewrite !lookup_delete_ne by (done || by intros ?%session_key_inj). apply H.
Qed.

Lemma holds_live E m token now :
  holds E m →
  match live token now m, live (session_key token) now E with
  | Some rec, Some data => marshal_session rec = Ok data
  | None, None => True
  | _, _ => False
  end.
Proof.
  intros H. specialize (H token). unfold live.
  destruct (m !! token) as [[rec d]|], (E !! session_key token) as [[data d']|]; try done.
  destruct H as [H ->]. by destruct (now <? d).
Qed.

Lemma holds_slide E m token now lifetime :
  holds E m → holds (slide lifetime (session_key token) now E) (slide lifetime token now m).
Proof.
  intros H. unfold slide. pose proof (holds_live E m token now H) as Hl.
  destruct (live token now m), (live (session_key token) now E); try done. by apply holds_insert.
Qed.

(** A command that may have been executed. *)
Lemma holds_executed E E1 E' m m1 e :
  executed e E E1 E' → holds E m → holds E1 m1 → ∃ m', executed e m m1 m' ∧ holds E' m'.
Proof. intros [-> | [He ->]] H H1; [exists m1|exists m]; split; auto; [by left|by right]. Qed.

Lemma executed_fmap {M} (f : string → string) e (m m1 m' : M) : executed e m m1 m' → executed (f <$> e) m m1 m'.
Proof. unfold executed. destruct e; naive_solver. Qed.

Lemma Touch_holds token now s m :
  ttl_ok (ttl s) → holds (entries (client s)) m →
  let '(e, s') := Touch token now s in
  ttl s' = ttl s ∧ ∃ m', executed e m (slide (ttl s) token now m) m' ∧ holds (entries (client s')) m'.
Proof.
  intros Ht H. unfold Touch. pose proof (redis_Expire_law (session_key token) (ttl s) now (client s) Ht) as L.
  destruct (redis_Expire _ _ _ _) as [e r]. cbn. split; [done|].
  destruct (holds_executed _ _ _ _ _ _ L H (holds_slide _ _ token now (ttl s) H)) as (m' & He & Hm').
  exists m'. split; [by apply executed_fmap|done].
Qed.

Lemma session_step_refines op s m :
  ttl_ok (ttl s) → holds (entries (client s)) m →
  let '(a, s') := session_step op s in
  ttl s' = ttl s ∧ ∃ m', spec_step (ttl s) m op a m' ∧ holds (entries (client s')) m'.
Proof.
  intros Ht H. destruct op as [b rec clock now|token now now'|token now|token now]; cbn [session_step].
  - unfold Issue, GenerateToken. destruct b as [bs|e]; [|by split; [done|exists m; split; [by left|done]]].
    destruct (marshal_session (stamped clock rec)) as [data|e] eqn:Ed; [|by split; [done|exists m; split; [by left|done]]].
    pose proof (redis_Set_law (session_key (EncodeToString bs)) data (ttl s) now (client s) Ht) as L.
    destruct (redis_Set _ _ _ _ _) as [[e|] r]; cbn; (split; [done|]).
    + destruct L as [-> | [_ ->]]; [|by exists m; split; [left|]].
      exists (with_session (ttl s) bs rec clock now m). split; [right; by eauto|by apply holds_insert].
    + destruct L as [-> | [? _]]; [|done]. eexists. split; [by exists bs|by apply holds_insert].
  - unfold LookupSession. pose proof (redis_Get_law (session_key token) now (client s)) as L.
    pose proof (holds_live _ _ token now H) as Hl.
    destruct (redis_Get _ _ _) as [[data|[|e]] r]; destruct L as [Hr L].
    + rewrite L in Hl. destruct (live token now m) as [rec|] eqn:El; [|done].
      rewrite (session_json_roundtrip _ _ Hl).
      pose proof (Touch_holds token now' (NewRedisSessionStore r (ttl s)) m Ht) as HT. cbn [client ttl] in HT.
      rewrite Hr in HT. specialize (HT H). destruct (Touch _ _ _) as [e s'].
      destruct HT as [Hs (m' & He & Hm')]. destruct e as [e|]; (split; [done|]); exists m'; (split; [|done]).
      * destruct He as [-> | [_ ->]]; [by right|by left].
      * destruct He as [-> | [? _]]; [|done]. by split.
    + rewrite L in Hl. cbn. split; [done|]. exists m. rewrite Hr. split; [|done]. split; [|done]. by destruct (live token now m).
    + cbn. split; [done|]. exists m. rewrite Hr. split; [by left|done].
  - pose proof (Touch_holds token now s m Ht H) as HT. by destruct (Touch token now s).
  - unfold Revoke. pose proof (redis_Del_law (session_key token) now (client s)) as L.
    destruct (redis_Del _ _ _) as [e r]. cbn. split; [done|].
    destruct (holds_executed _ _ _ _ _ _ L H (holds_delete _ _ token H)) as (m' & He & Hm').
    exists m'. split; [by apply executed_fmap|done].
Qed.

End refinement.

(** ** The life of a token *)

(** What the history of the operations says of a token: its record and its
    deadline. *)
Definition history_step (lifetime : Duration) (token : string) (h : option (SessionRecord * Time)) (op : session_op)
    : option (SessionRecord * Time) :=
  let renew now := match h with Some (rec, d) => Some (rec, if now <? d then time_add now lifetime else d) | None => None end in
  match op with
  | OpIssue (Ok bs) rec clock now =>
      if bool_decide (EncodeToString bs = token) then Some (stamped clock rec, time_add now lifetime) else h
  | OpIssue (Err _) _ _ _ => h
  | OpLookup t now now' =>
      if bool_decide (t = token)
      then match h with Some (rec, d) => if now <? d then renew now' else h | None => h end else h
  | OpTouch t now => if bool_decide (t = token) then renew now else h
  | OpRevoke t now => if bool_decide (t = token) then None else h
  end.
Definition history (lifetime : Duration) (token : string) (ops : list session_op) : option (SessionRecord * Time) :=
  foldl (history_step lifetime token) None ops.

Definition answered (a : session_answer) : bool :=
  match a with Issued r => is_ok r | Found r => is_ok r | Done e => bool_decide (e = None) end.

Lemma lookup_slide {A} lifetime t now (m : gmap string (A * Time)) k :
  slide lifetime t now m !! k =
  if bool_decide (t = k) then match m !! k with Some (v, d) => Some (v, if now <? d then time_add now lifetime else d) | None => None end
  else m !! k.
Proof.
  unfold slide, live. case_bool_decide as Hk.
  - subst t. destruct (m !! k) as [[v d]|] eqn:E; [|done]. destruct (now <? d); [by rewrite lookup_insert_eq|done].
  - destruct (m !! t) as [[v d]|]; [|done]. destruct (now <? d); [by rewrite lookup_insert_ne|done].
Qed.

(** An operation that did not fail does to each token what its history says. *)
Lemma spec_step_history lifetime m op a m' token :
  answered a = true → spec_step lifetime m op a m' → m' !! token = history_step lifetime token (m !! token) op.
Proof.
  destruct op as [b rec clock now|t now now'|t now|t now], a as [[]|[[]|]|[]]; try done; cbn [spec_step history_step].
  - intros _ (bs & -> & -> & ->). unfold with_session. case_bool_decide as E; [subst; by rewrite lookup_insert_eq|by rewrite lookup_insert_ne].
  - intros _ [Hl ->]. rewrite lookup_slide. case_bool_decide as E; [|done]. subst t.
    unfold live in Hl. destruct (m !! token) as [[v d]|]; [|done]. by destruct (now <? d).
  - intros _ [Hl ->]. case_bool_decide as E; [|done]. subst t. unfold live in Hl.
    destruct (m !! token) as [[v d]|]; [|done]. by destruct (now <? d).
  - intros _ [-> | [? _]]; [|done]. rewrite lookup_slide. by case_bool_decide.
  - intros _ [-> | [? _]]; [|done]. case_bool_decide as E; [subst; by rewrite lookup_delete_eq|by rewrite lookup_delete_ne].
Qed.

Lemma spec_run_history lifetime ops answers m m' token :
  forallb answered answers = true → spec_run lifetime m ops answers m' →
  m' !! token = foldl (history_step lifetime token) (m !! token) ops.
Proof.
  revert answers m. induction ops as [|op ops IH]; intros [|a answers] m; cbn [spec_run forallb foldl]; try done.
  { by intros _ ->. }
  intros [Ha Hl]%andb_true_iff (m1 & H1 & H2). rewrite (IH answers m1 Hl H2). f_equal. by eapply spec_step_history.
Qed.

(** The session of the token of [bs], last renewed at [t], is only renewed by
    [ops], each time before it runs out; the last time is [t']. *)
Fixpoint kept (lifetime : Duration) (bs : list byte) (t : Time) (ops : list session_op) (t' : Time) : Prop :=
  match ops with
  | [] => t' = t
  | op :: ops =>
      match op with
      | OpIssue b _ _ _ => b ≠ Ok bs ∧ kept lifetime bs t ops t'
      | OpLookup token now now' =>
          if bool_decide (token = EncodeToString bs)
          then (now < t + lifetime ∧ now' < t + lifetime) ∧ kept lifetime bs now' ops t'
          else kept lifetime bs t ops t'
      | OpTouch token now =>
          if bool_decide (token = EncodeToString bs) then now < t + lifetime ∧ kept lifetime bs now ops t'
          else kept lifetime bs t ops t'
      | OpRevoke token _ => token ≠ EncodeToString bs ∧ kept lifetime bs t ops t'
      end
  end.

Lemma EncodeToString_inj bs bs' : EncodeToString bs = EncodeToString bs' → bs = bs'.
Proof.
  unfold EncodeToString. intros H%(f_equal String.list_ascii_of_string).
  rewrite !String.list_ascii_of_string_of_list_ascii in H. by apply encode64_inj.
Qed.

Lemma kept_history lifetime bs rec ops t t' :
  kept lifetime bs t ops t' →
  foldl (history_step lifetime (EncodeToString bs)) (Some (rec, time_add t lifetime)) ops = Some (rec, time_add t' lifetime).
Proof.
  revert t. induction ops as [|op ops IH]; intros t; cbn [kept foldl]; [by intros ->|].
  destruct op as [[b|e] rec' clock now|token now now'|token now|token now]; cbn [history_step].
  - intros [Hb Hk]. rewrite bool_decide_false; [by apply IH|]. by intros ->%EncodeToString_inj.
  - intros [_ Hk]. by apply IH.
  - case_bool_decide as E; [|by apply IH]. intros [[H1 H2] Hk]. unfold time_add in *.
    destruct (Z.ltb_spec now (t + lifetime)); [|lia]. destruct (Z.ltb_spec now' (t + lifetime)); [|lia]. by apply IH.
  - case_bool_decide as E; [|by apply IH]. intros [H1 Hk]. unfold time_add in *.
    destruct (Z.ltb_spec now (t + lifetime)); [|lia]. by apply IH.
  - intros [H1 Hk]. rewrite bool_decide_false by done. by apply IH.
Qed.

(** After a revocation nothing but a new issue brings the token back. *)
Lemma revoked_history lifetime bs ops :
  Forall (λ op, match op with OpIssue b _ _ _ => b ≠ Ok bs | _ => True end) ops →
  foldl (history_step lifetime (EncodeToString bs)) None ops = None.
Proof.
  induction 1 as [|op ops Hop Hops IH]; [done|]. cbn [foldl].
  replace (history_step lifetime (EncodeToString bs) None op) with (@None (SessionRecord * Time)); [done|].
  destruct op as [[b|e] rec' clock now|token now now'|token now|token now]; cbn; try case_bool_decide as E; try done.
  by apply EncodeToString_inj in E as ->.
Qed.

Section life.
Context `{J : SessionJson} {JL : SessionJsonLaws J} {R : Type} {RD : Redis R} {RL : RedisLaws RD}.

End life.

(** ** An in-memory Redis *)

Definition mem_redis : Redis keyspace := {|
  redis_Set := λ k v ttl now m, (None, <[k := (v, time_add now ttl)]> m);
  redis_Get := λ k now m, (match live k now m with Some v => Ok v | None => Err RedisNil end, m);
  redis_Expire := λ k ttl now m, (None, slide ttl k now m);
  redis_Del := λ k now m, (None, delete k m)
|}.
Definition mem_redis_laws : RedisLaws mem_redis.
Proof.
  refine {| entries := λ m : keyspace, m |}; cbn; intros; try by left. by destruct (live _ _ _).
Defined.
