(* ===== verification/Validation.v ===== *)
(** * The validation framework

    [internal/validation]: chaos scenarios (set up an environment, observe,
    inject a fault, wait for recovery, observe again, validate), the runner,
    the validators, the recovery waiters and the summary of a run.

    The callbacks of a scenario (set-up, observers, injector, validators,
    reporter) are values of the scenario: each call returns or panics.  Go's
    [defer] stack is explicit: the runner's body yields the report, whether
    [return] was reached and a panic on its way, and each deferred call is
    applied to that in the reverse order of its registration.  The calls are
    recorded in a trace. *)

From S2P Require Import Prelude GoFloat Types.
From stdpp Require Import base tactics list gmap strings pretty.
From Stdlib Require Import ZArith Lia Ascii.

Local Open Scope Z_scope.

(** ** Durations as text *)

Definition Microsecond : Z := 1000.
Definition Minute : Z := 60 * Second.

Fixpoint zeros (n : nat) : string := match n with O => "" | S n => "0" +:+ zeros n end.

(** [v] in decimal, padded with zeros to [prec] digits. *)
Definition padded (prec : nat) (v : Z) : string :=
  let s := pretty v in zeros (prec - String.length s) +:+ s.

Fixpoint strip_zeros_rev (l : list ascii) : list ascii :=
  match l with "0"%char :: l => strip_zeros_rev l | _ => l end.
Definition strip_zeros (s : string) : string :=
  String.string_of_list_ascii (rev (strip_zeros_rev (rev (String.list_ascii_of_string s)))).

(** [fmtFrac]: the fraction [v / 10^prec] without trailing zeros, and the
    integral part. *)
Definition fmtFrac (v : Z) (prec : nat) : string * Z :=
  let frac := strip_zeros (padded prec (v `mod` 10 ^ Z.of_nat prec)) in
  ((if bool_decide (v `mod` 10 ^ Z.of_nat prec = 0) then "" else "." +:+ frac), v `div` 10 ^ Z.of_nat prec).

Definition Duration_String (d : Duration) : string :=
  let u := Z.abs d in
  let sign := if d <? 0 then "-" else "" in
  if u =? 0 then "0s"
  else if u <? Second then
    let '(unit, prec) := if u <? Microsecond then ("ns", 0%nat) else if u <? Millisecond then ("µs", 3%nat) else ("ms", 6%nat) in
    let '(frac, v) := fmtFrac u prec in
    sign +:+ pretty v +:+ frac +:+ unit
  else
    let '(frac, v) := fmtFrac u 9 in
    let secs := pretty (v `mod` 60) +:+ frac +:+ "s" in
    let m := v `div` 60 in
    if m =? 0 then sign +:+ secs
    else
      let mins := pretty (m `mod` 60) +:+ "m" +:+ secs in
      let h := m `div` 60 in
      if h =? 0 then sign +:+ mins else sign +:+ pretty h +:+ "h" +:+ mins.

Example duration_text :
  (Duration_String (1500 * Millisecond), Duration_String (90 * Second), Duration_String (3601 * Second),
   Duration_String 250, Duration_String (-2500), Duration_String 0) =
  ("1.5s", "1m30s", "1h0m1s", "250ns", "-2.5µs", "0s").
Proof. reflexivity. Qed.

(** ** [strconv.Atoi]

    The value returned next to the error: zero on bad syntax, the bound on
    overflow. *)

Definition digit (c : ascii) : option Z :=
  let n := Z.of_N (N_of_ascii c) in if (48 <=? n) && (n <=? 57) then Some (n - 48) else None.

Fixpoint digits_value (acc : Z) (l : list ascii) : option Z :=
  match l with
  | [] => Some acc
  | c :: l => d ← digit c; digits_value (10 * acc + d) l
  end.

Definition Atoi (s : string) : Z :=
  let clamp v := Z.max min_int64 (Z.min max_int64 v) in
  match String.list_ascii_of_string s with
  | [] => 0
  | "-"%char :: [] | "+"%char :: [] => 0
  | "-"%char :: l => match digits_value 0 l with Some v => clamp (- v) | None => 0 end
  | "+"%char :: l => match digits_value 0 l with Some v => clamp v | None => 0 end
  | l => match digits_value 0 l with Some v => clamp v | None => 0 end
  end.

Example atoi_samples : (Atoi "42", Atoi "-7", Atoi "", Atoi "x1", Atoi "99999999999999999999") = (42, -7, 0, 0, max_int64).
Proof. reflexivity. Qed.

(** ** Data *)

Definition ResourcePostgres : string := "postgres".
Definition ResourceRedis : string := "redis".
Definition ResourceRoomService : string := "room-service".
Definition ResourceRuntime : string := "runtime".
Definition ResourceGateway : string := "gateway".

Record Infrastructure := mkInfra {
  inf_Endpoint : string → result string string;
  inf_Processes : string → result string (list Z);    (* process identifiers *)
  inf_Database : string → result string string;
  inf_RuntimeNodes : Z;
  inf_DialServices : list string → option string;
  inf_Close : option string
}.

Record Requirements := mkRequirements {
  MinRuntimeNodes : Z; ComposeRequired : bool; PostgreSQL : bool; RedisRequired : bool; NetworkFaults : bool
}.

Record ScenarioMetadata := mkMetadata {
  mdID : string; mdName : string; mdDescription : string; mdVersion : Z; mdTags : list string;
  mdSeverity : string; mdMode : string; mdRequirements : Requirements; mdTimeout : Duration; mdExpectedBehavior : string
}.

Definition AcceptWarn : string := "warn".
Definition AcceptFail : string := "fail".

Record AcceptanceCriterion := mkCriterion { Threshold : Duration; Policy : string }.
Record AcceptanceCriteria := mkCriteria {
  RecoveryDuration : AcceptanceCriterion; OwnershipConvergence : AcceptanceCriterion; TickP95 : AcceptanceCriterion;
  ReconnectTime : AcceptanceCriterion; QueueDrainTime : AcceptanceCriterion
}.

Definition PhaseBaseline : string := "baseline".
Definition PhasePostRecovery : string := "post_recovery".
Definition PolicyRequired : string := "required".
Definition PolicyOptional : string := "optional".

Record Evidence := mkEvidence {
  evTimestamp : Time; evPhase : string; evSource : string; evKindText : string; evKey : string; evValue : string
}.

Definition StatusPass : string := "pass".
Definition StatusFail : string := "fail".
Definition StatusWarn : string := "warn".
Definition StatusSkip : string := "skip".

Record ValidationResult := mkResultWith { vrValidator : string; vrStatus : string; vrEvidenceIndices : list Z; vrDetail : string }.
(** No code sets the indices. *)
Definition mkResult (validator status detail : string) : ValidationResult := mkResultWith validator status [] detail.

Definition OutcomePassed : string := "passed".
Definition OutcomeFailed : string := "failed".
Definition OutcomeSkipped : string := "skipped".
Definition OutcomeTimedOut : string := "timed_out".
Definition OutcomeError : string := "error".

Record TickSummary := mkTick { tkMean : Duration; tkP50 : Duration; tkP95 : Duration; tkP99 : Duration; tkMax : Duration; tkCount : Z }.
Record RecoverySummary := mkRecovery { rcDuration : Duration; rcOwnershipRestoredAt : Time; rcFirstHealthyAt : Time }.
Record QueueSnapshot := mkQueue { qsMin : Z; qsMax : Z; qsMean : float64; qsP95 : Z }.
Record Measurement := mkMeasurement {
  mTick : TickSummary; mRecovery : RecoverySummary; mQueue : gmap string QueueSnapshot;
  mEvents : gmap string Z; mDrops : gmap string Z; mTickDurations : list Duration
}.
Definition mRecoveryDuration (m : Measurement) : Duration := rcDuration (mRecovery m).
Definition mTickP95 (m : Measurement) : Duration := tkP95 (mTick m).
Definition no_measurement : Measurement := mkMeasurement (mkTick 0 0 0 0 0 0) (mkRecovery 0 zero_time zero_time) ∅ ∅ ∅ [].
Definition set_recovery_duration (d : Duration) (m : Measurement) : Measurement :=
  mkMeasurement (mTick m) (mkRecovery d (rcOwnershipRestoredAt (mRecovery m)) (rcFirstHealthyAt (mRecovery m)))
    (mQueue m) (mEvents m) (mDrops m) (mTickDurations m).

Record FrameworkMeta := mkMetaData { FrameworkVersion : string; ScenarioVersion : string; ExecTimestamp : Time }.

Record ValidationReport := mkReport {
  rpFramework : FrameworkMeta;
  rpScenario : ScenarioMetadata;
  rpOutcome : string;
  rpDuration : Duration;
  rpBaseline : list Evidence;
  rpPostRecovery : list Evidence;
  rpValidations : list ValidationResult;
  rpMeasurement : Measurement;
  rpRootCause : string
}.
Definition eta_report (r : ValidationReport) :=
  mkReport (rpFramework r) (rpScenario r) (rpOutcome r) (rpDuration r) (rpBaseline r)
    (rpPostRecovery r) (rpValidations r) (rpMeasurement r) (rpRootCause r).
#[export] Instance set_rpOutcome : Setter rpOutcome. Proof. solve_setter eta_report. Defined.
#[export] Instance set_rpDuration : Setter rpDuration. Proof. solve_setter eta_report. Defined.
#[export] Instance set_rpBaseline : Setter rpBaseline. Proof. solve_setter eta_report. Defined.
#[export] Instance set_rpPostRecovery : Setter rpPostRecovery. Proof. solve_setter eta_report. Defined.
#[export] Instance set_rpValidations : Setter rpValidations. Proof. solve_setter eta_report. Defined.
#[export] Instance set_rpMeasurement : Setter rpMeasurement. Proof. solve_setter eta_report. Defined.
#[export] Instance set_rpRootCause : Setter rpRootCause. Proof. solve_setter eta_report. Defined.

(** A call of a callback. *)
Inductive call (A : Type) := Returns (a : A) | Panics (msg : string).
Arguments Returns {A} a.
Arguments Panics {A} msg.

Record Observer := mkObserver { obName : string; obPolicy : string; Observe : string → call (result string (list Evidence)) }.
Record Validator := mkValidator { vaName : string; Validate : list Evidence → list Evidence → call ValidationResult }.

(** A scenario, with the answers of its callbacks and of the clock. *)
Record ScenarioDefinition := mkScenario {
  Metadata : ScenarioMetadata;
  Setup : call (result string Infrastructure);
  Teardown : call ();
  Inject : call (option string);
  Recover : call (option string);
  Observers : list Observer;
  Validators : list Validator;
  Wait_ : call (option string);
  Reporter : option (ValidationReport → call (option string));
  Acceptance : AcceptanceCriteria;
  deadlineExceeded : bool;      (* of the scoped context, after the wait *)
  recoveryTook : Duration;
  totalTook : Duration;
  startedAt : Time;
  observedAt : Time
}.

(** ** Checks before a run *)

(** [%q] of a string without characters that need an escape. *)
Definition quoted (s : string) : string := let q := String.string_of_list_ascii ["034"%char] in q +:+ s +:+ q.

Fixpoint check_ids (i : Z) (seen : gmap string Z) (l : list ScenarioDefinition) : option string :=
  match l with
  | [] => None
  | sc :: l =>
      let id := mdID (Metadata sc) in
      if bool_decide (id = "") then Some ("scenario at index " +:+ pretty i +:+ " has empty ID")
      else match seen !! id with
           | Some prev => Some ("duplicate scenario ID " +:+ quoted id +:+ " at indices " +:+ pretty prev +:+ " and " +:+ pretty i)
           | None => check_ids (i + 1) (<[id := i]> seen) l
           end
  end.
Definition ValidateScenarios (l : list ScenarioDefinition) : option string := check_ids 0 ∅ l.

(** [None]: the requirements are met. *)
Definition CheckRequirements (infra : Infrastructure) (req : Requirements) : option string :=
  let nodes := inf_RuntimeNodes infra in
  match (if PostgreSQL req then inf_Database infra ResourcePostgres else Ok "") with
  | Err e => Some ("postgres: " +:+ e)
  | Ok _ =>
      match (if RedisRequired req then inf_Endpoint infra ResourceRedis else Ok "") with
      | Err e => Some ("redis: " +:+ e)
      | Ok _ =>
          if (0 <? MinRuntimeNodes req) && (nodes <? MinRuntimeNodes req)
          then Some ("need " +:+ pretty (MinRuntimeNodes req) +:+ " runtime nodes, have " +:+ pretty nodes)
          else if ComposeRequired req then Some "compose mode not available in this environment"
          else if NetworkFaults req then Some "network faults require compose mode"
          else None
      end
  end.

(** ** Evidence *)

Definition EvKeyEntityCount : string := "entity-count".
Definition EvKeyGhostCount : string := "ghost-count".
Definition EvKeyCmdDrops : string := "cmd-drops".
Definition EvKeyZoneOwnerCount : string := "zone-owner-count".
Definition EvKeyDisconnectedCount : string := "disconnected-count".
Definition EvKeyRuntimeNodes : string := "runtime-nodes".
Definition EvKeyRoomServiceAddr : string := "room-service-endpoint".
Definition EvKeyGatewayAddr : string := "gateway-endpoint".

Definition EvidenceMap (l : list Evidence) : gmap string Evidence := foldl (λ m e, <[evKey e := e]> m) ∅ l.

Definition findInt (l : list Evidence) (key : string) : Z :=
  match EvidenceMap l !! key with Some e => Atoi (evValue e) | None => -1 end.

(** *** Validators *)

Definition validate_entity (baseline post : list Evidence) : ValidationResult :=
  let pre := findInt baseline EvKeyEntityCount in
  let post := findInt post EvKeyEntityCount in
  if (pre =? -1) || (post =? -1) then mkResult "entity" StatusSkip "entity-count evidence missing"
  else if post <? pre then mkResult "entity" StatusFail ("entity count decreased " +:+ pretty pre +:+ "→" +:+ pretty post +:+ " (I-04)")
  else mkResult "entity" StatusPass (pretty pre +:+ "→" +:+ pretty post).

Definition validate_ownership (baseline post : list Evidence) : ValidationResult :=
  let pre := findInt baseline EvKeyZoneOwnerCount in
  let post := findInt post EvKeyZoneOwnerCount in
  if (pre =? -1) || (post =? -1) then mkResult "ownership" StatusSkip "zone-owner-count evidence missing"
  else if post <? pre then mkResult "ownership" StatusFail ("zone owners lost: " +:+ pretty pre +:+ "→" +:+ pretty post +:+ " (O-01)")
  else mkResult "ownership" StatusPass ("ownership preserved: " +:+ pretty pre +:+ "→" +:+ pretty post).

Definition validate_aoi (baseline post : list Evidence) : ValidationResult :=
  let ghosts := findInt post EvKeyGhostCount in
  let entities := findInt post EvKeyEntityCount in
  if (ghosts =? -1) || (entities =? -1) then mkResult "aoi" StatusSkip "ghost-count or entity-count missing"
  else if (0 <? entities) && (entities <? ghosts)
  then mkResult "aoi" StatusFail ("ghosts(" +:+ pretty ghosts +:+ ") > entities(" +:+ pretty entities +:+ ") — G-02 violated")
  else mkResult "aoi" StatusPass ("ghosts bounded: " +:+ pretty ghosts +:+ "/" +:+ pretty entities).

Definition validate_scheduler (baseline post : list Evidence) : ValidationResult :=
  let pre := findInt baseline EvKeyCmdDrops in
  let post := findInt post EvKeyCmdDrops in
  if (pre =? -1) || (post =? -1) then mkResult "scheduler" StatusSkip "cmd-drops evidence missing"
  else if pre <? post then mkResult "scheduler" StatusWarn "command drops observed (T-04)"
  else mkResult "scheduler" StatusPass "no command drops".

Definition validate_session (baseline post : list Evidence) : ValidationResult :=
  let pre := findInt baseline EvKeyDisconnectedCount in
  let post := findInt post EvKeyDisconnectedCount in
  if (pre =? -1) || (post =? -1) then mkResult "session" StatusSkip "disconnected-count evidence missing"
  else if wrap64 (pre + 10) <? post then mkResult "session" StatusWarn "disconnected sessions grew significantly"
  else mkResult "session" StatusPass "session state preserved".

(** ** Running a scenario *)

Inductive effect := ESetup | EObserve (phase name : string) | EInject | EWait | EValidate (name : string) | EReport | ERecover | ETeardown.

(** The state of the runner: the report (a shared pointer), whether [return]
    has set the result, the panic on its way, and the calls made. *)
Record run := mkRun { rep : ValidationReport; returned : bool; panic : option string; trace : list effect }.

(** The calls [tr] precede those of [k]. *)
Definition after (tr : list effect) (k : run) : run := mkRun (rep k) (returned k) (panic k) (tr ++ trace k).

Definition observe_error (sc : ScenarioDefinition) (phase : string) (o : Observer) (e : string) : Evidence :=
  mkEvidence (observedAt sc) phase (obName o) "error" "observer-error" e.

(** [observeAll], with the calls it made. *)
Fixpoint observeAll (sc : ScenarioDefinition) (phase : string) (obs : list Observer) (acc : list Evidence)
    : call (result string (list Evidence)) * list effect :=
  match obs with
  | [] => (Returns (Ok acc), [])
  | o :: obs =>
      let '(c, tr) :=
        match Observe o phase with
        | Panics m => (Panics m, [])
        | Returns (Err e) =>
            if bool_decide (obPolicy o = PolicyRequired)
            then (Returns (Err (obName o +:+ "(" +:+ phase +:+ "): " +:+ e)), [])
            else observeAll sc phase obs (acc ++ [observe_error sc phase o e])
        | Returns (Ok es) => observeAll sc phase obs (acc ++ es)
        end in
      (c, EObserve phase (obName o) :: tr)
  end.

(** The loop over the validators: the report and whether all passed. *)
Fixpoint validate_loop (vs : list Validator) (r : ValidationReport) (allPassed : bool)
    : call bool * ValidationReport * list effect :=
  match vs with
  | [] => (Returns allPassed, r, [])
  | v :: vs =>
      match Validate v (rpBaseline r) (rpPostRecovery r) with
      | Panics m => (Panics m, r, [EValidate (vaName v)])
      | Returns res =>
          let r := r <| rpValidations ::= λ l, l ++ [res] |> in
          let failed := bool_decide (vrStatus res = StatusFail) in
          let r := if failed && bool_decide (rpRootCause r = "")
                   then r <| rpRootCause := vrValidator res +:+ ": " +:+ vrDetail res |> else r in
          let '(c, r, tr) := validate_loop vs r (allPassed && negb failed) in
          (c, r, EValidate (vaName v) :: tr)
      end
  end.

Definition acceptance_check (name : string) (actual : Duration) (c : AcceptanceCriterion) (r : ValidationReport) : ValidationReport :=
  if Threshold c =? 0 then r
  else
    let exceeded := Threshold c <? actual in
    let fails := exceeded && bool_decide (Policy c = AcceptFail) in
    let status := if exceeded then (if fails then StatusFail else StatusWarn) else StatusPass in
    let r := if fails then r <| rpOutcome := OutcomeFailed |> else r in
    r <| rpValidations ::= λ l, l ++ [mkResult ("acceptance/" +:+ name) status
           (name +:+ " actual=" +:+ Duration_String actual +:+ " threshold=" +:+ Duration_String (Threshold c)
            +:+ " policy=" +:+ Policy c)] |>.

Definition evaluateAcceptance (r : ValidationReport) (ac : AcceptanceCriteria) : ValidationReport :=
  let r := acceptance_check "recovery-duration" (mRecoveryDuration (rpMeasurement r)) (RecoveryDuration ac) r in
  acceptance_check "tick-p95" (mTickP95 (rpMeasurement r)) (TickP95 ac) r.

Definition frameworkVersion : string := "1.0.0".
Definition new_report (sc : ScenarioDefinition) : ValidationReport :=
  mkReport (mkMetaData frameworkVersion (pretty (mdVersion (Metadata sc))) (startedAt sc)) (Metadata sc) "" 0 [] [] [] no_measurement "".

Definition fail_with (outcome cause : string) (r : ValidationReport) : ValidationReport :=
  r <| rpOutcome := outcome |> <| rpRootCause := cause |>.

(** After the second observation: validators, acceptance, reporter. *)
Definition run_checks (sc : ScenarioDefinition) (r : ValidationReport) : run :=
  let '(c, r, tr) := validate_loop (Validators sc) r true in
  match c with
  | Panics m => mkRun r false (Some m) tr
  | Returns allPassed =>
      let r := if bool_decide (rpOutcome r = "")
               then r <| rpOutcome := if allPassed : bool then OutcomePassed else OutcomeFailed |> else r in
      let r := evaluateAcceptance r (Acceptance sc) in
      match Reporter sc with
      | None => mkRun r true None tr
      | Some gen => match gen r with
                    | Panics m => mkRun r false (Some m) (tr ++ [EReport])
                    | Returns _ => mkRun r true None (tr ++ [EReport])
                    end
      end
  end.

(** From the wait for recovery to the second observation. *)
Definition run_recovery (sc : ScenarioDefinition) (r : ValidationReport) : run :=
  match Wait_ sc with
  | Panics m => mkRun r false (Some m) [EWait]
  | Returns err =>
      let r := r <| rpMeasurement ::= set_recovery_duration (recoveryTook sc) |> in
      let r := match err with
               | None => r
               | Some e => if deadlineExceeded sc then fail_with OutcomeTimedOut "recovery timed out" r
                           else fail_with OutcomeError ("recovery: " +:+ e) r
               end in
      let '(c, tr) := observeAll sc PhasePostRecovery (Observers sc) [] in
      match c with
      | Panics m => mkRun r false (Some m) (EWait :: tr)
      | Returns (Err e) => mkRun (fail_with OutcomeError ("post-recovery observe: " +:+ e) r) true None (EWait :: tr)
      | Returns (Ok post) =>
          after (EWait :: tr) (run_checks sc (r <| rpPostRecovery := post |>))
      end
  end.

(** A deferred call: a panic of its own replaces the one on its way. *)
Definition defer_ (eff : effect) {A} (c : call A) (k : run) : run :=
  mkRun (rep k) (returned k) (match c with Panics m => Some m | Returns _ => panic k end) (trace k ++ [eff]).

Definition run_injection (sc : ScenarioDefinition) (r : ValidationReport) : run :=
  defer_ ERecover (Recover sc)
    (match Inject sc with
     | Panics m => mkRun r false (Some m) [EInject]
     | Returns (Some e) => mkRun (fail_with OutcomeError ("inject: " +:+ e) r) true None [EInject]
     | Returns None => after [EInject] (run_recovery sc r)
     end).

Definition run_scenario (sc : ScenarioDefinition) (infra : Infrastructure) (r : ValidationReport) : run :=
  match CheckRequirements infra (mdRequirements (Metadata sc)) with
  | Some reason => mkRun (fail_with OutcomeSkipped reason r) true None []
  | None =>
      let '(c, tr) := observeAll sc PhaseBaseline (Observers sc) [] in
      match c with
      | Panics m => mkRun r false (Some m) tr
      | Returns (Err e) => mkRun (fail_with OutcomeError ("baseline observe: " +:+ e) r) true None tr
      | Returns (Ok baseline) =>
          after tr (run_injection sc (r <| rpBaseline := baseline |>))
      end
  end.

Definition run_body (sc : ScenarioDefinition) : run :=
  let r := new_report sc in
  match Setup sc with
  | Panics m => mkRun r false (Some m) [ESetup]
  | Returns (Err e) => mkRun (fail_with OutcomeError ("setup: " +:+ e) r) true None [ESetup]
  | Returns (Ok infra) =>
      after [ESetup] (defer_ ETeardown (Teardown sc) (run_scenario sc infra r))
  end.

(** [Run]: the deferred [recover] and the duration.  The result is unnamed,
    so a panic that prevents [return] leaves it nil. *)
Definition Run_ (sc : ScenarioDefinition) : option ValidationReport * list effect :=
  let k := run_body sc in
  let r := match panic k with
           | None => rep k
           | Some m =>
               let r := rep k <| rpOutcome := OutcomeError |> in
               if bool_decide (rpRootCause r = "") then r <| rpRootCause := "panic: " +:+ m |> else r
           end in
  let r := r <| rpDuration := totalTook sc |> in
  ((if returned k then Some r else None), trace k).

(** ** Waiting for recovery *)

Definition ModeAll : string := "all".
Definition ModeAny : string := "any".

Record RecoveryCondition := mkCondition { rcName : string; Met : Time → bool }.

Definition FixedDelay (name : string) (delay : Duration) (started : Time) : RecoveryCondition :=
  mkCondition name (λ now, delay <=? time_sub now started).

(** [endpoint] and [dial] are the answers at a given time. *)
Definition HealthyEndpoint (resource : string) (endpoint : Time → result string string) (dial : string → Time → bool) : RecoveryCondition :=
  mkCondition ("healthy(" +:+ resource +:+ ")") (λ now, match endpoint now with Err _ => false | Ok addr => dial addr now end).

Record CompositeWaiter := mkWaiter { wmode : string; conditions : list RecoveryCondition; pollEvery : Duration }.
Definition NewComposite (mode : string) (cs : list RecoveryCondition) : CompositeWaiter := mkWaiter mode cs (500 * Millisecond).

Definition waiter_check (w : CompositeWaiter) (now : Time) : list string * list string :=
  foldl (λ '(met, unmet) c, if Met c now then (met ++ [rcName c], unmet) else (met, unmet ++ [rcName c])) ([], []) (conditions w).

Inductive wait_event := CtxDone (err : string) | Poll (now : Time).

(** One round of the loop: [Some] when [Wait] returns. *)
Definition wait_round (w : CompositeWaiter) (ev : wait_event) : option (option string) :=
  match ev with
  | CtxDone e => Some (Some ("recovery timed out: " +:+ e))
  | Poll now =>
      let '(met, unmet) := waiter_check w now in
      if bool_decide (wmode w = ModeAll)
      then if bool_decide (unmet = []) && bool_decide (met ≠ []) then Some None else None
      else if bool_decide (wmode w = ModeAny) then (if bool_decide (met ≠ []) then Some None else None)
      else None
  end.

(** [None]: still waiting after these events. *)
Fixpoint wait_loop (w : CompositeWaiter) (evs : list wait_event) : option (option string) :=
  match evs with
  | [] => None
  | ev :: evs => match wait_round w ev with Some res => Some res | None => wait_loop w evs end
  end.
Definition Wait (w : CompositeWaiter) (evs : list wait_event) : option (option string) :=
  if bool_decide (conditions w = []) then Some None else wait_loop w evs.

(** ** Reports *)

Definition newline : string := String.string_of_list_ascii ["010"%char].

Definition validation_line (v : ValidationResult) : string :=
  "| " +:+ vrValidator v +:+ " | " +:+ vrStatus v +:+ " | " +:+ vrDetail v +:+ " |" +:+ newline.

Definition MarkdownReportString (r : ValidationReport) : string :=
  "# Chaos Report: " +:+ mdName (rpScenario r) +:+ newline +:+ newline
  +:+ "| Field | Value |" +:+ newline +:+ "|-------|-------|" +:+ newline
  +:+ "| Outcome | " +:+ rpOutcome r +:+ " |" +:+ newline
  +:+ "| Duration | " +:+ Duration_String (rpDuration r) +:+ " |" +:+ newline
  +:+ "| Expected | " +:+ mdExpectedBehavior (rpScenario r) +:+ " |" +:+ newline +:+ newline
  +:+ "## Validations" +:+ newline +:+ newline
  +:+ "| Validator | Status | Detail |" +:+ newline +:+ "|-----------|--------|--------|" +:+ newline
  +:+ foldr (λ v s, validation_line v +:+ s) "" (rpValidations r).

(** Generate of the Markdown reporter: the same text, to standard output;
    the error of the write is ignored. *)
Definition MarkdownReporter_Generate (stdout : string) (r : ValidationReport) : string * option string :=
  (stdout +:+ MarkdownReportString r, None).

Record SummaryEntry := mkSummaryEntry { seName : string; seOutcome : string; seDuration : Duration; seReason : string }.

Record SummaryReport := mkSummary {
  sFramework : FrameworkMeta; sExecTimestamp : Time;
  sTotal : Z; sPassed : Z; sFailed : Z; sSkipped : Z; sTimedOut : Z; sErrors : Z; sTotalDuration : Duration;
  sRecoveryCount : Z; sRecoveryMin : Duration; sRecoveryMax : Duration; sRecoveryMean : Duration;
  iTotal : Z; iPassed : Z; iWarned : Z; iFailed : Z; iSkipped : Z;
  sScenarios : list SummaryEntry
}.
Definition eta_summary (s : SummaryReport) :=
  mkSummary (sFramework s) (sExecTimestamp s) (sTotal s) (sPassed s) (sFailed s) (sSkipped s) (sTimedOut s) (sErrors s) (sTotalDuration s)
    (sRecoveryCount s) (sRecoveryMin s) (sRecoveryMax s) (sRecoveryMean s)
    (iTotal s) (iPassed s) (iWarned s) (iFailed s) (iSkipped s) (sScenarios s).
#[export] Instance set_sTotal : Setter sTotal. Proof. solve_setter eta_summary. Defined.
#[export] Instance set_sPassed : Setter sPassed. Proof. solve_setter eta_summary. Defined.
#[export] Instance set_sFailed : Setter sFailed. Proof. solve_setter eta_summary. Defined.
#[export] Instance set_sSkipped : Setter sSkipped. Proof. solve_setter eta_summary. Defined.
#[export] Instance set_sTimedOut : Setter sTimedOut. Proof. solve_setter eta_summary. Defined.
#[export] Instance set_sErrors : Setter sErrors. Proof. solve_setter eta_summary. Defined.
#[export] Instance set_sTotalDuration : Setter sTotalDuration. Proof. solve_setter eta_summary. Defined.
#[export] Instance set_sRecoveryCount : Setter sRecoveryCount. Proof. solve_setter eta_summary. Defined.
#[export] Instance set_sRecoveryMin : Setter sRecoveryMin. Proof. solve_setter eta_summary. Defined.
#[export] Instance set_sRecoveryMax : Setter sRecoveryMax. Proof. solve_setter eta_summary. Defined.
#[export] Instance set_sRecoveryMean : Setter sRecoveryMean. Proof. solve_setter eta_summary. Defined.
#[export] Instance set_iTotal : Setter iTotal. Proof. solve_setter eta_summary. Defined.
#[export] Instance set_iPassed : Setter iPassed. Proof. solve_setter eta_summary. Defined.
#[export] Instance set_iWarned : Setter iWarned. Proof. solve_setter eta_summary. Defined.
#[export] Instance set_iFailed : Setter iFailed. Proof. solve_setter eta_summary. Defined.
#[export] Instance set_iSkipped : Setter iSkipped. Proof. solve_setter eta_summary. Defined.
#[export] Instance set_sScenarios : Setter sScenarios. Proof. solve_setter eta_summary. Defined.

Definition empty_summary (now : Time) : SummaryReport :=
  mkSummary (mkMetaData frameworkVersion "" now) zero_time 0 0 0 0 0 0 0 0 0 0 0 0 0 0 0 0 [].

Definition count_outcome (o : string) (s : SummaryReport) : SummaryReport :=
  if bool_decide (o = OutcomePassed) then s <| sPassed ::= Z.succ |>
  else if bool_decide (o = OutcomeFailed) then s <| sFailed ::= Z.succ |>
  else if bool_decide (o = OutcomeSkipped) then s <| sSkipped ::= Z.succ |>
  else if bool_decide (o = OutcomeTimedOut) then s <| sTimedOut ::= Z.succ |>
  else if bool_decide (o = OutcomeError) then s <| sErrors ::= Z.succ |>
  else s.

Definition count_validation (s : SummaryReport) (v : ValidationResult) : SummaryReport :=
  let s := s <| iTotal ::= Z.succ |> in
  if bool_decide (vrStatus v = StatusPass) then s <| iPassed ::= Z.succ |>
  else if bool_decide (vrStatus v = StatusWarn) then s <| iWarned ::= Z.succ |>
  else if bool_decide (vrStatus v = StatusFail) then s <| iFailed ::= Z.succ |>
  else if bool_decide (vrStatus v = StatusSkip) then s <| iSkipped ::= Z.succ |>
  else s.

Definition summarize_one (s : SummaryReport) (r : ValidationReport) : SummaryReport :=
  let s := s <| sTotal ::= Z.succ |>
             <| sScenarios ::= λ l, l ++ [mkSummaryEntry (mdName (rpScenario r)) (rpOutcome r) (rpDuration r) (rpRootCause r)] |>
             <| sTotalDuration ::= λ d, wrap64 (d + rpDuration r) |> in
  foldl count_validation (count_outcome (rpOutcome r) s) (rpValidations r).

Definition recovery_durations (reports : list ValidationReport) : list Duration :=
  filter (λ d, 0 < d) ((λ r, mRecoveryDuration (rpMeasurement r)) <$> reports).

(** The loop over the recovery durations: total, minimum, maximum. *)
Definition recovery_step (acc : Duration * Duration * Duration) (d : Duration) : Duration * Duration * Duration :=
  let '(total, mn, mx) := acc in
  (wrap64 (total + d), if d <? mn then d else mn, if mx <? d then d else mx).

Definition NewSummary (now : Time) (reports : list ValidationReport) : SummaryReport :=
  let s := foldl summarize_one (empty_summary now) reports in
  match recovery_durations reports with
  | [] => s
  | d0 :: ds =>
      let '(total, mn, mx) := foldl recovery_step (0, d0, d0) (d0 :: ds) in
      let n := Z.of_nat (length (d0 :: ds)) in
      s <| sRecoveryCount := n |> <| sRecoveryMin := mn |> <| sRecoveryMax := mx |>
        <| sRecoveryMean := Z.quot total n |>
  end.

(** ** Properties of a run *)

(** A validator did not object. *)
Definition accepted_by (b p : list Evidence) (v : Validator) : Prop :=
  ∃ res, Validate v b p = Returns res ∧ vrStatus res ≠ StatusFail.

(** A criterion that fails a run is kept. *)
Definition within (actual : Duration) (c : AcceptanceCriterion) : Prop :=
  Policy c = AcceptFail → Threshold c = 0 ∨ actual ≤ Threshold c.

Definition same_observations (r r' : ValidationReport) : Prop :=
  rpBaseline r' = rpBaseline r ∧ rpPostRecovery r' = rpPostRecovery r ∧ rpMeasurement r' = rpMeasurement r.

Lemma validate_loop_spec vs r b c r' tr :
  validate_loop vs r b = (c, r', tr) →
  rpOutcome r' = rpOutcome r ∧ same_observations r r' ∧
  (c = Returns true → b = true ∧ Forall (accepted_by (rpBaseline r) (rpPostRecovery r)) vs) ∧
  (ETeardown ∉ tr) ∧ (ERecover ∉ tr).
Proof.
  revert r b c r' tr. induction vs as [|v vs IH]; intros r b c r' tr; cbn [validate_loop].
  { intros [= <- <- <-]. split_and!; try done; [by intros [= ->]|apply not_elem_of_nil..]. }
  destruct (Validate v (rpBaseline r) (rpPostRecovery r)) as [res|m] eqn:Ev;
    [|intros [= <- <- <-]; split_and!; try done; set_solver].
  set (r1 := if _ && _ then _ else _).
  assert (rpOutcome r1 = rpOutcome r ∧ same_observations r r1) as (Ho & Hb & Hp & Hm) by (unfold r1; by case_match).
  destruct (validate_loop vs r1 _) as [[c' r2] tr'] eqn:El. intros [= <- <- <-].
  destruct (IH _ _ _ _ _ El) as (Ho' & (Hb' & Hp' & Hm') & Hc & Ht1 & Ht2).
  split_and!; [congruence|split_and!; congruence| |set_solver..].
  intros Hc'. destruct (Hc Hc') as [[-> Hf]%andb_true_iff Hall]. split; [done|]. constructor; [|by rewrite Hb, Hp in Hall].
  exists res. split; [done|]. by apply negb_true_iff, bool_decide_eq_false in Hf.
Qed.

Lemma acceptance_check_spec name actual c r :
  let r' := acceptance_check name actual c r in
  same_observations r r' ∧ rpRootCause r' = rpRootCause r ∧
  (rpOutcome r' = rpOutcome r ∨ rpOutcome r' = OutcomeFailed) ∧
  (rpOutcome r' = OutcomePassed → rpOutcome r = OutcomePassed ∧ within actual c).
Proof.
  cbv zeta. unfold acceptance_check, within. destruct (Z.eqb_spec (Threshold c) 0); [by split_and!; auto|].
  destruct (Z.ltb_spec (Threshold c) actual) as [Hlt|Hge]; [case_bool_decide as Hp|]; cbn;
    (split; [by split_and!|]); (split; [done|]); split; auto; intros Hr; try done; split; auto.
Qed.

Lemma evaluateAcceptance_spec r ac :
  let r' := evaluateAcceptance r ac in
  same_observations r r' ∧ (rpOutcome r' = rpOutcome r ∨ rpOutcome r' = OutcomeFailed) ∧
  (rpOutcome r' = OutcomePassed → rpOutcome r = OutcomePassed ∧
     within (mRecoveryDuration (rpMeasurement r)) (RecoveryDuration ac) ∧ within (mTickP95 (rpMeasurement r)) (TickP95 ac)).
Proof.
  cbv zeta. unfold evaluateAcceptance.
  destruct (acceptance_check_spec "recovery-duration" (mRecoveryDuration (rpMeasurement r)) (RecoveryDuration ac) r)
    as ((B1 & P1 & M1) & _ & O1 & A1).
  set (r1 := acceptance_check "recovery-duration" _ _ _) in *.
  destruct (acceptance_check_spec "tick-p95" (mTickP95 (rpMeasurement r1)) (TickP95 ac) r1) as ((B2 & P2 & M2) & _ & O2 & A2).
  set (r2 := acceptance_check "tick-p95" _ _ _) in *. split_and!.
  - split_and!; congruence.
  - destruct O2 as [-> | ->]; [done|by right].
  - intros H. destruct (A2 H) as [H1 W2]. destruct (A1 H1) as [H0 W1]. by rewrite M1 in W2.
Qed.

Definition outcomes : list string := [OutcomePassed; OutcomeFailed; OutcomeSkipped; OutcomeTimedOut; OutcomeError].

(** The calls that clean up. *)
Definition no_cleanup (tr : list effect) : Prop := (ETeardown ∉ tr) ∧ (ERecover ∉ tr).

Lemma no_cleanup_app tr1 tr2 : no_cleanup tr1 → no_cleanup tr2 → no_cleanup (tr1 ++ tr2).
Proof. unfold no_cleanup. set_solver. Qed.

Lemma observeAll_spec sc phase obs acc c tr :
  observeAll sc phase obs acc = (c, tr) → no_cleanup tr ∧ (EInject ∉ tr).
Proof.
  revert acc c tr. induction obs as [|o obs IH]; intros acc c tr; cbn [observeAll].
  { intros [= <- <-]. unfold no_cleanup. set_solver. }
  set (d := match Observe o phase with Panics _ => _ | Returns _ => _ end).
  assert (∀ c' tr', d = (c', tr') → no_cleanup tr' ∧ (EInject ∉ tr')) as Hd.
  { intros c' tr'. unfold d. destruct (Observe o phase) as [[es|e]|m]; [apply IH| |].
    - case_bool_decide; [|apply IH]. intros [= <- <-]. unfold no_cleanup. set_solver.
    - intros [= <- <-]. unfold no_cleanup. set_solver. }
  destruct d as [c' tr'] eqn:E. intros [= <- <-]. destruct (Hd _ _ eq_refl) as [[? ?] ?]. unfold no_cleanup. set_solver.
Qed.

(** What the body of a run guarantees, from the point where [r] is the report. *)
Record checked (sc : ScenarioDefinition) (r : ValidationReport) (k : run) : Prop := {
  ck_obs : rpBaseline (rep k) = rpBaseline r;
  ck_panic : returned k = true ↔ panic k = None;
  ck_outcome : panic k = None → rpOutcome (rep k) ∈ outcomes
}.

Lemma run_checks_spec sc r :
  rpOutcome r ∈ ["" ; OutcomeTimedOut; OutcomeError] →
  let k := run_checks sc r in
  checked sc r k ∧ no_cleanup (trace k) ∧ rpPostRecovery (rep k) = rpPostRecovery r ∧
  (panic k = None → rpOutcome (rep k) = OutcomePassed →
     rpOutcome r = "" ∧ Forall (accepted_by (rpBaseline r) (rpPostRecovery r)) (Validators sc) ∧
     within (mRecoveryDuration (rpMeasurement r)) (RecoveryDuration (Acceptance sc)) ∧
     within (mTickP95 (rpMeasurement r)) (TickP95 (Acceptance sc))).
Proof.
  intros Hr. cbv zeta. unfold run_checks. destruct (validate_loop (Validators sc) r true) as [[c r1] tr] eqn:El.
  destruct (validate_loop_spec _ _ _ _ _ _ El) as (Ho & (Hb & Hp & Hm) & Hc & Ht).
  destruct c as [allp|m]; [|by split; [split; [done|by split|done]|]].
  set (r2 := if bool_decide (rpOutcome r1 = "") then _ else _).
  assert (same_observations r r2) as (Hb2 & Hp2 & Hm2) by (unfold r2, same_observations; case_match; cbn; by rewrite ?Hb, ?Hp, ?Hm).
  assert (rpOutcome r2 ∈ outcomes) as Hin.
  { unfold r2. case_bool_decide as He; cbn; [destruct allp; unfold outcomes; set_solver|].
    rewrite Ho in He |- *. unfold outcomes. set_solver. }
  assert (rpOutcome r2 = OutcomePassed → rpOutcome r = "" ∧ allp = true) as Hpass.
  { unfold r2. case_bool_decide as He; cbn; [destruct allp; [by rewrite Ho in He|done]|].
    rewrite Ho in He |- *. intros E. rewrite E in Hr.
    by repeat (apply elem_of_cons in Hr as [Hr | Hr]; [discriminate Hr|]); apply not_elem_of_nil in Hr. }
  destruct (evaluateAcceptance_spec r2 (Acceptance sc)) as ((Hb3 & Hp3 & Hm3) & Ho3 & Ha).
  set (r3 := evaluateAcceptance r2 (Acceptance sc)) in *.
  assert (rpOutcome r3 ∈ outcomes) as Hin3 by (destruct Ho3 as [-> | ->]; [done|unfold outcomes; set_solver]).
  assert (rpOutcome r3 = OutcomePassed → rpOutcome r = "" ∧ Forall (accepted_by (rpBaseline r) (rpPostRecovery r)) (Validators sc) ∧
     within (mRecoveryDuration (rpMeasurement r)) (RecoveryDuration (Acceptance sc)) ∧
     within (mTickP95 (rpMeasurement r)) (TickP95 (Acceptance sc))) as Hfin.
  { intros E. destruct (Ha E) as (E2 & W1 & W2). destruct (Hpass E2) as [? ->]. rewrite Hm2 in W1, W2.
    destruct (Hc eq_refl) as [_ ?]. by split_and!. }
  assert (no_cleanup (tr ++ [EReport])) by (destruct Ht; unfold no_cleanup; set_solver).
  destruct (Reporter sc) as [gen|]; [destruct (gen r3)|]; (split; [split; cbn; [congruence|by split|done]|]); cbn;
    by split_and!; [..|congruence|].
Qed.

(** What a passed run went through, after the injection. *)
Definition recovered (sc : ScenarioDefinition) (b p : list Evidence) : Prop :=
  Wait_ sc = Returns None ∧ (observeAll sc PhasePostRecovery (Observers sc) []).1 = Returns (Ok p) ∧
  Forall (accepted_by b p) (Validators sc) ∧
  within (recoveryTook sc) (RecoveryDuration (Acceptance sc)).

Lemma run_recovery_spec sc r :
  rpOutcome r = "" →
  let k := run_recovery sc r in
  checked sc r k ∧ no_cleanup (trace k) ∧
  (panic k = None → rpOutcome (rep k) = OutcomePassed → recovered sc (rpBaseline r) (rpPostRecovery (rep k))).
Proof.
  intros Hr. cbv zeta. unfold run_recovery, recovered. destruct (Wait_ sc) as [err|m];
    [|split; [split; [done|by split|done]|split; [unfold no_cleanup; set_solver|done]]].
  set (r1 := r <| rpMeasurement ::= _ |>). set (r2 := match err with None => r1 | Some _ => _ end).
  assert (rpBaseline r2 = rpBaseline r ∧ mRecoveryDuration (rpMeasurement r2) = recoveryTook sc ∧
          rpOutcome r2 ∈ [""; OutcomeTimedOut; OutcomeError] ∧ (rpOutcome r2 = "" → err = None)) as (Hb & Hm & Hin & He).
  { unfold r2. destruct err as [e|]; [destruct (deadlineExceeded sc)|]; cbn; split_and!; try done; try set_solver. }
  clearbody r2. destruct (observeAll sc PhasePostRecovery (Observers sc) []) as [c tr] eqn:Eo.
  destruct (observeAll_spec _ _ _ _ _ _ Eo) as [[Ht1 Ht2] _]. cbn [fst].
  assert (no_cleanup (EWait :: tr)) as Ht by (unfold no_cleanup; set_solver).
  destruct c as [[post|e]|m].
  - set (r3 := r2 <| rpPostRecovery := post |>).
    assert (rpOutcome r3 = rpOutcome r2 ∧ rpBaseline r3 = rpBaseline r2 ∧ rpPostRecovery r3 = post ∧
            rpMeasurement r3 = rpMeasurement r2) as (O3 & B3 & P3 & M3) by done.
    clearbody r3. rewrite <-O3 in Hin, He. rewrite <-B3 in Hb. rewrite <-M3 in Hm.
    destruct (run_checks_spec sc r3 Hin) as ([C1 C2 C3] & Hc & Hp & Hpass).
    revert C1 C2 C3 Hc Hp Hpass. generalize (run_checks sc r3). intros k C1 C2 C3 Hc Hp Hpass. cbn. split; [split; cbn; [by rewrite C1, Hb|done|done]|]. split; [by apply (no_cleanup_app (EWait :: tr))|].
    intros Hpan Ho. destruct (Hpass Hpan Ho) as (E & Hall & W & _). rewrite (He E). rewrite Hb in Hall. rewrite Hm in W.
    rewrite P3 in Hp, Hall. by rewrite Hp.
  - split; [split; [done|by split|intros _; unfold outcomes; cbn; set_solver]|]. by split.
  - split; [split; [done|by split|done]|]. by split.
Qed.

(** The deferred recovery of the injector runs last, whatever happened. *)
Lemma run_injection_spec sc r :
  rpOutcome r = "" →
  let k := run_injection sc r in
  (panic k = None → returned k = true ∧ rpOutcome (rep k) ∈ outcomes) ∧
  (∃ tr, trace k = tr ++ [ERecover] ∧ no_cleanup tr ∧ EInject ∈ tr) ∧
  (panic k = None → rpOutcome (rep k) = OutcomePassed →
     rpBaseline (rep k) = rpBaseline r ∧ Inject sc = Returns None ∧ (∃ e, Recover sc = Returns e) ∧
     recovered sc (rpBaseline r) (rpPostRecovery (rep k))).
Proof.
  intros Hr. cbv zeta. unfold run_injection, defer_. cbn [panic returned rep trace].
  destruct (Inject sc) as [[e|]|m].
  - cbn. split_and!; [destruct (Recover sc); [|done]; intros _; split; [done|unfold outcomes; set_solver]| |by intros _].
    exists [EInject]. unfold no_cleanup. split_and!; [done|set_solver..].
  - destruct (run_recovery_spec sc r Hr) as ([C1 C2 C3] & Ht & Hp). revert C1 C2 C3 Ht Hp. generalize (run_recovery sc r).
    intros k C1 C2 C3 Ht Hp. cbn. split_and!.
    + destruct (Recover sc); [|done]. intros Hk. by split; [apply C2|apply C3].
    + exists (EInject :: trace k). split_and!; [done|destruct Ht; unfold no_cleanup; set_solver|set_solver].
    + destruct (Recover sc) as [e|]; [|done]. intros Hk Ho. by split_and!; [|done|by exists e|by apply Hp].
  - cbn. split_and!; [by destruct (Recover sc)| |by destruct (Recover sc)].
    exists [EInject]. unfold no_cleanup. split_and!; [done|set_solver..].
Qed.

(** What a passed run went through. *)
Definition passed_for (sc : ScenarioDefinition) (b p : list Evidence) : Prop :=
  ∃ infra, Setup sc = Returns (Ok infra) ∧ CheckRequirements infra (mdRequirements (Metadata sc)) = None ∧
    (observeAll sc PhaseBaseline (Observers sc) []).1 = Returns (Ok b) ∧ Inject sc = Returns None ∧
    (∃ e, Recover sc = Returns e) ∧ Teardown sc = Returns () ∧ recovered sc b p.

Lemma run_scenario_spec sc infra r :
  rpOutcome r = "" →
  let k := run_scenario sc infra r in
  (panic k = None → returned k = true ∧ rpOutcome (rep k) ∈ outcomes) ∧
  (∃ tr, (trace k = tr ∧ (EInject ∉ tr) ∨ trace k = tr ++ [ERecover] ∧ EInject ∈ tr) ∧ no_cleanup tr) ∧
  (panic k = None → rpOutcome (rep k) = OutcomePassed →
     CheckRequirements infra (mdRequirements (Metadata sc)) = None ∧
     (observeAll sc PhaseBaseline (Observers sc) []).1 = Returns (Ok (rpBaseline (rep k))) ∧ Inject sc = Returns None ∧
     (∃ e, Recover sc = Returns e) ∧ recovered sc (rpBaseline (rep k)) (rpPostRecovery (rep k))).
Proof.
  intros Hr. cbv zeta. unfold run_scenario. destruct (CheckRequirements _ _) as [reason|].
  { cbn. split_and!; [intros _; split; [done|unfold outcomes; set_solver]| |by intros _].
    exists []. unfold no_cleanup. split; [left; set_solver|set_solver]. }
  destruct (observeAll sc PhaseBaseline (Observers sc) []) as [c tr] eqn:Eo.
  destruct (observeAll_spec _ _ _ _ _ _ Eo) as [Ht Hi]. cbn [fst]. destruct c as [[base|e]|m].
  - set (r1 := r <| rpBaseline := base |>).
    assert (rpOutcome r1 = "" ∧ rpBaseline r1 = base) as [O1 B1] by done. clearbody r1.
    destruct (run_injection_spec sc r1 O1) as (H1 & (tr1 & H2 & H3 & H4) & H5).
    revert H1 H2 H5. generalize (run_injection sc r1). intros k H1 H2 H5.
    cbn [panic returned rep trace after]. split_and!; [done| |].
    + exists (tr ++ tr1). rewrite H2, app_assoc. split; [right; split; [done|set_solver]|by apply no_cleanup_app].
    + intros Hk Ho. destruct (H5 Hk Ho) as (Hb & ? & ? & ?). by rewrite Hb, B1 in *.
  - cbn. split_and!; [intros _; split; [done|unfold outcomes; set_solver]|exists tr; by split; [left|]|by intros _].
  - cbn. split_and!; [done|exists tr; by split; [left|]|done].
Qed.

Lemma run_passed sc r tr :
  Run_ sc = (Some r, tr) → rpOutcome r ∈ outcomes ∧ (rpOutcome r = OutcomePassed → passed_for sc (rpBaseline r) (rpPostRecovery r)).
Proof.
  unfold Run_, run_body, passed_for. destruct (Setup sc) as [[infra|e]|m]; [| |done].
  - destruct (run_scenario_spec sc infra (new_report sc) eq_refl) as (H1 & _ & H4).
    revert H1 H4. generalize (run_scenario sc infra (new_report sc)). intros k H1 H4.
    unfold defer_. cbn [panic returned rep trace after]. destruct (returned k); [|done]. intros [= <- _]. cbn.
    destruct (match Teardown sc with Returns _ => panic k | Panics m => Some m end) as [m|] eqn:Ep.
    { assert (OutcomeError ∈ outcomes) by (unfold outcomes; set_solver). by case_bool_decide; cbn; split. }
    destruct (Teardown sc) as [[]|] eqn:Et; [|done]. destruct (H1 Ep) as [_ Hin]. split; [done|].
    intros Ho. destruct (H4 Ep Ho) as (? & ? & ? & ? & ?). exists infra. by split_and!.
  - intros [= <- _]. cbn. split; [unfold outcomes; set_solver|done].
Qed.


(** A panic before [return] stays one through the deferred calls. *)
Definition panicked (k : run) : Prop := returned k = false ∧ panic k ≠ None.

Lemma panicked_defer eff {A} (c : call A) k : panicked k → panicked (defer_ eff c k).
Proof. intros [H1 H2]. split; [done|]. by destruct c. Qed.

Lemma panicked_after tr k : panicked k → panicked (after tr k).
Proof. done. Qed.

(** A panic loses the report: when the set-up, the injection or the wait
    for recovery panics, the deferred handler records an error in the report,
    but the run returns nil, since the panic prevented the [return] that would
    have set its unnamed result. *)
Theorem panic_loses_report (sc : ScenarioDefinition) (m : string) :
  (Setup sc = Panics m ∨
   ∃ infra b, Setup sc = Returns (Ok infra) ∧ CheckRequirements infra (mdRequirements (Metadata sc)) = None ∧
     (observeAll sc PhaseBaseline (Observers sc) []).1 = Returns (Ok b) ∧
     (Inject sc = Panics m ∨ Inject sc = Returns None ∧ Wait_ sc = Panics m)) →
  (Run_ sc).1 = None ∧ ∃ p, panic (run_body sc) = Some p.
Proof.
  intros H. assert (panicked (run_body sc)) as [H1 H2].
  { unfold run_body. destruct H as [-> | (infra & b & -> & Hreq & Hobs & Hinj)]; [by split|].
    apply panicked_after, panicked_defer. unfold run_scenario. rewrite Hreq.
    destruct (observeAll _ _ _ _) as [c tr]. cbn [fst] in Hobs. subst c. apply panicked_after, panicked_defer.
    destruct Hinj as [-> | [-> Hw]]; [by split|]. apply panicked_after. unfold run_recovery. rewrite Hw. by split. }
  unfold Run_. rewrite H1. split; [done|]. destruct (panic (run_body sc)); [by eauto|done].
Qed.

(** ** Waiting *)

(** The conditions met at a time, as the mode asks for them. *)
Definition satisfied (w : CompositeWaiter) (now : Time) : bool :=
  if bool_decide (wmode w = ModeAll) then forallb (λ c, Met c now) (conditions w)
  else bool_decide (wmode w = ModeAny) && existsb (λ c, Met c now) (conditions w).

Lemma waiter_check_spec w now :
  let '(met, unmet) := waiter_check w now in
  bool_decide (unmet = []) = forallb (λ c, Met c now) (conditions w) ∧
  bool_decide (met ≠ []) = existsb (λ c, Met c now) (conditions w).
Proof.
  unfold waiter_check. induction (conditions w) as [|c cs IH] using rev_ind; [done|].
  rewrite foldl_app, forallb_app, existsb_app. cbn [foldl]. destruct (foldl _ _ cs) as [met unmet].
  destruct IH as [<- <-]. destruct (Met c now) eqn:E; cbn; rewrite E; cbn; rewrite ?orb_true_r, ?orb_false_r, ?andb_true_r, ?andb_false_r.
  - split; [done|]. apply bool_decide_eq_true. by destruct met.
  - split; [|done]. apply bool_decide_eq_false. by destruct unmet.
Qed.

Lemma wait_round_spec w now :
  conditions w ≠ [] → wait_round w (Poll now) = if satisfied w now then Some None else None.
Proof.
  intros Hne. unfold wait_round, satisfied. pose proof (waiter_check_spec w now) as H.
  destruct (waiter_check w now) as [met unmet]. destruct H as [-> ->].
  case_bool_decide as Ha.
  - assert (forallb (λ c, Met c now) (conditions w) = true → existsb (λ c, Met c now) (conditions w) = true) as Hex.
    { destruct (conditions w) as [|c cs]; [done|]. cbn. by intros [-> _]%andb_true_iff. }
    destruct (forallb _ _); [by rewrite Hex|done].
  - case_bool_decide; [|done]. cbn. by destruct (existsb _ _).
Qed.

(** Waiting ends exactly when it should: with conditions to wait for, the
    waiter succeeds at the first poll at which they are met (all of them, or
    one of them) and fails when the context ends before, and it keeps waiting
    as long as neither happened. *)
Theorem wait_exact (w : CompositeWaiter) (polls : list Time) :
  conditions w ≠ [] →
  (Forall (λ now, satisfied w now = false) polls → Wait w (Poll <$> polls) = None) ∧
  (∀ now rest, Forall (λ now, satisfied w now = false) polls → satisfied w now = true →
     Wait w ((Poll <$> polls) ++ Poll now :: rest) = Some None) ∧
  (∀ e rest, Forall (λ now, satisfied w now = false) polls →
     Wait w ((Poll <$> polls) ++ CtxDone e :: rest) = Some (Some ("recovery timed out: " +:+ e))).
Proof.
  intros Hne. unfold Wait. rewrite bool_decide_false by done.
  assert (∀ evs, Forall (λ now, satisfied w now = false) polls → wait_loop w ((Poll <$> polls) ++ evs) = wait_loop w evs) as H.
  { intros evs. induction 1 as [|now polls Hn Hp IH]; [done|]. cbn [fmap list_fmap app wait_loop].
    by rewrite wait_round_spec, Hn. }
  split_and!.
  - intros Hp. rewrite <-(app_nil_r (Poll <$> polls)). by rewrite H.
  - intros now rest Hp Hs. rewrite H by done. cbn [wait_loop]. by rewrite wait_round_spec, Hs.
  - intros e rest Hp. by rewrite H.
Qed.

(** ** The summary *)

Definition tally (o : string) (reports : list ValidationReport) : Z :=
  Z.of_nat (length (filter (λ r, rpOutcome r = o) reports)).
Definition all_validations (reports : list ValidationReport) : list ValidationResult := reports ≫= rpValidations.
Definition vtally (st : string) (vs : list ValidationResult) : Z := Z.of_nat (length (filter (λ v, vrStatus v = st) vs)).

Ltac tuple_lia := repeat apply (f_equal2 pair); first [lia|done].

Lemma tally_snoc o l r : tally o (l ++ [r]) = tally o l + (if bool_decide (rpOutcome r = o) then 1 else 0).
Proof.
  unfold tally. rewrite filter_app, length_app. case_bool_decide.
  - rewrite filter_cons_True by done. cbn. lia.
  - rewrite filter_cons_False by done. cbn. lia.
Qed.

Lemma vtally_snoc o l r : vtally o (l ++ [r]) = vtally o l + (if bool_decide (vrStatus r = o) then 1 else 0).
Proof.
  unfold vtally. rewrite filter_app, length_app. case_bool_decide.
  - rewrite filter_cons_True by done. cbn. lia.
  - rewrite filter_cons_False by done. cbn. lia.
Qed.

(** The counters of the validations, and the rest. *)
Definition invariants (s : SummaryReport) : Z * Z * Z * Z * Z := (iTotal s, iPassed s, iWarned s, iFailed s, iSkipped s).
Definition scenarios_of (s : SummaryReport) := (sTotal s, sPassed s, sFailed s, sSkipped s, sTimedOut s, sErrors s, sScenarios s).

Lemma count_validation_frame s v : scenarios_of (count_validation s v) = scenarios_of s.
Proof. unfold count_validation. by repeat case_bool_decide. Qed.

Lemma count_outcome_frame o s : invariants (count_outcome o s) = invariants s.
Proof. unfold count_outcome. by repeat case_bool_decide. Qed.

Lemma count_validations_spec vs s :
  invariants (foldl count_validation s vs) =
  (iTotal s + Z.of_nat (length vs), iPassed s + vtally StatusPass vs, iWarned s + vtally StatusWarn vs,
   iFailed s + vtally StatusFail vs, iSkipped s + vtally StatusSkip vs).
Proof.
  induction vs as [|v vs IH] using rev_ind.
  { unfold invariants, vtally. cbn. by rewrite !Z.add_0_r. }
  rewrite foldl_app, !vtally_snoc, length_app. cbn [foldl length].
  revert IH. generalize (foldl count_validation s vs). intros h IH.
  unfold invariants in *. injection IH as H1 H2 H3 H4 H5. unfold count_validation.
  unfold StatusPass, StatusWarn, StatusFail, StatusSkip in *. repeat case_bool_decide; try congruence; cbn; rewrite H1, H2, H3, H4, H5; tuple_lia.
Qed.

Lemma summarize_spec now reports :
  let s := foldl summarize_one (empty_summary now) reports in
  scenarios_of s = (Z.of_nat (length reports), tally OutcomePassed reports, tally OutcomeFailed reports, tally OutcomeSkipped reports,
    tally OutcomeTimedOut reports, tally OutcomeError reports,
    (λ r, mkSummaryEntry (mdName (rpScenario r)) (rpOutcome r) (rpDuration r) (rpRootCause r)) <$> reports) ∧
  invariants s = (Z.of_nat (length (all_validations reports)), vtally StatusPass (all_validations reports),
    vtally StatusWarn (all_validations reports), vtally StatusFail (all_validations reports), vtally StatusSkip (all_validations reports)).
Proof.
  cbv zeta. induction reports as [|r reports [IH1 IH2]] using rev_ind; [done|].
  rewrite foldl_app, !tally_snoc, length_app, fmap_app. cbn [foldl length].
  set (s := foldl summarize_one (empty_summary now) reports) in *. clearbody s. unfold summarize_one.
  set (s1 := s <| sTotal ::= _ |> <| sScenarios ::= _ |> <| sTotalDuration ::= _ |>).
  assert (invariants s1 = invariants s) as E1 by done.
  assert (scenarios_of s1 = (Z.succ (sTotal s), sPassed s, sFailed s, sSkipped s, sTimedOut s, sErrors s,
    sScenarios s ++ [mkSummaryEntry (mdName (rpScenario r)) (rpOutcome r) (rpDuration r) (rpRootCause r)])) as E2 by done.
  clearbody s1. split.
  - rewrite (foldl_frame _ scenarios_of _ _ count_validation_frame). unfold scenarios_of in *.
    injection IH1 as T1 T2 T3 T4 T5 T6 T7. injection E2 as U1 U2 U3 U4 U5 U6 U7. unfold count_outcome.
    unfold OutcomePassed, OutcomeFailed, OutcomeSkipped, OutcomeTimedOut, OutcomeError in *.
    repeat case_bool_decide; try congruence; cbn; rewrite U1, U2, U3, U4, U5, U6, U7, T1, T2, T3, T4, T5, T6, T7; tuple_lia.
  - rewrite count_validations_spec. unfold all_validations in *. rewrite bind_app. cbn [mbind list_bind]. rewrite app_nil_r.
    pose proof (count_outcome_frame (rpOutcome r) s1) as E3. rewrite E1, IH2 in E3. unfold invariants in E3.
    injection E3 as -> -> -> -> ->. unfold vtally. rewrite !filter_app, !length_app. tuple_lia.
Qed.

(** The loop over the recovery durations. *)
Lemma recovery_loop_spec ds t mn mx :
  mn ≤ mx → Forall (λ d, 0 < d) ds → 0 ≤ t → t + foldr Z.add 0 ds < 2 ^ 63 →
  ∃ mn' mx', foldl recovery_step (t, mn, mx) ds = (t + foldr Z.add 0 ds, mn', mx') ∧
    mn' ≤ mn ∧ mx ≤ mx' ∧ mn' ∈ mn :: ds ∧ mx' ∈ mx :: ds ∧ Forall (λ d, mn' ≤ d ≤ mx') ds.
Proof.
  intros Hmm Hd. revert t mn mx Hmm. induction Hd as [|d ds Hd Hds IH]; intros t mn mx Hmm Ht Hb; cbn [foldl foldr] in *.
  { exists mn, mx. rewrite Z.add_0_r. split_and!; try done; try lia; set_solver. }
  assert (0 ≤ foldr Z.add 0 ds) as Hpos by (clear -Hds; induction Hds; cbn; lia).
  unfold recovery_step at 2. rewrite wrap64_id by (unfold in_int64; lia).
  destruct (IH (t + d) (if d <? mn then d else mn) (if mx <? d then d else mx)) as (mn' & mx' & -> & H1 & H2 & H3 & H4 & H5).
  - destruct (Z.ltb_spec d mn), (Z.ltb_spec mx d); lia.
  - lia.
  - lia.
  - exists mn', mx'. split_and!; [f_equal; f_equal; lia|..].
    + destruct (Z.ltb_spec d mn); lia.
    + destruct (Z.ltb_spec mx d); lia.
    + destruct (d <? mn); set_solver.
    + destruct (mx <? d); set_solver.
    + constructor; [|done]. destruct (Z.ltb_spec d mn), (Z.ltb_spec mx d); lia.
Qed.

Lemma sum_between (mn mx : Z) (ds : list Z) :
  Forall (λ d, mn ≤ d ≤ mx) ds → Z.of_nat (length ds) * mn ≤ foldr Z.add 0 ds ≤ Z.of_nat (length ds) * mx.
Proof. induction 1 as [|d ds Hd Hds IH]; cbn [foldr length]; [lia|]. rewrite Nat2Z.inj_succ. lia. Qed.

Lemma mean_between (mn mx : Z) (ds : list Z) :
  ds ≠ [] → Forall (λ d, 0 < d) ds → Forall (λ d, mn ≤ d ≤ mx) ds →
  mn ≤ Z.quot (foldr Z.add 0 ds) (Z.of_nat (length ds)) ≤ mx.
Proof.
  intros Hne Hpos Hb. pose proof (sum_between mn mx ds Hb) as [H1 H2].
  assert (0 ≤ foldr Z.add 0 ds) by (clear -Hpos; induction Hpos; cbn; lia).
  assert (0 < Z.of_nat (length ds)) as Hlen by (destruct ds; [done|cbn; lia]).
  rewrite Z.quot_div_nonneg by lia. split; [apply Z.div_le_lower_bound; lia|].
  apply Z.lt_succ_r, Z.div_lt_upper_bound; [done|]. lia.
Qed.

(** The summary adds up: it counts every report once under its outcome
    and every validation once under its status, in the order of the reports,
    so that the outcomes sum to the total when every report has one of the
    five; and, as long as the recovery durations sum to a 64-bit value, the
    shortest and the longest recovery are durations of the reports that bound
    all of them and between which the mean lies. *)
Theorem summary_exact (now : Time) (reports : list ValidationReport) :
  let s := NewSummary now reports in
  let ds := recovery_durations reports in
  sTotal s = Z.of_nat (length reports) ∧
  sPassed s = tally OutcomePassed reports ∧ sErrors s = tally OutcomeError reports ∧
  seOutcome <$> sScenarios s = rpOutcome <$> reports ∧
  (Forall (λ r, rpOutcome r ∈ outcomes) reports →
     sTotal s = sPassed s + sFailed s + sSkipped s + sTimedOut s + sErrors s) ∧
  iTotal s = Z.of_nat (length (all_validations reports)) ∧ iFailed s = vtally StatusFail (all_validations reports) ∧
  (ds ≠ [] → foldr Z.add 0 ds < 2 ^ 63 →
     sRecoveryCount s = Z.of_nat (length ds) ∧
     sRecoveryMin s ∈ ds ∧ sRecoveryMax s ∈ ds ∧ Forall (λ d, sRecoveryMin s ≤ d ≤ sRecoveryMax s) ds ∧
     sRecoveryMin s ≤ sRecoveryMean s ≤ sRecoveryMax s).
Proof.
  cbv zeta. destruct (summarize_spec now reports) as [H1 H2]. unfold NewSummary.
  assert (Forall (λ d, 0 < d) (recovery_durations reports)) as Hpos.
  { apply Forall_forall. unfold recovery_durations. intros d Hd. by apply list_elem_of_filter in Hd as [? _]. }
  revert H1 H2. generalize (foldl summarize_one (empty_summary now) reports). intros s H1 H2.
  set (s' := match recovery_durations reports with [] => _ | _ => _ end).
  assert (scenarios_of s' = scenarios_of s ∧ invariants s' = invariants s) as [E1 E2].
  { unfold s'. destruct (recovery_durations reports) as [|d0 ds]; [done|]. by destruct (foldl _ _ _) as [[??]?]. }
  rewrite H1 in E1. rewrite H2 in E2. unfold scenarios_of in E1. unfold invariants in E2.
  injection E1 as T1 T2 T3 T4 T5 T6 T7. injection E2 as I1 I2 I3 I4 I5.
  split_and!; try done.
  - rewrite T7, <-list_fmap_compose. done.
  - intros Hall. rewrite T1, T2, T3, T4, T5, T6. clear -Hall.
    induction reports as [|r reports IH] using rev_ind; [done|]. apply Forall_app in Hall as [Hall Hr].
    rewrite Forall_singleton in Hr. rewrite !tally_snoc, length_app. cbn [length]. rewrite Nat2Z.inj_add, IH by done.
    unfold outcomes, OutcomePassed, OutcomeFailed, OutcomeSkipped, OutcomeTimedOut, OutcomeError in *.
    repeat case_bool_decide; try congruence; try lia. set_solver.
  - unfold s'. destruct (recovery_durations reports) as [|d0 ds] eqn:Ed; [done|]. intros _ Hsum.
    destruct (recovery_loop_spec (d0 :: ds) 0 d0 d0) as (mn & mx & -> & _ & _ & Hmn & Hmx & Hb); [lia|done|lia|done|].
    cbn [sRecoveryCount sRecoveryMin sRecoveryMax sRecoveryMean set_field]. unfold set_sRecoveryMean. cbn.
    split_and!; [done|set_solver|set_solver|done|..]; rewrite Z.add_0_l;
      apply (mean_between mn mx (d0 :: ds)); done.
Qed.

(** ** A scenario whose injection panics *)

Definition sample_infra : Infrastructure := mkInfra (λ _, Ok "redis:6379") (λ _, Ok []) (λ _, Ok "postgres://db") 2 (λ _, None) None.
Definition sample_scenario : ScenarioDefinition := {|
  Metadata := mkMetadata "crash" "Crash" "" 1 [] "high" "process" (mkRequirements 1 false true true false) (30 * Second) "recovers";
  Setup := Returns (Ok sample_infra);
  Teardown := Returns ();
  Inject := Panics "nil process";
  Recover := Returns None;
  Observers := [mkObserver "state" PolicyRequired (λ p, Returns (Ok [mkEvidence 0 p "state" "gauge" EvKeyEntityCount "3"]))];
  Validators := [mkValidator "entity" (λ b p, Returns (validate_entity b p))];
  Wait_ := Returns None;
  Reporter := None;
  Acceptance := let c := mkCriterion 0 AcceptWarn in mkCriteria c c c c c;
  deadlineExceeded := false;
  recoveryTook := Second;
  totalTook := 2 * Second;
  startedAt := 0;
  observedAt := 0
|}.

Lemma panic_loses_report_witness :
  Run_ sample_scenario =
  (None, [ESetup; EObserve PhaseBaseline "state"; EInject; ERecover; ETeardown]).
Proof.
  destruct (panic_loses_report sample_scenario "nil process") as [H _].
  - right. exists sample_infra, [mkEvidence 0 PhaseBaseline "state" "gauge" EvKeyEntityCount "3"].
    split; [reflexivity|]. split; [reflexivity|]. split; [reflexivity|]. left. reflexivity.
  - rewrite (surjective_pairing (Run_ sample_scenario)), H. reflexivity.
Defined.
