(* ===== verification/Telemetry.v ===== *)
(** * Interceptors and metrics

    The interceptors of [internal/grpc/interceptor.go], which wrap every
    handler of the services, and the adapter of [apps/game-server/metrics.go],
    which turns the observations of the simulation into the instruments of
    [internal/metrics].

    A gauge holds the last value set, a counter the sum of what was added; the
    values set and added here are integers, which both kinds represent.
    [ChainUnaryInterceptor] applies its first argument outermost. *)

From S2P Require Import Prelude GoFloat Types Protocol Aoi Entity Game Room GameInv GameSpec Validation.
From stdpp Require Import base tactics list gmap strings.
From Stdlib Require Import ZArith Lia Ascii.

Local Open Scope Z_scope.

(** ** Interceptors *)

Inductive rpc_error := RpcStatus (c : code) (msg : string) | RpcOther (msg : string).
Definition rpc_text (e : rpc_error) : string := match e with RpcStatus _ m => m | RpcOther m => m end.

Inductive log_entry :=
| LogPanic (method panic : string)
| LogStreamPanic (panic : string)
| LogRequest (method : string) (error : option string) (took : Duration)
| ObserveDuration (service method : string) (observed : float64).

(** The part of the method name after the last slash. *)
Fixpoint after_slash (l : list ascii) : option (list ascii) :=
  match l with
  | [] => None
  | c :: l => match after_slash l with
              | Some r => Some r
              | None => if bool_decide (c = "/"%char) then Some l else None
              end
  end.
Definition method (full : string) : string :=
  match after_slash (String.list_ascii_of_string full) with
  | Some r => String.string_of_list_ascii r
  | None => full
  end.

Section interceptors.
Context {W Resp : Type}.

(** A unary handler on the state of the service: its answer, the entries
    written meanwhile, and the state it leaves, also when it panics.  The
    response is [None] when it is nil. *)
Definition handler : Type := W → call (option Resp * option rpc_error) * list log_entry * W.

Definition RecoveryInterceptor (full : string) (h : handler) : handler := λ w,
  match h w with
  | (Returns r, l, w) => (Returns r, l, w)
  | (Panics m, l, w) => (Returns (None, Some (RpcStatus Internal "internal error")), l ++ [LogPanic full m], w)
  end.

Definition LoggingUnaryInterceptor (full : string) (took : Duration) (h : handler) : handler := λ w,
  match h w with
  | (Returns (resp, err), l, w) => (Returns (resp, err), l ++ [LogRequest full (rpc_text <$> err) took], w)
  | (Panics m, l, w) => (Panics m, l, w)
  end.

Definition MetricsUnaryInterceptor (service full : string) (took : Duration) (h : handler) : handler := λ w,
  match h w with
  | (Returns r, l, w) => (Returns r, l ++ [ObserveDuration service (method full) (seconds took)], w)
  | (Panics m, l, w) => (Panics m, l, w)
  end.

(** The chain of [ServerOptions]; the two durations are those the two
    interceptors measure. *)
Definition unary_chain (service full : string) (took_log took_metrics : Duration) (h : handler) : handler :=
  RecoveryInterceptor full (LoggingUnaryInterceptor full took_log (MetricsUnaryInterceptor service full took_metrics h)).

(** A stream handler only answers with an error. *)
Definition stream_handler : Type := W → call (option rpc_error) * list log_entry * W.

Definition RecoveryStreamInterceptor (h : stream_handler) : stream_handler := λ w,
  match h w with
  | (Returns r, l, w) => (Returns r, l, w)
  | (Panics m, l, w) => (Returns (Some (RpcStatus Internal "internal error")), l ++ [LogStreamPanic m], w)
  end.
Definition MetricsStreamInterceptor (service full : string) (took : Duration) (h : stream_handler) : stream_handler := λ w,
  match h w with
  | (Returns r, l, w) => (Returns r, l ++ [ObserveDuration service (method full) (seconds took)], w)
  | (Panics m, l, w) => (Panics m, l, w)
  end.
Definition stream_chain (service full : string) (took : Duration) (h : stream_handler) : stream_handler :=
  RecoveryStreamInterceptor (MetricsStreamInterceptor service full took h).

Lemma after_slash_none l : "/"%char ∉ l → after_slash l = None.
Proof.
  induction l as [|c l IH]; [done|]. intros [Hc Hl]%not_elem_of_cons. cbn. rewrite IH by done. by rewrite bool_decide_false.
Qed.

Lemma after_slash_app l m : "/"%char ∉ m → after_slash (l ++ "/"%char :: m) = Some m.
Proof.
  intros Hm. induction l as [|c l IH]; cbn; [|by rewrite IH]. rewrite after_slash_none by done. done.
Qed.

Lemma method_spec svc m :
  "/"%char ∉ String.list_ascii_of_string m → method (svc +:+ "/" +:+ m) = m.
Proof.
  intros Hm. unfold method.
  assert (∀ a b, String.list_ascii_of_string (a +:+ b) = String.list_ascii_of_string a ++ String.list_ascii_of_string b) as Happ.
  { intros a b. induction a as [|c a IH]; [done|]. change (String c a +:+ b) with (String c (a +:+ b)). cbn. by rewrite IH. }
  rewrite !Happ. cbn [String.list_ascii_of_string app]. rewrite after_slash_app by done.
  apply String.string_of_list_ascii_of_string.
Qed.

(** The interceptors are transparent and contain panics: a handler that
    returns has its answer and its effect passed on unchanged, one duration is
    recorded, under the bare name of the method, and one entry is logged,
    with the text of the error if there is one; a handler that panics is
    answered by an internal error, on unary calls and on streams, its effect
    up to the panic stays, and neither a duration nor a request is recorded
    for it. *)
Theorem chain_contains_panics (service svc m : string) (took took' : Duration) (h : handler) (s : stream_handler) (w : W) :
  "/"%char ∉ String.list_ascii_of_string m →
  let full := svc +:+ "/" +:+ m in
  (match h w with
   | (Returns (resp, err), l, w') =>
       unary_chain service full took took' h w =
       (Returns (resp, err), l ++ [ObserveDuration service m (seconds took'); LogRequest full (rpc_text <$> err) took], w')
   | (Panics p, l, w') =>
       unary_chain service full took took' h w =
       (Returns (None, Some (RpcStatus Internal "internal error")), l ++ [LogPanic full p], w')
   end) ∧
  (match s w with
   | (Returns err, l, w') => stream_chain service full took s w = (Returns err, l ++ [ObserveDuration service m (seconds took)], w')
   | (Panics p, l, w') => stream_chain service full took s w = (Returns (Some (RpcStatus Internal "internal error")), l ++ [LogStreamPanic p], w')
   end).
Proof.
  intros Hm. cbv zeta.
  unfold unary_chain, stream_chain, RecoveryInterceptor, LoggingUnaryInterceptor, MetricsUnaryInterceptor,
    RecoveryStreamInterceptor, MetricsStreamInterceptor. rewrite method_spec by done. split.
  - destruct (h w) as [[[[resp err]|p] l] w']; [|done]. by rewrite <-app_assoc.
  - by destruct (s w) as [[[err|p] l] w'].
Qed.
End interceptors.

(** ** The registry *)

Record Registry := mkRegistry {
  rActiveConnections : Z;
  rPacketsPerSec : gmap (string * string) Z;
  rEntityCount : gmap string Z;
  rTickDurationSeconds : list float64;                          (* observations *)
  rGRPCRequestDuration : gmap (string * string) (list float64);
  rQueueDepth : gmap string Z;
  rDroppedTotal : gmap string Z;
  rTickOverruns : Z;
  rActiveSpaces : Z;
  rRuntimeEvents : gmap string Z
}.
Definition NewRegistry : Registry := mkRegistry 0 ∅ ∅ [] ∅ ∅ ∅ 0 0 ∅.
Definition eta_registry (r : Registry) :=
  mkRegistry (rActiveConnections r) (rPacketsPerSec r) (rEntityCount r) (rTickDurationSeconds r) (rGRPCRequestDuration r)
    (rQueueDepth r) (rDroppedTotal r) (rTickOverruns r) (rActiveSpaces r) (rRuntimeEvents r).
#[export] Instance set_rEntityCount : Setter rEntityCount. Proof. solve_setter eta_registry. Defined.
#[export] Instance set_rTickDurationSeconds : Setter rTickDurationSeconds. Proof. solve_setter eta_registry. Defined.
#[export] Instance set_rQueueDepth : Setter rQueueDepth. Proof. solve_setter eta_registry. Defined.
#[export] Instance set_rDroppedTotal : Setter rDroppedTotal. Proof. solve_setter eta_registry. Defined.
#[export] Instance set_rTickOverruns : Setter rTickOverruns. Proof. solve_setter eta_registry. Defined.
#[export] Instance set_rActiveSpaces : Setter rActiveSpaces. Proof. solve_setter eta_registry. Defined.
#[export] Instance set_rRuntimeEvents : Setter rRuntimeEvents. Proof. solve_setter eta_registry. Defined.

(** [WithLabelValues(l).Add(n)]. *)
Definition counter_add (l : string) (n : Z) (m : gmap string Z) : gmap string Z := <[l := default 0 (m !! l) + n]> m.

(** [gameMetricsAdapter]. *)
Definition gameMetricsAdapter (r : Registry) (m : metric) : Registry :=
  match m with
  | TickDuration d => r <| rTickDurationSeconds ::= λ l, l ++ [seconds d] |>
  | TickOverrun => r <| rTickOverruns ::= Z.succ |>
  | QueueDepth queue depth => r <| rQueueDepth ::= <[queue := Z.of_nat depth]> |>
  | Dropped queue n => r <| rDroppedTotal ::= counter_add queue (Z.of_nat n) |>
  | EntityCount_ typ n => r <| rEntityCount ::= <[typ := Z.of_nat n]> |>
  | ActiveSpaces n => r <| rActiveSpaces := Z.of_nat n |>
  | RuntimeEvent kind => r <| rRuntimeEvents ::= counter_add kind 1 |>
  end.

(** The registry behind a game. *)
Definition scrape (l : list metric) : Registry := foldl gameMetricsAdapter NewRegistry l.

Section scrape.
Context `{GM : GoMath} `{GZ : Gzip} `{GB : Gob} `{CD : Codecs} `{RO : RangeOrder}.
Implicit Types g : Game.

Definition of_type (t : string) (g : Game) (x : EntityID * loc) : bool :=
  match eheap g !! x.2 with Some e => bool_decide (eType e = t) | None => false end.

(** The number of registered entities of a type. *)
Definition type_count (t : string) g : nat := length (List.filter (of_type t g) (range_list (Entities g))).

Lemma entities_by_type_spec g t :
  entities_by_type g !! t = if (type_count t g =? 0)%nat then None else Some (type_count t g).
Proof.
  unfold entities_by_type, type_count. generalize (range_list (Entities g)). intros l.
  induction l as [|[i p] l IH] using rev_ind; [done|].
  rewrite foldl_app, List.filter_app, length_app. cbn [foldl].
  set (m := foldl _ ∅ l) in *. clearbody m.
  unfold of_type at 2 4. cbn [List.filter snd]. destruct (eheap g !! p) as [e|]; cbn [length]; [|by rewrite Nat.add_0_r].
  case_bool_decide as Ht; cbn [length].
  - subst t. rewrite lookup_insert_eq, IH. destruct (Nat.eqb_spec (length (List.filter (of_type (eType e) g) l)) 0) as [E|E].
    + by rewrite E.
    + cbn. destruct (Nat.eqb_spec (length (List.filter (of_type (eType e) g) l) + 1) 0); [lia|]. f_equal. lia.
  - rewrite lookup_insert_ne by done. by rewrite Nat.add_0_r.
Qed.

Lemma range_list_perm_to_map {V} (m : gmap string V) : (list_to_map (range_list m) : gmap string V) = m.
Proof.
  etrans; [|apply list_to_map_to_list]. apply list_to_map_proper; [apply NoDup_fst_range_list|apply range_list_perm].
Qed.

(** The loop over the types sets one gauge per type that has entities. *)
Lemma entity_gauges (l : list (string * nat)) (r : Registry) t :
  NoDup l.*1 →
  rEntityCount (foldl gameMetricsAdapter r ((λ x, EntityCount_ x.1 x.2) <$> l)) !! t =
  match (list_to_map l : gmap string nat) !! t with Some n => Some (Z.of_nat n) | None => rEntityCount r !! t end.
Proof.
  revert r. induction l as [|[u n] l IH]; intros r Hnd; [done|]. cbn [fmap list_fmap foldl fst snd] in *.
  apply NoDup_cons in Hnd as [Hu Hnd]. rewrite IH by done. cbn [gameMetricsAdapter]. cbn [list_to_map]. cbn.
  destruct (decide (u = t)) as [-> | Hne].
  - rewrite (not_elem_of_list_to_map_1 l t Hu), !lookup_insert_eq. done.
  - by rewrite !lookup_insert_ne.
Qed.

Lemma reportGauges_metrics g :
  metrics (reportGauges g) = metrics g ++ [QueueDepth "inbox" (length (Inbox g)); QueueDepth "events" (length (Events g));
    QueueDepth "cmds" (length (cmds g)); ActiveSpaces (size (active_spaces g))]
    ++ ((λ x, EntityCount_ x.1 x.2) <$> range_list (entities_by_type g)).
Proof.
  unfold reportGauges.
  assert (∀ l h, metrics (foldl (λ g '(typ, n), count_metric (EntityCount_ typ n) g) h l) =
    metrics h ++ ((λ x, EntityCount_ x.1 x.2) <$> l)) as Hl.
  { induction l as [|[t n] l IH]; intros h; cbn [foldl fmap list_fmap]; [by rewrite app_nil_r|]. rewrite IH. cbn. by rewrite <-app_assoc. }
  rewrite Hl. cbn. rewrite <-!app_assoc. cbn. do 6 f_equal.
Qed.
(** The gauges a report writes, against the state it reports. *)
Lemma reportGauges_scrape g :
  let r := scrape (metrics g) in
  let r' := scrape (metrics (reportGauges g)) in
  rQueueDepth r' !! "inbox" = Some (Z.of_nat (length (Inbox g))) ∧
  rQueueDepth r' !! "events" = Some (Z.of_nat (length (Events g))) ∧
  rQueueDepth r' !! "cmds" = Some (Z.of_nat (length (cmds g))) ∧
  rActiveSpaces r' = Z.of_nat (size (active_spaces g)) ∧
  (∀ t, rEntityCount r' !! t = if (type_count t g =? 0)%nat then rEntityCount r !! t else Some (Z.of_nat (type_count t g))).
Proof.
  cbv zeta. rewrite reportGauges_metrics. unfold scrape. rewrite !foldl_app.
  set (r := foldl gameMetricsAdapter NewRegistry (metrics g)). set (r1 := foldl gameMetricsAdapter r [_; _; _; _]).
  assert (∀ (l : list (string * nat)) r0, let r2 := foldl gameMetricsAdapter r0 ((λ x, EntityCount_ x.1 x.2) <$> l) in
    rQueueDepth r2 = rQueueDepth r0 ∧ rActiveSpaces r2 = rActiveSpaces r0) as Hf.
  { induction l as [|[t n] l IH]; intros r0; [done|]. cbn [fmap list_fmap foldl fst snd]. destruct (IH (gameMetricsAdapter r0 (EntityCount_ t n))) as [-> ->]. done. }
  destruct (Hf (range_list (entities_by_type g)) r1) as [-> ->].
  split_and!; [unfold r1; cbn; by simplify_map_eq..|done|]. intros t. rewrite entity_gauges by apply NoDup_fst_range_list.
  rewrite range_list_perm_to_map, entities_by_type_spec. by destruct (type_count t g =? 0)%nat.
Qed.

(** What operators see after a tick: the depths of the three queues and the
    number of active spaces are those of the game, and so is the number of
    entities of each type that has any; the count of a type whose last entity
    is gone keeps the value it had before the report. *)
Theorem gauges_after_tick (c : TickClock) (g g' : Game) :
  tick c g = Some g' →
  let r := scrape (metrics g') in
  rQueueDepth r !! "inbox" = Some (Z.of_nat (length (Inbox g'))) ∧
  rQueueDepth r !! "events" = Some (Z.of_nat (length (Events g'))) ∧
  rQueueDepth r !! "cmds" = Some (Z.of_nat (length (cmds g'))) ∧
  rActiveSpaces r = Z.of_nat (size (active_spaces g')) ∧
  (∀ t, type_count t g' ≠ 0%nat → rEntityCount r !! t = Some (Z.of_nat (type_count t g'))) ∧
  (∃ g1, g' = reportGauges g1 ∧ ∀ t, type_count t g' = 0%nat → rEntityCount r !! t = rEntityCount (scrape (metrics g1)) !! t).
Proof.
  intros Ht. assert (∃ g1, g' = reportGauges g1) as [g1 ->].
  { unfold tick in Ht. destruct (simulate _ _ _) as [g2|]; [|done]. cbn in Ht. injection Ht as <-. eauto. }
  cbv zeta. clear Ht g. destruct (reportGauges_scrape g1) as (H1 & H2 & H3 & H4 & H5).
  assert (∀ l h, let h' := foldl (λ g '(typ, n), count_metric (EntityCount_ typ n) g) h l in
    (Inbox h', Events h', cmds h', Zones h', Entities h', eheap h') = (Inbox h, Events h, cmds h, Zones h, Entities h, eheap h)) as Hfr.
  { induction l as [|[t n] l IH]; intros h; [done|]. cbn [foldl]. by rewrite IH. }
  assert ((Inbox (reportGauges g1), Events (reportGauges g1), cmds (reportGauges g1), Zones (reportGauges g1),
           Entities (reportGauges g1), eheap (reportGauges g1)) = (Inbox g1, Events g1, cmds g1, Zones g1, Entities g1, eheap g1)) as E.
  { unfold reportGauges. by rewrite Hfr. }
  injection E as E1 E2 E3 E4 E5 E6.
  assert (∀ t, type_count t (reportGauges g1) = type_count t g1) as Htc.
  { intros t. unfold type_count, of_type. by rewrite E5, E6. }
  unfold active_spaces in *. rewrite E1, E2, E3, E4. split_and!; [done|done|done|done| |].
  - intros t. rewrite Htc, H5. intros Hne. by destruct (Nat.eqb_spec (type_count t g1) 0).
  - exists g1. split; [done|]. intros t. rewrite Htc, H5. intros ->. done.
Qed.

(** *** Counters *)

Lemma scrape_replicate_dropped n r q :
  rDroppedTotal (foldl gameMetricsAdapter r (replicate n (Dropped q 1))) !! q =
  if (n =? 0)%nat then rDroppedTotal r !! q else Some (default 0 (rDroppedTotal r !! q) + Z.of_nat n).
Proof.
  revert r. induction n as [|n IH]; intros r; [done|]. cbn [replicate foldl]. rewrite IH. cbn. unfold counter_add. rewrite lookup_insert_eq.
  destruct n as [|n]; cbn; [done|]. f_equal. lia.
Qed.

Lemma scrape_replicate_events n r q :
  rRuntimeEvents (foldl gameMetricsAdapter r (replicate n (Dropped q 1))) = rRuntimeEvents r.
Proof. revert r. induction n as [|n IH]; intros r; [done|]. cbn [replicate foldl]. by rewrite IH. Qed.

Lemma scrape_events (evts : list Event) r k :
  let r' := foldl gameMetricsAdapter r ((λ e, RuntimeEvent (eventKindLabel (evKind e))) <$> evts) in
  default 0 (rRuntimeEvents r' !! k) =
    default 0 (rRuntimeEvents r !! k) + Z.of_nat (length (List.filter (λ e, bool_decide (eventKindLabel (evKind e) = k)) evts)) ∧
  rDroppedTotal r' = rDroppedTotal r.
Proof.
  cbv zeta. revert r. induction evts as [|e evts IH]; intros r; cbn [fmap list_fmap foldl List.filter]; [cbn; split; [lia|done]|].
  destruct (IH (gameMetricsAdapter r (RuntimeEvent (eventKindLabel (evKind e))))) as [-> ->]. cbn. unfold counter_add.
  split; [|done]. case_bool_decide as Hk.
  - subst k. rewrite lookup_insert_eq. cbn. lia.
  - rewrite lookup_insert_ne by done. done.
Qed.

(** The counters of events: publishing a batch raises the counter of a kind
    by the events of that kind that fit in the channel, and the counter of
    dropped events by exactly the rest. *)
Theorem event_counters (evts : list Event) (g : Game) (k : string) :
  reachable g →
  let r := scrape (metrics g) in
  let r' := scrape (metrics (publish_all evts g)) in
  let free := (4096 - length (Events g))%nat in
  default 0 (rRuntimeEvents r' !! k) = default 0 (rRuntimeEvents r !! k) +
    Z.of_nat (length (List.filter (λ e, bool_decide (eventKindLabel (evKind e) = k)) (take free evts))) ∧
  default 0 (rDroppedTotal r' !! "events") = default 0 (rDroppedTotal r !! "events") + Z.of_nat (length evts - free).
Proof.
  intros Hg%reachable_wf. cbv zeta. rewrite publish_all_spec by apply Hg. unfold room. change InboxBufferSize with 4096%nat.
  cbn [metrics set_field set_metrics set_Events]. unfold scrape. rewrite !foldl_app.
  set (r := foldl gameMetricsAdapter NewRegistry (metrics g)). set (free := (4096 - length (Events g))%nat).
  destruct (scrape_events (take free evts) r k) as [H1 H2]. set (r1 := foldl gameMetricsAdapter r _) in *. split.
  - by rewrite scrape_replicate_events.
  - rewrite scrape_replicate_dropped, H2. destruct (Nat.eqb_spec (length evts - free) 0) as [-> | Hne]; [lia|]. cbn. done.
Qed.
End scrape.

Lemma chain_contains_panics_witness :
  unary_chain (W := nat) (Resp := nat) "room-service" "/spatialserver.v1.RoomService/Register" 5 3
    (λ w, (Panics "nil map", [], S w)) 0%nat =
  (Returns (None, Some (RpcStatus Internal "internal error")), [LogPanic "/spatialserver.v1.RoomService/Register" "nil map"], 1%nat).
Proof.
  destruct (chain_contains_panics (W := nat) (Resp := nat) "room-service" "/spatialserver.v1.RoomService" "Register" 5 3
              (λ w, (Panics "nil map", [], S w)) (λ w, (Returns None, [], w)) 0%nat) as [H _].
  - apply (bool_decide_eq_true _). vm_compute. reflexivity.
  - exact H.
Defined.
