(* ===== verification/ValidationStack.v ===== *)
(** * Chaos scenarios: observers, injectors and the process stack

    [internal/validation/observers], [injectors] and [harness].  Operating
    system processes are a table from identifiers to states; whether the
    kernel accepts a signal is a parameter, as are the answers of Docker, of
    the compiler and of the sockets.  A failed [require] or [t.Fatalf] ends
    the test at once: the functions below return whether that happened, with
    the state it left. *)

From S2P Require Import Prelude GoFloat Types Validation.
From stdpp Require Import base tactics list gmap strings pretty.
From Stdlib Require Import ZArith Lia.

Local Open Scope Z_scope.

(** ** Observers *)

Definition observe_metrics (now : Time) (phase : string) (infra : Infrastructure) : result string (list Evidence) :=
  Ok [mkEvidence now phase "metrics" "metric" "observer" "stub"].

Definition observe_routing (now : Time) (phase : string) (infra : Infrastructure) : result string (list Evidence) :=
  match inf_Endpoint infra ResourceGateway with
  | Err e => Err ("routing observer: " +:+ e)
  | Ok addr => Ok [mkEvidence now phase "routing" "state" EvKeyGatewayAddr addr]
  end.

Definition observe_state (now : Time) (phase : string) (infra : Infrastructure) : result string (list Evidence) :=
  match inf_Endpoint infra ResourceRoomService with
  | Err e => Err ("state observer: " +:+ e)
  | Ok addr =>
      Ok [mkEvidence now phase "state" "state" EvKeyRoomServiceAddr addr;
          mkEvidence now phase "state" "state" EvKeyRuntimeNodes (pretty (inf_RuntimeNodes infra))]
  end.

(** The three observers on an environment, [now] being the times of their
    observations in the two phases. *)
Definition MetricsObserver (now : string → Time) (infra : Infrastructure) : Observer :=
  mkObserver "metrics" PolicyOptional (λ phase, Returns (observe_metrics (now phase) phase infra)).
Definition RoutingObserver (now : string → Time) (infra : Infrastructure) : Observer :=
  mkObserver "routing" PolicyOptional (λ phase, Returns (observe_routing (now phase) phase infra)).
Definition StateObserver (now : string → Time) (infra : Infrastructure) : Observer :=
  mkObserver "state" PolicyRequired (λ phase, Returns (observe_state (now phase) phase infra)).

Definition EntityValidator : Validator := mkValidator "entity" (λ b p, Returns (validate_entity b p)).
Definition OwnershipValidator : Validator := mkValidator "ownership" (λ b p, Returns (validate_ownership b p)).
Definition AOIValidator : Validator := mkValidator "aoi" (λ b p, Returns (validate_aoi b p)).
Definition SchedulerValidator : Validator := mkValidator "scheduler" (λ b p, Returns (validate_scheduler b p)).
Definition SessionValidator : Validator := mkValidator "session" (λ b p, Returns (validate_session b p)).

(** ** Processes and signals *)

Inductive proc_state := Up | Frozen | Dead.
#[export] Instance proc_state_eq_dec : EqDecision proc_state.
Proof. solve_decision. Defined.

Inductive signal := SIGKILL | SIGSTOP | SIGCONT | SIGTERM.

Abbreviation proc_table := (gmap Z proc_state) (only parsing).

(** The kernel's answer to a signal. *)
Class Kernel := signal_error : proc_table → Z → signal → option string.

(** The effect of a signal that was accepted; the termination after a
    [SIGTERM] is awaited separately. *)
Definition deliver_to (sig : signal) (st : proc_state) : proc_state :=
  match sig, st with
  | _, Dead => Dead
  | SIGKILL, _ => Dead
  | SIGSTOP, _ => Frozen
  | SIGCONT, _ => Up
  | SIGTERM, st => st
  end.

Section signals.
Context `{K : Kernel}.

(** [Process.Signal]. *)
Definition Signal (p : Z) (sig : signal) (t : proc_table) : option string * proc_table :=
  match signal_error t p sig with
  | Some e => (Some e, t)
  | None => (None, alter (deliver_to sig) p t)
  end.

(** The loop of an injector: the first error ends it. *)
Fixpoint signal_all (what : string) (sig : signal) (procs : list Z) (t : proc_table) : option string * proc_table :=
  match procs with
  | [] => (None, t)
  | p :: procs =>
      let '(e, t) := Signal p sig t in
      match e with Some e => (Some (what +:+ ": " +:+ e), t) | None => signal_all what sig procs t end
  end.

(** *** Injectors *)

Definition ProcessCrash_Inject (target : string) (infra : Infrastructure) (t : proc_table) : option string * proc_table :=
  match inf_Processes infra target with
  | Err e => (Some ("process-crash inject: " +:+ e), t)
  | Ok procs => signal_all "process-crash inject SIGKILL" SIGKILL procs t
  end.

Record ProcessFreeze := mkFreeze { fTarget : string; fDuration : Duration; frozen : list Z }.
Definition NewProcessFreeze (target : string) (dur : Duration) : ProcessFreeze := mkFreeze target dur [].

Definition ProcessFreeze_Inject (i : ProcessFreeze) (infra : Infrastructure) (t : proc_table)
    : option string * ProcessFreeze * proc_table :=
  match inf_Processes infra (fTarget i) with
  | Err e => (Some ("process-freeze inject: " +:+ e), i, t)
  | Ok procs =>
      let i := mkFreeze (fTarget i) (fDuration i) procs in
      let '(e, t) := signal_all "process-freeze inject SIGSTOP" SIGSTOP procs t in (e, i, t)
  end.

Definition ProcessFreeze_Recover (i : ProcessFreeze) (t : proc_table) : option string * proc_table :=
  signal_all "process-freeze recover SIGCONT" SIGCONT (frozen i) t.
End signals.

(** The faults that need containers: their injection always fails, and they
    have nothing to undo. *)
Definition needs_compose (what : string) : option string := Some (what +:+ " requires Docker Compose execution mode").

Record InfraRestart := mkInfraRestart { irTarget : string }.
Definition InfraRestart_Name (i : InfraRestart) : string := "infra-restart(" +:+ irTarget i +:+ ")".
Definition InfraRestart_Inject (i : InfraRestart) : option string := needs_compose "infra-restart".
Definition InfraRestart_Recover (i : InfraRestart) : option string := None.

Inductive NetFault :=
| NetLatency (target : string) (delayMS jitterMS : Z)
| NetLoss (target : string) (percent : Z)
| NetPartition.
Definition NetFault_Name (f : NetFault) : string :=
  match f with
  | NetLatency target d _ => "net-latency(" +:+ target +:+ ", " +:+ pretty d +:+ "ms)"
  | NetLoss target p => "net-loss(" +:+ target +:+ ", " +:+ pretty p +:+ "%)"
  | NetPartition => "net-partition"
  end.
Definition NetFault_Inject (f : NetFault) : option string :=
  needs_compose (match f with NetLatency _ _ _ => "net-latency" | NetLoss _ _ => "net-loss" | NetPartition => "net-partition" end).
Definition NetFault_Recover (f : NetFault) : option string := None.

Inductive ResourceFault :=
| ResourceCPU (target : string) (cores : Z) (duration : string)
| ResourceMemory (target : string) (limitMB : Z) (duration : string).
Definition ResourceFault_Name (f : ResourceFault) : string :=
  match f with
  | ResourceCPU target c _ => "resource-cpu(" +:+ target +:+ ", " +:+ pretty c +:+ " cores)"
  | ResourceMemory target m _ => "resource-memory(" +:+ target +:+ ", " +:+ pretty m +:+ "MB)"
  end.
Definition ResourceFault_Inject (f : ResourceFault) : option string :=
  needs_compose (match f with ResourceCPU _ _ _ => "resource-cpu" | ResourceMemory _ _ _ => "resource-memory" end).
Definition ResourceFault_Recover (f : ResourceFault) : option string := None.

(** ** The harness *)

(** What tear-down does, in the order of registration. *)
Inductive cleanup := TerminateContainers | StopService (pid : Z) (binary : string).
#[export] Instance cleanup_eq_dec : EqDecision cleanup.
Proof. solve_decision. Defined.

Record processHarness := mkHarness {
  pgDSN : string;
  redisAddr : string;
  endpoints : gmap string string;
  processes : gmap string (list Z);
  cleanups : list cleanup;
  procs : proc_table;                      (* the processes of the machine *)
  started : list (Z * list string)         (* their environments *)
}.

Definition h_Endpoint (h : processHarness) (id : string) : result string string :=
  match endpoints h !! id with Some addr => Ok addr | None => Err ("no endpoint for " +:+ id) end.
Definition h_Processes (h : processHarness) (id : string) : result string (list Z) := Ok (default [] (processes h !! id)).
Definition h_Database (h : processHarness) (id : string) : result string string :=
  if bool_decide (id = ResourcePostgres) then Ok (pgDSN h) else Err ("no database for " +:+ id).
Definition h_RuntimeNodes (h : processHarness) : Z := Z.of_nat (length (default [] (processes h !! ResourceRuntime))).
Fixpoint h_DialServices (h : processHarness) (ids : list string) : option string :=
  match ids with
  | [] => None
  | id :: ids => match h_Endpoint h id with Err e => Some ("dial " +:+ id +:+ ": " +:+ e) | Ok _ => h_DialServices h ids end
  end.

(** The harness as the environment of a scenario. *)
Definition infra_of (h : processHarness) : Infrastructure :=
  mkInfra (h_Endpoint h) (h_Processes h) (h_Database h) (h_RuntimeNodes h) (h_DialServices h) None.

(** *** Waiting for a service

    [polls i] is the [i]-th attempt: how long it took and whether it
    succeeded.  Each round sleeps half a second, so that the rounds before
    the deadline are bounded. *)
Definition poll_pause : Duration := 500 * Millisecond.
Fixpoint wait_ready (fuel : nat) (polls : nat → Duration * bool) (i : nat) (now deadline : Time) : option bool :=
  match fuel with
  | O => None
  | S fuel =>
      if now <? deadline
      then let '(took, ok) := polls i in
           if ok : bool then Some true else wait_ready fuel polls (S i) (now + took + poll_pause) deadline
      else Some false
  end.
Definition wait_fuel (timeout : Duration) : nat := S (S (Z.to_nat (timeout / poll_pause))).

(** [Some false]: the test fails. *)
Definition waitForGRPC (polls : nat → Duration * bool) (now : Time) (timeout : Duration) : option bool :=
  wait_ready (wait_fuel timeout) polls 0 now (time_add now timeout).

(** An attempt by HTTP succeeds with a status of the 200s. *)
Definition http_ok (poll : Duration * option Z) : Duration * bool :=
  (poll.1, match poll.2 with Some code => (200 <=? code) && (code <? 300) | None => false end).
Definition waitForHTTP (polls : nat → Duration * option Z) (now : Time) (timeout : Duration) : option bool :=
  wait_ready (wait_fuel timeout) (λ i, http_ok (polls i)) 0 now (time_add now timeout).

(** *** Starting the services *)

Definition cleanEnv (environ : list string) : list string :=
  List.filter (λ e, negb (String.prefix "SPATIAL_" e)) environ.

(** What happens when a service is built, started and awaited. *)
Record boot := mkBoot {
  bt_binary : option string;   (* the build, [None] on failure *)
  bt_log : bool;               (* the log file could be created *)
  bt_pid : option Z;           (* [cmd.Start] *)
  bt_now : Time                (* the time at which the wait starts *)
}.

(** The part the three starters share.  The process is registered, and its
    clean-up too, before the wait; [ready] is the outcome of the wait. *)
Definition start_process (resource : string) (endpoint : option string) (env : list string) (b : boot) (ready : option bool)
    (h : processHarness) : bool * processHarness :=
  match bt_binary b with
  | None => (false, h)
  | Some binary =>
      if negb (bt_log b) then (false, h)
      else match bt_pid b with
           | None => (false, h)
           | Some pid =>
               (default false ready,
                mkHarness (pgDSN h) (redisAddr h)
                  (match endpoint with Some a => <[resource := a]> (endpoints h) | None => endpoints h end)
                  (<[resource := default [] (processes h !! resource) ++ [pid]]> (processes h))
                  (cleanups h ++ [StopService pid binary])
                  (<[pid := Up]> (procs h))
                  (started h ++ [(pid, env)]))
           end
  end.

Definition StartRoomService (environ : list string) (b : boot) (polls : nat → Duration * bool) (h : processHarness)
    : bool * processHarness :=
  start_process ResourceRoomService (Some "127.0.0.1:19000")
    (cleanEnv environ ++ ["SPATIAL_POSTGRES__DSN=" +:+ pgDSN h; "SPATIAL_REDIS__ADDR=" +:+ redisAddr h;
                          "SPATIAL_GRPC__HOST=127.0.0.1"; "SPATIAL_GRPC__PORT=19000"])
    b (waitForGRPC polls (bt_now b) (30 * Second)) h.

Definition StartGameServer (environ : list string) (index : Z) (b : boot) (polls : nat → Duration * bool) (h : processHarness)
    : bool * processHarness :=
  start_process ResourceRuntime None
    (cleanEnv environ ++ ["SPATIAL_GRPC__HOST=127.0.0.1"; "SPATIAL_GRPC__PORT=" +:+ pretty (wrap64 (19001 + index));
                          "SPATIAL_ROOM_SERVICE__ADDR=127.0.0.1:19000"])
    b (waitForGRPC polls (bt_now b) (30 * Second)) h.

Definition StartGateway (environ : list string) (b : boot) (polls : nat → Duration * option Z) (h : processHarness)
    : bool * processHarness :=
  start_process ResourceGateway (Some "127.0.0.1:18080")
    (cleanEnv environ ++ ["SPATIAL_GATEWAY__WS_PORT=18080"; "SPATIAL_ROOM_SERVICE__ADDR=127.0.0.1:19000"])
    b (waitForHTTP polls (bt_now b) (30 * Second)) h.

(** The containers: their addresses, and whether the migrations ran. *)
Record containers := mkContainers { ct_dsn : option string; ct_redis : option string; ct_migrated : bool }.

Definition StartStack (c : containers) : bool * processHarness :=
  let h dsn redis eps cl := mkHarness dsn redis eps ∅ cl ∅ [] in
  match ct_dsn c with
  | None => (false, h "" "" ∅ [])
  | Some dsn =>
      match ct_redis c with
      | None => (false, h dsn "" ∅ [])
      | Some redis =>
          let eps := <[ResourceRedis := redis]> {[ResourcePostgres := dsn]} in
          if ct_migrated c then (true, h dsn redis eps [TerminateContainers]) else (false, h dsn redis eps [])
      end
  end.

(** Everything the world answers while a stack starts. *)
Record world_answers := mkAnswers {
  w_containers : containers;
  w_environ : list string;
  w_room : boot * (nat → Duration * bool);
  w_game : list (boot * (nat → Duration * bool));     (* one per runtime *)
  w_gateway : boot * (nat → Duration * option Z)
}.

Definition and_then (r : bool * processHarness) (k : processHarness → bool * processHarness) : bool * processHarness :=
  let '(ok, h) := r in if ok then k h else (false, h).

(** The loop over the runtimes. *)
Fixpoint start_runtimes (environ : list string) (index : Z) (l : list (boot * (nat → Duration * bool))) (h : processHarness)
    : bool * processHarness :=
  match l with
  | [] => (true, h)
  | (b, polls) :: l => and_then (StartGameServer environ index b polls h) (start_runtimes environ (index + 1) l)
  end.

Definition StartStackForChaos (w : world_answers) : bool * processHarness :=
  and_then (StartStack (w_containers w)) (λ h,
  and_then (StartRoomService (w_environ w) (w_room w).1 (w_room w).2 h) (λ h,
  and_then (start_runtimes (w_environ w) 0 (w_game w) h) (λ h,
  StartGateway (w_environ w) (w_gateway w).1 (w_gateway w).2 h))).
Definition ResetForChaos := StartStackForChaos.
Definition NewStackForScenario := StartStackForChaos.

(** *** Tear-down *)

Section teardown.
Context `{K : Kernel}.

(** [exits]: the process ends within ten seconds of the [SIGTERM]. *)
Definition killProcess (p : Z) (exits : bool) (t : proc_table) : proc_table :=
  let '(_, t) := Signal p SIGTERM t in
  if exits then alter (λ _, Dead) p t else (Signal p SIGKILL t).2.

Definition run_cleanup (exits : Z → bool) (t : proc_table) (c : cleanup) : proc_table :=
  match c with TerminateContainers => t | StopService pid _ => killProcess pid (exits pid) t end.

(** The function [StartStack] returns: the clean-ups, the last first. *)
Definition teardown (exits : Z → bool) (h : processHarness) : proc_table :=
  foldl (run_cleanup exits) (procs h) (rev (cleanups h)).
End teardown.

(** ** The waits end *)

(** When the [i]-th attempt starts. *)
Fixpoint attempt_at (polls : nat → Duration * bool) (now : Time) (i : nat) : Time :=
  match i with O => now | S i => attempt_at polls now i + (polls i).1 + poll_pause end.

Lemma attempt_at_shift polls now i :
  attempt_at polls now (S i) = attempt_at (λ j, polls (S j)) (now + (polls O).1 + poll_pause) i.
Proof. induction i as [|i IH]; [done|]. cbn [attempt_at] in *. by rewrite IH. Qed.

Lemma wait_ready_shift fuel polls i now deadline :
  wait_ready fuel polls (S i) now deadline = wait_ready fuel (λ j, polls (S j)) i now deadline.
Proof.
  revert i now. induction fuel as [|fuel IH]; intros i now; [done|]. cbn [wait_ready].
  destruct (now <? deadline); [|done]. destruct (polls (S i)) as [took []]; [done|]. apply IH.
Qed.

Lemma attempt_at_ge polls now i :
  (∀ i, 0 ≤ (polls i).1) → now + Z.of_nat i * poll_pause ≤ attempt_at polls now i.
Proof. intros Hp. induction i as [|i IH]; cbn [attempt_at]; [lia|]. specialize (Hp i). unfold poll_pause, Millisecond in *. lia. Qed.

Lemma wait_ready_spec fuel polls now deadline :
  (∀ i, 0 ≤ (polls i).1) → deadline ≤ now + Z.of_nat fuel * poll_pause →
  ∃ b, wait_ready (S fuel) polls 0 now deadline = Some b ∧
    (b = true ↔ ∃ i, (polls i).2 = true ∧ attempt_at polls now i < deadline).
Proof.
  revert polls now. induction fuel as [|fuel IH]; intros polls now Hp Hd.
  - cbn [wait_ready]. destruct (Z.ltb_spec now deadline); [lia|]. exists false. split; [done|]. split; [done|].
    intros (i & _ & Hi). pose proof (attempt_at_ge polls now i Hp). unfold poll_pause, Millisecond in *. lia.
  - assert (∀ f, wait_ready (S f) polls 0 now deadline =
      if now <? deadline then let '(took, ok) := polls 0%nat in if ok : bool then Some true else wait_ready f polls 1 (now + took + poll_pause) deadline
      else Some false) as -> by done.
    destruct (Z.ltb_spec now deadline) as [Hlt|Hge].
    2:{ exists false. split; [done|]. split; [done|]. intros (i & _ & Hi). pose proof (attempt_at_ge polls now i Hp).
        unfold poll_pause, Millisecond in *. lia. }
    destruct (polls 0%nat) as [took ok] eqn:E0. pose proof (Hp 0%nat) as Ht. rewrite E0 in Ht. cbn [fst] in Ht.
    destruct ok; [exists true; split; [done|]; split; [|done]; intros _; exists 0%nat; by rewrite E0|].
    rewrite wait_ready_shift. destruct (IH (λ j, polls (S j)) (now + took + poll_pause)) as (b & -> & Hb); [by intros i; apply Hp|lia|].
    exists b. split; [done|]. rewrite Hb. split.
    + intros (i & Hi & Hlt'). exists (S i). split; [done|]. rewrite attempt_at_shift, E0. done.
    + intros ([|i] & Hi & Hlt'); [by rewrite E0 in Hi|]. exists i. split; [done|]. rewrite attempt_at_shift, E0 in Hlt'. done.
Qed.

(** Waiting for a service ends: whatever time the attempts take, the loop
    stops after at most one round per half second of its time-out, and it
    reports success exactly if an attempt that was started before the deadline
    succeeds, over gRPC and over HTTP. *)
Theorem wait_terminates (polls : nat → Duration * bool) (http : nat → Duration * option Z) (now : Time) (timeout : Duration) :
  0 ≤ timeout → (∀ i, 0 ≤ (polls i).1) → (∀ i, 0 ≤ (http i).1) →
  (∃ b, waitForGRPC polls now timeout = Some b ∧
     (b = true ↔ ∃ i, (polls i).2 = true ∧ attempt_at polls now i < now + timeout)) ∧
  (∃ b, waitForHTTP http now timeout = Some b ∧
     (b = true ↔ ∃ i code, (http i).2 = Some code ∧ 200 ≤ code < 300 ∧ attempt_at (λ i, http_ok (http i)) now i < now + timeout)).
Proof.
  intros Ht Hp Hh.
  assert (now + timeout ≤ now + Z.of_nat (S (Z.to_nat (timeout / poll_pause))) * poll_pause) as Hf.
  { unfold poll_pause, Millisecond in *. rewrite Nat2Z.inj_succ, Z2Nat.id by (apply Z.div_pos; lia).
    pose proof (Z.mul_succ_div_gt timeout (500 * 1000000) ltac:(lia)). lia. }
  split; [by apply wait_ready_spec|].
  destruct (wait_ready_spec _ (λ i, http_ok (http i)) now _ Hh Hf) as (b & Hw & Hb). exists b. split; [exact Hw|]. rewrite Hb.
  unfold http_ok at 1. split.
  - intros (i & Hi & Hlt). cbn in Hi. destruct (http i).2 as [code|] eqn:E; [|done]. exists i, code. split_and!; try done; lia.
  - intros (i & code & Hi & Hc & Hlt). exists i. cbn. rewrite Hi. split; [lia|done].
Qed.

(** ** Freezing and thawing *)

Section freeze.
Context `{K : Kernel}.

Lemma signal_all_spec what sig ps t e t' :
  signal_all what sig ps t = (e, t') →
  ∃ done_ rest, ps = done_ ++ rest ∧ t' = foldl (λ t p, alter (deliver_to sig) p t) t done_ ∧
    (e = None → rest = []) ∧ (e ≠ None → ∃ p rest', rest = p :: rest').
Proof.
  revert t. induction ps as [|p ps IH]; intros t; cbn [signal_all].
  { intros [= <- <-]. exists [], []. naive_solver. }
  unfold Signal. destruct (signal_error t p sig) as [m|]; [intros [= <- <-]; exists [], (p :: ps); naive_solver|].
  intros H. destruct (IH _ H) as (d & r & -> & -> & H1 & H2). exists (p :: d), r. naive_solver.
Qed.

Lemma foldl_alter_lookup sig (l : list Z) (t : proc_table) q :
  (∀ st, deliver_to sig (deliver_to sig st) = deliver_to sig st) →
  foldl (λ t p, alter (deliver_to sig) p t) t l !! q = (if bool_decide (q ∈ l) then deliver_to sig else id) <$> t !! q.
Proof.
  intros Hi. revert t. induction l as [|p l IH]; intros t; cbn [foldl].
  { rewrite bool_decide_false by apply not_elem_of_nil. by destruct (t !! q). }
  rewrite IH. destruct (decide (q = p)) as [-> | Hne].
  - rewrite lookup_alter_eq, (bool_decide_true (p ∈ p :: l)) by left.
    case_bool_decide; destruct (t !! p); cbn; by rewrite ?Hi.
  - rewrite lookup_alter_ne by done. assert (q ∈ p :: l ↔ q ∈ l) as Hq by set_solver.
    by rewrite (bool_decide_ext _ _ Hq).
Qed.

(** A freeze that was injected and recovered without an error leaves the
    processes as they were; a recovery that fails has not resumed the
    processes after the one the kernel refused. *)
Theorem freeze_roundtrip (i i' : ProcessFreeze) (infra : Infrastructure) (ps : list Z) (t t1 t2 : proc_table) (e : option string) :
  inf_Processes infra (fTarget i) = Ok ps → NoDup ps → (∀ p, p ∈ ps → t !! p = Some Up) →
  ProcessFreeze_Inject i infra t = (None, i', t1) → ProcessFreeze_Recover i' t1 = (e, t2) →
  (∀ p, p ∈ ps → t1 !! p = Some Frozen) ∧
  (e = None → t2 = t) ∧
  (e ≠ None → ∃ resumed p rest, ps = resumed ++ p :: rest ∧
     (∀ q, q ∈ resumed → t2 !! q = Some Up) ∧ (∀ q, q ∈ p :: rest → t2 !! q = Some Frozen)).
Proof.
  unfold ProcessFreeze_Inject, ProcessFreeze_Recover. intros -> Hnd Hup.
  destruct (signal_all _ SIGSTOP ps t) as [e1 t1'] eqn:E1. intros [= -> <- ->]. intros E2.
  apply signal_all_spec in E1 as (d1 & r1 & Hps1 & -> & H1 & _). rewrite (H1 eq_refl), app_nil_r in Hps1. subst d1.
  apply signal_all_spec in E2 as (d2 & r2 & Hps & -> & H2 & H3). cbn [frozen] in Hps.
  assert (∀ q, foldl (λ t p, alter (deliver_to SIGSTOP) p t) t ps !! q = if bool_decide (q ∈ ps) then Some Frozen else t !! q) as Ht1.
  { intros q. rewrite foldl_alter_lookup by (by intros []). case_bool_decide as Hq; [by rewrite (Hup q Hq)|]. by destruct (t !! q). }
  set (t1 := foldl _ t ps) in *. clearbody t1. split_and!.
  - intros p Hp. by rewrite Ht1, bool_decide_true.
  - intros He. rewrite (H2 He), app_nil_r in Hps. subst d2. apply map_eq. intros q.
    rewrite foldl_alter_lookup, Ht1 by (by intros []). case_bool_decide as Hq; [by rewrite (Hup q Hq)|]. by destruct (t !! q).
  - intros He. destruct (H3 He) as (p & rest & ->). exists d2, p, rest. split; [done|].
    rewrite Hps in Hnd. apply NoDup_app in Hnd as (_ & Hd & _).
    split; intros q Hq; rewrite foldl_alter_lookup, Ht1 by (by intros []).
    + rewrite !bool_decide_true by (rewrite ?Hps; set_solver). done.
    + rewrite (bool_decide_true (q ∈ ps)) by (rewrite Hps; set_solver).
      rewrite bool_decide_false by (intros Hq'; by apply (Hd q)). done.
Qed.
End freeze.

(** ** The life of a stack *)

Lemma prefix_app (a b e : string) : String.prefix (a +:+ b) e = true → String.prefix a e = true.
Proof.
  revert e. induction a as [|c a IH]; intros e; [by destruct e|]. change (String c a +:+ b) with (String c (a +:+ b)).
  destruct e as [|d e]; cbn; [done|]. destruct (Ascii.ascii_dec c d); [apply IH|done].
Qed.

Definition sets_dsn (e : string) : bool := String.prefix "SPATIAL_POSTGRES__DSN=" e.

(** Every started process runs and will be stopped by tear-down; the game
    servers are told no database. *)
Record stack_inv (h : processHarness) : Prop := {
  si_up : ∀ p env, (p, env) ∈ started h → procs h !! p = Some Up;
  si_stop : ∀ p env, (p, env) ∈ started h → ∃ binary, StopService p binary ∈ cleanups h;
  si_nodsn : ∀ p, p ∈ default [] (processes h !! ResourceRuntime) →
    ∃ env, (p, env) ∈ started h ∧ Forall (λ e, sets_dsn e = false) env
}.

Lemma start_process_inv resource endpoint env b ready h :
  (resource = ResourceRuntime → Forall (λ e, sets_dsn e = false) env) → stack_inv h →
  stack_inv (start_process resource endpoint env b ready h).2.
Proof.
  intros Henv [H1 H2 H3]. unfold start_process.
  destruct (bt_binary b) as [bin|]; [|by split]. destruct (bt_log b); [|by split]. cbn [negb].
  destruct (bt_pid b) as [pid|]; [|by split]. split; cbn.
  - intros p e [Hp|[= -> ->]%list_elem_of_singleton]%elem_of_app; [|by rewrite lookup_insert_eq].
    destruct (decide (p = pid)) as [-> | Hne]; [by rewrite lookup_insert_eq|]. rewrite lookup_insert_ne by done. eauto.
  - intros p e [Hp|[= -> ->]%list_elem_of_singleton]%elem_of_app; [|exists bin; set_solver].
    destruct (H2 _ _ Hp) as [bin' ?]. exists bin'. set_solver.
  - intros p. assert (∀ q, (∃ e', (q, e') ∈ started h ∧ Forall (λ e, sets_dsn e = false) e') →
      ∃ e', (q, e') ∈ started h ++ [(pid, env)] ∧ Forall (λ e, sets_dsn e = false) e') as Hext by (intros q (e' & ? & ?); exists e'; set_solver).
    destruct (decide (resource = ResourceRuntime)) as [-> | Hne].
    + rewrite lookup_insert_eq. cbn [default from_option id].
      intros [Hp| ->%list_elem_of_singleton]%elem_of_app; [by auto|]. exists env. split; [set_solver|by apply Henv].
    + rewrite lookup_insert_ne by done. auto.
Qed.

Lemma game_env_nodsn environ index : Forall (λ e, sets_dsn e = false)
  (cleanEnv environ ++ ["SPATIAL_GRPC__HOST=127.0.0.1"; "SPATIAL_GRPC__PORT=" +:+ pretty (wrap64 (19001 + index));
                        "SPATIAL_ROOM_SERVICE__ADDR=127.0.0.1:19000"]).
Proof.
  apply Forall_app. split; [|repeat constructor]. apply Forall_forall. intros e [_ He]%elem_of_bfilter.
  apply negb_true_iff in He. apply not_true_iff_false. intros Hs. apply not_true_iff_false in He. apply He.
  exact (prefix_app "SPATIAL_" "POSTGRES__DSN=" e Hs).
Qed.

Lemma and_then_inv r k : stack_inv r.2 → (∀ h, stack_inv h → stack_inv (k h).2) → stack_inv (and_then r k).2.
Proof. destruct r as [[] h]; cbn; auto. Qed.

Lemma start_runtimes_inv environ index l h : stack_inv h → stack_inv (start_runtimes environ index l h).2.
Proof.
  revert index h. induction l as [|[b polls] l IH]; intros index h Hh; cbn [start_runtimes]; [done|].
  apply and_then_inv; [|intros; by apply IH]. apply start_process_inv; [|done]. intros _. apply game_env_nodsn.
Qed.

Lemma StartStackForChaos_inv w : stack_inv (StartStackForChaos w).2.
Proof.
  unfold StartStackForChaos. apply and_then_inv.
  { unfold StartStack. repeat case_match; split; cbn; intros *; try (intros H'; by apply not_elem_of_nil in H'). }
  intros h Hh. apply and_then_inv; [by apply start_process_inv|]. intros h1 Hh1.
  apply and_then_inv; [by apply start_runtimes_inv|]. intros h2 Hh2. by apply start_process_inv.
Qed.

(** What a complete start leaves. *)
Lemma and_then_true r k h : and_then r k = (true, h) → ∃ h1, r = (true, h1) ∧ k h1 = (true, h).
Proof. destruct r as [[] h1]; cbn; [by eauto|done]. Qed.

Lemma start_process_true resource endpoint env b ready h h' :
  start_process resource endpoint env b ready h = (true, h') →
  pgDSN h' = pgDSN h ∧ endpoints h' = match endpoint with Some a => <[resource := a]> (endpoints h) | None => endpoints h end ∧
  ∃ pid, processes h' = <[resource := default [] (processes h !! resource) ++ [pid]]> (processes h).
Proof.
  unfold start_process. destruct (bt_binary b) as [bin|]; [|done]. destruct (bt_log b); [|done]. cbn [negb].
  destruct (bt_pid b) as [pid|]; [|done]. intros [= _ <-]. cbn. eauto.
Qed.

Lemma start_runtimes_true environ index l h h' :
  start_runtimes environ index l h = (true, h') →
  pgDSN h' = pgDSN h ∧ endpoints h' = endpoints h ∧
  length (default [] (processes h' !! ResourceRuntime)) = (length (default [] (processes h !! ResourceRuntime)) + length l)%nat.
Proof.
  revert index h. induction l as [|[b polls] l IH]; intros index h; cbn [start_runtimes].
  { intros [= <-]. cbn. by rewrite Nat.add_0_r. }
  intros (h1 & E1 & E2)%and_then_true. apply start_process_true in E1 as (D1 & P1 & pid & R1).
  apply IH in E2 as (D2 & P2 & R2). rewrite D2, P2, R2, R1, lookup_insert_eq. cbn. rewrite length_app. cbn.
  split_and!; [done|done|lia].
Qed.

Lemma StartStackForChaos_complete w h :
  StartStackForChaos w = (true, h) →
  h_RuntimeNodes h = Z.of_nat (length (w_game w)) ∧
  ∃ dsn redis, endpoints h = <[ResourceGateway := "127.0.0.1:18080"]> (<[ResourceRoomService := "127.0.0.1:19000"]>
    (<[ResourceRedis := redis]> {[ResourcePostgres := dsn]})).
Proof.
  intros (h0 & E0 & (h1 & E1 & (h2 & E2 & E3)%and_then_true)%and_then_true)%and_then_true.
  unfold StartStack in E0. destruct (ct_dsn _) as [dsn|]; [|done]. destruct (ct_redis _) as [redis|]; [|done].
  destruct (ct_migrated _); [|done]. injection E0 as <-.
  apply start_process_true in E1 as (D1 & P1 & pid1 & R1). apply start_runtimes_true in E2 as (D2 & P2 & R2).
  apply start_process_true in E3 as (D3 & P3 & pid3 & R3). cbn in *. split.
  - unfold h_RuntimeNodes. rewrite R3, lookup_insert_ne by done. by rewrite R2, R1, lookup_insert_ne by done.
  - exists dsn, redis. by rewrite P3, P2, P1.
Qed.

(** A complete stack meets the requirements of the scenarios. *)
Lemma stack_requirements w h n :
  StartStackForChaos w = (true, h) → n ≤ Z.of_nat (length (w_game w)) →
  CheckRequirements (infra_of h) (mkRequirements n false true true false) = None.
Proof.
  intros (Hn & dsn & redis & Hep)%StartStackForChaos_complete Hle. unfold CheckRequirements. cbn. unfold h_Endpoint.
  rewrite Hep, !lookup_insert_ne, lookup_insert_eq, Hn by done. cbn.
  destruct (Z.ltb_spec (Z.of_nat (length (w_game w))) n); [lia|]. by rewrite andb_false_r.
Qed.

(** *** Tear-down stops everything *)
Section teardown_spec.
Context `{K : Kernel}.

Lemma Signal_lookup q p sig t :
  (Signal p sig t).2 !! q = t !! q ∨ (q = p ∧ (Signal p sig t).2 !! q = deliver_to sig <$> t !! q).
Proof.
  unfold Signal. destruct (signal_error t p sig); cbn; [by left|].
  destruct (decide (q = p)) as [-> | Hne]; [right; by rewrite lookup_alter_eq|left; by rewrite lookup_alter_ne].
Qed.

Lemma killProcess_spec p t q :
  is_Some (t !! q) →
  is_Some (killProcess p true t !! q) ∧ (t !! q = Some Dead → killProcess p true t !! q = Some Dead) ∧
  (q = p → killProcess p true t !! q = Some Dead).
Proof.
  intros [st Hst]. unfold killProcess. pose proof (Signal_lookup q p SIGTERM t) as Hs.
  destruct (Signal p SIGTERM t) as [e t1]. cbn [snd] in Hs.
  assert (t1 !! q = Some st) as Hq by (rewrite Hst in Hs; destruct Hs as [-> | [_ ->]]; [done|by destruct st]).
  destruct (decide (q = p)) as [-> | Hne].
  - rewrite lookup_alter_eq, Hq. cbn. by eauto.
  - rewrite lookup_alter_ne by done. rewrite Hq, Hst. by eauto.
Qed.

Lemma cleanup_dead exits l t p :
  (∀ p, exits p = true) → is_Some (t !! p) →
  is_Some (foldl (run_cleanup exits) t l !! p) ∧
  ((t !! p = Some Dead ∨ ∃ binary, StopService p binary ∈ l) → foldl (run_cleanup exits) t l !! p = Some Dead).
Proof.
  intros Hx. revert t. induction l as [|c l IH]; intros t Ht; cbn [foldl].
  { split; [done|]. intros [?|[? []%not_elem_of_nil]]. done. }
  assert (is_Some (run_cleanup exits t c !! p) ∧ (t !! p = Some Dead → run_cleanup exits t c !! p = Some Dead) ∧
    (∀ binary, c = StopService p binary → run_cleanup exits t c !! p = Some Dead)) as (H1 & H2 & H3).
  { destruct c as [|q bin]; cbn [run_cleanup]; [done|]. rewrite Hx. destruct (killProcess_spec q t p Ht) as (? & ? & H).
    split_and!; [done|done|]. intros b [= -> _]. by apply H. }
  destruct (IH _ H1) as [H4 H5]. split; [done|]. intros [Hd|[bin [<- | Hb]%elem_of_cons]]; apply H5; [by left; auto|by left; eauto|by right; eauto].
Qed.

(** The life of a stack: whatever the world answers, every process that was
    started is running when the start ends, also when it failed, in which
    case no tear-down is handed out to stop it; a complete start has as many
    runtimes as asked for, meets the requirements on the database, on Redis
    and on that number, and has addresses of the database, of Redis, of the
    room service and of the gateway, but none of the runtimes; tear-down ends
    every process; and no game server is told the database of the stack. *)
Theorem stack_life (w : world_answers) (ok : bool) (h : processHarness) :
  StartStackForChaos w = (ok, h) →
  (∀ p, p ∈ (started h).*1 → procs h !! p = Some Up) ∧
  (ok = true →
     h_RuntimeNodes h = Z.of_nat (length (w_game w)) ∧
     (∀ n, n ≤ Z.of_nat (length (w_game w)) → CheckRequirements (infra_of h) (mkRequirements n false true true false) = None) ∧
     h_DialServices h [ResourcePostgres; ResourceRedis; ResourceRoomService; ResourceGateway] = None ∧
     is_ok (h_Endpoint h ResourceRuntime) = false) ∧
  (∀ exits, (∀ p, exits p = true) → ∀ p, p ∈ (started h).*1 → teardown exits h !! p = Some Dead) ∧
  (∀ p, p ∈ default [] (processes h !! ResourceRuntime) →
     ∃ env, (p, env) ∈ started h ∧ Forall (λ e, sets_dsn e = false) env).
Proof.
  intros E. pose proof (StartStackForChaos_inv w) as Hinv. rewrite E in Hinv. cbn [snd] in Hinv. destruct Hinv as [H1 H2 H3].
  split_and!; [|intros ->| |done].
  - intros p ([q env] & -> & Hp)%list_elem_of_fmap. by eapply H1.
  - pose proof (StartStackForChaos_complete w h E) as (Hn & dsn & redis & Hep). split_and!; [done| | |].
    + intros n Hle. by eapply stack_requirements.
    + unfold h_DialServices, h_Endpoint. by rewrite Hep.
    + unfold h_Endpoint. by rewrite Hep.
  - intros exits Hx p ([q env] & -> & Hp)%list_elem_of_fmap. cbn. destruct (H2 _ _ Hp) as [bin Hbin].
    apply cleanup_dead; [done|by rewrite (H1 _ _ Hp)|]. right. exists bin. by rewrite list_elem_of_In, <-in_rev, <-list_elem_of_In.
Qed.
End teardown_spec.

(** ** A run that cannot fail *)

Section crash.
Context `{K : Kernel}.

(** The scenario of a crashed runtime, as the test suite defines it, on a
    started stack; [waited] is the outcome of its wait. *)
Definition crash_recovery (h : processHarness) (dial : string → Time → bool) (startedAt : Time) : CompositeWaiter :=
  NewComposite ModeAll [HealthyEndpoint ResourceRoomService (λ _, h_Endpoint h ResourceRoomService) dial;
                        FixedDelay "stabilize" (5 * Second) startedAt].

Definition runtime_crash (h : processHarness) (now : string → Time) (waited : option string) (took total : Duration) (start : Time)
    : ScenarioDefinition := {|
  Metadata := mkMetadata "runtime-crash" "Runtime Node Crash" "Runtime Node crash and recovery" 1 ["chaos"; "crash"] "high" "process"
    (mkRequirements 1 false true true false) (2 * Minute) "Room Service reassigns zones, entities preserved, ghosts cleaned up";
  Setup := Returns (Ok (infra_of h));
  Teardown := Returns ();
  Inject := Returns (ProcessCrash_Inject ResourceRuntime (infra_of h) (procs h)).1;
  Recover := Returns None;
  Observers := [StateObserver now (infra_of h); RoutingObserver now (infra_of h)];
  Validators := [EntityValidator; OwnershipValidator; AOIValidator; SessionValidator];
  Wait_ := Returns waited;
  Reporter := None;
  Acceptance := let none := mkCriterion 0 "" in mkCriteria (mkCriterion (30 * Second) AcceptWarn) none none none none;
  deadlineExceeded := false;
  recoveryTook := took;
  totalTook := total;
  startedAt := start;
  observedAt := start
|}.

Lemma signal_all_accepted what sig ps t :
  (∀ t p, signal_error t p sig = None) → (signal_all what sig ps t).1 = None.
Proof. intros Hk. revert t. induction ps as [|p ps IH]; intros t; [done|]. cbn [signal_all]. unfold Signal. rewrite Hk. apply IH. Qed.

(** What the observers of the scenario collect. *)
Definition stack_evs (now : string → Time) (h : processHarness) (phase room gateway : string) : list Evidence :=
  [mkEvidence (now phase) phase "state" "state" EvKeyRoomServiceAddr room;
   mkEvidence (now phase) phase "state" "state" EvKeyRuntimeNodes (pretty (h_RuntimeNodes h));
   mkEvidence (now phase) phase "routing" "state" EvKeyGatewayAddr gateway].

Lemma stack_evidence sc h now phase room gateway :
  endpoints h !! ResourceRoomService = Some room → endpoints h !! ResourceGateway = Some gateway →
  observeAll sc phase [StateObserver now (infra_of h); RoutingObserver now (infra_of h)] [] =
  (Returns (Ok (stack_evs now h phase room gateway)), [EObserve phase "state"; EObserve phase "routing"]).
Proof.
  intros H1 H2. cbn [observeAll Observe StateObserver RoutingObserver]. unfold observe_state, observe_routing. cbn [infra_of inf_Endpoint].
  unfold h_Endpoint. by rewrite H1, H2.
Qed.

(** None of it is what the validators ask for. *)
Lemma stack_evs_lack now h phase room gateway key :
  key ∈ [EvKeyEntityCount; EvKeyGhostCount; EvKeyCmdDrops; EvKeyZoneOwnerCount; EvKeyDisconnectedCount] →
  findInt (stack_evs now h phase room gateway) key = -1.
Proof.
  intros Hk. unfold findInt, EvidenceMap, stack_evs. cbn [foldl evKey].
  repeat (apply elem_of_cons in Hk as [-> | Hk]; [reflexivity|]). by apply not_elem_of_nil in Hk.
Qed.

Lemma validate_loop_skips vs (results : list ValidationResult) r b :
  Forall2 (λ v res, Validate v (rpBaseline r) (rpPostRecovery r) = Returns res ∧ vrStatus res = StatusSkip) vs results →
  validate_loop vs r b = (Returns b, r <| rpValidations ::= λ l, l ++ results |>, (λ v, EValidate (vaName v)) <$> vs).
Proof.
  revert results r b. induction vs as [|v vs IH]; intros results r b H.
  { apply Forall2_nil_inv_l in H as ->. cbn [validate_loop]. destruct r as [? ? ? ? ? ? vals ? ?].
    unfold set_field, set_rpValidations. cbn. by rewrite (app_nil_r vals). }
  apply Forall2_cons_inv_l in H as (res & results' & [Hv Hs] & Hrest & ->). cbn [validate_loop]. rewrite Hv.
  rewrite bool_decide_false by (by rewrite Hs). cbn [andb negb]. rewrite (IH results'), andb_true_r by done.
  destruct r as [? ? ? ? ? ? vals ? ?]. unfold set_field, set_rpValidations. cbn. by rewrite <-(app_assoc vals).
Qed.

Lemma run_checks_skips sc r now h room gateway :
  rpOutcome r = "" → rpValidations r = [] → Reporter sc = None →
  Validators sc = [EntityValidator; OwnershipValidator; AOIValidator; SessionValidator] →
  Acceptance sc = (let none := mkCriterion 0 "" in mkCriteria (mkCriterion (30 * Second) AcceptWarn) none none none none) →
  rpBaseline r = stack_evs now h PhaseBaseline room gateway →
  rpPostRecovery r = stack_evs now h PhasePostRecovery room gateway →
  ∃ r' tr, run_checks sc r = mkRun r' true None tr ∧
    rpOutcome r' = OutcomePassed ∧ vrStatus <$> take 4 (rpValidations r') = replicate 4 StatusSkip.
Proof.
  intros Ho Hv Hr Hval Hacc Hb Hp. unfold run_checks. rewrite Hval, Hr, Hacc.
  rewrite (validate_loop_skips _ [mkResult "entity" StatusSkip "entity-count evidence missing";
    mkResult "ownership" StatusSkip "zone-owner-count evidence missing"; mkResult "aoi" StatusSkip "ghost-count or entity-count missing";
    mkResult "session" StatusSkip "disconnected-count evidence missing"]).
  2:{ rewrite Hb, Hp. repeat (apply Forall2_cons; split;
        [split; [|done]; cbn [Validate EntityValidator OwnershipValidator AOIValidator SessionValidator];
         unfold validate_entity, validate_ownership, validate_aoi, validate_session;
         by rewrite !stack_evs_lack by set_solver|]). by apply Forall2_nil. }
  destruct r. cbn in Ho, Hv. subst.
  eexists _, _. split; [reflexivity|]. unfold evaluateAcceptance, acceptance_check. cbn.
  destruct (_ <? _); cbn; by split.
Qed.

(** A run in which nothing fails before the checks. *)
Lemma run_reaches_checks sc infra b p tr1 tr2 r' tr :
  Setup sc = Returns (Ok infra) → Teardown sc = Returns () → Recover sc = Returns None →
  CheckRequirements infra (mdRequirements (Metadata sc)) = None →
  observeAll sc PhaseBaseline (Observers sc) [] = (Returns (Ok b), tr1) →
  Inject sc = Returns None → Wait_ sc = Returns None →
  observeAll sc PhasePostRecovery (Observers sc) [] = (Returns (Ok p), tr2) →
  run_checks sc (new_report sc <| rpBaseline := b |> <| rpMeasurement ::= set_recovery_duration (recoveryTook sc) |>
                   <| rpPostRecovery := p |>) = mkRun r' true None tr →
  (Run_ sc).1 = Some (r' <| rpDuration := totalTook sc |>).
Proof.
  intros H1 H2 H3 H4 H5 H6 H7 H8 H9.
  assert (∃ tr', run_body sc = mkRun r' true None tr') as [tr' E].
  { unfold run_body. rewrite H1. unfold run_scenario. rewrite H4, H5. unfold run_injection. rewrite H3, H6.
    unfold run_recovery. rewrite H7, H8, H9, H2. eexists. reflexivity. }
  unfold Run_. by rewrite E.
Qed.

(** The chaos test of a crashed runtime passes without having checked
    anything: on a complete stack, when the room service is up five seconds
    after every game server was killed, the outcome of the run is passed, with
    all game servers dead and all validators skipped, since no observer
    collects the evidence they ask for. *)
Theorem crash_passes (w : world_answers) (h : processHarness) (now : string → Time) (dial : string → Time → bool)
    (started_ : Time) (evs : list wait_event) (waited : option string) (took total : Duration) (start : Time) :
  StartStackForChaos w = (true, h) → (0 < length (w_game w))%nat → (∀ t p, signal_error t p SIGKILL = None) →
  Wait (crash_recovery h dial started_) evs = Some waited → waited = None →
  (∀ p, p ∈ default [] (processes h !! ResourceRuntime) →
     (ProcessCrash_Inject ResourceRuntime (infra_of h) (procs h)).2 !! p = Some Dead) ∧
  ∃ r, (Run_ (runtime_crash h now waited took total start)).1 = Some r ∧ rpOutcome r = OutcomePassed ∧
    vrStatus <$> take 4 (rpValidations r) = replicate 4 StatusSkip.
Proof.
  intros E Hlen Hk _ ->. pose proof (StartStackForChaos_inv w) as Hinv. rewrite E in Hinv. cbn [snd] in Hinv.
  pose proof (stack_requirements w h 1 E ltac:(lia)) as Hreq.
  destruct (StartStackForChaos_complete w h E) as (_ & dsn & redis & Hep). split.
  - intros p Hp. destruct (si_nodsn h Hinv p Hp) as (env & Hst & _). pose proof (si_up h Hinv _ _ Hst) as Hup.
    unfold ProcessCrash_Inject. cbn. destruct (signal_all _ _ _ _) as [e t'] eqn:Es.
    pose proof (signal_all_accepted "process-crash inject SIGKILL" SIGKILL (default [] (processes h !! ResourceRuntime)) (procs h) Hk) as He.
    rewrite Es in He. cbn in He. subst e. apply signal_all_spec in Es as (d & r & Hps & -> & H1 & _).
    rewrite (H1 eq_refl), app_nil_r in Hps. subst d. cbn. rewrite foldl_alter_lookup by (by intros []).
    by rewrite bool_decide_true, Hup.
  - set (sc := runtime_crash h now None took total start).
    edestruct (run_checks_skips sc) as (r & tr & Hc & Ho & Hv).
    8:{ exists (r <| rpDuration := total |>). split; [|by split].
        eapply (run_reaches_checks sc (infra_of h)); [reflexivity..|exact Hreq| |unfold sc, runtime_crash; cbn [Inject]| reflexivity| |exact Hc].
        - apply (stack_evidence sc h now PhaseBaseline "127.0.0.1:19000" "127.0.0.1:18080"); by rewrite Hep.
        - f_equal. by apply signal_all_accepted.
        - apply (stack_evidence sc h now PhasePostRecovery "127.0.0.1:19000" "127.0.0.1:18080"); by rewrite Hep. }
    all: reflexivity.
Qed.
End crash.

(** ** A sample stack *)

Definition ready_boot (binary : string) (pid : Z) : boot := mkBoot (Some binary) true (Some pid) 0.
(** Ready at the second attempt. *)
Definition sample_polls (i : nat) : Duration * bool := (Second, Nat.eqb i 1).
Definition sample_world : world_answers :=
  mkAnswers (mkContainers (Some "postgres://127.0.0.1:55432/spatial") (Some "127.0.0.1:56379") true)
    ["HOME=/root"; "SPATIAL_GRPC__PORT=1"] (ready_boot "room" 101, sample_polls) [(ready_boot "game" 102, sample_polls)]
    (ready_boot "gateway" 103, λ i, (Second, if Nat.eqb i 0 then Some 503 else Some 200)).
Definition obedient : Kernel := λ _ _ _, None.

Lemma wait_terminates_witness : waitForGRPC sample_polls 0 (30 * Second) = Some true.
Proof.
  destruct (wait_terminates sample_polls (λ _, (0, None)) 0 (30 * Second)) as [(b & H & Hb) _].
  - vm_compute. discriminate.
  - intros i. vm_compute. discriminate.
  - intros i. vm_compute. discriminate.
  - rewrite H. f_equal. apply Hb. exists 1%nat. split; [reflexivity|]. vm_compute. reflexivity.
Defined.

Lemma stack_life_witness :
  procs (StartStackForChaos sample_world).2 !! 102 = Some Up ∧
  teardown (K := obedient) (λ _, true) (StartStackForChaos sample_world).2 !! 102 = Some Dead.
Proof.
  destruct (stack_life (K := obedient) sample_world true (StartStackForChaos sample_world).2) as (H1 & _ & H3 & _).
  - vm_compute. reflexivity.
  - split.
    + apply H1. apply (bool_decide_eq_true _). vm_compute. reflexivity.
    + apply H3; [reflexivity|]. apply (bool_decide_eq_true _). vm_compute. reflexivity.
Defined.

Lemma crash_passes_witness :
  ∃ r, (Run_ (runtime_crash (K := obedient) (StartStackForChaos sample_world).2 (λ _, 0) None Second Second 0)).1 = Some r ∧
    rpOutcome r = OutcomePassed ∧ vrStatus <$> take 4 (rpValidations r) = replicate 4 StatusSkip.
Proof.
  apply (crash_passes (K := obedient) sample_world (StartStackForChaos sample_world).2 (λ _, 0) (λ _ _, true) 0 [Poll (6 * Second)]).
  - vm_compute. reflexivity.
  - vm_compute. repeat constructor.
  - reflexivity.
  - vm_compute. reflexivity.
  - reflexivity.
Defined.

Lemma freeze_roundtrip_witness :
  let t : gmap Z proc_state := <[101 := Up]> {[102 := Up]} in
  let h := (StartStackForChaos sample_world).2 in
  (ProcessFreeze_Recover (K := obedient) (mkFreeze ResourceRuntime Second [102])
     (ProcessFreeze_Inject (K := obedient) (NewProcessFreeze ResourceRuntime Second) (infra_of h) t).2).2 = t.
Proof.
  intros t h.
  destruct (ProcessFreeze_Inject (K := obedient) (NewProcessFreeze ResourceRuntime Second) (infra_of h) t) as [[e i'] t1] eqn:E1.
  assert (e = None ∧ i' = mkFreeze ResourceRuntime Second [102]) as [-> ->] by (vm_compute in E1; injection E1 as <- <- _; split; reflexivity).
  destruct (ProcessFreeze_Recover (K := obedient) (mkFreeze ResourceRuntime Second [102]) t1) as [e2 t2] eqn:E2.
  assert (e2 = None) as -> by (vm_compute in E2; injection E2 as <- _; reflexivity).
  destruct (freeze_roundtrip (K := obedient) (NewProcessFreeze ResourceRuntime Second) (mkFreeze ResourceRuntime Second [102]) (infra_of h) [102] t t1 t2 None) as (_ & H & _).
  - vm_compute. reflexivity.
  - apply (bool_decide_eq_true _). vm_compute. reflexivity.
  - intros p ->%list_elem_of_singleton. vm_compute. reflexivity.
  - exact E1.
  - exact E2.
  - cbn [snd]. rewrite E2. apply H. reflexivity.
Defined.
