(* ===== verification/Transport.v ===== *)
(** * The websocket transport

    [internal/transport/websocket]: the interfaces [Connection] and
    [Accepter] between the gateway and its websocket library, and
    [internal/transport/websocket/coder], which implements them on
    [github.com/coder/websocket].  The library is a parameter; what the
    adapter promises is a class of laws, which the adapter's instance
    discharges, and the theorems about the relay are proved against them. *)

From S2P Require Import Prelude GoFloat Types Protocol Aoi Entity Game Room GameServer Gateway Relay.
From stdpp Require Import base tactics list gmap strings.
From Stdlib Require Import ZArith Lia.

Local Open Scope Z_scope.

(** ** The interfaces *)

(** A method that changes the connection returns its next state. *)
Class Connection (C : Type) := {
  Read : C → result error bytes * C;
  Write : bytes → C → option error * C;
  Close : Z → string → C → option error * C;
  CloseNow : C → option error * C;
  SetReadLimit : Z → C → C
}.

Class Accepter (A Req C : Type) := Accept : A → Req → result error C.

(** What the gateway relies on: a message is no longer than the limit, which
    lasts until it is set again. *)
Class ConnectionLaws (C : Type) `{Connection C} := {
  limit : C → Z;
  limit_set : ∀ n c, limit (SetReadLimit n c) = n;
  limit_read : ∀ c, limit (Read c).2 = limit c;
  limit_write : ∀ d c, limit (Write d c).2 = limit c;
  read_within : ∀ c d c', 0 ≤ limit c → Read c = (Ok d, c') → Z.of_nat (length d) ≤ limit c
}.

(** ** The library *)

Inductive MessageType := MessageText | MessageBinary.

Class WsLib := {
  wsConn : Type;
  wsRequest : Type;
  wsOptions : Type;
  no_options : wsOptions;                     (* the zero [AcceptOptions] *)
  ws_Accept : wsRequest → wsOptions → result error wsConn;
  ws_Read : wsConn → result error (MessageType * bytes) * wsConn;
  ws_Write : MessageType → bytes → wsConn → option error * wsConn;
  ws_Close : Z → string → wsConn → option error * wsConn;
  ws_CloseNow : wsConn → option error * wsConn;
  ws_SetReadLimit : Z → wsConn → wsConn;
  ws_limit : wsConn → Z                       (* the limit in force *)
}.

Class WsLaws (W : WsLib) : Prop := {
  ws_limit_set : ∀ n c, ws_limit (ws_SetReadLimit n c) = n;
  ws_limit_read : ∀ c, ws_limit (ws_Read c).2 = ws_limit c;
  ws_limit_write : ∀ t d c, ws_limit (ws_Write t d c).2 = ws_limit c;
  ws_read_within : ∀ c t d c', 0 ≤ ws_limit c → ws_Read c = (Ok (t, d), c') → Z.of_nat (length d) ≤ ws_limit c
}.

(** ** The adapter *)

Module Coder.
Section coder.
Context `{W : WsLib}.

Record Conn := mkConn { c : wsConn }.
Record Accepter_ := mkAccepter { Options : option wsOptions }.

Definition accept (a : Accepter_) (r : wsRequest) : result error Conn :=
  let opts := match Options a with None => no_options | Some o => o end in
  match ws_Accept r opts with
  | Err e => Err (Wrapped "websocket accept" e)
  | Ok c => Ok (mkConn c)
  end.

(** The type of a message is ignored. *)
Definition read (k : Conn) : result error bytes * Conn :=
  let '(res, c') := ws_Read (c k) in
  (match res with Err e => Err (Wrapped "websocket read" e) | Ok (_, data) => Ok data end, mkConn c').

Definition write (data : bytes) (k : Conn) : option error * Conn :=
  let '(err, c') := ws_Write MessageBinary data (c k) in
  (match err with Some e => Some (Wrapped "websocket write" e) | None => None end, mkConn c').

(** [ws.StatusCode(statusCode)] converts a [uint16]. *)
Definition close (statusCode : Z) (reason : string) (k : Conn) : option error * Conn :=
  let '(err, c') := ws_Close statusCode reason (c k) in (err, mkConn c').

Definition closeNow (k : Conn) : option error * Conn := let '(err, c') := ws_CloseNow (c k) in (err, mkConn c').

Definition setReadLimit (n : Z) (k : Conn) : Conn := mkConn (ws_SetReadLimit n (c k)).

#[export] Instance coder_connection : Connection Conn := {|
  Read := read; Write := write; Close := close; CloseNow := closeNow; SetReadLimit := setReadLimit
|}.
#[export] Instance coder_accepter : Accepter Accepter_ wsRequest Conn := accept.

#[export, program] Instance coder_laws `{!WsLaws W} : ConnectionLaws Conn := {| limit k := ws_limit (c k) |}.
Next Obligation. intros L n k. apply ws_limit_set. Qed.
Next Obligation. intros L k. cbn. unfold read. rewrite <-(ws_limit_read (c k)). by destruct (ws_Read (c k)). Qed.
Next Obligation.
  intros L d k. cbn. unfold write. rewrite <-(ws_limit_write MessageBinary d (c k)). by destruct (ws_Write _ _ _).
Qed.
Next Obligation.
  intros L k d k' Hk. cbn. unfold read. destruct (ws_Read (c k)) as [[[t x]|e] c'] eqn:E; intros [= <- <-].
  by eapply ws_read_within.
Qed.
End coder.
End Coder.

(** ** The gateway's use of a connection *)

Section relay.
Context {A Req C : Type} `{AC : Accepter A Req C} `{CN : Connection C}.

Definition read_limit : Z := 64 * 1024.

(** In [handleWS]. *)
Definition accept_ws (a : A) (r : Req) : result error C :=
  match Accept a r with Err e => Err e | Ok c => Ok (SetReadLimit read_limit c) end.

(** The two goroutines of [relayWS] on the connection, and its end. *)
Inductive io :=
| IoRead (now : Time) (send_ok : bool)
| IoRecv (payload : bytes)
| IoRecvError
| IoOther (ip : string) (now : Time)
| IoFinish (send_ok : bool)
| IoEnd.

Definition relay_io (rc : relayState * C) (a : io) : option (relayState * C) :=
  let '(r, c) := rc in
  match a with
  | IoRead now send_ok =>
      let '(res, c') := Read c in
      r' ← relay_step r (match res with Ok data => Frame data now send_ok | Err _ => ReadError end);
      Some (r', c')
  | IoRecv payload =>
      let '(err, c') := Write payload c in
      r' ← relay_step r (Packet payload (match err with None => true | Some _ => false end));
      Some (r', c')
  | IoRecvError => r' ← relay_step r RecvError; Some (r', c)
  | IoOther ip now => r' ← relay_step r (OtherTraffic ip now); Some (r', c)
  | IoFinish send_ok => r' ← relay_step r (Finish send_ok); Some (r', c)
  | IoEnd => r' ← relay_step r Deferred; Some (r', (CloseNow c).2)
  end.

Context `{!ConnectionLaws C}.

Definition short (d : bytes) : Prop := Z.of_nat (length d) ≤ read_limit.

(** A step on the connection is a step of the relay; it keeps the limit, until
    the connection is closed, and reads no more than that. *)
Lemma relay_io_step r c a r' c' :
  relay_io (r, c) a = Some (r', c') →
  ∃ ev, relay_step r ev = Some r' ∧
    (limit c = read_limit → Forall short (frame_of ev) ∧ (phase r' ≠ Closed_ → limit c' = read_limit)).
Proof.
  destruct a as [now ok|payload| |ip now|ok|]; cbn [relay_io].
  - destruct (Read c) as [res c1] eqn:E. intros (r1 & Hr & [= <- <-])%bind_Some. eexists. split; [exact Hr|].
    intros Hl. pose proof (limit_read c) as Hc. rewrite E in Hc. cbn in Hc. split; [|congruence].
    destruct res as [d|e]; [|constructor]. constructor; [|constructor]. unfold short. rewrite <-Hl.
    eapply read_within; [rewrite Hl; done|done].
  - destruct (Write payload c) as [err c1] eqn:E. intros (r1 & Hr & [= <- <-])%bind_Some. eexists. split; [exact Hr|].
    intros Hl. pose proof (limit_write payload c) as Hc. rewrite E in Hc. cbn in Hc. split; [constructor|congruence].
  - intros (r1 & Hr & [= <- <-])%bind_Some. exists RecvError. by split; [|split; [constructor|]].
  - intros (r1 & Hr & [= <- <-])%bind_Some. exists (OtherTraffic ip now). by split; [|split; [constructor|]].
  - intros (r1 & Hr & [= <- <-])%bind_Some. exists (Finish ok). by split; [|split; [constructor|]].
  - intros (r1 & Hr & [= <- <-])%bind_Some. exists Deferred. split; [done|]. split; [constructor|].
    cbn in Hr. destruct (phase r); try done. by injection Hr as <-.
Qed.

Lemma frame_open r d now ok r' : relay_step r (Frame d now ok) = Some r' → phase r ≠ Closed_.
Proof. cbn. destruct (reader_up r); [|done]. by destruct (phase r). Qed.

Lemma relay_closed_stays r ev r' : relay_step r ev = Some r' → phase r = Closed_ → phase r' = Closed_.
Proof.
  intros Hs Hp. destruct ev as [data now ok| |payload ok| |ip now|ok|]; cbn [relay_step] in Hs; rewrite ?Hp in Hs;
    repeat case_match; by simplify_eq.
Qed.

Lemma relay_io_run ios r c r' c' :
  fold_option relay_io (r, c) ios = Some (r', c') → (phase r ≠ Closed_ → limit c = read_limit) →
  ∃ evs, fold_option relay_step r evs = Some r' ∧ Forall short (evs ≫= frame_of).
Proof.
  revert r c. induction ios as [|a ios IH]; intros r c; cbn [fold_option].
  { intros [= <- <-] _. exists []. by split. }
  intros ([r1 c1] & Hio & Hrest)%bind_Some Hl. destruct (relay_io_step _ _ _ _ _ Hio) as (ev & Hs & Hev).
  destruct (decide (frame_of ev = [])) as [Hnf|Hf].
  - destruct (IH r1 c1 Hrest) as (evs & Hrun & Hevs).
    { intros Hp. apply Hev; [|done]. apply Hl. intros Hc. by apply Hp, (relay_closed_stays r ev). }
    exists (ev :: evs). cbn. rewrite Hs, Hnf. by split.
  - assert (limit c = read_limit) as Hc.
    { apply Hl. destruct ev; try done. by eapply frame_open. }
    destruct (Hev Hc) as [Hsh Hc1]. destruct (IH r1 c1 Hrest Hc1) as (evs & Hrun & Hevs).
    exists (ev :: evs). cbn. rewrite Hs. split; [done|]. by apply Forall_app.
Qed.

(** C32. A player cannot flood a game server with large frames: on any
    connection that keeps the interface's promises, and with the adapter's
    these are the library's, what the gateway does from the acceptance on is
    an execution of the relay, and every frame it forwards is at most 64 KiB
    long. *)
Theorem relay_frames_bounded (a : A) (req : Req) (c c' : C) (dial_ok stream_ok connect_ok : bool) (client : string)
    (claims : Claims) (ip : option ipLimiter) (now : Time) (ios : list io) (r0 r : relayState) :
  accept_ws a req = Ok c → relay_start dial_ok stream_ok connect_ok client claims ip now = Some r0 →
  fold_option relay_io (r0, c) ios = Some (r, c') →
  (∃ evs, fold_option relay_step r0 evs = Some r ∧ Forall short (evs ≫= frame_of)) ∧
  Forall short (sent r ≫= data_of).
Proof.
  intros Ha Hst Hrun. assert (limit c = read_limit) as Hl.
  { unfold accept_ws in Ha. destruct (Accept a req); [|done]. injection Ha as <-. apply limit_set. }
  destruct (relay_io_run _ _ _ _ _ Hrun (λ _, Hl)) as (evs & Hevs & Hsh). split; [by exists evs|].
  assert (balanced r0 ∧ sent r0 ≫= data_of = []) as [Hb H0].
  { unfold relay_start in Hst. destruct (_ || _); [done|]. injection Hst as <-. by destruct connect_ok. }
  destruct (relay_run _ _ _ Hevs Hb) as [[_ (new & -> & _ & Hd & _)] _]. rewrite bind_app, H0. cbn.
  rewrite Forall_forall in Hsh |- *. intros d Hin. by apply Hsh, (sublist_subseteq _ _ Hd).
Qed.
End relay.

(** ** An instance: a peer that has sent some messages *)

Record script := mkScript { incoming : list (MessageType * bytes); outgoing : list bytes; sc_limit : Z; sc_open : bool }.

Definition script_lib : WsLib := {|
  wsConn := script;
  wsRequest := list (MessageType * bytes);
  wsOptions := unit;
  no_options := tt;
  ws_Accept r _ := Ok (mkScript r [] 32768 true);
  ws_Read k :=
    match incoming k with
    | (t, d) :: rest =>
        if sc_open k && (Z.of_nat (length d) <=? sc_limit k)
        then (Ok (t, d), mkScript rest (outgoing k) (sc_limit k) true)
        else (Err (Other "read limited"), mkScript [] (outgoing k) (sc_limit k) false)
    | [] => (Err (Other "EOF"), k)
    end;
  ws_Write _ d k := if sc_open k then (None, mkScript (incoming k) (outgoing k ++ [d]) (sc_limit k) true)
                    else (Some (Other "closed"), k);
  ws_Close _ _ k := (None, mkScript [] (outgoing k) (sc_limit k) false);
  ws_CloseNow k := (None, mkScript [] (outgoing k) (sc_limit k) false);
  ws_SetReadLimit n k := mkScript (incoming k) (outgoing k) n (sc_open k);
  ws_limit := sc_limit
|}.

#[export] Instance script_laws : WsLaws script_lib.
Proof.
  split.
  - done.
  - intros k. cbn. destruct (incoming k) as [|[t d] rest]; [done|]. by destruct (_ && _).
  - intros t d k. cbn. by destruct (sc_open k).
  - intros k t d k' _. cbn. destruct (incoming k) as [|[t' d'] rest]; [done|].
    destruct (sc_open k && _) eqn:E; [|done]. intros [= <- <- <-]. apply andb_true_iff in E as [_ E]. by apply Z.leb_le.
Qed.

(** Two frames arrive, of which the second is too long. *)
Lemma relay_frames_bounded_witness :
  ∃ r c, fold_option (relay_io (CN := Coder.coder_connection (W := script_lib)))
           (mkRelay "alice" (newConnectionLimiter (of_int 100) (of_int 100) 0) None [connect_packet "alice" (mkClaims "" "alice" "z1")]
              [] [] 0 true true Running,
            Coder.mkConn (W := script_lib) (mkScript [(MessageText, [Byte.x01]); (MessageBinary, replicate (Z.to_nat 65537) Byte.x00)] [] read_limit true))
           [IoRead 0 true; IoRead 0 true; IoRecv [Byte.x02]; IoFinish true] = Some (r, c) ∧
    sent r ≫= data_of = [[Byte.x01]] ∧ Forall short (sent r ≫= data_of).
Proof.
  destruct (fold_option (relay_io (CN := Coder.coder_connection (W := script_lib))) _ _) as [[r c]|] eqn:E;
    [|vm_compute in E; discriminate E].
  exists r, c. split; [reflexivity|]. split.
  - vm_compute in E. injection E as <- _. reflexivity.
  - refine (proj2 (relay_frames_bounded (ConnectionLaws0 := Coder.coder_laws (W := script_lib)) (AC := Coder.coder_accepter (W := script_lib)) (CN := Coder.coder_connection (W := script_lib))
      (Coder.mkAccepter (W := script_lib) None) [(MessageText, [Byte.x01]); (MessageBinary, replicate (Z.to_nat 65537) Byte.x00)] _ _
      true true true "alice" (mkClaims "" "alice" "z1") None 0 _ _ _ _ _ E)); reflexivity.
Defined.
