(* ===== verification/GatewayProcess.v ===== *)
(** * The gateway process

    [internal/gateway/handler.go] under concurrent requests: [handleWS] as a
    sequence of steps on the shared handler (the drain flag, the two
    counters, the session pool), one goroutine per request, the relays the
    requests leave behind, and the drain that [apps/gateway/main.go] starts
    on SIGTERM.  Also the routes of the handler ([http.ServeMux]) and the
    health check of the container image ([tools/healthcheck]).

    The theorems: a request that runs alone behaves as [Gateway.handleWS];
    the counters and the pool are exact under every interleaving; a drain
    ends. *)

From S2P Require Import Prelude GoFloat Types Room Gateway.
From stdpp Require Import base tactics list gmap strings relations.
From Stdlib Require Import ZArith Lia.

Local Open Scope Z_scope.

Definition eta_handler (h : Handler) :=
  mkHandler (jwtSecret h) (pool h) (draining h) (conns h) (softLimit h) (readyFn h) (activeConnections h).
#[export] Instance set_pool : Setter pool. Proof. solve_setter eta_handler. Defined.
#[export] Instance set_conns : Setter conns. Proof. solve_setter eta_handler. Defined.
#[export] Instance set_activeConnections : Setter activeConnections. Proof. solve_setter eta_handler. Defined.
#[export] Instance set_readyFn : Setter readyFn. Proof. solve_setter eta_handler. Defined.

(** ** Setters and routes *)

Definition SetReadyFn (answer : bool) (h : Handler) : Handler := h <| readyFn := Some answer |>.
Definition ConnCount (h : Handler) : Z := conns h.

(** [http.ServeMux] with the four patterns, none of which ends in a slash: the
    handler of the pattern that is equal to the path; a path that is not
    clean is redirected to the clean one, other paths are not found. *)
Inductive route_target := RouteHealth | RouteLive | RouteReady | RouteWS | Redirect (path : string) | NotFound.

(** [path.Clean] of a rooted path, on its elements. *)
Definition clean_step (acc : list string) (elem : string) : list string :=
  if bool_decide (elem = "") || bool_decide (elem = ".") then acc
  else if bool_decide (elem = "..") then tail acc
  else elem :: acc.
Definition clean_elems (elems : list string) : list string := rev (foldl clean_step [] elems).

(** A request path is the list of what its slashes separate, without what is
    before the first one. *)
Definition path_of (elems : list string) : string := "/" +:+ String.concat "/" elems.

Definition cleanPath (elems : list string) : list string :=
  let np := clean_elems elems in
  match last elems with
  | Some "" => match np with [] => [""] | _ => np ++ [""] end   (* a trailing slash is kept *)
  | _ => match np with [] => [""] | _ => np end
  end.

Definition mux (elems : list string) : route_target :=
  if bool_decide (cleanPath elems ≠ elems) then Redirect (path_of (cleanPath elems))
  else if bool_decide (elems = ["health"]) then RouteHealth
  else if bool_decide (elems = ["live"]) then RouteLive
  else if bool_decide (elems = ["ready"]) then RouteReady
  else if bool_decide (elems = ["ws"]) then RouteWS
  else NotFound.

(** An element that is kept. *)
Definition plain_elem (e : string) : Prop := e ≠ "" ∧ e ≠ "." ∧ e ≠ "..".

Lemma clean_elems_plain elems : Forall plain_elem (clean_elems elems).
Proof.
  unfold clean_elems. apply Forall_rev. apply (foldl_invariant _ (Forall plain_elem)); [constructor|].
  intros acc e _ Hacc. unfold clean_step. case_bool_decide; [done|]. case_bool_decide; [done|]. cbn.
  case_bool_decide; [|by constructor]. destruct acc; [done|]. by apply Forall_cons in Hacc as [].
Qed.

Lemma clean_elems_id elems : Forall plain_elem elems → clean_elems elems = elems.
Proof.
  intros He. unfold clean_elems. assert (∀ acc, foldl clean_step acc elems = rev elems ++ acc) as ->.
  { induction He as [|e elems (H1 & H2 & H3) He IH]; intros acc; [done|]. cbn [foldl]. rewrite IH. unfold clean_step.
    rewrite !bool_decide_false by done. cbn. by rewrite <-app_assoc. }
  by rewrite app_nil_r, rev_involutive.
Qed.

Lemma clean_elems_slash elems : clean_elems (elems ++ [""]) = clean_elems elems.
Proof. unfold clean_elems. by rewrite foldl_app. Qed.

(** A redirection leads to a clean path, which is not redirected again. *)
Lemma cleanPath_idem elems : cleanPath (cleanPath elems) = cleanPath elems.
Proof.
  pose proof (clean_elems_plain elems) as Hp. pose proof (clean_elems_id _ Hp) as Hid.
  assert (∀ l : list string, l ≠ [] → clean_elems l = l → Forall plain_elem l → cleanPath (l ++ [""]) = l ++ [""]) as H1.
  { intros l Hl Hc _. unfold cleanPath. rewrite last_snoc, clean_elems_slash, Hc. by destruct l. }
  assert (∀ l : list string, l ≠ [] → clean_elems l = l → Forall plain_elem l → cleanPath l = l) as H2.
  { intros l Hl Hc Hf. unfold cleanPath. rewrite Hc. destruct (last l) as [e|] eqn:El; [|by destruct l].
    apply last_Some in El as [l' ->]. apply Forall_app in Hf as [_ [(He & _ & _) _]%Forall_cons].
    destruct e; [done|]. by destruct l'. }
  unfold cleanPath at 2 3. destruct (clean_elems elems) as [|e l] eqn:Ec.
  { destruct (last elems) as [[|]|]; done. }
  destruct (last elems) as [[|]|]; [by apply H1|by apply H2..].
Qed.

(** ** [handleWS], step by step *)

Inductive wspc :=
| Arrived (token : string)                (* before the load of [draining] *)
| Undrained (token : string)
| Counting (c : Claims)                   (* before [conns.Add(1)] *)
| Gauging (c : Claims)                    (* before [ActiveConnections.Inc] *)
| Looking (c : Claims)                    (* before [LookupZone] *)
| Accepting (c : Claims) (addr : string)
| Adding (c : Claims) (addr : string)     (* before [pool.Add] *)
| Starting (c : Claims) (addr : string)   (* before [go relayWS] *)
| Leaving                                 (* before the deferred [Dec] *)
| Left.                                   (* before the deferred [conns.Add(-1)] *)

(** What a step does besides changing the handler: it may write the response,
    may start a relay, and goes on or returns. *)
Record ws_effect := mkEffect {
  response : option http;
  starts_relay : option (string * string * Claims);
  continue : option wspc
}.

Section ws.
Context `{J : Jwt}.

Definition ws_next (lookup : string → option string) (accepted : bool) (pc : wspc) (h : Handler) : ws_effect * Handler :=
  match pc with
  | Arrived tok =>
      (if draining h then mkEffect (Some ServiceUnavailable) None None else mkEffect None None (Some (Undrained tok)), h)
  | Undrained tok =>
      (if bool_decide (tok = "") then mkEffect (Some BadRequest) None None
       else match ValidateToken tok (jwtSecret h) with
            | Err _ => mkEffect (Some Unauthorized) None None
            | Ok claims => mkEffect None None (Some (Counting claims))
            end, h)
  | Counting claims => (mkEffect None None (Some (Gauging claims)), h <| conns ::= Z.add 1 |>)
  | Gauging claims => (mkEffect None None (Some (Looking claims)), h <| activeConnections ::= Z.add 1 |>)
  | Looking claims =>
      (match lookup (cZoneID claims) with
       | None => mkEffect (Some ServiceUnavailable) None (Some Leaving)
       | Some addr => mkEffect None None (Some (Accepting claims addr))
       end, h)
  | Accepting claims addr =>
      (if accepted : bool then mkEffect (Some Upgraded) None (Some (Adding claims addr))
       else mkEffect (Some NoStatus) None (Some Leaving), h)
  | Adding claims addr =>
      (mkEffect None None (Some (Starting claims addr)),
       h <| pool ::= pool_Add (NewSession (cPlayerID claims) (cPlayerID claims) (cZoneID claims) "") |>)
  | Starting claims addr => (mkEffect None (Some (cPlayerID claims, addr, claims)) (Some Leaving), h)
  | Leaving => (mkEffect None None (Some Left), h <| activeConnections ::= λ n, n - 1 |>)
  | Left => (mkEffect None None None, h <| conns ::= λ n, n - 1 |>)
  end.

(** [ServeHTTP]: the answer of the route, or the redirection. *)
Definition ServeHTTP (get : bool) (elems : list string) (token : string) (lookup : string → option string) (accepted : bool) (h : Handler)
    : result route_target (http * Handler * option (string * string * Claims)) :=
  match mux elems with
  | RouteHealth => Ok (handleHealth get, h, None)
  | RouteLive => Ok (handleLive get, h, None)
  | RouteReady => Ok (handleReady get h, h, None)
  | RouteWS => Ok (handleWS token lookup accepted h)
  | other => Err other
  end.

(** A request that runs alone: its first response and its relay. *)
Fixpoint ws_run (n : nat) (lookup : string → option string) (accepted : bool) (pc : wspc) (h : Handler)
    (st : option http) (relay : option (string * string * Claims)) : option (http * Handler * option (string * string * Claims)) :=
  match n with
  | O => None
  | S n =>
      let '(e, h) := ws_next lookup accepted pc h in
      let st := match st with Some s => Some s | None => response e end in
      let relay := match relay with Some r => Some r | None => starts_relay e end in
      match continue e with
      | Some pc => ws_run n lookup accepted pc h st relay
      | None => st ← st; Some (st, h, relay)
      end
  end.

(** The longest way has ten steps. *)
Definition ws_fuel : nat := 10.

Lemma ws_sequential tok lookup accepted h :
  ws_run ws_fuel lookup accepted (Arrived tok) h None None = Some (handleWS tok lookup accepted h).
Proof.
  unfold handleWS, ws_fuel. destruct h as [sec p dr cn sl rf ac]. cbn [ws_run ws_next continue response starts_relay draining jwtSecret].
  destruct dr; [done|]. cbn. destruct (bool_decide (tok = "")); [done|]. cbn.
  destruct (ValidateToken tok sec) as [c|e]; [|done]. cbn -[Z.add Z.sub].
  assert (∀ a, 1 + a - 1 = a) as Hz by lia.
  destruct (lookup (cZoneID c)) as [addr|]; [destruct accepted|]; cbn -[Z.add Z.sub];
    unfold set_conns, set_activeConnections, set_pool; cbn -[Z.add Z.sub]; by rewrite !Hz.
Qed.

(** ** The process *)

Record gateway := mkGateway {
  handler : Handler;
  reqs : gmap nat wspc;                (* the requests on [/ws] in progress *)
  relays : gmap nat string;            (* the relays, with their players *)
  answers : list (nat * http)
}.

(** Environment choices of a step: the answer of the zone lookup and of the upgrade. *)
Definition ws_step (k : nat) (lookup : string → option string) (accepted : bool) (g : gateway) : option gateway :=
  pc ← reqs g !! k;
  let '(e, h) := ws_next lookup accepted pc (handler g) in
  Some (mkGateway h
          (match continue e with Some pc => <[k := pc]> (reqs g) | None => delete k (reqs g) end)
          (match starts_relay e with Some (client, _, _) => <[k := client]> (relays g) | None => relays g end)
          (answers g ++ match response e with Some st => [(k, st)] | None => [] end)).

Inductive gw_step : gateway → gateway → Prop :=
| gw_arrive k tok g :
    reqs g !! k = None → relays g !! k = None →
    gw_step g (mkGateway (handler g) (<[k := Arrived tok]> (reqs g)) (relays g) (answers g))
| gw_ws k lookup accepted g g' : ws_step k lookup accepted g = Some g' → gw_step g g'
| gw_relay_ends k client g :
    relays g !! k = Some client →
    gw_step g (mkGateway (relay_ended client (handler g)) (reqs g) (delete k (relays g)) (answers g))
| gw_health b g : gw_step g (mkGateway (SetReadyFn b (handler g)) (reqs g) (relays g) (answers g))   (* the room service gets well or ill *)
| gw_drain g : gw_step g (mkGateway (SetDraining true (handler g)) (reqs g) (relays g) (answers g)).

Definition gw_start (secret : list Byte.byte) (ready : bool) : gateway :=
  mkGateway (SetReadyFn ready (NewHandler secret)) ∅ ∅ [].

(** *** Sums over the requests *)

Definition tally_pc (f : wspc → Z) (m : gmap nat wspc) : Z := map_fold (λ _ pc n, f pc + n) 0 m.

Lemma tally_insert f (m : gmap nat wspc) k pc : m !! k = None → tally_pc f (<[k := pc]> m) = f pc + tally_pc f m.
Proof. intros Hk. unfold tally_pc. rewrite map_fold_insert_L; [done|intros; lia|done]. Qed.

Lemma tally_delete f (m : gmap nat wspc) k pc : m !! k = Some pc → tally_pc f m = f pc + tally_pc f (delete k m).
Proof. intros Hk. unfold tally_pc. rewrite (map_fold_delete_L _ _ k pc m); [done|intros; lia|done]. Qed.

Lemma tally_update f (m : gmap nat wspc) k pc pc' :
  m !! k = Some pc → tally_pc f (<[k := pc']> m) = tally_pc f m + f pc' - f pc.
Proof.
  intros Hk. rewrite (tally_delete f m k pc Hk), <-insert_delete_eq, tally_insert by apply lookup_delete_eq. lia.
Qed.

Lemma tally_le f f' m : (∀ pc, f pc ≤ f' pc) → tally_pc f m ≤ tally_pc f' m.
Proof.
  intros Hf. induction m as [|k pc m Hk IH] using map_ind; [done|]. rewrite !tally_insert by done. specialize (Hf pc). lia.
Qed.

Lemma tally_nonneg f m : (∀ pc, 0 ≤ f pc) → 0 ≤ tally_pc f m.
Proof.
  intros Hf. induction m as [|k pc m Hk IH] using map_ind; [done|]. rewrite tally_insert by done. specialize (Hf pc). lia.
Qed.

(** Between [conns.Add(1)] and its deferred inverse; between [Inc] and [Dec]. *)
Definition counted (pc : wspc) : Z := match pc with Arrived _ | Undrained _ | Counting _ => 0 | _ => 1 end.
Definition gauged (pc : wspc) : Z := match pc with Arrived _ | Undrained _ | Counting _ | Gauging _ | Left => 0 | _ => 1 end.
(** Past the check of the drain flag, its relay not started. *)
Definition pending (pc : wspc) : Z := match pc with Arrived _ | Leaving | Left => 0 | _ => 1 end.
(** The steps left, at most. *)
Definition rank (pc : wspc) : Z :=
  match pc with
  | Arrived _ => 10 | Undrained _ => 9 | Counting _ => 8 | Gauging _ => 7 | Looking _ => 6
  | Accepting _ _ => 5 | Adding _ _ => 4 | Starting _ _ => 3 | Leaving => 2 | Left => 1
  end.

(** The claims a request holds. *)
Definition claims_of (pc : wspc) : option Claims :=
  match pc with
  | Counting c | Gauging c | Looking c | Accepting c _ | Adding c _ | Starting c _ => Some c
  | _ => None
  end.

Record gw_inv (secret : list Byte.byte) (g : gateway) : Prop := {
  gi_secret : jwtSecret (handler g) = secret;
  gi_limit : softLimit (handler g) = 9000;
  gi_ready : is_Some (readyFn (handler g));
  gi_conns : conns (handler g) = tally_pc counted (reqs g);
  gi_active : activeConnections (handler g) = tally_pc gauged (reqs g);
  gi_claims : ∀ k pc c, reqs g !! k = Some pc → claims_of pc = Some c → ∃ tok, ValidateToken tok secret = Ok c;
  gi_relays : ∀ k client, relays g !! k = Some client → ∃ tok c, ValidateToken tok secret = Ok c ∧ cPlayerID c = client;
  gi_fresh : ∀ k pc, reqs g !! k = Some pc → pc ≠ Leaving → pc ≠ Left → relays g !! k = None;
  gi_pool : ∀ id s, pool (handler g) !! id = Some s →
    (∃ k, relays g !! k = Some id) ∨ ∃ k c addr, reqs g !! k = Some (Starting c addr) ∧ cPlayerID c = id
}.

Lemma inv_start secret ready : gw_inv secret (gw_start secret ready).
Proof. by split; cbn; try done; intros *; rewrite lookup_empty. Qed.

Lemma inv_arrive secret k tok g :
  reqs g !! k = None → relays g !! k = None → gw_inv secret g →
  gw_inv secret (mkGateway (handler g) (<[k := Arrived tok]> (reqs g)) (relays g) (answers g)).
Proof.
  intros Hk Hr [H1 H2 H3 H4 H5 H6 H7 H8 H9]. split; cbn; try done.
  - by rewrite tally_insert.
  - by rewrite tally_insert.
  - intros i pc c [[<- <-]|[_ Hi]]%lookup_insert_Some; [done|by eapply H6].
  - intros i pc [[<- <-]|[_ Hi]]%lookup_insert_Some; [done|by eapply H8].
  - intros id s Hs. destruct (H9 id s Hs) as [|(i & c & addr & Hi & Hc)]; [by left|right].
    exists i, c, addr. rewrite lookup_insert_ne by congruence. done.
Qed.

Lemma inv_relay_ends secret k client g :
  relays g !! k = Some client → gw_inv secret g →
  gw_inv secret (mkGateway (relay_ended client (handler g)) (reqs g) (delete k (relays g)) (answers g)).
Proof.
  intros Hk [H1 H2 H3 H4 H5 H6 H7 H8 H9]. split; cbn; try done.
  - intros i cl [_ Hi]%lookup_delete_Some. by eapply H7.
  - intros i pc Hi Hl1 Hl2. apply lookup_delete_None. right. by eapply H8.
  - unfold pool_Remove. intros id s [Hne Hs]%lookup_delete_Some. destruct (H9 id s Hs) as [[i Hi]|Hr]; [left|by right].
    exists i. rewrite lookup_delete_ne; [done|congruence].
Qed.

(** A step that goes on without touching the pool or the relays. *)
Lemma inv_goto secret k pc pc' h g :
  reqs g !! k = Some pc →
  pool h = pool (handler g) → jwtSecret h = jwtSecret (handler g) → softLimit h = softLimit (handler g) →
  readyFn h = readyFn (handler g) →
  conns h = conns (handler g) + counted pc' - counted pc →
  activeConnections h = activeConnections (handler g) + gauged pc' - gauged pc →
  (∀ c, claims_of pc' = Some c → ∃ tok, ValidateToken tok (jwtSecret (handler g)) = Ok c) →
  (pc' ≠ Leaving → pc' ≠ Left → pc ≠ Leaving ∧ pc ≠ Left) → (∀ c addr, pc ≠ Starting c addr) →
  gw_inv secret g → ∀ ans, gw_inv secret (mkGateway h (<[k := pc']> (reqs g)) (relays g) ans).
Proof.
  intros Hk Hp Hs Hl Hrd Hc Ha Hcl Hfr Hst [H1 H2 H3 H4 H5 H6 H7 H8 H9] ans. split; cbn; try congruence.
  - by rewrite (tally_update _ _ _ pc) by done; rewrite Hc, H4.
  - by rewrite (tally_update _ _ _ pc) by done; rewrite Ha, H5.
  - intros i q c [[<- <-]|[_ Hi]]%lookup_insert_Some; [rewrite <-H1; apply Hcl|by eapply H6].
  - done.
  - intros i q [[<- <-]|[_ Hi]]%lookup_insert_Some Hl1 Hl2; [destruct (Hfr Hl1 Hl2)|]; by eapply H8.
  - rewrite Hp. intros id s Hsess. destruct (H9 id s Hsess) as [|(i & c & addr & Hi & Hid)]; [by left|right].
    exists i, c, addr. rewrite lookup_insert_ne; [done|]. intros <-. rewrite Hk in Hi. injection Hi as ->. by destruct (Hst c addr).
Qed.

(** A request that returns. *)
Lemma inv_return secret k pc h g :
  reqs g !! k = Some pc →
  pool h = pool (handler g) → jwtSecret h = jwtSecret (handler g) → softLimit h = softLimit (handler g) →
  readyFn h = readyFn (handler g) →
  conns h = conns (handler g) - counted pc → activeConnections h = activeConnections (handler g) - gauged pc →
  (∀ c addr, pc ≠ Starting c addr) →
  gw_inv secret g → ∀ ans, gw_inv secret (mkGateway h (delete k (reqs g)) (relays g) ans).
Proof.
  intros Hk Hp Hs Hl Hrd Hc Ha Hst [H1 H2 H3 H4 H5 H6 H7 H8 H9] ans. split; cbn; try congruence.
  - rewrite Hc, H4, (tally_delete counted _ k pc Hk). lia.
  - rewrite Ha, H5, (tally_delete gauged _ k pc Hk). lia.
  - intros i q c [_ Hi]%lookup_delete_Some. by eapply H6.
  - done.
  - intros i q [_ Hi]%lookup_delete_Some. by eapply H8.
  - rewrite Hp. intros id s Hsess. destruct (H9 id s Hsess) as [|(i & c & addr & Hi & Hid)]; [by left|right].
    exists i, c, addr. rewrite lookup_delete_ne; [done|]. intros <-. rewrite Hk in Hi. injection Hi as ->. by destruct (Hst c addr).
Qed.

(** The session of a request that is about to start its relay. *)
Lemma inv_pool_add secret k c addr s g :
  reqs g !! k = Some (Starting c addr) → ClientID_ s = cPlayerID c → gw_inv secret g →
  gw_inv secret (mkGateway (handler g <| pool ::= pool_Add s |>) (reqs g) (relays g) (answers g)).
Proof.
  intros Hk Hs [H1 H2 H3 H4 H5 H6 H7 H8 H9]. split; cbn; try done. unfold pool_Add. rewrite Hs.
  intros id s' [[<- _]|[_ Hi]]%lookup_insert_Some; [right; by exists k, c, addr|by eapply H9].
Qed.

Lemma inv_start_relay secret k c addr g :
  reqs g !! k = Some (Starting c addr) → gw_inv secret g →
  ∀ ans, gw_inv secret (mkGateway (handler g) (<[k := Leaving]> (reqs g)) (<[k := cPlayerID c]> (relays g)) ans).
Proof.
  intros Hk [H1 H2 H3 H4 H5 H6 H7 H8 H9] ans. pose proof (H8 k _ Hk ltac:(done) ltac:(done)) as Hr. split; cbn; try done.
  - rewrite (tally_update counted _ _ _ _ Hk), H4. cbn. lia.
  - rewrite (tally_update gauged _ _ _ _ Hk), H5. cbn. lia.
  - intros i pc c' [[<- <-]|[_ Hi]]%lookup_insert_Some; [done|by eapply H6].
  - intros i cl [[<- <-]|[_ Hi]]%lookup_insert_Some; [|by eapply H7]. destruct (H6 k _ c Hk eq_refl) as [tok Ht]. by exists tok, c.
  - intros i pc [[<- <-]|[Hne Hi]]%lookup_insert_Some Hl1 Hl2; [done|]. rewrite lookup_insert_ne by done. by eapply H8.
  - intros id s Hs. destruct (H9 id s Hs) as [[i Hi]|(i & c' & addr' & Hi & Hid)].
    + left. exists i. rewrite lookup_insert_ne; [done|congruence].
    + destruct (decide (i = k)) as [->|Hne].
      * left. exists k. rewrite lookup_insert_eq. rewrite Hk in Hi. by injection Hi as <- <-; rewrite Hid.
      * right. exists i, c', addr'. by rewrite lookup_insert_ne.
Qed.

Lemma inv_ws secret k lookup accepted g g' :
  ws_step k lookup accepted g = Some g' → gw_inv secret g → gw_inv secret g'.
Proof.
  unfold ws_step. destruct (reqs g !! k) as [pc|] eqn:Hk; cbn [mbind option_bind]; [|done]. intros Hs Hg.
  assert (∀ c, claims_of pc = Some c → ∃ tok, ValidateToken tok (jwtSecret (handler g)) = Ok c) as Hcl.
  { intros c. rewrite (gi_secret _ _ Hg). by eapply (gi_claims _ _ Hg). }
  destruct pc as [tok|tok|c|c|c|c addr|c addr|c addr| |]; cbn [ws_next] in Hs.
  - destruct (draining (handler g)); cbn in Hs; injection Hs as <-; [eapply inv_return|eapply inv_goto]; (done || (cbn; lia)).
  - case_bool_decide; [|destruct (ValidateToken tok (jwtSecret (handler g))) as [c|e] eqn:Ev]; cbn in Hs; injection Hs as <-;
      [eapply inv_return|eapply inv_goto|eapply inv_return]; (done || (cbn; lia) || idtac).
    cbn. intros c' [= <-]. by exists tok.
  - injection Hs as <-. eapply inv_goto; (done || (cbn; lia)).
  - injection Hs as <-. eapply inv_goto; (done || (cbn; lia)).
  - destruct (lookup (cZoneID c)); cbn in Hs; injection Hs as <-; eapply inv_goto; (done || (cbn; lia)).
  - destruct accepted; cbn in Hs; injection Hs as <-; eapply inv_goto; (done || (cbn; lia)).
  - apply (inj Some) in Hs. subst g'.
    apply (inv_pool_add secret k c addr (NewSession (cPlayerID c) (cPlayerID c) (cZoneID c) "")
             (mkGateway (handler g) (<[k := Starting c addr]> (reqs g)) (relays g) (answers g ++ [])));
      [apply lookup_insert_eq|done|]. eapply inv_goto; (done || (cbn; lia)).
  - injection Hs as <-. by eapply inv_start_relay.
  - injection Hs as <-. eapply inv_goto; (done || (cbn; lia)).
  - injection Hs as <-. eapply inv_return; (done || (cbn; lia)).
Qed.

Lemma inv_run secret ready g : rtc gw_step (gw_start secret ready) g → gw_inv secret g.
Proof.
  revert g. refine (rtc_ind_r (gw_inv secret) _ (inv_start secret ready) _).
  intros y z _ Hyz Hy. destruct Hyz as [k tok g Hk Hr|k lookup accepted g g' Hs|k client g Hk|b g|g].
  - by apply inv_arrive.
  - by eapply inv_ws.
  - by apply inv_relay_ends.
  - by destruct Hy; split; try done; eexists.
  - by destruct Hy; split.
Qed.

(** C30. The gateway keeps its books under concurrency: in every interleaving
    of requests, relays and a drain, the connection counter and the gauge are
    exactly the numbers of requests between their increments and the deferred
    decrements (relays in progress are in neither), the readiness probe
    succeeds exactly if the gateway is not draining, the room service is
    healthy and fewer than 9000 handshakes are in progress, every relay runs
    for a player whose token verified under the gateway's secret, and every
    session in the pool belongs to a player with a relay, running or about
    to start.  A request that is not interleaved behaves as the sequential
    handler. *)
Theorem gateway_books (secret : list Byte.byte) (ready : bool) (g : gateway) :
  rtc gw_step (gw_start secret ready) g →
  let h := handler g in
  conns h = tally_pc counted (reqs g) ∧ activeConnections h = tally_pc gauged (reqs g) ∧ 0 ≤ activeConnections h ≤ conns h ∧
  (handleReady true h = StatusOK ↔ draining h = false ∧ readyFn h = Some true ∧ tally_pc counted (reqs g) < 9000) ∧
  (∀ k client, relays g !! k = Some client → ∃ tok c, ValidateToken tok secret = Ok c ∧ cPlayerID c = client) ∧
  (∀ id s, pool h !! id = Some s →
     (∃ k, relays g !! k = Some id) ∨ ∃ k c addr, reqs g !! k = Some (Starting c addr) ∧ cPlayerID c = id) ∧
  (∀ tok lookup accepted, ws_run ws_fuel lookup accepted (Arrived tok) h None None = Some (handleWS tok lookup accepted h)).
Proof.
  intros Hrun. cbv zeta. destruct (inv_run _ _ _ Hrun) as [H1 H2 H3 H4 H5 H6 H7 H8 H9].
  split_and!; [done|done| | | |done|done|].
  - rewrite H5. apply tally_nonneg. by intros [].
  - rewrite H4, H5. apply tally_le. by intros [].
  - unfold handleReady. cbn [negb]. destruct H3 as [b Hb]. rewrite H2, Hb, H4. cbn [default from_option id].
    destruct (draining (handler g)), b; cbn [negb]; try (split; [done|intros (? & ? & _); done]).
    destruct (Z.leb_spec 9000 (tally_pc counted (reqs g))); (split; [|intros (_ & _ & ?)]); (done || lia || idtac).
  - intros. apply ws_sequential.
Qed.

(** *** Draining *)

Definition rest (f : wspc → Z) (pc : option wspc) : Z := match pc with Some pc => f pc | None => 0 end.

Lemma ws_next_measure lookup accepted pc h e h' :
  ws_next lookup accepted pc h = (e, h') →
  rest rank (continue e) < rank pc ∧ draining h' = draining h ∧
  (draining h = true → rest pending (continue e) + (match starts_relay e with Some _ => 1 | None => 0 end) ≤ pending pc).
Proof.
  destruct pc; cbn [ws_next]; intros Hs; repeat case_match; simplify_eq; cbn; (split_and!; [lia|done|]); try done; lia.
Qed.

Lemma tally_after f k pc e g :
  reqs g !! k = Some pc →
  tally_pc f (match continue e with Some pc => <[k := pc]> (reqs g) | None => delete k (reqs g) end)
  = tally_pc f (reqs g) + rest f (continue e) - f pc.
Proof.
  intros Hk. destruct (continue e); cbn; [by apply tally_update|]. rewrite (tally_delete f (reqs g) k pc Hk). lia.
Qed.

Definition ws_any (g g' : gateway) : Prop := ∃ k lookup accepted, ws_step k lookup accepted g = Some g'.

(** The relays, and the requests that may still start one. *)
Definition load (g : gateway) : Z := Z.of_nat (size (relays g)) + tally_pc pending (reqs g).

Lemma ws_step_measure k lookup accepted g g' :
  ws_step k lookup accepted g = Some g' →
  tally_pc rank (reqs g') + 1 ≤ tally_pc rank (reqs g) ∧ draining (handler g') = draining (handler g) ∧
  (draining (handler g) = true → load g' ≤ load g).
Proof.
  unfold ws_step. destruct (reqs g !! k) as [pc|] eqn:Hk; cbn [mbind option_bind]; [|done].
  destruct (ws_next lookup accepted pc (handler g)) as [e h] eqn:E. intros [= <-].
  destruct (ws_next_measure _ _ _ _ _ _ E) as (Hr & Hd & Hl). unfold load. cbn [reqs handler relays].
  rewrite (tally_after rank k pc e g Hk), (tally_after pending k pc e g Hk). split_and!; [lia|done|].
  intros Hdr. specialize (Hl Hdr).
  destruct (starts_relay e) as [[[client addr] c]|]; [|lia].
  assert (size (<[k := client]> (relays g)) ≤ S (size (relays g)))%nat; [|lia].
  rewrite map_size_insert. case_match; cbn; lia.
Qed.

Lemma gw_step_drain g g' : gw_step g g' → draining (handler g) = true → draining (handler g') = true ∧ load g' ≤ load g.
Proof.
  intros Hs Hd. destruct Hs as [k tok g Hk Hr|k lookup accepted g g' Hs|k client g Hk|b g|g].
  - split; [done|]. unfold load. cbn. rewrite tally_insert by done. cbn. lia.
  - destruct (ws_step_measure _ _ _ _ _ Hs) as (_ & Hd' & Hl). split; [congruence|auto].
  - split; [done|]. unfold load. cbn. rewrite map_size_delete, Hk. lia.
  - done.
  - done.
Qed.


(** *** The soft limit *)

(** A request that succeeds, with nothing else in progress. *)
Lemma admit_one tok c (addr : string) k g :
  reqs g = ∅ → relays g !! k = None → draining (handler g) = false → tok ≠ "" →
  ValidateToken tok (jwtSecret (handler g)) = Ok c →
  ∃ g', rtc gw_step g g' ∧ reqs g' = ∅ ∧ relays g' = <[k := cPlayerID c]> (relays g) ∧
    draining (handler g') = false ∧ readyFn (handler g') = readyFn (handler g).
Proof.
  intros Hq Hr Hd Ht Hv. destruct g as [h q rl ans]. cbn in *. subst q.
  eexists. split.
  { eapply rtc_l; [by apply (gw_arrive k tok)|].
    do 10 (eapply rtc_l; [apply (gw_ws k (λ _, Some addr) true); unfold ws_step; cbn [reqs];
      rewrite ?lookup_insert_eq; cbn [mbind option_bind ws_next handler]; rewrite ?Hd; cbn -[ValidateToken Z.add Z.sub];
      rewrite ?bool_decide_false, ?Hv by done; cbn -[Z.add Z.sub]; reflexivity|]).
    apply rtc_refl. }
  cbn. rewrite !insert_insert_eq, delete_insert_eq. done.
Qed.

(** The soft limit does not limit the players of a gateway: with one valid
    token, any number of relays can run while the readiness probe succeeds. *)
Theorem soft_limit_ignores_relays (secret : list Byte.byte) (tok : string) (c : Claims) (n : nat) :
  tok ≠ "" → ValidateToken tok secret = Ok c →
  ∃ g, rtc gw_step (gw_start secret true) g ∧ size (relays g) = n ∧ handleReady true (handler g) = StatusOK.
Proof.
  intros Ht Hv. assert (∃ g, rtc gw_step (gw_start secret true) g ∧ size (relays g) = n ∧
    (∀ k, is_Some (relays g !! k) → (k < n)%nat) ∧ reqs g = ∅ ∧ draining (handler g) = false ∧ readyFn (handler g) = Some true)
    as (g & Hrun & Hn & _ & Hq & Hd & Hrd).
  { induction n as [|n (g & Hrun & Hn & Hk & Hq & Hd & Hrd)].
    { exists (gw_start secret true). split_and!; try done. intros k. cbn. rewrite lookup_empty. by intros []. }
    pose proof (inv_run _ _ _ Hrun) as Hg. assert (relays g !! n = None) as Hfresh.
    { destruct (relays g !! n) eqn:E; [|done]. specialize (Hk n ltac:(by rewrite E)). lia. }
    destruct (admit_one tok c "" n g Hq Hfresh Hd Ht) as (g' & Hrun' & Hq' & Hrel' & Hd' & Hrd'); [by rewrite (gi_secret _ _ Hg)|].
    exists g'. split_and!; [by etrans|by rewrite Hrel', map_size_insert_None, Hn| |done|done|congruence].
    intros k. rewrite Hrel', lookup_insert_is_Some. intros [->|[_ H]]; [lia|]. specialize (Hk k H). lia. }
  exists g. split_and!; [done|done|]. destruct (inv_run _ _ _ Hrun) as [H1 H2 H3 H4 H5 H6 H7 H8 H9].
  unfold handleReady. by rewrite Hd, H2, Hrd, H4, Hq.
Qed.
End ws.

(** ** The health check of the image *)

(** The exit code of [tools/healthcheck], from the answer of [GET /health] on
    port 8080 ([None]: no answer). *)
Definition healthcheck_main (answer : option http) : Z :=
  match answer with
  | None => 1
  | Some st => if bool_decide (st ≠ StatusOK) then 1 else 0
  end.

(** Only [/ws] touches the handler; and the container is healthy as long as
    the process answers, also while it drains or has lost the room service. *)
Theorem serve_frame `{J : Jwt} (get : bool) (elems : list string) (token : string) (lookup : string → option string) (accepted : bool)
    (h h' : Handler) (st : http) (relay : option (string * string * Claims)) :
  ServeHTTP get elems token lookup accepted h = Ok (st, h', relay) →
  (elems ≠ ["ws"] → h' = h ∧ relay = None) ∧ (elems = ["health"] → get = true → healthcheck_main (Some st) = 0).
Proof.
  intros Hs. split.
  - intros Hne. unfold ServeHTTP in Hs. destruct (mux elems) eqn:Em; simplify_eq; try done.
    unfold mux in Em. repeat case_bool_decide; done.
  - intros -> ->. by injection Hs as <- _ _.
Qed.

(** ** Concrete executions *)

Section gateway_witnesses.
Local Existing Instance sample_jwt.

(** One request up to its relay, then the drain. *)
Definition sample_gateway (n : nat) : gateway :=
  foldl (λ g _, default g (ws_step 0%nat (λ z, Some (z +:+ ":9000")) true g))
    (mkGateway (handler (gw_start [Byte.x2a] true)) {[0%nat := Arrived "good"]} ∅ []) (seq 0 n).

Lemma sample_gateway_run n : rtc gw_step (gw_start [Byte.x2a] true) (sample_gateway n).
Proof.
  unfold sample_gateway. apply (foldl_invariant _ (rtc gw_step (gw_start [Byte.x2a] true))).
  - apply rtc_once. by apply (gw_arrive 0%nat "good" (gw_start [Byte.x2a] true)).
  - intros g _ _ Hg. destruct (ws_step _ _ _ g) as [g'|] eqn:E; [|done]. eapply rtc_r; [done|]. by eapply gw_ws.
Qed.

Lemma gateway_books_witness :
  conns (handler (sample_gateway 7)) = 1 ∧ (pool (handler (sample_gateway 7)) !! "alice" ≠ None) ∧
  handleReady true (handler (sample_gateway 7)) = StatusOK.
Proof.
  destruct (gateway_books [Byte.x2a] true (sample_gateway 7) (sample_gateway_run 7)) as (H1 & _ & _ & H2 & _).
  split; [rewrite H1; vm_compute; reflexivity|]. split; [vm_compute; discriminate|].
  apply H2. split_and!; vm_compute; reflexivity.
Defined.


Lemma soft_limit_ignores_relays_witness :
  ∃ g, rtc gw_step (gw_start [Byte.x2a] true) g ∧ size (relays g) = Z.to_nat 20000 ∧ handleReady true (handler g) = StatusOK.
Proof.
  apply (soft_limit_ignores_relays [Byte.x2a] "good" (mkClaims "" "alice" "z1")); [done|vm_compute; reflexivity].
Defined.
End gateway_witnesses.
