(* ===== verification/Schema.v ===== *)
(** * The shared database keeps its types

    The columns [status] of [game_servers] and [zones] are plain text and
    nothing in the schema restricts them; several replicas of the room
    service, the game servers and the provisioning client write them
    concurrently.  Here the statements of [internal/storage/room] are
    interleaved, at the granularity of single statements, with everything a
    room service does. *)

From S2P Require Import Prelude GoFloat Types Protocol Aoi Entity Game Room RoomStore RoomSpec Cluster Failover Gateway GameServer Client.
From stdpp Require Import base tactics list gmap strings.
From Stdlib Require Import ZArith Lia.

Local Open Scope Z_scope.

(** The names of [ServerStatus] and the values of [zones.status]. *)
Definition server_statuses : list string := ["joining"; "active"; "draining"; "shutdown"].
Definition zone_statuses : list string := ["unowned"; "active"].

Record typed (t : tables) : Prop := {
  ty_server : ∀ s row, game_servers t !! s = Some row → sStatus row ∈ server_statuses;
  ty_zone : ∀ z row, zones t !! z = Some row → zstatus row ∈ zone_statuses;
  ty_owner : ∀ z row s, zones t !! z = Some row → server_id row = Some s →
    zstatus row = "active" ∧ is_Some (game_servers t !! s)
}.

Definition named_status (n : Z) : Prop := 0 ≤ n ≤ 3.

Section schema.
Context `{RO : RangeOrder} `{AL : Allocator}.
Implicit Types (t : tables) (w : world).

(** ** Statements *)

(** The statements of the two repositories that write. *)
Inductive db_statement : (tables → tables) → Prop :=
| st_register info now : named_status (nStatus info) → db_statement (insert_server info now)
| st_heartbeat id now : db_statement (λ t, (update_server id (λ r, r <| sStatus := "active" |> <| last_heartbeat := now |>) t).2)
| st_shutdown id : db_statement (λ t, (update_server id (λ r, r <| sStatus := "shutdown" |>) t).2)
| st_remove id : db_statement (delete_server id)
| st_ensure z r : db_statement (λ t, match zones t !! z with
                                     | Some _ => t
                                     | None => t <| zones ::= <[z := mkZRow r None "unowned"]> |>
                                     end)
| st_claim z s : db_statement (λ t, (update_claim z s t).2)
| st_release z s : db_statement (λ t, (update_release z s t).2).

Lemma status_named n : named_status n → ServerStatus_String n ∈ server_statuses.
Proof.
  intros Hn. assert (n = 0 ∨ n = 1 ∨ n = 2 ∨ n = 3) as [->|[->|[->| ->]]] by (unfold named_status in Hn; lia);
    unfold server_statuses; cbn; set_solver.
Qed.

Lemma typed_set_server t id row :
  sStatus row ∈ server_statuses → typed t → typed (t <| game_servers ::= <[id := row]> |>).
Proof.
  intros Hr [H1 H2 H3]. split; cbn.
  - intros s r [[<- <-]|[_ Hs]]%lookup_insert_Some; [done|by eapply H1].
  - done.
  - intros z r s Hz Hs. destruct (H3 z r s Hz Hs) as [? H]. split; [done|]. apply lookup_insert_is_Some'. by right.
Qed.

Lemma typed_set_zone t z row :
  zstatus row ∈ zone_statuses → (∀ s, server_id row = Some s → zstatus row = "active" ∧ is_Some (game_servers t !! s)) →
  typed t → typed (t <| zones ::= <[z := row]> |>).
Proof.
  intros Hr Ho [H1 H2 H3]. split; cbn; [done| |].
  - intros z' r [[<- <-]|[_ Hz]]%lookup_insert_Some; [done|by eapply H2].
  - intros z' r s [[<- <-]|[_ Hz]]%lookup_insert_Some; [apply Ho|by eapply H3].
Qed.

Lemma typed_update_server t id f :
  (∀ r, sStatus r ∈ server_statuses → sStatus (f r) ∈ server_statuses) → typed t → typed (update_server id f t).2.
Proof.
  intros Hf Ht. unfold update_server. destruct (game_servers t !! id) as [row|] eqn:E; [|done].
  apply typed_set_server; [|done]. by eapply Hf, (ty_server t Ht).
Qed.

Lemma statement_typed f t : db_statement f → typed t → typed (f t).
Proof.
  intros Hf Ht. destruct Hf as [info now Hn|id now|id|id|z r|z s|z s].
  - apply typed_set_server; [|done]. destruct (game_servers t !! NodeID info) as [old|] eqn:E.
    + change (sStatus old ∈ server_statuses). by eapply (ty_server t Ht).
    + by apply status_named.
  - apply typed_update_server; [|done]. intros r _. unfold server_statuses. cbn. set_solver.
  - apply typed_update_server; [|done]. intros r _. unfold server_statuses. cbn. set_solver.
  - destruct Ht as [H1 H2 H3]. unfold delete_server. split; cbn.
    + intros s row [_ Hs]%lookup_delete_Some. by eapply H1.
    + intros z row. rewrite lookup_fmap. intros (r & Hr & ->)%fmap_Some. case_bool_decide; cbn; by eapply H2.
    + intros z row s. rewrite lookup_fmap. intros (r & Hr & ->)%fmap_Some. case_bool_decide as Hb; [done|]. intros Hs.
      destruct (H3 z r s Hr Hs) as [? ?]. split; [done|]. rewrite lookup_delete_ne; [done|congruence].
  - destruct (zones t !! z); [done|]. apply typed_set_zone; [|done|done]. unfold zone_statuses. cbn. set_solver.
  - unfold update_claim. destruct (zones t !! z) as [row|]; [|done]. destruct (server_id row); [done|].
    destruct (game_servers t !! s) as [sr|] eqn:E; [|done]. apply typed_set_zone; [|intros ? [= <-]; by rewrite E|done].
    unfold zone_statuses. cbn. set_solver.
  - unfold update_release. destruct (zones t !! z) as [row|]; [|done]. case_bool_decide; [|done].
    apply typed_set_zone; [|done|done]. unfold zone_statuses. cbn. set_solver.
Qed.

(** ** Everything a room service does *)

(** What the other processes do between two statements. *)
Definition others (h : tables → tables) : Prop :=
  ∃ fs, Forall db_statement fs ∧ ∀ t, h t = foldl (λ t f, f t) t fs.

Definition shared w : Prop :=
  typed (tbl w) ∧ Forall (λ e, match e with Env h => others h | _ => True end) (schedule w).

Lemma others_typed h t : others h → typed t → typed (h t).
Proof.
  intros (fs & Hfs & ->) Ht. apply (foldl_invariant _ typed); [done|]. intros t' f Hf. apply statement_typed.
  rewrite Forall_forall in Hfs. auto.
Qed.

Lemma shared_stmt {A} (f : tables → result error A * tables) w :
  (∀ t, typed t → typed (f t).2) → shared w → shared (stmt f w).2.
Proof.
  intros Hf [Ht He]. unfold stmt. destruct (schedule w) as [|e s].
  - specialize (Hf _ Ht). destruct (f (tbl w)). by split.
  - apply Forall_cons in He as [Hh He]. destruct e as [| |h]; [|by split|].
    + specialize (Hf _ Ht). destruct (f (tbl w)). by split.
    + specialize (Hf _ (others_typed h _ Hh Ht)). destruct (f (h (tbl w))). by split.
Qed.

Lemma shared_query {A} (f : tables → A) w : shared w → shared (query f w).2.
Proof. by apply shared_stmt. Qed.

(** The second component of an operation, from a lemma about it. *)
Ltac run_op H :=
  match type of H with
  | shared (?op).2 => let r := fresh "r" in let w := fresh "w" in destruct op as [r w]; cbn [snd] in H
  end.

Lemma shared_register info now w : named_status (nStatus info) → shared w → shared (repo_Register info now w).2.
Proof.
  intros Hn Hw. unfold repo_Register.
  pose proof (shared_stmt (λ t, (Ok tt, insert_server info now t)) w (λ t, statement_typed _ t (st_register info now Hn)) Hw) as H.
  run_op H. by destruct r.
Qed.

Lemma shared_heartbeat id load now w : shared w → shared (repo_Heartbeat id load now w).2.
Proof.
  intros Hw. unfold repo_Heartbeat. pose proof (shared_stmt _ w (λ t, statement_typed _ t (st_heartbeat id now)) Hw) as H.
  run_op H. by destruct r as [[|]|].
Qed.

Lemma shared_shutdown id w : shared w → shared (repo_MarkShutdown id w).2.
Proof.
  intros Hw. unfold repo_MarkShutdown. pose proof (shared_stmt _ w (λ t, statement_typed _ t (st_shutdown id)) Hw) as H.
  run_op H. by destruct r.
Qed.

Lemma shared_claim z rt s w : shared w → shared (repo_Claim z rt s w).2.
Proof.
  intros Hw. unfold repo_Claim. pose proof (shared_stmt _ w (λ t, statement_typed _ t (st_claim z s)) Hw) as H.
  run_op H. destruct r as [[|]|]; [|done|done]. pose proof (shared_query (select_owner z) w0 H) as H'. run_op H'.
  repeat case_match; by simplify_eq.
Qed.

Lemma shared_release z s w : shared w → shared (repo_Release z s w).2.
Proof.
  intros Hw. unfold repo_Release. pose proof (shared_stmt _ w (λ t, statement_typed _ t (st_release z s)) Hw) as H.
  run_op H. destruct r as [[|]|]; [|done|done]. pose proof (shared_query (select_owner z) w0 H) as H'. run_op H'.
  repeat case_match; by simplify_eq.
Qed.

Lemma shared_ensure z rt w : shared w → shared (repo_EnsureRow z rt w).2.
Proof.
  intros Hw. unfold repo_EnsureRow.
  match goal with |- context [stmt ?f w] => pose proof (shared_stmt f w (λ t, statement_typed _ t (st_ensure z rt)) Hw) as H end.
  run_op H. by destruct r.
Qed.

Lemma shared_remove id w : shared w → shared (repo_Remove id w).2.
Proof.
  intros Hw. unfold repo_Remove.
  pose proof (shared_stmt (λ t, (Ok tt, delete_server id t)) w (λ t, statement_typed _ t (st_remove id)) Hw) as H.
  run_op H. by destruct r.
Qed.

(** The reads. *)
Lemma shared_list w : shared w → shared (repo_List w).2.
Proof. intros Hw. unfold repo_List. pose proof (shared_query active_rows w Hw) as H. run_op H. by destruct r. Qed.
Lemma shared_get id now w : shared w → shared (repo_Get id now w).2.
Proof.
  intros Hw. unfold repo_Get. pose proof (shared_query (λ t, game_servers t !! id) w Hw) as H. run_op H. by destruct r as [[|]|].
Qed.
Lemma shared_lookup z w : shared w → shared (repo_Lookup z w).2.
Proof.
  intros Hw. unfold repo_Lookup. pose proof (shared_query (select_owner z) w Hw) as H. run_op H.
  destruct r as [[[o|]|]|]; try done. by case_bool_decide.
Qed.
Lemma shared_listdead since now w : shared w → shared (repo_ListDead since now w).2.
Proof. intros Hw. unfold repo_ListDead. pose proof (shared_query (dead_rows since now) w Hw) as H. run_op H. by destruct r. Qed.
Lemma shared_byserver s w : shared w → shared (repo_ListByServer s w).2.
Proof. intros Hw. unfold repo_ListByServer. pose proof (shared_query (zones_of s) w Hw) as H. run_op H. by destruct r. Qed.

(** The services. *)
Lemma shared_assign z w : shared w → shared (assign_zone z w).2.
Proof.
  intros Hw. unfold assign_zone. cbn [ss_List ServerRepository]. pose proof (shared_list w Hw) as H. run_op H.
  destruct r as [[|n ns]|]; try done. destruct (allocate _) as [server|]; [|done]. cbn [zs_Claim ZoneRepository].
  pose proof (shared_claim z "" (NodeID server) w0 H) as H'. run_op H'. by destruct r.
Qed.

Lemma shared_LookupZone z now w : shared w → shared (LookupZone z now w).2.
Proof.
  intros Hw. unfold LookupZone. cbn [zs_Lookup ZoneRepository]. pose proof (shared_lookup z w Hw) as H. run_op H.
  destruct r as [s|]; [|by apply shared_assign]. cbn [ss_Get ServerRepository]. pose proof (shared_get s now w0 H) as H'. run_op H'.
  destruct r; [done|by apply shared_assign].
Qed.

Lemma shared_reassign dead wf z : shared wf.1 → shared (reassign_zone dead wf z).1.
Proof.
  destruct wf as [w f]. intros Hw. unfold reassign_zone. cbn [zs_Release ZoneRepository]. pose proof (shared_release z dead w Hw) as H.
  run_op H. destruct r; [done|]. cbn [ss_List ServerRepository]. pose proof (shared_list w0 H) as H'. run_op H'.
  destruct r as [[|n ns]|]; try done. destruct (allocate _) as [server|]; [|done]. cbn [zs_Claim ZoneRepository].
  pose proof (shared_claim z "" (NodeID server) w1 H') as H''. run_op H''. by destruct r.
Qed.

Lemma shared_sweep cfg now wf :
  shared wf.1 → shared (production_sweep (Some ServerRepository_dead) (Some ZoneRepository_owner) cfg now wf).1.
Proof.
  intros Hw. unfold production_sweep. cbn [ListDead ServerRepository_dead].
  pose proof (shared_listdead (MissThreshold cfg) now wf.1 Hw) as H. run_op H. destruct r as [dead|]; [|done].
  apply (foldl_invariant _ (λ wf, shared wf.1)); [done|]. intros wf' d _ Hwf'. unfold sweep_server. cbn [MarkShutdown ServerRepository_dead].
  pose proof (shared_shutdown d wf'.1 Hwf') as H1. run_op H1. destruct r; [done|]. unfold reassignZonesFor. cbn [ListByServer ZoneRepository_owner fst].
  pose proof (shared_byserver d w0 H1) as H2. run_op H2. destruct r as [zs|]; [|done].
  apply (foldl_invariant _ (λ wf, shared wf.1)); [done|]. intros wf'' z _. apply shared_reassign.
Qed.

Lemma shared_step cfg wf te : shared wf.1 → shared (room_step cfg wf te).1.
Proof.
  intros Hw. destruct te as [now [id|id host port|z|]]; unfold room_step; cbn [fst snd].
  - unfold beat, svc_Heartbeat. cbn [ss_Heartbeat ServerRepository].
    match goal with |- context [repo_Heartbeat id ?l now wf.1] => pose proof (shared_heartbeat id l now wf.1 Hw) as H end.
    run_op H. by destruct r.
  - unfold Cluster.join, svc_Register. cbn [ss_Register ServerRepository].
    match goal with |- context [repo_Register ?i now wf.1] => pose proof (shared_register i now wf.1 ltac:(done) Hw) as H end.
    run_op H. by destruct r.
  - by apply shared_LookupZone.
  - by apply shared_sweep.
Qed.


(** The status alone does not tell whether a zone has an owner: removing a
    server clears the owner of its zones but not their status. *)
Theorem removed_owner_active (z : string) (s : ServerID) (t : tables) (row : ZoneRow) :
  typed t → zones t !! z = Some row → server_id row = Some s →
  ∃ row', zones (delete_server s t) !! z = Some row' ∧ server_id row' = None ∧ zstatus row' = "active".
Proof.
  intros Ht Hz Hs. destruct (ty_owner t Ht z row s Hz Hs) as [Ha _]. unfold delete_server. cbn.
  rewrite lookup_fmap, Hz. cbn. rewrite bool_decide_true by done. by eexists.
Qed.

Definition typed_tables : tables :=
  mkTables {["s1" := mkServerRow "10.0.0.1" 9000 "active" 10 1 1; "s2" := mkServerRow "10.0.0.2" 9000 "active" 10 1 (90 * Second)]}
    {["z1" := mkZRow "r" (Some "s1") "active"; "z2" := mkZRow "r" None "unowned"]}.

Lemma typed_tables_ok : typed typed_tables.
Proof.
  unfold typed_tables. split; cbn.
  - intros s row [[<- <-]|[_ Hs]]%lookup_insert_Some; [set_solver|]. apply lookup_singleton_Some in Hs as [<- <-]. set_solver.
  - intros z row [[<- <-]|[_ Hs]]%lookup_insert_Some; [set_solver|]. apply lookup_singleton_Some in Hs as [<- <-]. set_solver.
  - intros z row s [[<- <-]|[_ Hs]]%lookup_insert_Some.
    + intros [= <-]. split; [done|]. rewrite lookup_insert_eq. by eexists.
    + apply lookup_singleton_Some in Hs as [<- <-]. done.
Qed.
End schema.

