(* ===== verification/Leadership.v ===== *)
(** * The in-memory sweeper and the leadership gate

    [internal/room/sweeper.go] (the sweeper that works on the registry and
    the ownership table in memory, its [Run] loop) and
    [internal/room/leaderelection.go] (the [Lease] interface, [FakeLease],
    [LeadershipGate]). *)

From S2P Require Import Prelude GoFloat Types Room.
From stdpp Require Import base tactics list gmap strings.
From Stdlib Require Import ZArith Lia.

Local Open Scope Z_scope.

Section sweeper.
Context `{RO : RangeOrder}.
Abbreviation registry := (gmap ServerID NodeDescriptor).
Abbreviation ownership := (gmap string ServerID).
Abbreviation reassigner := (option (string → ServerID → ownership → ownership)).
Implicit Types (s : Sweeper) (r : registry).

(** ** One sweep *)

(** Descriptors are stored under their identifiers, as [Register] does. *)
Definition reg_keyed r : Prop := ∀ id d, r !! id = Some d → NodeID d = id.

(** A callback that claims a zone nobody owns, and touches nothing else. *)
Definition claims_free (f : string → ServerID → ownership → ownership) : Prop :=
  ∀ z t (o : ownership), o !! z = None → f z t o = <[z := t]> o.

Lemma LeastLoaded_member r n : LeastLoaded r = Some n → ∃ id, r !! id = Some n ∧ CanAccept n = true.
Proof.
  unfold LeastLoaded. destruct (Select _) as [m|] eqn:E; [|done]. intros [= ->].
  destruct (allocate_member _ _ (E : allocate (Allocator := LeastLoadedAllocator) _ = Ok n)) as [Hin Hc].
  apply list_elem_of_fmap in Hin as (m & [= ->] & Hm). unfold reg_List in Hm.
  apply list_elem_of_fmap in Hm as ([id d] & -> & Hd). exists id. by apply elem_of_range_list in Hd.
Qed.

Lemma LeastLoaded_none r id n : LeastLoaded r = None → r !! id = Some n → CanAccept n = false.
Proof.
  unfold LeastLoaded. destruct (Select _) as [m|e] eqn:E; [done|]. intros _ Hn.
  apply (allocate_fails _ _ (E : allocate (Allocator := LeastLoadedAllocator) _ = Err e)).
  apply list_elem_of_fmap. exists n. split; [done|]. unfold reg_List. apply list_elem_of_fmap. exists (id, n).
  by rewrite elem_of_range_list.
Qed.

Lemma CanAccept_active n : CanAccept n = true → nStatus n = ServerStatusActive.
Proof. unfold CanAccept. destruct (nStatus n =? ServerStatusActive) eqn:E; [by apply Z.eqb_eq in E|done]. Qed.

Lemma mark_lookup d r id :
  mark_shutdown d r !! id =
  if decide (id = d) then (λ n, n <| nStatus := ServerStatusShutdown |>) <$> (r !! d) else r !! id.
Proof.
  unfold mark_shutdown. case_decide as Hd; [subst|]; destruct (r !! d) as [n|] eqn:E; rewrite ?E; try done.
  - by rewrite lookup_insert_eq.
  - by rewrite lookup_insert_ne.
Qed.

Lemma elem_of_orphans d (o : ownership) z : z ∈ orphans_of d o ↔ o !! z = Some d.
Proof.
  unfold orphans_of. rewrite list_elem_of_bind. split.
  - intros ([z' owner] & Hz & Hin%elem_of_range_list). case_bool_decide; [|by apply not_elem_of_nil in Hz].
    apply list_elem_of_singleton in Hz. by subst.
  - intros Hz. exists (z, d). rewrite elem_of_range_list, bool_decide_true by done. split; [by apply list_elem_of_singleton|done].
Qed.

Lemma NoDup_orphans d (o : ownership) : NoDup (orphans_of d o).
Proof.
  unfold orphans_of. assert (NoDup (range_list o).*1) as Hn by apply NoDup_fst_range_list.
  induction (range_list o) as [|[z owner] l IH]; [constructor|]. cbn in Hn. apply NoDup_cons in Hn as [Hz Hn]. cbn.
  apply NoDup_app. split_and!; [case_bool_decide; [apply NoDup_singleton|constructor]| |by apply IH].
  intros z' Hz'. case_bool_decide; [|by apply not_elem_of_nil in Hz']. apply list_elem_of_singleton in Hz' as ->.
  intros ([z2 o2] & H2 & Hin)%list_elem_of_bind. case_bool_decide; [|by apply not_elem_of_nil in H2].
  apply list_elem_of_singleton in H2 as ->. apply Hz, list_elem_of_fmap. by exists (z2, o2).
Qed.

Lemma delete_orphans l (o : ownership) z :
  foldl (λ o z, delete z o) o l !! z = if decide (z ∈ l) then None else o !! z.
Proof.
  revert o. induction l as [|z' l IH]; intros o; cbn; [done|]. rewrite IH.
  destruct (decide (z ∈ l)), (decide (z ∈ z' :: l)); try set_solver.
  - assert (z = z') as -> by set_solver. apply lookup_delete_eq.
  - rewrite lookup_delete_ne; [done|set_solver].
Qed.

(** The zones of a dead server, each to a server that accepts zones. *)
Lemma reassign_loop f l s :
  claims_free f → NoDup l → (∀ z, z ∈ l → zo s !! z = None) →
  let s' := foldl (reassign_one (Some f)) s l in
  reg s' = reg s ∧ (∀ z, z ∉ l → zo s' !! z = zo s !! z) ∧
  (∀ z, z ∈ l → match zo s' !! z with
                | Some t => ∃ id n, reg s !! id = Some n ∧ NodeID n = t ∧ CanAccept n = true
                | None => ∀ id n, reg s !! id = Some n → CanAccept n = false
                end).
Proof.
  intros Hf. revert s. induction l as [|z l IH]; intros s Hnd Hfree; cbv zeta; cbn [foldl]; [by split_and!; [..|set_solver]|].
  apply NoDup_cons in Hnd as [Hz Hnd]. set (s1 := reassign_one (Some f) s z).
  assert (reg s1 = reg s ∧ (∀ z', z' ≠ z → zo s1 !! z' = zo s !! z') ∧
    match zo s1 !! z with
    | Some t => ∃ id n, reg s !! id = Some n ∧ NodeID n = t ∧ CanAccept n = true
    | None => ∀ id n, reg s !! id = Some n → CanAccept n = false
    end) as (Hr & Hne & Hsz).
  { unfold s1, reassign_one. destruct (LeastLoaded (reg s)) as [n|] eqn:El.
    - destruct (LeastLoaded_member _ _ El) as (id & Hid & Hc). cbn. rewrite Hf by (apply Hfree; left). split; [done|].
      split; [intros z' Hz'; by rewrite lookup_insert_ne|]. rewrite lookup_insert_eq. by exists id, n.
    - split_and!; [done|done|]. rewrite Hfree by left. intros id n. by apply LeastLoaded_none. }
  destruct (IH s1) as (Hr' & Hne' & Hsz'); [done|intros z' Hz'; rewrite Hne by set_solver; by apply Hfree; right|].
  split_and!; [congruence| |].
  - intros z' [Hz1 Hz2]%not_elem_of_cons. by rewrite Hne', Hne.
  - intros z' [->|Hz']%elem_of_cons; [by rewrite Hne'|]. specialize (Hsz' z' Hz'). by rewrite Hr in Hsz'.
Qed.

Definition shut (n : NodeDescriptor) : NodeDescriptor := n <| nStatus := ServerStatusShutdown |>.

(** After the servers of [l], out of those of [dead], have been swept. *)
Record swept (s : Sweeper) (dead l : list ServerID) (s' : Sweeper) : Prop := {
  sw_reg : ∀ id, reg s' !! id = (if decide (id ∈ l) then shut <$> (reg s !! id) else reg s !! id);
  sw_gone : ∀ z o, zo s' !! z = Some o → o ∉ l;
  sw_keep : ∀ z o, zo s !! z = Some o → o ∉ dead → zo s' !! z = Some o;
  sw_none : ∀ z, zo s !! z = None → zo s' !! z = None;
  sw_some : (∃ id n, reg s !! id = Some n ∧ (id ∉ dead) ∧ CanAccept n = true) → ∀ z, is_Some (zo s !! z) → is_Some (zo s' !! z)
}.

Lemma swept_step f s dead l s1 d :
  claims_free f → reg_keyed (reg s) → d ∈ dead → d ∉ l → l ⊆ dead → swept s dead l s1 →
  swept s dead (l ++ [d]) (reassignZonesOf (Some f) d (mkSweeper (mark_shutdown d (reg s1)) (zo s1) (reassigned s1))).
Proof.
  intros Hf Hk Hd Hdl Hsub [H1 H2 H3 H4 H5]. unfold reassignZonesOf. cbn [zo reg reassigned].
  set (orph := orphans_of d (zo s1)). set (s2 := mkSweeper _ (foldl _ (zo s1) orph) _).
  destruct (reassign_loop f orph s2 Hf (NoDup_orphans d (zo s1))) as (Hr & Hkeep & Hnew).
  { intros z Hz. unfold s2. cbn. rewrite delete_orphans. by rewrite decide_True. }
  assert (∀ id, reg s2 !! id = (if decide (id ∈ l ++ [d]) then shut <$> (reg s !! id) else reg s !! id)) as Hreg.
  { intros id. unfold s2. cbn. rewrite mark_lookup, !H1. destruct (decide (d ∈ l)); [done|].
    destruct (decide (id = d)) as [->|Hne]; [by rewrite decide_True by set_solver|].
    destruct (decide (id ∈ l)), (decide (id ∈ l ++ [d])); set_solver. }
  assert (∀ z, z ∉ orph → zo s2 !! z = zo s1 !! z) as Hz2.
  { intros z Hz. unfold s2. cbn. by rewrite delete_orphans, decide_False. }
  assert (∀ z, z ∈ orph ↔ zo s1 !! z = Some d) as Horph by (intros z; apply elem_of_orphans).
  split.
  - intros id. by rewrite Hr, Hreg.
  - intros z o Ho. destruct (decide (z ∈ orph)) as [Hz|Hz].
    + specialize (Hnew z Hz). rewrite Ho in Hnew. destruct Hnew as (id & n & Hn & <- & Hc). apply CanAccept_active in Hc.
      rewrite Hreg in Hn. destruct (decide (id ∈ l ++ [d])) as [|Hid]; [|by rewrite (Hk id n Hn)].
      apply fmap_Some in Hn as (n0 & _ & ->). done.
    + rewrite Hkeep, Hz2 in Ho by done. pose proof (H2 z o Ho). rewrite Horph in Hz. set_solver.
  - intros z o Ho Hod. pose proof (H3 z o Ho Hod) as Hs1. assert (z ∉ orph) by (rewrite Horph; set_solver). by rewrite Hkeep, Hz2.
  - intros z Hz. pose proof (H4 z Hz) as Hs1. assert (z ∉ orph) by (rewrite Horph; congruence). by rewrite Hkeep, Hz2.
  - intros Hlive z Hz. pose proof (H5 Hlive z Hz) as Hs1. destruct (decide (z ∈ orph)) as [Hin|Hin]; [|by rewrite Hkeep, Hz2].
    specialize (Hnew z Hin). destruct (zo _ !! z) eqn:E; [by eexists|]. exfalso. destruct Hlive as (id & n & Hn & Hid & Hc).
    specialize (Hnew id n). rewrite Hreg, decide_False, Hn in Hnew by set_solver. by rewrite Hnew in Hc.
Qed.

Lemma swept_loop f s dead l rest s1 :
  claims_free f → reg_keyed (reg s) → NoDup (l ++ rest) → l ++ rest ⊆ dead → swept s dead l s1 →
  swept s dead (l ++ rest)
    (foldl (λ s id, reassignZonesOf (Some f) id (mkSweeper (mark_shutdown id (reg s)) (zo s) (reassigned s))) s1 rest).
Proof.
  intros Hf Hk. revert l s1. induction rest as [|d rest IH]; intros l s1 Hnd Hsub Hs; cbn [foldl]; [by rewrite app_nil_r|].
  replace (l ++ d :: rest) with ((l ++ [d]) ++ rest) in * by by rewrite <-app_assoc.
  apply IH; [done|done|]. apply swept_step; [done|done|set_solver| |set_solver|done].
  apply NoDup_app in Hnd as (Hnd & _ & _). apply NoDup_app in Hnd as (_ & Hd & _). intros Hin. by destruct (Hd d Hin ltac:(left)).
Qed.

Lemma elem_of_dead cfg now r id : id ∈ dead_servers cfg now r ↔ ∃ n, r !! id = Some n ∧ missed cfg now n = true.
Proof.
  unfold dead_servers. rewrite list_elem_of_bind. split.
  - intros ([id' n] & Hid & Hin%elem_of_range_list). destruct (missed cfg now n) eqn:E; [|by apply not_elem_of_nil in Hid].
    apply list_elem_of_singleton in Hid. subst. by exists n.
  - intros (n & Hn & Hm). exists (id, n). rewrite elem_of_range_list, Hm. split; [by apply list_elem_of_singleton|done].
Qed.

Lemma NoDup_dead cfg now r : NoDup (dead_servers cfg now r).
Proof.
  unfold dead_servers. assert (NoDup (range_list r).*1) as Hn by apply NoDup_fst_range_list.
  induction (range_list r) as [|[id n] l IH]; [constructor|]. cbn in Hn. apply NoDup_cons in Hn as [Hid Hn]. cbn.
  apply NoDup_app. split_and!; [case_match; [apply NoDup_singleton|constructor]| |by apply IH].
  intros i Hi. destruct (missed cfg now n); [|by apply not_elem_of_nil in Hi]. apply list_elem_of_singleton in Hi as ->.
  intros ([i2 n2] & H2 & Hin)%list_elem_of_bind. destruct (missed cfg now n2); [|by apply not_elem_of_nil in H2].
  apply list_elem_of_singleton in H2 as ->. apply Hid, list_elem_of_fmap. by exists (i2, n2).
Qed.

Lemma sweep_swept cfg f now s :
  claims_free f → reg_keyed (reg s) →
  swept s (dead_servers cfg now (reg s)) (dead_servers cfg now (reg s)) (sweep cfg (Some f) now s).
Proof.
  intros Hf Hk. unfold sweep. apply (swept_loop f s _ []); [done|done|apply NoDup_dead|done|].
  split; [done|set_solver|done|done|done].
Qed.

(** ** [Run] *)

Definition NewServerRegistry : registry := ∅.
Definition NewZoneOwnership : ownership := ∅.
Definition NewSweeper (r : registry) (o : ownership) : Sweeper := mkSweeper r o [].

(** What reaches the shared tables while the sweeper runs: a tick of its
    ticker, the end of its context, and the calls of the room service. *)
Inductive sweeper_event :=
| SwTick (now : Time)
| SwCancel
| SwRegister (info : NodeDescriptor) (now : Time)
| SwHeartbeat (id : ServerID) (now : Time)
| SwRemove (id : ServerID)
| SwClaim (z : string) (id : ServerID)
| SwRelease (z : string) (id : ServerID).

(** The sweeper, and whether its loop is running. *)
Definition sweeper_step (cfg : SweeperConfig) (reassign : reassigner) (sr : Sweeper * bool) (ev : sweeper_event) : Sweeper * bool :=
  let '(s, running) := sr in
  match ev with
  | SwTick now => if running : bool then (sweep cfg reassign now s, true) else (s, false)
  | SwCancel => (s, false)
  | SwRegister info now =>
      (match Register info now (reg s) with Ok r => mkSweeper r (zo s) (reassigned s) | Err _ => s end, running)
  | SwHeartbeat id now =>
      (match Heartbeat id now (reg s) with Ok r => mkSweeper r (zo s) (reassigned s) | Err _ => s end, running)
  | SwRemove id => (mkSweeper (reg_Remove id (reg s)) (zo s) (reassigned s), running)
  | SwClaim z id =>
      (match own_Claim z id (zo s) with Ok o => mkSweeper (reg s) o (reassigned s) | Err _ => s end, running)
  | SwRelease z id =>
      (match own_Release z id (zo s) with Ok o => mkSweeper (reg s) o (reassigned s) | Err _ => s end, running)
  end.

Definition Sweeper_Run (cfg : SweeperConfig) (reassign : reassigner) (s : Sweeper) (evs : list sweeper_event) : Sweeper :=
  (foldl (sweeper_step cfg reassign) (s, true) evs).1.

Lemma step_keyed cfg f sr ev :
  claims_free f → reg_keyed (reg sr.1) → reg_keyed (reg (sweeper_step cfg (Some f) sr ev).1).
Proof.
  intros Hf. destruct sr as [s running]. intros Hk. destruct ev as [now| |info now|id now|id|z id|z id]; cbn [sweeper_step fst].
  - destruct running; [|done]. cbn. intros id d. rewrite (sw_reg _ _ _ _ (sweep_swept cfg f now s Hf Hk)).
    case_decide; [|by apply Hk]. intros (n & Hn & ->)%fmap_Some. exact (Hk id n Hn).
  - done.
  - unfold Register. destruct (reg s !! NodeID info); [done|]. cbn. intros id d.
    rewrite lookup_insert_Some. intros [[<- <-]|[_ ?]]; [by case_match|by apply Hk].
  - unfold Heartbeat. destruct (reg s !! id) as [n|] eqn:E; [|done]. cbn. intros i d.
    rewrite lookup_insert_Some. intros [[<- <-]|[_ ?]]; [exact (Hk id n E)|by apply Hk].
  - unfold reg_Remove. cbn. intros i d [_ Hi]%lookup_delete_Some. by apply Hk.
  - by destruct (own_Claim z id (zo s)).
  - by destruct (own_Release z id (zo s)).
Qed.

End sweeper.

(** ** Leadership *)

(** The interface, over the state of the lease. *)
Class Lease (L : Type) := {
  Acquire : L → bool * L;
  Renew : L → bool;
  lease_release : L → L;
  IsHeld : L → bool;
  lease_run : Duration → L → L
}.

(** What a gate relies on. *)
Class LeaseLaws (L : Type) `{Lease L} : Prop := {
  acquire_held : ∀ l, IsHeld (Acquire l).2 = (Acquire l).1;
  release_held : ∀ l, IsHeld (lease_release l) = false
}.

(** [FakeLease], the one implementation: the atomic flag. *)
#[export] Instance FakeLease : Lease bool := {|
  Acquire l := lease_Acquire l; Renew := lease_Renew; lease_release := lease_Release; IsHeld l := l; lease_run _ l := l
|}.
#[export] Instance FakeLease_laws : LeaseLaws bool.
Proof. by split. Qed.

Section gate.
Context {L : Type} `{LL : !Lease L} `{!LeaseLaws L}.

(** A gate refers to a lease by name, or to none: leases are shared. *)
Record LeadershipGate := mkGate { lease : option nat }.

Definition NewLeadershipGate (l : option nat) : LeadershipGate := mkGate l.
Definition SetLease (l : option nat) (g : LeadershipGate) : LeadershipGate := mkGate l.

Definition gate_IsLeader (leases : gmap nat L) (g : LeadershipGate) : bool :=
  match lease g with
  | None => false
  | Some k => match leases !! k with Some l => IsHeld l | None => false end
  end.

(** A replica with its gate: [DoIfLeader] checks, and then, outside of the
    lock, runs the function, here an entry in the log. *)
Inductive replica_pc := RIdle | RChecked.

Record replicas := mkReplicas {
  leases : gmap nat L;
  gates : gmap nat (LeadershipGate * replica_pc);
  runs : list nat
}.

Inductive lead_event :=
| LAcquire (k : nat) | LRelease (k : nat)
| LSetLease (i : nat) (l : option nat)
| LCheck (i : nat)
| LRun (i : nat).

Definition lead_step (s : replicas) (ev : lead_event) : replicas :=
  match ev with
  | LAcquire k => mkReplicas (alter (λ l, (Acquire l).2) k (leases s)) (gates s) (runs s)
  | LRelease k => mkReplicas (alter lease_release k (leases s)) (gates s) (runs s)
  | LSetLease i l => mkReplicas (leases s) (alter (λ gp, (SetLease l gp.1, gp.2)) i (gates s)) (runs s)
  | LCheck i =>
      match gates s !! i with
      | Some (g, RIdle) => if gate_IsLeader (leases s) g then mkReplicas (leases s) (<[i := (g, RChecked)]> (gates s)) (runs s) else s
      | _ => s
      end
  | LRun i =>
      match gates s !! i with
      | Some (g, RChecked) => mkReplicas (leases s) (<[i := (g, RIdle)]> (gates s)) (runs s ++ [i])
      | _ => s
      end
  end.

(** A check that succeeded. *)
Definition led (s : replicas) (i : nat) : bool :=
  match gates s !! i with Some (g, RIdle) => gate_IsLeader (leases s) g | _ => false end.
Definition checked (s : replicas) (i : nat) : nat :=
  match gates s !! i with Some (_, RChecked) => 1 | _ => 0 end.
Definition runs_of (i : nat) (s : replicas) : nat := length (filter (λ j, j = i) (runs s)).

Fixpoint passed (i : nat) (s : replicas) (evs : list lead_event) : nat :=
  match evs with
  | [] => 0
  | ev :: evs => (match ev with LCheck j => if bool_decide (j = i) && led s i then 1 else 0 | _ => 0 end + passed i (lead_step s ev) evs)%nat
  end.

Lemma lead_step_count s ev i :
  (runs_of i (lead_step s ev) + checked (lead_step s ev) i =
   runs_of i s + checked s i + match ev with LCheck j => if bool_decide (j = i) && led s i then 1 else 0 | _ => 0 end)%nat.
Proof.
  unfold runs_of, checked, led. destruct ev as [k|k|j l|j|j]; cbn; [lia|lia| | |].
  - destruct (decide (j = i)) as [->|Hj]; [rewrite lookup_alter_eq|rewrite lookup_alter_ne by done; lia].
    destruct (gates s !! i) as [[g []]|]; cbn; lia.
  - destruct (gates s !! j) as [[g []]|] eqn:Ej; [destruct (gate_IsLeader (leases s) g) eqn:El| |]; cbn;
      case_bool_decide as Hj; subst; rewrite ?Ej, ?El; cbn; rewrite ?lookup_insert_eq, ?lookup_insert_ne by done;
      repeat case_match; simplify_eq; lia.
  - destruct (gates s !! j) as [[g []]|] eqn:Ej; [lia| |lia]. cbn. rewrite filter_app, length_app.
    destruct (decide (j = i)) as [->|Hj].
    + rewrite lookup_insert_eq, Ej. rewrite filter_cons_True by done. cbn. lia.
    + rewrite lookup_insert_ne by done. rewrite filter_cons_False by done. cbn. lia.
Qed.

(** The function of a replica runs once for each successful check, and so at
    most as often as its lease was held at a check; a replica whose gate has
    no lease never runs it. *)
Theorem leader_runs (s : replicas) (evs : list lead_event) (i : nat) :
  (runs_of i (foldl lead_step s evs) + checked (foldl lead_step s evs) i = runs_of i s + checked s i + passed i s evs)%nat.
Proof.
  revert s. induction evs as [|ev evs IH]; intros s; cbn [foldl passed]; [lia|]. rewrite IH, lead_step_count. lia.
Qed.

Lemma lead_check s i g :
  gates s !! i = Some (g, RIdle) → gate_IsLeader (leases s) g = true →
  lead_step s (LCheck i) = mkReplicas (leases s) (<[i := (g, RChecked)]> (gates s)) (runs s).
Proof. intros Hi Hg. cbn. by rewrite Hi, Hg. Qed.

(** The gate is not a fence: two replicas that share one lease can both be
    past the check, when the lease changed hands in between; so both run. *)
Theorem gate_is_no_fence (l1 l2 : L) :
  IsHeld l1 = true → (Acquire l2).1 = true →
  let s := foldl lead_step (mkReplicas {[0%nat := l1; 1%nat := l2]}
             {[0%nat := (NewLeadershipGate (Some 0%nat), RIdle); 1%nat := (NewLeadershipGate (Some 1%nat), RIdle)]} [])
             [LCheck 0; LRelease 0; LAcquire 1; LCheck 1] in
  checked s 0 = 1%nat ∧ checked s 1 = 1%nat ∧ (IsHeld <$> leases s !! 0%nat) = Some false.
Proof.
  intros H1 H2. pose proof (acquire_held l2) as Ha. rewrite H2 in Ha.
  cbv zeta. cbn [foldl].
  rewrite (lead_check _ 0%nat (NewLeadershipGate (Some 0%nat))); [|reflexivity|exact H1].
  rewrite (lead_check _ 1%nat (NewLeadershipGate (Some 1%nat))); [|reflexivity|exact Ha].
  split_and!; [reflexivity|reflexivity|]. exact (f_equal Some (release_held l1)).
Qed.
End gate.

(** ** Concrete executions *)

Section leadership_witnesses.
Local Existing Instance canonical_order.

Definition claim_callback (z : string) (t : ServerID) (o : gmap string ServerID) : gmap string ServerID :=
  match own_Claim z t o with Ok o' => o' | Err _ => o end.

Lemma claim_callback_free : claims_free claim_callback.
Proof. intros z t o Ho. unfold claim_callback, own_Claim. by rewrite Ho. Qed.

Definition memory_node (id : ServerID) (beat : Time) : NodeDescriptor := sample_node id 1 0 10 <| LastHeartbeat := beat |>.
Definition memory_start : Sweeper :=
  mkSweeper {["a" := memory_node "a" 0; "b" := memory_node "b" 0]} {["z1" := "a"; "z2" := "b"]} [].

Lemma memory_start_keyed : reg_keyed (reg memory_start).
Proof.
  intros id d. cbn [reg memory_start]. intros [[<- <-]|[_ Hd]]%lookup_insert_Some; [done|]. by apply lookup_singleton_Some in Hd as [<- <-].
Qed.


Lemma gate_is_no_fence_witness :
  let s := foldl lead_step (mkReplicas {[0%nat := true; 1%nat := false]}
             {[0%nat := (NewLeadershipGate (Some 0%nat), RIdle); 1%nat := (NewLeadershipGate (Some 1%nat), RIdle)]} [])
             [LCheck 0; LRelease 0; LAcquire 1; LCheck 1] in
  checked s 0 = 1%nat ∧ checked s 1 = 1%nat.
Proof. destruct (gate_is_no_fence (LL := FakeLease) true false eq_refl eq_refl) as (H0 & H1 & _). exact (conj H0 H1). Defined.
End leadership_witnesses.
