(* ===== verification/Reports.v ===== *)
(** * Reports and the build of the services under test

    The rest of the validation framework: the evidence of a report in order
    of time ([internal/validation/report.go]), the JSON reporter
    ([reporter.go]), the search for the module root and the build of a
    service ([harness/builders.go]), and the test database
    ([internal/storage/testdb.go]). *)

From S2P Require Import Prelude GoFloat Types Validation.
From stdpp Require Import base tactics list gmap strings sorting pretty.
From Equations Require Import Equations.
From Stdlib Require Import ZArith Lia.

Local Open Scope Z_scope.

(** ** Evidence in order *)

(** [sort.Slice] with a strict weak order: some permutation in which no later
    element is less than an earlier one; equal elements may change places. *)
Class SortSlice := {
  sort_slice : ∀ {A : Type}, (A → A → bool) → list A → list A;
  sort_perm : ∀ {A : Type} (less : A → A → bool) (l : list A), sort_slice less l ≡ₚ l;
  sort_sorted : ∀ {A : Type} (less : A → A → bool) (l : list A),
    (∀ x y, less x y = true → less y x = false) → (∀ x y z, less x y = false → less y z = false → less x z = false) →
    StronglySorted (λ x y, less y x = false) (sort_slice less l)
}.

Definition time_before (a b : Time) : bool := a <? b.

Section evidence.
Context `{SO : SortSlice}.

Definition CombinedEvidence (r : ValidationReport) : list Evidence :=
  sort_slice (λ a b, time_before (evTimestamp a) (evTimestamp b)) (rpBaseline r ++ rpPostRecovery r).

(** The combined evidence is that of the two phases, in order of time; when
    the recovery was observed after the baseline, all of the baseline comes
    first. *)
Theorem combined_evidence (r : ValidationReport) :
  CombinedEvidence r ≡ₚ rpBaseline r ++ rpPostRecovery r ∧
  StronglySorted (λ a b, evTimestamp a ≤ evTimestamp b) (CombinedEvidence r) ∧
  ∀ b p i j, b ∈ rpBaseline r → (∀ p, p ∈ rpPostRecovery r → evTimestamp b < evTimestamp p) →
    p ∈ rpPostRecovery r → CombinedEvidence r !! i = Some b → CombinedEvidence r !! j = Some p → (i < j)%nat.
Proof.
  assert (StronglySorted (λ a b, evTimestamp a ≤ evTimestamp b) (CombinedEvidence r)) as Hs.
  { assert (StronglySorted (λ x y, time_before (evTimestamp y) (evTimestamp x) = false) (CombinedEvidence r)) as H.
    { apply sort_sorted; unfold time_before; [intros x y; rewrite Z.ltb_lt, Z.ltb_ge; lia|intros x y z; rewrite !Z.ltb_ge; lia]. }
    induction H as [|x l _ IH Hx]; constructor; [done|]. eapply Forall_impl; [exact Hx|]. intros y. apply Z.ltb_ge. }
  split_and!; [apply sort_perm|done|]. intros b p i j Hb Hbp Hp Hi Hj. specialize (Hbp p Hp).
  destruct (decide (i < j)%nat) as [|Hij]; [done|]. exfalso. assert (evTimestamp p ≤ evTimestamp b); [|lia].
  destruct (decide (i = j)) as [->|Hne]; [rewrite Hi in Hj; injection Hj as ->; lia|].
  assert (j < i)%nat as Hlt by lia. clear Hij Hne. revert i j Hi Hj Hlt. clear - Hs.
  induction Hs as [|x l Hs IH Hx]; intros i j Hi Hj Hlt; [done|]. destruct i as [|i]; [lia|]. destruct j as [|j]; cbn in *.
  - injection Hj as ->. rewrite Forall_forall in Hx. by eapply Hx, list_elem_of_lookup_2.
  - by apply (IH i j); [..|lia].
Qed.
End evidence.

(** Insertion sort, which [sort.Slice] uses for short slices. *)
Fixpoint insert_sorted {A} (less : A → A → bool) (x : A) (l : list A) : list A :=
  match l with [] => [x] | y :: l' => if less x y then x :: l else y :: insert_sorted less x l' end.

Definition insertion_sort {A} (less : A → A → bool) (l : list A) : list A :=
  foldl (λ acc x, insert_sorted less x acc) [] l.

Lemma insert_sorted_perm {A} (less : A → A → bool) x l : insert_sorted less x l ≡ₚ x :: l.
Proof.
  induction l as [|y l IH]; cbn; [done|]. destruct (less x y); [done|]. rewrite IH. apply Permutation_swap.
Qed.

Lemma insert_sorted_sorted {A} (less : A → A → bool) x l :
  (∀ x y, less x y = true → less y x = false) → (∀ x y z, less x y = false → less y z = false → less x z = false) →
  StronglySorted (λ x y, less y x = false) l → StronglySorted (λ x y, less y x = false) (insert_sorted less x l).
Proof.
  intros Hasym Htr Hs. induction Hs as [|y l Hs IH Hy]; cbn; [by repeat constructor|].
  destruct (less x y) eqn:E.
  - constructor; [by constructor|]. pose proof (Hasym x y E) as Hyx. constructor; [done|].
    eapply Forall_impl; [exact Hy|]. cbn. intros z Hz. by eapply Htr.
  - constructor; [done|]. rewrite insert_sorted_perm. by constructor.
Qed.

#[local] Obligation Tactic := idtac.
#[export, program] Instance go_insertion : SortSlice := {| sort_slice A := insertion_sort |}.
Next Obligation.
  intros A less l. unfold insertion_sort. assert (∀ acc, foldl (λ acc x, insert_sorted less x acc) acc l ≡ₚ acc ++ l) as H; [|apply H].
  induction l as [|x l IH]; intros acc; cbn; [by rewrite app_nil_r|]. by rewrite IH, insert_sorted_perm, <-Permutation_middle.
Qed.
Next Obligation.
  intros A less l Hasym Htr. unfold insertion_sort. apply (foldl_invariant _ (StronglySorted (λ x y, less y x = false))); [constructor|].
  intros acc x _. by apply insert_sorted_sorted.
Qed.


(** ** The module root *)

(** A directory: the empty string, the path [.], or a rooted path with its
    elements innermost first. *)
Inductive dirpath := NoDir | CurDir | Rooted (elems : list string).
#[export] Instance dirpath_eq_dec : EqDecision dirpath.
Proof. solve_decision. Defined.

(** [filepath.Dir]. *)
Definition Dir (d : dirpath) : dirpath :=
  match d with
  | NoDir | CurDir => CurDir
  | Rooted [] => Rooted []
  | Rooted (_ :: up) => Rooted up
  end.

Definition depth (d : dirpath) : nat := match d with NoDir => 1 | CurDir => 0 | Rooted l => length l end.

Lemma Dir_depth d : Dir d ≠ d → (depth (Dir d) < depth d)%nat.
Proof. destruct d as [| |[|x l]]; cbn; [lia|done|done|lia]. Qed.

(** [stat d]: the file [go.mod] of the directory exists.  The loop goes to the
    parent until that is the directory itself. *)
Equations? moduleRoot (stat : dirpath → bool) (dir : dirpath) : dirpath by wf (depth dir) lt :=
  moduleRoot stat dir with stat dir => {
    | true => dir;
    | false with decide (Dir dir = dir) => {
        | left _ => NoDir;
        | right Hne => moduleRoot stat (Dir dir) } }.
Proof. by apply Dir_depth. Qed.

Lemma moduleRoot_eq stat dir :
  moduleRoot stat dir = if stat dir then dir else if decide (Dir dir = dir) then NoDir else moduleRoot stat (Dir dir).
Proof.
  funelim (moduleRoot stat dir); clear Heqcall;
    repeat match goal with H : stat _ = _ |- _ => rewrite H; clear H | H : decide _ = _ |- _ => rewrite H; clear H end; done.
Qed.

(** The directories from one up to the root. *)
Fixpoint upwards (l : list string) : list (list string) := match l with [] => [[]] | _ :: up => l :: upwards up end.

(** The search ends, and from a working directory it finds the closest
    directory on the way to the root that holds a [go.mod], or the empty
    string if there is none. *)
Theorem module_root_closest (stat : dirpath → bool) (l : list string) :
  moduleRoot stat (Rooted l) = match List.filter (λ d, stat (Rooted d)) (upwards l) with [] => NoDir | d :: _ => Rooted d end.
Proof.
  induction l as [|x l IH]; rewrite moduleRoot_eq; cbn.
  - by destruct (stat (Rooted [])).
  - destruct (stat (Rooted (x :: l))); [done|]. rewrite decide_False; [exact IH|].
    intros [= H]. apply (f_equal length) in H. cbn in H. lia.
Qed.

(** ** Building a service *)

(** [None]: a [require] fails.  [tmp]: the directory for temporary files;
    [build]: whether [go build -tags=validation] in the root succeeds. *)
Definition buildService (stat : dirpath → bool) (wd : dirpath) (tmp name : string) (now : Time) (build : dirpath → string → string → bool)
    : option string :=
  let root := moduleRoot stat wd in
  if bool_decide (root = NoDir) then None
  else
    let binPath := tmp +:+ "/spatial-" +:+ name +:+ "-" +:+ itoa now in
    if build root binPath ("./apps/" +:+ name +:+ "/") then Some binPath else None.

(** Two builds at different times never write the same file. *)
Theorem builds_disjoint (stat : dirpath → bool) (wd : dirpath) (tmp name : string) (now now' : Time)
    (build build' : dirpath → string → string → bool) (bin bin' : string) :
  buildService stat wd tmp name now build = Some bin → buildService stat wd tmp name now' build' = Some bin' →
  now ≠ now' → bin ≠ bin'.
Proof.
  unfold buildService. repeat case_match; try done. intros [= <-] [= <-] Hne Heq. apply Hne.
  apply (inj (String.app tmp)), (inj (String.app "/spatial-")), (inj (String.app name)), (inj (String.app "-")) in Heq.
  by apply (inj (pretty (A := Z))) in Heq.
Qed.

(** ** The JSON reporter *)

(** [json.Encoder.Encode] with an indentation of two spaces. *)
Class JsonReport := encode_report : ValidationReport → result string string.

(** The text of standard output and the files. *)
Record outputs := mkOutputs { out_stdout : string; out_files : gmap string string }.

(** [create]: the error of [os.Create], which truncates the file. *)
Definition JSONReporter_Generate `{JsonReport} (path : string) (create : option string) (r : ValidationReport) (o : outputs)
    : option string * outputs :=
  if bool_decide (path ≠ "") then
    match create with
    | Some e => (Some e, o)
    | None =>
        match encode_report r with
        | Ok text => (None, mkOutputs (out_stdout o) (<[path := text]> (out_files o)))
        | Err e => (Some e, mkOutputs (out_stdout o) (<[path := ""]> (out_files o)))
        end
    end
  else
    match encode_report r with
    | Ok text => (None, mkOutputs (out_stdout o +:+ text) (out_files o))
    | Err e => (Some e, o)
    end.

(** A report that was generated without an error is, whole and alone, in the
    file that was asked for, or at the end of standard output; no other file
    is touched in any case. *)
Theorem json_report_written `{JsonReport} (path : string) (create : option string) (r : ValidationReport) (o o' : outputs) (err : option string) :
  JSONReporter_Generate path create r o = (err, o') →
  (∀ f, f ≠ path → out_files o' !! f = out_files o !! f) ∧
  (err = None → ∃ text, encode_report r = Ok text ∧
     if bool_decide (path = "") then out_stdout o' = out_stdout o +:+ text ∧ out_files o' = out_files o
     else out_stdout o' = out_stdout o ∧ out_files o' !! path = Some text).
Proof.
  unfold JSONReporter_Generate. intros Hg. case_bool_decide as Hp.
  - destruct create as [e|]; [by injection Hg as <- <-|]. rewrite (bool_decide_false (path = "")) by done.
    destruct (encode_report r) as [text|e]; injection Hg as <- <-; (split; [intros f Hf; cbn; by rewrite lookup_insert_ne|]); [|done].
    intros _. exists text. cbn. by rewrite lookup_insert_eq.
  - assert (path = "") as -> by (destruct (decide (path = "")); [done|by destruct Hp]).
    destruct (encode_report r) as [text|e]; injection Hg as <- <-; (split; [done|]); [|done]. intros _. by exists text.
Qed.

(** ** The test database *)

Inductive test_db := TestSkipped | TestFailed | TestPool (truncated : bool).

(** [truncate]: whether the statement works (its error is ignored: before the
    first migration the tables do not exist). *)
Definition TestDB (dsn : string) (connect truncate migrate : bool) : test_db :=
  if bool_decide (dsn = "") then TestSkipped
  else if negb connect then TestFailed
  else if negb migrate then TestFailed
  else TestPool truncate.
