(* ===== verification/Platform.v ===== *)
(** * Logging, mutual TLS and tracing

    [internal/logging] (loggers and the context they travel in),
    [internal/mtls] (the TLS configurations of both ends) and
    [internal/observability/otel.go] (the start of tracing). *)

From S2P Require Import Prelude GoFloat Types.
From stdpp Require Import base tactics list gmap strings.
From Stdlib Require Import ZArith Lia.

Local Open Scope Z_scope.

(** ** Logging *)

Definition LevelDebug : Z := -4.
Definition LevelInfo : Z := 0.

(** A [slog.Logger]: its handler, the level below which it is silent, and its
    attributes. *)
Record Logger := mkLogger { json_handler : bool; level : Z; attrs : list (string * string) }.

Definition ServiceKey : string := "service".

Definition logger_New (service : string) (lvl : Z) (json : bool) : Logger := mkLogger json lvl [(ServiceKey, service)].

Definition NewDefault (getenv : string → string) (service : string) : Logger :=
  let lvl := if bool_decide (getenv "SPATIAL_DEBUG" = "1") then LevelDebug else LevelInfo in
  logger_New service lvl (bool_decide (getenv "SPATIAL_JSON" = "1")).

(** A context is a chain of values.  A key is equal to another only if they
    have the same type and value; a value may be a logger, a nil logger or
    something else. *)
Inductive ctx_value := VLogger (l : Logger) | VNilLogger | VOther.
Inductive context := Background | WithValue (key : string * string) (v : ctx_value) (parent : context).

Definition loggerKey : string * string := ("logging.ctxKey", "logger").

Fixpoint ctx_Value (k : string * string) (c : context) : option ctx_value :=
  match c with
  | Background => None
  | WithValue key v parent => if bool_decide (key = k) then Some v else ctx_Value k parent
  end.

Definition WithLogger (c : context) (l : Logger) : context := WithValue loggerKey (VLogger l) c.

(** [slog.Default] is a global. *)
Definition FromContext (default_ : Logger) (c : context) : Logger :=
  match ctx_Value loggerKey c with Some (VLogger l) => l | _ => default_ end.

(** Values put into a context after the logger. *)
Fixpoint with_values (kvs : list (string * string * ctx_value)) (c : context) : context :=
  match kvs with [] => c | (k, v) :: kvs => WithValue k v (with_values kvs c) end.

(** A logger travels: it is found under any values with other keys (also
    with the same text in another type) and until another logger is put on
    top; a context without a logger gives the default one. *)
Theorem logger_travels (default_ l l' : Logger) (c : context) (kvs kvs' : list (string * string * ctx_value)) :
  Forall (λ kv, kv.1 ≠ loggerKey) kvs → Forall (λ kv, kv.1 ≠ loggerKey) kvs' →
  FromContext default_ (with_values kvs (WithLogger c l)) = l ∧
  FromContext default_ (with_values kvs' (WithLogger (with_values kvs (WithLogger c l)) l')) = l' ∧
  FromContext default_ (with_values kvs Background) = default_.
Proof.
  assert (∀ kvs c, Forall (λ kv, kv.1 ≠ loggerKey) kvs → ctx_Value loggerKey (with_values kvs c) = ctx_Value loggerKey c) as H.
  { intros l0 c0 Hl. induction Hl as [|[k v] l0 Hk _ IH]; [done|]. cbn in *. by rewrite bool_decide_false. }
  intros H1 H2. unfold FromContext. rewrite !H by done. done.
Qed.

(** ** Mutual TLS *)

(** Files and X.509: the key pair of two files, the bytes of a file, the
    certificates of a PEM bundle ([None]: it has none), and whether a
    certificate verifies under a pool. *)
Class X509 := {
  Certificate : Type;
  CertPool : Type;
  load_pair : string → string → result error Certificate;
  read_ca : string → result error (list Byte.byte);
  pem_pool : list Byte.byte → option CertPool;
  verifies : CertPool → Certificate → bool
}.

Section mtls.
Context `{XC : X509}.

Inductive ClientAuthType := NoClientCert | RequireAndVerifyClientCert.
Definition VersionTLS13 : Z := 772.

Record tlsConfig := mkTls {
  Certificates : list Certificate;
  ClientAuth : ClientAuthType;
  ClientCAs : option CertPool;
  RootCAs : option CertPool;    (* nil: the roots of the host *)
  MinVersion : Z
}.

Definition loadPool (caPath : string) : result error CertPool :=
  match read_ca caPath with
  | Err e => Err (Wrapped "read CA" e)
  | Ok caPEM => match pem_pool caPEM with
                | None => Err (Other ("parse CA bundle " +:+ caPath))
                | Some p => Ok p
                end
  end.

Definition NewServerConfig (certPath keyPath caPath : string) : result error tlsConfig :=
  match load_pair certPath keyPath with
  | Err e => Err (Wrapped "load server keypair" e)
  | Ok cert => match loadPool caPath with
               | Err e => Err e
               | Ok p => Ok (mkTls [cert] RequireAndVerifyClientCert (Some p) None VersionTLS13)
               end
  end.

Definition NewClientConfig (certPath keyPath caPath : string) : result error tlsConfig :=
  match load_pair certPath keyPath with
  | Err e => Err (Wrapped "load client keypair" e)
  | Ok cert => match loadPool caPath with
               | Err e => Err e
               | Ok p => Ok (mkTls [cert] NoClientCert None (Some p) VersionTLS13)
               end
  end.

(** What [crypto/tls] makes of two configurations: a common version (a peer
    may go up to 1.3 and down to its minimum), the server's certificate under
    the client's roots, and the client's under the server's pool if that is
    asked for. *)
Definition handshake (host_roots : CertPool) (server client : tlsConfig) : bool :=
  (MinVersion server <=? VersionTLS13) && (MinVersion client <=? VersionTLS13) &&
  match Certificates server with
  | [] => false
  | cert :: _ => verifies (default host_roots (RootCAs client)) cert
  end &&
  match ClientAuth server with
  | NoClientCert => true
  | RequireAndVerifyClientCert =>
      match Certificates client, ClientCAs server with
      | cert :: _, Some p => verifies p cert
      | _, _ => false
      end
  end.

(** The authentication is mutual: two ends configured from one CA bundle
    connect exactly if each one's certificate verifies under that bundle,
    whatever the host trusts; a peer that presents no certificate is refused,
    and the protocol is never older than TLS 1.3.  A configuration exists
    only if the key pair and the bundle could be loaded. *)
Theorem mutual_tls (scert skey ccert ckey ca : string) (server client : tlsConfig) (roots : CertPool) :
  NewServerConfig scert skey ca = Ok server → NewClientConfig ccert ckey ca = Ok client →
  ∃ p sc cc, loadPool ca = Ok p ∧ load_pair scert skey = Ok sc ∧ load_pair ccert ckey = Ok cc ∧
    handshake roots server client = verifies p sc && verifies p cc ∧
    (∀ other, Certificates other = [] → handshake roots server other = false) ∧
    MinVersion server = VersionTLS13 ∧ MinVersion client = VersionTLS13.
Proof.
  unfold NewServerConfig, NewClientConfig. destruct (load_pair scert skey) as [sc|]; [|done].
  destruct (load_pair ccert ckey) as [cc|]; [|by destruct (loadPool ca)]. destruct (loadPool ca) as [p|]; [|done].
  intros [= <-] [= <-]. exists p, sc, cc. split_and!; try done. intros other Ho. unfold handshake. cbn. rewrite Ho.
  by rewrite !andb_false_r.
Qed.
End mtls.

(** ** Tracing *)

(** The answers of the three calls; the provider is a global. *)
Record tracer_calls := mkTracer { tr_dial : option string; tr_exporter : option string; tr_resource : option string }.
Record tracer_state := mkTracerState { provider : option (string * float64); collector_open : bool }.

Definition InitTracer (service collectorAddr : string) (ratio : float64) (c : tracer_calls) (s : tracer_state)
    : option error * tracer_state :=
  match tr_dial c with
  | Some e => (Some (Wrapped ("dial otel collector " +:+ collectorAddr) (Other e)), s)
  | None =>
      let s := mkTracerState (provider s) true in
      match tr_exporter c with
      | Some e => (Some (Wrapped "create otlp exporter" (Other e)), s)
      | None =>
          match tr_resource c with
          | Some e => (Some (Wrapped "create resource" (Other e)), s)
          | None => (None, mkTracerState (Some (service, ratio)) true)
          end
      end
  end.

(** The global provider changes exactly on success; a failure after the
    connection to the collector was made leaves that connection open. *)
Theorem tracer_start (service collectorAddr : string) (ratio : float64) (c : tracer_calls) (s s' : tracer_state) (err : option error) :
  InitTracer service collectorAddr ratio c s = (err, s') →
  (err = None → provider s' = Some (service, ratio)) ∧ (err ≠ None → provider s' = provider s) ∧
  (tr_dial c = None → collector_open s' = true).
Proof. unfold InitTracer. repeat case_match; intros [= <- <-]; done. Qed.
