(* ===== verification/Provenance.v ===== *)
(** * Where the positions that clients see come from

    The production path as one system: gateways with their relays
    ([internal/gateway/relay.go]), the streams between them and a game server
    ([apps/game-server/main.go]), the simulation, and the client that prints
    what it receives ([tools/client]).  Everything is interleaved in any
    order.

    The theorem follows every position of a player's avatar from the frames
    of that player to the lines that other clients print. *)

From S2P Require Import Prelude GoFloat Types Protocol Aoi Entity Game Boundary GameInv GameSpec GameView Migration.
From S2P Require Import Room Gateway GameServer GameProcess Relay Cluster Client.
From stdpp Require Import base tactics list gmap strings relations.
From Stdlib Require Import ZArith Lia.

Local Open Scope Z_scope.
#[local] Opaque cmdChannelBuffer maxPacketsPerTick InboxBufferSize.

Section game.
Context `{GM : GoMath} `{GZ : Gzip} `{GB : Gob} `{CD : Codecs} `{RO : RangeOrder}.
Implicit Types g : Game.

(** ** The simulation *)

(** Steps that neither move entities, nor publish events, nor receive. *)
Record tame g g' : Prop := {
  ta_heap : ∀ p e', eheap g' !! p = Some e' →
    ∃ e, eheap g !! p = Some e ∧ eID e' = eID e ∧ eLifecycle e' = eLifecycle e ∧ Position e' = Position e;
  ta_events : Events g' = Events g;
  ta_inbox : Inbox g' = Inbox g
}.

#[export] Instance tame_preorder : PreOrder tame.
Proof.
  split.
  - intros g. split; [|done|done]. by eauto.
  - intros g1 g2 g3 [H1 ? ?] [H2 ? ?]. split; [|congruence|congruence].
    intros p e3 (e2 & (e1 & ? & ? & ? & ?)%H1 & ? & ? & ?)%H2. exists e1. split_and!; congruence.
Qed.

(** The heap, the events and the inbox are not touched. *)
Lemma tame_same g g' : eheap g' = eheap g → Events g' = Events g → Inbox g' = Inbox g → tame g g'.
Proof. intros E1 E2 E3. split; [|done|done]. rewrite E1. by eauto. Qed.

Lemma tame_addEntity p g : tame g (addEntity p g).
Proof.
  unfold addEntity. destruct (eheap g !! p) as [e|] eqn:E; [|done].
  set (zid := if bool_decide _ then _ else _).
  assert (∀ sim h, ensure_sim zid g = (sim, h) → eheap h = eheap g ∧ Events h = Events g ∧ Inbox h = Inbox g) as Hs.
  { intros sim h. unfold ensure_sim. case_match; intros [= <- <-]; done. }
  destruct (ensure_sim zid g) as [sim h]. destruct (Hs sim h eq_refl) as (H1 & H2 & H3). unfold on_aoi.
  split; cbn; [|done|done]. rewrite H1. intros q e' [[<- <-]|[_ ?]]%lookup_insert_Some; [|by eauto].
  exists e. split; [done|]. by repeat case_match.
Qed.

Lemma tame_removeEntity id g : tame g (removeEntity id g).
Proof. unfold removeEntity, forget, on_aoi. repeat case_match; try done; by apply tame_same. Qed.

Lemma tame_applyCmds n g : tame g (applyCmds_loop n g).
Proof.
  revert g. induction n as [|n IH]; intros g; cbn; [done|]. destruct (cmds g) as [|c rest]; [done|].
  etrans; [|apply IH]. etrans; [by apply (tame_same g (g <| cmds := rest |>))|].
  destruct c; [apply tame_addEntity|apply tame_removeEntity].
Qed.

Lemma tame_foldl {A} (f : Game → A → Game) l g : (∀ h x, tame h (f h x)) → tame g (foldl f g l).
Proof. intros Hf. by apply (foldl_preorder tame). Qed.

Lemma tame_snapshotAllZones g : tame g (snapshotAllZones g).
Proof.
  unfold snapshotAllZones. case_match; [done|]. apply tame_foldl. intros h x. unfold snapshot_zone. case_match; [|done].
  by apply tame_same.
Qed.

Lemma tame_detect zid now g : tame g (detectZoneBoundaries zid now g).
Proof.
  unfold detectZoneBoundaries. case_match; [|done]. apply tame_foldl. intros h [id p]. unfold detect_one, on_aoi.
  repeat case_match; try done; by apply tame_same.
Qed.

Lemma tame_sweepGhosts now g : tame g (sweepGhosts now g).
Proof.
  apply tame_foldl. intros h [id gh]. unfold sweep_ghost, on_aoi. repeat case_match; try done; by apply tame_same.
Qed.

Lemma tame_SweepDisconnected now g : tame g (SweepDisconnected now g).
Proof.
  apply tame_foldl. intros h [id st]. unfold sweep_session, forget, on_aoi. repeat case_match; try done; by apply tame_same.
Qed.

Lemma tame_metric m g : tame g (count_metric m g).
Proof. by apply tame_same. Qed.

Lemma tame_reportGauges g : tame g (reportGauges g).
Proof.
  unfold reportGauges. cbv zeta. do 4 (etrans; [apply tame_metric|]). apply tame_foldl. intros h [typ n]. apply tame_metric.
Qed.

Lemma tame_AssignZone z g g' : AssignZone z g = Ok g' → tame g g'.
Proof. unfold AssignZone. case_match; [done|]. cbn. intros [= <-]. by apply tame_same. Qed.

Lemma tame_ReleaseZone id g g' : ReleaseZone id g = Ok g' → tame g g'.
Proof.
  unfold ReleaseZone. case_match; [|done]. cbv zeta. intros [= <-].
  etrans; [apply (tame_foldl (release_entity id)); intros h x; unfold release_entity, forget; case_match; by apply tame_same|].
  etrans; [apply (tame_foldl (release_ghost id)); intros h x; unfold release_ghost; case_match; by apply tame_same|].
  by apply tame_same.
Qed.

Lemma tame_enqueue t c label g g' : enqueueCmd t c label g = Some g' → tame g g'.
Proof. unfold enqueueCmd, count_metric. repeat case_match; intros [= <-]; by apply tame_same. Qed.

Lemma tame_boundary g : (∀ z id ty pos now, tame g (ApplyEntityEnter z id ty pos now g)) ∧
  (∀ z id, tame g (ApplyEntityLeave z id g)) ∧ (∀ z id pos now, tame g (ApplyEntityUpdate z id pos now g)).
Proof.
  unfold ApplyEntityEnter, ApplyEntityLeave, ApplyEntityUpdate, on_store, on_aoi.
  split_and!; intros; repeat case_match; try done; by apply tame_same.
Qed.

Lemma tame_ensure_index snap g : tame g (ensure_index snap g).
Proof. unfold ensure_index. case_match; [done|]. by apply tame_same. Qed.

(** *** What is known of the positions of [X] *)

Context (X : EntityID).

(** A packet of [X] that sets a position sets a good one. *)
Definition good_data (ok : Vector3 → Prop) (d : bytes) : Prop :=
  ∀ v payload fl seq u, Decode d = (v, PacketIDPositionUpdate, payload, fl, seq, None) →
    unmarshal_update payload = Some u → ok (default zero_vec (uPosition u)).

Definition good_event (ok : Vector3 → Prop) (ev : Event) : Prop :=
  evEntityID ev = X → evKind ev = EventMove ∨ evKind ev = EventSpawn → ok (evPosition ev).

Record good (ok : Vector3 → Prop) g : Prop := {
  gd_heap : ∀ p e, eheap g !! p = Some e → eID e = X → eLifecycle e = None ∧ ok (Position e);
  gd_events : ∀ ev, ev ∈ Events g → good_event ok ev;
  gd_inbox : ∀ pkt, pkt ∈ Inbox g → ClientID pkt = X → good_data ok (Data pkt)
}.

Section steps.
Context (ok : Vector3 → Prop).

Lemma good_tame g g' : tame g g' → good ok g → good ok g'.
Proof.
  intros [T1 T2 T3] [H1 H2 H3]. split; [|by rewrite T2|by rewrite T3].
  intros p e' (e & He & Hid & Hl & Hp)%T1 HX. rewrite Hl, Hp. eapply H1; [done|congruence].
Qed.

Lemma good_publish ev g : good_event ok ev → good ok g → good ok (publish ev g).
Proof.
  intros He [H1 H2 H3]. unfold publish, count_metric. case_match; [|by split]. split; [done| |done].
  cbn. intros ev' [Hev|Hev%list_elem_of_singleton]%elem_of_app; [auto|by subst].
Qed.

Lemma good_publish_all evs g : Forall (good_event ok) evs → good ok g → good ok (publish_all evs g).
Proof.
  intros Hevs Hg. unfold publish_all. apply (foldl_invariant _ (good ok)); [done|]. intros h ev Hev Hh. apply good_publish; [|done].
  rewrite Forall_forall in Hevs. auto.
Qed.

Lemma good_enqueueMove id pos g : (id = X → ok pos) → good ok g → good ok (enqueueMove id pos g).
Proof.
  intros Hid Hg. unfold enqueueMove. repeat case_match; try done; (apply good_publish_all; [|done]);
  apply Forall_forall; intros ev (o & Hev & _)%list_elem_of_bind; case_bool_decide;
    (by apply not_elem_of_nil in Hev) || (apply list_elem_of_singleton in Hev; subst ev; by intros ? _; apply Hid).
Qed.

Lemma good_move_in_zone id pos g : good ok g → good ok (move_in_zone id pos g).
Proof. apply good_tame. unfold move_in_zone, on_aoi. repeat case_match; try done; by apply tame_same. Qed.

Lemma good_heap_insert p e g : (eID e = X → eLifecycle e = None ∧ ok (Position e)) → good ok g → good ok (g <| eheap ::= <[p := e]> |>).
Proof. intros He [H1 H2 H3]. split; [|done|done]. cbn. intros q e' [[<- <-]|[_ ?]]%lookup_insert_Some; [done|by eauto]. Qed.

Lemma good_dispatch pkt g : game_wf g → (ClientID pkt = X → good_data ok (Data pkt)) → good ok g → good ok (dispatch pkt g).
Proof.
  intros Hwf Hd Hg. unfold dispatch.
  destruct (Decode (Data pkt)) as [[[[[v id] payload] fl] seq] [err|]] eqn:E; [done|].
  destruct (Z.eqb_spec id PacketIDPositionUpdate) as [->|_]; [|destruct (_ =? _); [|destruct (_ =? _); [|done]]].
  - unfold dispatch_position. destruct (unmarshal_update payload) as [u|] eqn:Eu; [|done].
    destruct (Entities g !! ClientID pkt) as [p|] eqn:Ep; [|done]. destruct (eheap g !! p) as [e|] eqn:Ee; [|done]. cbv zeta.
    assert (eID e = ClientID pkt) as Hid.
    { destruct (wf_entities _ Hwf _ _ Ep) as (z & sim & _ & Hs & Hsp). destruct (wf_sims _ Hwf _ _ _ _ Hs Hsp) as (e' & ? & ? & _). by simplify_eq. }
    set (pos := default zero_vec (uPosition u)).
    assert (eID e = X → ok pos) as Hpos by (intros HX; eapply Hd; [congruence|exact E|done]).
    apply good_enqueueMove; [exact Hpos|]. apply good_move_in_zone, good_heap_insert; [|done].
    cbn. intros HX. split; [by eapply (gd_heap ok g)|by apply Hpos].
  - unfold dispatch_action. destruct (unmarshal_action payload) as [a|]; [|done].
    destruct (Entities g !! aEntityId a) as [p|] eqn:Ep; [|done]. destruct (eheap g !! p) as [e|] eqn:Ee; [|done].
    case_bool_decide; [done|]. destruct (eLifecycle e) as [lc|] eqn:El; [|done]. apply good_heap_insert; [|done].
    assert (eID (OnAction (aAction a) (aPayload a) e) = eID e) as ->.
    { unfold OnAction. rewrite El. by destruct lc. }
    intros HX. destruct (gd_heap ok g Hg p e Ee HX). congruence.
  - unfold dispatch_state. repeat case_match; try done. apply good_publish_all; [|done].
    apply Forall_forall. intros ev (o & Hev & _)%list_elem_of_bind. case_bool_decide; [by apply not_elem_of_nil in Hev|].
    apply list_elem_of_singleton in Hev. subst ev. intros _ [|]; discriminate.
Qed.

Lemma good_set_inbox l g : (∀ pkt, pkt ∈ l → pkt ∈ Inbox g) → good ok g → good ok (g <| Inbox := l |>).
Proof. intros Hl [H1 H2 H3]. split; [done|done|]. cbn. auto. Qed.

Lemma good_drain n g : game_wf g → good ok g → good ok (drain n g).
Proof.
  revert g. induction n as [|n IH]; intros g Hwf Hg; cbn; [done|]. destruct (Inbox g) as [|pkt rest] eqn:Ei; [done|].
  assert (game_wf (g <| Inbox := rest |>)) as Hwf'.
  { apply wf_set_inbox; [done|]. pose proof (wf_inbox g Hwf) as Hl. rewrite Ei in Hl. cbn in Hl. lia. }
  apply IH; [by eapply frame_wf; [apply fr_dispatch|]|]. apply good_dispatch; [done| |].
  - apply (gd_inbox ok g Hg). rewrite Ei. left.
  - apply good_set_inbox; [|done]. rewrite Ei. by right.
Qed.

(** The entities under the identifiers of a loop. *)
Definition keyed (l : list (EntityID * loc)) g : Prop := ∀ id p e, (id, p) ∈ l → eheap g !! p = Some e → eID e = id.

Lemma good_simulate_one seed dt g id p g' l :
  game_wf g → (id, p) ∈ l → keyed l g → good ok g → simulate_one seed dt g (id, p) = Some g' → keyed l g' ∧ good ok g'.
Proof.
  intros Hwf Hl Hk Hg. unfold simulate_one. destruct (eheap g !! p) as [e|] eqn:Ee; [|by intros [= <-]].
  destruct (eLifecycle e) as [lc|] eqn:El; [|by intros [= <-]].
  destruct (OnSimulate seed e dt) as [e'|] eqn:Es; cbn; [|done].
  assert (eID e' = eID e) as Hid.
  { destruct (OnSimulate_spec seed e dt) as (e2 & E2 & _ & Hi); [by apply (wf_eheap g Hwf p)|]. rewrite Es in E2. injection E2 as <-. apply Hi. }
  assert (id ≠ X) as Hne by (intros ->; pose proof (Hk X p e Hl Ee) as HX; destruct (gd_heap ok g Hg p e Ee HX); congruence).
  assert (keyed l (g <| eheap ::= <[p := e']> |>)) as Hk'.
  { intros i q e0 Hi. cbn. intros [[<- <-]|[_ ?]]%lookup_insert_Some; [rewrite Hid; by eapply Hk|by eapply Hk]. }
  assert (good ok (g <| eheap ::= <[p := e']> |>)) as Hg'.
  { apply good_heap_insert; [|done]. rewrite Hid, (Hk id p e Hl Ee). done. }
  case_match; intros [= <-]; [done|]. split.
  - unfold keyed. rewrite (enqueueMove_proj eheap) by apply publish_eheap. by rewrite move_in_zone_eheap.
  - by apply good_enqueueMove, good_move_in_zone.
Qed.

Lemma good_simulate seed dt g g' : game_wf g → good ok g → simulate seed dt g = Some g' → good ok g'.
Proof.
  intros Hwf Hg. unfold simulate.
  assert (keyed (range_list (Entities g)) g) as Hk.
  { intros id p e Hin%elem_of_range_list He. destruct (wf_entities _ Hwf _ _ Hin) as (z & sim & _ & Hs & Hsp).
    destruct (wf_sims _ Hwf _ _ _ _ Hs Hsp) as (e' & ? & ? & _). by simplify_eq. }
  assert (∀ todo h, (∀ x, x ∈ todo → x ∈ range_list (Entities g)) → game_wf h → keyed (range_list (Entities g)) h → good ok h →
    fold_option (simulate_one seed dt) h todo = Some g' → good ok g') as Hloop; [|by apply Hloop].
  induction todo as [|[id p] todo IH]; intros h Hsub Hh Hkh Hgh; cbn [fold_option]; [by intros [= <-]|].
  destruct (simulate_one seed dt h (id, p)) as [h1|] eqn:E1; cbn [mbind option_bind]; [|done].
  destruct (good_simulate_one seed dt h id p h1 (range_list (Entities g))) as [Hk1 Hg1]; [done|apply Hsub; left|done|done|done|].
  apply IH; [intros x Hx; apply Hsub; by right| |done|done].
  destruct (fr_simulate_one seed dt h (id, p)) as (h2 & E2 & Hf); [by apply wf_heap|]. rewrite E1 in E2. injection E2 as <-. by eapply frame_wf.
Qed.

Lemma good_set_view v g : good ok g → good ok (g <| entityAOI ::= v |>).
Proof. intros [H1 H2 H3]. by split. Qed.

Lemma good_update_one aoi g idp : good ok g → good ok (update_one aoi g idp).
Proof.
  intros Hg. unfold update_one. destruct (eheap g !! idp.2) as [e|]; [|done]. cbv zeta.
  apply good_set_view, good_publish_all; [|apply good_publish_all; [|done]].
  - apply Forall_forall. intros ev ([id u] & Hev & _)%list_elem_of_bind. case_bool_decide; [by apply not_elem_of_nil in Hev|].
    apply list_elem_of_singleton in Hev. subst ev. intros _ [|]; discriminate.
  - apply Forall_forall. intros ev ([id u] & Hev & _)%list_elem_of_bind. case_bool_decide; [by apply not_elem_of_nil in Hev|].
    destruct (entity_of g id) as [o|] eqn:Eo; [|by apply not_elem_of_nil in Hev].
    apply list_elem_of_singleton in Hev. subst ev. intros HX _. unfold entity_of in Eo. apply bind_Some in Eo as (p & _ & Hp).
    by eapply (gd_heap ok g).
Qed.

Lemma good_update_zones now zids g : good ok g → good ok (update_zones now zids g).
Proof.
  intros Hg. unfold update_zones. apply (foldl_invariant _ (good ok)); [done|]. intros h zid _ Hh.
  unfold updateVisibility. assert (good ok (detectZoneBoundaries zid now h)) as Hd by (eapply good_tame; [apply tame_detect|done]).
  destruct (Zones _ !! zid); [|done]. apply (foldl_invariant _ (good ok)); [done|]. intros k x _. apply good_update_one.
Qed.

Lemma good_alloc e g : (eID e = X → eLifecycle e = None ∧ ok (Position e)) → good ok g → good ok (alloc_entity e g).2.
Proof. intros He Hg. destruct (good_heap_insert (next g) e g He Hg). by split. Qed.

Lemma good_MigrateEntityIn snap z g :
  (snEntityId snap = X → ok (default zero_vec (snPosition snap))) → good ok g → good ok (MigrateEntityIn snap z g).
Proof.
  intros Hs Hg. assert (good ok (alloc_entity (entity_of_snap snap z) g).2) as Ha.
  { apply good_alloc; [|done]. intros HX. split; [done|]. by apply Hs. }
  unfold MigrateEntityIn. destruct (alloc_entity _ _) as [p h]. eapply good_tame; [apply tame_addEntity|exact Ha].
Qed.

Lemma good_set_count f g : good ok g → good ok (g <| tickCount ::= f |>).
Proof. intros [H1 H2 H3]. by split. Qed.

Lemma good_tick c g g' : game_wf g → good ok g → tick c g = Some g' → good ok g'.
Proof.
  intros Hwf Hg. rewrite tick_eq. destruct (wf_tick_inputs c g Hwf) as [Hwi _].
  assert (good ok (tick_inputs c g)) as Hi.
  { unfold tick_inputs. apply good_set_count, good_drain.
    - apply wf_applyCmds. destruct Hwf. by split.
    - eapply good_tame; [|exact Hg]. etrans; [by apply (tame_same g (g <| lastTickAt := tStart c |>))|apply tame_applyCmds]. }
  revert Hwi Hi. generalize (tick_inputs c g). intros h Hwh Hh. unfold tick_world. cbv zeta.
  set (h1 := if snapshot_due h then snapshotAllZones h else h).
  assert (game_wf h1 ∧ good ok h1) as [Hw1 Hg1].
  { unfold h1. case_match; [|done]. split; [by eapply frame_wf; [apply fr_snapshotAllZones|]|].
    by eapply good_tame; [apply tame_snapshotAllZones|]. }
  destruct (simulate _ _ h1) as [h2|] eqn:Es; cbn [mbind option_bind]; [|done]. intros [= <-].
  pose proof (good_simulate _ _ _ _ Hw1 Hg1 Es) as Hg2.
  eapply good_tame; [|by apply (good_update_zones (tDetect c) (zoneIDs h2))].
  etrans; [apply tame_sweepGhosts|]. etrans; [apply tame_SweepDisconnected|].
  etrans; [|apply tame_reportGauges]. case_match; [etrans|]; apply tame_metric.
Qed.

Lemma good_LoadZoneSnapshot snap g :
  (∀ e, e ∈ zsEntities snap → snEntityId e = X → ok (default zero_vec (snPosition e))) → good ok g → good ok (LoadZoneSnapshot snap g).
Proof.
  intros Hs Hg. unfold LoadZoneSnapshot. apply (foldl_invariant _ (good ok)).
  - by eapply good_tame; [apply tame_ensure_index|].
  - intros h e He Hh. apply good_MigrateEntityIn; [|done]. by apply Hs.
Qed.
End steps.
End game.

(** ** The system *)

(** A relay of a gateway and its stream to the game server. *)
Record link := mkLink {
  lrelay : relayState;
  up : list RelayPacket;              (* sent by the relay, not yet received *)
  down : list (list Byte.byte);       (* sent by the server, not yet received *)
  lowned : list string;               (* the clients of the stream at the server *)
  senders : list (string * positive); (* the sender goroutines of the stream *)
  lopen : bool;                       (* the handler of the stream has not returned *)
  ltoken : string                     (* the token the connection was admitted with *)
}.
Definition eta_link (n : link) := mkLink (lrelay n) (up n) (down n) (lowned n) (senders n) (lopen n) (ltoken n).
#[export] Instance set_lrelay : Setter lrelay. Proof. solve_setter eta_link. Defined.
#[export] Instance set_up : Setter up. Proof. solve_setter eta_link. Defined.
#[export] Instance set_down : Setter down. Proof. solve_setter eta_link. Defined.
#[export] Instance set_lowned : Setter lowned. Proof. solve_setter eta_link. Defined.
#[export] Instance set_senders : Setter senders. Proof. solve_setter eta_link. Defined.
#[export] Instance set_lopen : Setter lopen. Proof. solve_setter eta_link. Defined.

Section system.
Context `{GM : GoMath} `{GZ : Gzip} `{GB : Gob} `{CD : Codecs} `{RO : RangeOrder} `{WI : Wire} `{J : Jwt}.

(** The secret of the gateways. *)
Context (secret : list Byte.byte).

Record system := mkSystem { server : gameServerServer; links : gmap nat link }.

(** A position that enters the system: in a frame read from a connection that
    was admitted with the token, or from another server. *)
Inductive entry :=
| Played (token : string) (id : EntityID) (pos : Vector3)
| Handed (id : EntityID) (pos : Vector3).

(** The positions a frame of a player sets. *)
Definition frame_positions (token client : string) (data : list Byte.byte) : list entry :=
  match Decode data with
  | (_, id, payload, _, _, None) =>
      if id =? PacketIDPositionUpdate
      then match unmarshal_update payload with Some u => [Played token client (default zero_vec (uPosition u))] | None => [] end
      else []
  | (_, _, _, _, _, Some _) => []
  end.

Definition snap_positions (snap : EntitySnapshot) : entry :=
  Handed (snEntityId snap) (default zero_vec (snPosition snap)).

(** What the relay has put on the stream in a step. *)
Definition relayed (r r' : relayState) : list RelayPacket := drop (length (sent r)) (sent r').

Definition after_relay (r' : relayState) (n : link) : link :=
  n <| lrelay := r' |> <| up ::= λ l, l ++ relayed (lrelay n) r' |>.

(** A step of the server that involves no stream of a gateway, and the
    positions that other servers hand over in it. *)
Inductive server_step (s : gameServerServer) : list entry → gameServerServer → Prop :=
| srv_tick c g : tick c (game s) = Some g → server_step s [] (on_game (λ _, g) s)
| srv_drain s' : drain_one s = Some s' → server_step s [] s'
| srv_assign z r gx gy size : server_step s [] (rpc_AssignZone z r gx gy size s).2
| srv_release z : server_step s [] (rpc_ReleaseZone z s).2
| srv_enter z id pos now : server_step s [] (NotifyEntityEnter z id pos now s)
| srv_leave z id : server_step s [] (NotifyEntityLeave z id s)
| srv_update id pos now : server_step s [] (SendEntityUpdate id pos now s).2
| srv_migrate snap z : server_step s [snap_positions snap] (MigrateEntity snap z s)
| srv_sync snap : server_step s (snap_positions <$> zsEntities snap) (ZoneStateSync [snap] s).

(** A step, with the positions that enter the system in it. *)
Inductive sys_step : system → list entry → system → Prop :=
| sys_open k tok lookup h h' connect_ok client addr c ip now r s m :
    m !! k = None → jwtSecret h = secret → handleWS tok lookup true h = (Upgraded, h', Some (client, addr, c)) →
    relay_start true true connect_ok client c ip now = Some r →
    sys_step (mkSystem s m) [] (mkSystem s (<[k := mkLink r (sent r) [] [] [] true tok]> m))
| sys_frame k n data now send_ok r' s m :
    m !! k = Some n → relay_step (lrelay n) (Frame data now send_ok) = Some r' →
    sys_step (mkSystem s m) (frame_positions (ltoken n) (rclient (lrelay n)) data)
      (mkSystem s (<[k := after_relay r' n]> m))
| sys_packet k n d rest write_ok r' s m :
    m !! k = Some n → down n = d :: rest → relay_step (lrelay n) (Packet d write_ok) = Some r' →
    sys_step (mkSystem s m) [] (mkSystem s (<[k := after_relay r' n <| down := rest |>]> m))
| sys_relay k n ev r' s m :
    m !! k = Some n → (∀ d t b, ev ≠ Frame d t b) → (∀ d b, ev ≠ Packet d b) → relay_step (lrelay n) ev = Some r' →
    sys_step (mkSystem s m) [] (mkSystem s (<[k := after_relay r' n]> m))
| sys_recv k n pkt rest t now s s' owned' m :
    m !! k = Some n → lopen n = true → up n = pkt :: rest → relay_recv t now pkt s (lowned n) = Some (s', owned') →
    sys_step (mkSystem s m) []
      (mkSystem s' (<[k := n <| up := rest |> <| lowned := owned' |>
                             <| senders ::= λ l, l ++ match pKind pkt with
                                                     | KIND_CONNECT _ => [(pClientId pkt, cnext (registry_ s))]
                                                     | _ => []
                                                     end |>]> m))
| sys_send k n id l (fails : bool) d s s' m :
    m !! k = Some n → (id, l) ∈ senders n → sender_step id l fails s = Some (d, s') →
    sys_step (mkSystem s m) [] (mkSystem s' (<[k := n <| down ::= λ l, if fails then l else l ++ [d] |>]> m))
| sys_sender_exit k n id l s m :
    m !! k = Some n → (id, l) ∈ senders n → sys_step (mkSystem s m) [] (mkSystem (sender_exit id s) m)
| sys_close k n t s s' m :
    m !! k = Some n → relay_cleanup t (lowned n) s = Some s' →
    sys_step (mkSystem s m) [] (mkSystem s' (<[k := n <| lopen := false |> <| lowned := [] |>]> m))
| sys_server ins s s' m : server_step s ins s' → sys_step (mkSystem s m) ins (mkSystem s' m).

(** Executions, with everything that entered. *)
Inductive sys_run : system → list entry → system → Prop :=
| run_nil s : sys_run s [] s
| run_snoc s s1 s2 ins new : sys_run s ins s1 → sys_step s1 new s2 → sys_run s (ins ++ new) s2.

(** *** An interpreter of executions

    The choices of the environment as data. *)
Inductive action :=
| ActOpen (k : nat) (tok : string) (lookup : string → option string) (h : Handler) (connect_ok : bool)
    (ip : option ipLimiter) (now : Time)
| ActRelay (k : nat) (ev : relay_event)
| ActPacket (k : nat) (write_ok : bool)
| ActRecv (k : nat) (timer : bool) (now : Time)
| ActSend (k i : nat) (fails : bool)
| ActTick (c : TickClock)
| ActDrain
| ActMigrate (snap : EntitySnapshot) (z : string).

Definition with_secret (h : Handler) : Handler :=
  mkHandler secret (pool h) (draining h) (conns h) (softLimit h) (readyFn h) (activeConnections h).

Definition act (a : action) (s : system) : option (list entry * system) :=
  match a with
  | ActOpen k tok lookup h cok ip now =>
      match links s !! k, handleWS tok lookup true (with_secret h) with
      | None, (Upgraded, _, Some (client, _, c)) =>
          r ← relay_start true true cok client c ip now;
          Some ([], mkSystem (server s) (<[k := mkLink r (sent r) [] [] [] true tok]> (links s)))
      | _, _ => None
      end
  | ActRelay k ev =>
      n ← links s !! k;
      match ev with
      | Packet _ _ => None
      | _ => r' ← relay_step (lrelay n) ev;
             Some (match ev with Frame data _ _ => frame_positions (ltoken n) (rclient (lrelay n)) data | _ => [] end,
                   mkSystem (server s) (<[k := after_relay r' n]> (links s)))
      end
  | ActPacket k ok =>
      n ← links s !! k;
      match down n with
      | [] => None
      | d :: rest => r' ← relay_step (lrelay n) (Packet d ok);
                     Some ([], mkSystem (server s) (<[k := after_relay r' n <| down := rest |>]> (links s)))
      end
  | ActRecv k t now =>
      n ← links s !! k;
      match lopen n, up n with
      | true, pkt :: rest =>
          '(s', owned') ← relay_recv t now pkt (server s) (lowned n);
          Some ([], mkSystem s' (<[k := n <| up := rest |> <| lowned := owned' |>
                             <| senders ::= λ l, l ++ match pKind pkt with
                                                     | KIND_CONNECT _ => [(pClientId pkt, cnext (registry_ (server s)))]
                                                     | _ => []
                                                     end |>]> (links s)))
      | _, _ => None
      end
  | ActSend k i fails =>
      n ← links s !! k; sd ← senders n !! i;
      '(d, s') ← sender_step sd.1 sd.2 fails (server s);
      Some ([], mkSystem s' (<[k := n <| down ::= λ l, if fails then l else l ++ [d] |>]> (links s)))
  | ActTick c => g ← tick c (game (server s)); Some ([], mkSystem (on_game (λ _, g) (server s)) (links s))
  | ActDrain => s' ← drain_one (server s); Some ([], mkSystem s' (links s))
  | ActMigrate snap z => Some ([snap_positions snap], mkSystem (MigrateEntity snap z (server s)) (links s))
  end.

Fixpoint run_actions (acts : list action) (s : system) : option (list entry * system) :=
  match acts with
  | [] => Some ([], s)
  | a :: acts => '(new, s') ← act a s; '(ins, s'') ← run_actions acts s'; Some (new ++ ins, s'')
  end.

Lemma act_sound a s ins s' : act a s = Some (ins, s') → sys_step s ins s'.
Proof.
  destruct s as [s m]. unfold act. cbn [server links].
  destruct a as [k tok lookup h cok ip now|k ev|k ok|k t now|k i fails|c| |snap z].
  - destruct (m !! k) eqn:Ek; [done|]. destruct (handleWS _ _ _ _) as [[[] h'] [[[client addr] c]|]] eqn:Ew; try done.
    destruct (relay_start _ _ _ _ _ _ _) as [r|] eqn:Er; [|done]. intros [= <- <-].
    by eapply (sys_open k tok lookup (with_secret h)).
  - intros (n & Hn & H)%bind_Some. destruct ev as [data now ok| |payload ok| |ip now|ok|];
      try done; apply bind_Some in H as (r' & Hr & [= <- <-]);
      (by eapply sys_frame) || (eapply sys_relay; [done| | |exact Hr]; done).
  - intros (n & Hn & H)%bind_Some. destruct (down n) as [|d rest] eqn:Ed; [done|].
    apply bind_Some in H as (r' & Hr & [= <- <-]). by eapply sys_packet.
  - intros (n & Hn & H)%bind_Some. destruct (lopen n) eqn:Eo; [|done]. destruct (up n) as [|pkt rest] eqn:Eu; [done|].
    apply bind_Some in H as ([s1 owned'] & Hr & [= <- <-]). by eapply sys_recv.
  - intros (n & Hn & ([id l] & Hs & ([d s1] & Hd & [= <- <-])%bind_Some)%bind_Some)%bind_Some.
    eapply sys_send; [done| |done]. by eapply list_elem_of_lookup_2.
  - intros (g & Hg & [= <- <-])%bind_Some. by eapply sys_server, srv_tick.
  - intros (s1 & Hs & [= <- <-])%bind_Some. by eapply sys_server, srv_drain.
  - intros [= <- <-]. apply sys_server, srv_migrate.
Qed.

Lemma sys_run_cons s s1 s2 new ins : sys_step s new s1 → sys_run s1 ins s2 → sys_run s (new ++ ins) s2.
Proof.
  intros Hs Hr. induction Hr as [s1|s1 s2 s3 ins new' Hr IH Hs'].
  - rewrite app_nil_r. rewrite <-(app_nil_l new). eapply run_snoc; [apply run_nil|done].
  - rewrite app_assoc. eapply run_snoc; [by apply IH|done].
Qed.

Lemma run_actions_sound acts s ins s' : run_actions acts s = Some (ins, s') → sys_run s ins s'.
Proof.
  revert s ins s'. induction acts as [|a acts IH]; intros s ins s'; cbn; [intros [= <- <-]; apply run_nil|].
  intros ([new s1] & Ha%act_sound & ([ins' s2] & Hr%IH & [= <- <-])%bind_Some)%bind_Some. by eapply sys_run_cons.
Qed.

(** What a client is shown of the position of an entity. *)
Definition shown (d : list Byte.byte) (X : EntityID) (p : Vector3) : Prop :=
  read_message d = LMove X p ∨ ∃ ty, read_message d = LSpawn ty X p.

(** *** What the steps keep *)

(** A position of [X] that entered with its authority: its own player's, under
    a token that verifies, or a server's. *)
Definition authorised (X : EntityID) (ins : list entry) (p : Vector3) : Prop :=
  (∃ tok c, Played tok X p ∈ ins ∧ ValidateToken tok secret = Ok c ∧ cPlayerID c = X) ∨ Handed X p ∈ ins.

(** The positions the system may show of [X]. *)
Definition known (X : EntityID) (ins : list entry) (p : Vector3) : Prop := p = zero_vec ∨ authorised X ins p.

Lemma authorised_app X ins1 ins2 p : authorised X ins1 p ∨ authorised X ins2 p → authorised X (ins1 ++ ins2) p.
Proof.
  intros [[(tok & c & Hin & H)|Hin]|[(tok & c & Hin & H)|Hin]]; [left|right|left|right];
    rewrite ?elem_of_app; try (exists tok, c; rewrite elem_of_app); by auto.
Qed.

Definition shows (P : Vector3 → Prop) (X : EntityID) (d : list Byte.byte) : Prop := ∀ p, shown d X p → P p.

Definition queues (P : list Byte.byte → Prop) (r : clientRegistry) : Prop := ∀ l e, cheap r !! l = Some e → Forall P (ch (q e)).

Lemma queues_register P id r : queues P r → queues P (register_client id r).2.
Proof. intros Hr l e. cbn. intros [[<- <-]|[_ ?]]%lookup_insert_Some; [constructor|by eapply Hr]. Qed.

Lemma queues_unregister P id r : queues P r → queues P (unregister id r).
Proof.
  intros Hr. unfold unregister. case_match; [|done]. intros l' e. cbn.
  intros [(-> & e0 & Hl & ->)|[_ Hl]]%lookup_alter_Some; by apply Hr in Hl.
Qed.

Lemma push_forall P d k : P d → Forall P (ch k) → Forall P (ch (push d k)).
Proof.
  intros Hd Hk. unfold push. assert (∀ k, Forall P (ch k) → Forall P (ch k ++ [d])) as Happ.
  { intros k' Hk'. by apply Forall_app; split; [|constructor]. }
  destruct (_ <? _)%nat; [by apply Happ|].
  assert (Forall P (ch (match ch k with [] => k | _ :: rest => mkQueue rest (capacity k) (inc64 (drops k)) end))) as H1.
  { destruct (ch k) eqn:E; [by rewrite E|]. by apply Forall_cons in Hk as []. }
  revert H1. generalize (match ch k with [] => k | _ :: rest => mkQueue rest (capacity k) (inc64 (drops k)) end).
  intros k' Hk'. cbv zeta. destruct (_ <? _)%nat; [by apply Happ|done].
Qed.

Lemma queues_send P id d r : P d → queues P r → queues P (send id d r).
Proof.
  intros Hd Hr. unfold send. case_match; [|done]. intros l' e. cbn.
  intros [(-> & e0 & Hl & ->)|[_ Hl]]%lookup_alter_Some; apply Hr in Hl; [by apply push_forall|done].
Qed.

Lemma queues_sender P id l fails s d s' :
  sender_step id l fails s = Some (d, s') → queues P (registry_ s) → P d ∧ queues P (registry_ s') ∧ game s' = game s.
Proof.
  unfold sender_step. destruct (cheap (registry_ s) !! l) as [e|] eqn:El; cbn; [|done].
  destruct (ch (q e)) as [|d0 rest] eqn:Ec; [done|]. intros [= <- <-] Hr. pose proof (Hr _ _ El) as He. rewrite Ec in He.
  apply Forall_cons in He as [Hd Hrest].
  assert (queues P (mkRegistry (clients (registry_ s)) (<[l := mkEntry (mkQueue rest (capacity (q e)) (drops (q e))) (done_ e)]> (cheap (registry_ s))) (cnext (registry_ s)))) as Hq.
  { intros l' e'. cbn. intros [[<- <-]|[_ ?]]%lookup_insert_Some; [done|by eapply Hr]. }
  destruct fails; cbn; split_and!; try done. by apply queues_unregister.
Qed.

Lemma queues_impl (P Q : list Byte.byte → Prop) r : (∀ d, P d → Q d) → queues P r → queues Q r.
Proof. intros HPQ Hr l e Hl. eapply Forall_impl; [by eapply Hr|done]. Qed.

(** A packet shows the position of its event, if that. *)
Lemma encodeEvent_shown `{!WireLaws WI} ev X p :
  shown (encodeEvent ev) X p → evEntityID ev = X ∧ (evKind ev = EventMove ∨ evKind ev = EventSpawn) ∧ p = evPosition ev.
Proof.
  unfold shown, read_message, encodeEvent, encodeSpawnEvent, encodeDespawnEvent, encodeMoveEvent.
  destruct (evKind ev); rewrite Decode_Encode_plain by done; cbn;
    rewrite ?wire_snapshot, ?wire_id, ?wire_update; cbn; [..|destruct (unmarshal_state _)];
    intros [H|[ty H]]; simplify_eq; eauto.
Qed.

(** A link whose packets are those of an admitted player. *)
Record link_ok (X : EntityID) (P : Vector3 → Prop) (n : link) : Prop := {
  lk_up : ∀ pkt d, pkt ∈ up n → pKind pkt = KIND_DATA d → pClientId pkt = X → good_data P d;
  lk_down : Forall (shows P X) (down n);
  lk_written : Forall (shows P X) (written (lrelay n));
  lk_token : ∃ c, ValidateToken (ltoken n) secret = Ok c ∧ cPlayerID c = rclient (lrelay n)
}.

Record sys_inv (X : EntityID) (P : Vector3 → Prop) (s : system) : Prop := {
  si_reach : reachable (game (server s));
  si_good : good X P (game (server s));
  si_queues : queues (shows P X) (registry_ (server s));
  si_links : ∀ k n, links s !! k = Some n → link_ok X P n
}.

Lemma shows_impl (P Q : Vector3 → Prop) X d : (∀ p, P p → Q p) → shows P X d → shows Q X d.
Proof. intros HPQ H p Hp. by apply HPQ, H. Qed.

Lemma sys_inv_impl (P Q : Vector3 → Prop) X s : (∀ p, P p → Q p) → sys_inv X P s → sys_inv X Q s.
Proof.
  intros HPQ [H1 [G1 G2 G3] H3 H4]. assert (∀ d, shows P X d → shows Q X d) as Hs by (intros d; by apply shows_impl).
  split; [done| |by eapply queues_impl|].
  - split; [intros p e He HX; destruct (G1 p e He HX); auto|intros ev Hev HX Hk; by apply HPQ, (G2 ev)|].
    intros pkt Hp HX v payload fl sq u Hd Hu. by eapply HPQ, G3.
  - intros k n Hn. destruct (H4 k n Hn) as [L1 L2 L3 L4]. split; [|by eapply Forall_impl|by eapply Forall_impl|done].
    intros pkt d Hp Hk HX v payload fl sq u Hd Hu. by eapply HPQ, L1.
Qed.

Lemma link_insert (Q : link → Prop) (m : gmap nat link) k n : (∀ k n, m !! k = Some n → Q n) → Q n → ∀ k' n', <[k := n]> m !! k' = Some n' → Q n'.
Proof. intros Hm Hn k' n' [[<- <-]|[_ ?]]%lookup_insert_Some; [done|by eapply Hm]. Qed.

(** Packets received by the server. *)
Lemma good_recv X P t now pkt s owned s' owned' :
  P zero_vec → (∀ d, pKind pkt = KIND_DATA d → pClientId pkt = X → good_data P d) →
  relay_recv t now pkt s owned = Some (s', owned') → good X P (game s) → good X P (game s').
Proof.
  intros H0 Hd. unfold relay_recv. destruct (pKind pkt) as [meta|d| | | |] eqn:Ek.
  - destruct (register_client _ _) as [l r]. intros Hs Hg.
    pose proof (good_alloc X P (Entity.New (pClientId pkt) "avatar" (mRuntimeId meta)) (game s)) as Ha.
    destruct (alloc_entity _ _) as [p h]. cbn [snd] in Ha.
    destruct (EnqueueAddEntity t p h) as [g|] eqn:E; simplify_eq/=. eapply good_tame; [by eapply tame_enqueue|]. by apply Ha.
  - destruct (_ <? _)%nat; intros ? Hg; simplify_eq/=; [|done]. destruct Hg as [G1 G2 G3]. split; [done|done|]. cbn.
    intros pk [Hp|Hp%list_elem_of_singleton]%elem_of_app; [by apply G3|]. subst pk. cbn. auto.
  - intros ? Hg; simplify_eq/=. eapply good_tame; [|done]. by apply tame_same.
  - intros ? Hg; simplify_eq/=. eapply good_tame; [|done]. unfold MarkDisconnected. case_match; [|done]. by apply tame_same.
  - destruct (EnqueueRemoveEntity t _ _) as [g|] eqn:E; intros ? Hg; simplify_eq/=.
    eapply good_tame; [by eapply tame_enqueue|done].
  - by intros [= <- <-].
Qed.

Lemma recv_queues P t now pkt s owned s' owned' :
  relay_recv t now pkt s owned = Some (s', owned') → queues P (registry_ s) → queues P (registry_ s').
Proof.
  unfold relay_recv. destruct (pKind pkt) as [meta|d| | | |]; cbn.
  - destruct (EnqueueAddEntity _ _ _); intros ? Hq; simplify_eq/=. by apply queues_register.
  - case_match; intros ? Hq; by simplify_eq/=.
  - intros ? Hq; by simplify_eq/=.
  - intros ? Hq; by simplify_eq/=.
  - destruct (EnqueueRemoveEntity _ _ _); intros ? Hq; simplify_eq/=. by apply queues_unregister.
  - by intros [= <- <-].
Qed.

Lemma cleanup_keeps X P Q t owned s s' :
  relay_cleanup t owned s = Some s' → good X P (game s) ∧ queues Q (registry_ s) → good X P (game s') ∧ queues Q (registry_ s').
Proof.
  intros Hc Hs. revert Hc. apply (fold_option_preserves _ (λ s, good X P (game s) ∧ queues Q (registry_ s))); [done|].
  intros h id h' [Hg Hq]. destruct (EnqueueRemoveEntity t id (game h)) as [g|] eqn:E; intros ?; simplify_eq/=.
  split; [by eapply good_tame; [by eapply tame_enqueue|]|by apply queues_unregister].
Qed.

(** Steps of the server. *)
Lemma server_step_reachable s ins s' : server_step s ins s' → reachable (game s) → reachable (game s').
Proof.
  intros Hs Hg. assert (process_step (mkProcess s ∅) (mkProcess s' ∅)) as Hp.
  { destruct Hs; [by eapply step_tick|by eapply step_drain|apply step_assign|apply step_release|apply step_enter|
      apply step_leave|apply step_update|apply step_migrate|apply step_sync]. }
  by apply (step_reachable _ _ Hp).
Qed.

Lemma server_step_good `{!WireLaws WI} X P s ins s' :
  server_step s ins s' → reachable (game s) → (∀ p, authorised X ins p → P p) →
  good X P (game s) → queues (shows P X) (registry_ s) → good X P (game s') ∧ queues (shows P X) (registry_ s').
Proof.
  intros Hs Hr%reachable_wf Hins Hg Hq. destruct (tame_boundary (game s)) as (Tenter & Tleave & Tupdate).
  destruct Hs as [c g E|s1 E|z r gx gy size|z|z id pos now|z id|id pos now|snap z|snap].
  - split; [by eapply good_tick|done].
  - unfold drain_one in E. destruct (Events (game s)) as [|ev rest] eqn:Ee; [done|]. injection E as <-. cbn.
    destruct Hg as [G1 G2 G3]. rewrite Ee in G2. split.
    + split; [done| |done]. cbn. intros ev' Hev. apply G2. by right.
    + apply queues_send; [|done]. intros p (HX & Hk & ->)%encodeEvent_shown. apply (G2 ev); [left|done..].
  - unfold rpc_AssignZone. destruct (AssignZone _ _) as [g|e] eqn:E; [|done].
    split; [by eapply good_tame; [by eapply tame_AssignZone|]|done].
  - unfold rpc_ReleaseZone. destruct (ReleaseZone _ _) as [g|e] eqn:E; [|done].
    split; [by eapply good_tame; [by eapply tame_ReleaseZone|]|done].
  - split; [by eapply good_tame; [apply Tenter|]|done].
  - split; [by eapply good_tame; [apply Tleave|]|done].
  - destruct pos as [v|]; [|done]. split; [by eapply good_tame; [apply Tupdate|]|done].
  - split; [|done]. apply good_MigrateEntityIn; [|done]. intros HX. apply Hins. right. rewrite <-HX. by apply list_elem_of_singleton.
  - split; [|done]. apply good_LoadZoneSnapshot; [|done]. intros e He HX. apply Hins. right. rewrite <-HX.
    apply list_elem_of_fmap. by exists e.
Qed.

(** Steps of a relay. *)
Lemma relay_step_written r ev r' :
  relay_step r ev = Some r' → written r' = written r ∨ ∃ d, ev = Packet d true ∧ written r' = written r ++ [d].
Proof.
  destruct ev as [data now ok| |payload ok| |ip now|ok|]; cbn [relay_step]; intros H; repeat case_match; simplify_eq; eauto.
Qed.

Lemma relayed_extends r r' frames :
  extends r r' frames →
  Forall (λ p, pClientId p = rclient r) (relayed r r') ∧ (∀ p d, p ∈ relayed r r' → pKind p = KIND_DATA d → d ∈ frames).
Proof.
  intros [_ (new & Hs & Hc & Hd & _ & _)]. unfold relayed. rewrite Hs, drop_app_length. split; [done|].
  intros p d Hp Hk. apply (sublist_subseteq _ _ Hd). apply list_elem_of_bind. exists p. split; [|done].
  unfold data_of. rewrite Hk. by apply list_elem_of_singleton.
Qed.

Lemma frame_good X P n d :
  (∀ p, authorised X (frame_positions (ltoken n) (rclient (lrelay n)) d) p → P p) → link_ok X P n →
  rclient (lrelay n) = X → good_data P d.
Proof.
  intros Hf [_ _ _ (c & Hv & Hc)] HX v payload fl sq u Hd Hu. apply Hf. left. exists (ltoken n), c.
  split_and!; [|done|congruence]. unfold frame_positions. rewrite Hd, HX. change (_ =? _) with true. cbv iota. rewrite Hu.
  by apply list_elem_of_singleton.
Qed.

Lemma link_relay X P n ev r' :
  relay_step (lrelay n) ev = Some r' → (∀ d t b, ev = Frame d t b → rclient (lrelay n) = X → good_data P d) →
  (∀ d b, ev = Packet d b → shows P X d) → link_ok X P n → link_ok X P (after_relay r' n).
Proof.
  intros Hst Hf Hp [L1 L2 L3 L4]. destruct (relayed_extends _ _ _ (relay_step_extends _ _ _ Hst)) as [Hcl Hdat].
  rewrite Forall_forall in Hcl. split; cbn.
  - intros pkt d [Hin|Hin]%elem_of_app Hkd HX; [by eapply L1|]. pose proof (Hdat pkt d Hin Hkd) as Hd.
    destruct ev as [data now ok| | | | | |]; try (by apply not_elem_of_nil in Hd). apply list_elem_of_singleton in Hd as ->.
    eapply Hf; [done|]. by rewrite <-(Hcl _ Hin).
  - done.
  - destruct (relay_step_written _ _ _ Hst) as [->|(d & -> & ->)]; [done|]. apply Forall_app. split; [done|].
    constructor; [by eapply Hp|constructor].
  - destruct (relay_step_extends _ _ _ Hst) as [-> _]. done.
Qed.

Lemma link_open X P tok lookup h h' cok client addr c ip now r :
  jwtSecret h = secret → handleWS tok lookup true h = (Upgraded, h', Some (client, addr, c)) →
  relay_start true true cok client c ip now = Some r → link_ok X P (mkLink r (sent r) [] [] [] true tok).
Proof.
  intros Hsec Hws Hst. cbn in Hst. injection Hst as <-. split; cbn; [|constructor..|].
  - intros pkt d Hp. destruct cok; [|by apply not_elem_of_nil in Hp]. apply list_elem_of_singleton in Hp. by subst.
  - unfold handleWS in Hws. rewrite Hsec in Hws. destruct (draining h); [done|]. case_bool_decide; [done|].
    destruct (ValidateToken tok secret) as [c'|] eqn:Ev; [|done]. destruct (lookup _); [|done]. cbn in Hws.
    injection Hws as _ <- _ _. by exists c'.
Qed.

(** A step keeps the invariant, for positions that include what enters. *)
Lemma sys_step_inv `{!WireLaws WI} X P s ins s' :
  sys_step s ins s' → P zero_vec → (∀ p, authorised X ins p → P p) → sys_inv X P s → sys_inv X P s'.
Proof.
  intros Hs H0 Hins Hinv.
  destruct Hs as [k tok lookup h h' cok client addr c ip now r s m Hk Hsec Hws Hst|k n data now sok r' s m Hk Hst|
    k n d rest wok r' s m Hk Hd Hst|k n ev r' s m Hk Hnf Hnp Hst|k n pkt rest t now s s1 owned' m Hk Ho Hup Hrecv|
    k n id l fails d s s1 m Hk Hin Hsend|k n id l s m Hk Hin|k n t s s1 m Hk Hc|ins s s1 m Hs];
    destruct Hinv as [Hr Hg Hq Hl]; cbn [server links] in *; try pose proof (Hl k n Hk) as Hn.
  - split; [done..|]. apply link_insert; [done|]. by eapply link_open.
  - split; [done..|]. apply link_insert; [done|]. eapply link_relay; [done| |done|done].
    intros d t b [= -> _ _]. by eapply frame_good.
  - split; [done..|]. apply link_insert; [done|]. pose proof (lk_down _ _ _ Hn) as L2. rewrite Hd in L2.
    apply Forall_cons in L2 as [Hd0 L2]. destruct (link_relay X P n _ r' Hst); [done| |done|by split].
    by intros ? ? [= <- _].
  - split; [done..|]. apply link_insert; [done|]. eapply link_relay; [done| | |done].
    + intros d t b E. by destruct (Hnf d t b).
    + intros d b E. by destruct (Hnp d b).
  - destruct Hn as [L1 L2 L3 L4]. rewrite Hup in L1. split; cbn [server links].
    + by eapply recv_reachable.
    + eapply good_recv; [done| |done|done]. intros d Hkd. eapply L1; [left|done].
    + by eapply recv_queues.
    + apply link_insert; [done|]. split; cbn; [|done..]. intros pk d Hp. apply L1. by right.
  - destruct (queues_sender _ _ _ _ _ _ _ Hsend Hq) as (Hd & Hq1 & Hgm). destruct Hn as [L1 L2 L3 L4].
    split; cbn [server links]; [by rewrite Hgm..|done|]. apply link_insert; [done|]. split; cbn; [done| |done|done].
    destruct fails; [done|]. apply Forall_app. by split; [|constructor].
  - split; [done..| |done]. cbn. by apply queues_unregister.
  - destruct (cleanup_keeps X P (shows P X) _ _ _ _ Hc (conj Hg Hq)).
    split; cbn [server links]; [by eapply cleanup_reachable|done..|]. apply link_insert; [done|]. by destruct Hn.
  - destruct (server_step_good X P _ _ _ Hs Hr Hins Hg Hq).
    split; cbn [server links]; [by eapply server_step_reachable|done..].
Qed.

(** The start of a server. *)
Lemma startup_quiet sid opts fault db npcs :
  Events (startup sid opts fault db npcs) = [] ∧ Inbox (startup sid opts fault db npcs) = [].
Proof.
  assert (∀ e g, Events g = [] ∧ Inbox g = [] → Events (add_new e g) = [] ∧ Inbox (add_new e g) = []) as Hadd.
  { intros e g Hg. unfold add_new, AddEntity. destruct (tame_addEntity (next g) (alloc_entity e g).2) as [_ -> ->]. exact Hg. }
  assert (Events (Game.New sid opts) = [] ∧ Inbox (Game.New sid opts) = []) as Hnew.
  { unfold Game.New. apply (foldl_invariant _ (λ g, Events g = [] ∧ Inbox g = [])); [done|]. by intros g [] _. }
  unfold startup. destruct (Latest _ _ _) as [[snap n]|e].
  - rewrite hydrate_eq. destruct (unjson_rows snap) as [rows|]; [|done].
    apply (foldl_invariant _ (λ g, Events g = [] ∧ Inbox g = [])); [done|]. intros g e _. apply Hadd.
  - apply (foldl_invariant _ (λ g, Events g = [] ∧ Inbox g = [])); [done|]. intros g [id spec] _. apply Hadd.
Qed.

Lemma sys_run_inv `{!WireLaws WI} X s0 ins s :
  sys_run s0 ins s → sys_inv X (known X []) s0 → sys_inv X (known X ins) s.
Proof.
  intros Hrun H0. induction Hrun as [s|s s1 s2 ins new Hrun IH Hs]; [done|]. eapply sys_step_inv; [done|by left| |].
  - intros p Hp. right. apply authorised_app. by right.
  - eapply sys_inv_impl; [|by apply IH]. intros p [->|Hp]; [by left|]. right. apply authorised_app. by left.
Qed.

(** C3. Nobody moves a player but that player: in any execution of gateways,
    relays, streams, the game server and its neighbours, under every
    interleaving, every position of an entity [X] that any client is shown,
    in a spawn or in a move, is the origin (where avatars appear), or a
    position that a frame set which was read from a connection the gateway
    admitted with a token that verifies for the player [X], or one that
    another server handed over.  The identifiers written in the frames play
    no part.  (Entities the server seeds itself are excluded: they move on
    their own.) *)
Theorem positions_authentic `{!WireLaws WI} (X : EntityID) (s0 : gameServerServer) (ins : list entry) (s : system)
    (k : nat) (n : link) (d : list Byte.byte) (p : Vector3) :
  starts (mkProcess s0 ∅) → (∀ l e, eheap (game s0) !! l = Some e → eID e ≠ X) →
  sys_run (mkSystem s0 ∅) ins s → links s !! k = Some n → d ∈ written (lrelay n) → shown d X p →
  p = zero_vec ∨ (∃ tok c, Played tok X p ∈ ins ∧ ValidateToken tok secret = Ok c ∧ cPlayerID c = X) ∨ Handed X p ∈ ins.
Proof.
  intros (sid & opts & fault & db & npcs & Hn & [= ->]) HX Hrun Hk Hd Hs.
  destruct (startup_quiet sid opts fault db npcs) as [Hev Hin].
  assert (sys_inv X (known X ins) s) as [_ _ _ Hl].
  { eapply sys_run_inv; [done|]. split; cbn [server links game registry_].
    - by apply reachable_startup.
    - split; [|by rewrite Hev; intros ? ?%not_elem_of_nil|by rewrite Hin; intros ? ?%not_elem_of_nil].
      intros l e He HeX. by destruct (HX l e He).
    - intros l e. cbn. by rewrite lookup_empty.
    - intros k' n'. by rewrite lookup_empty. }
  pose proof (lk_written _ _ _ (Hl k n Hk)) as Hw. rewrite Forall_forall in Hw. by apply (Hw d Hd).
Qed.
End system.
