(* ===== verification/Delivery.v ===== *)
(** * A move is seen

    The liveness companion of [Provenance]: from the frame that a player
    sends to the line that another player's client prints, through the relay
    of a gateway, the stream, the inbox, a tick, the event channel, the
    client registry, the sender goroutine and the other relay.  The steps are
    those of [Provenance]. *)

From S2P Require Import Prelude GoFloat Types Protocol Aoi Entity Game Boundary GameInv GameSpec GameView Migration.
From S2P Require Import Room Gateway GameServer GameProcess Relay Cluster Client Provenance.
From stdpp Require Import base tactics list gmap strings relations.
From Stdlib Require Import ZArith Lia.

Local Open Scope Z_scope.
#[local] Opaque cmdChannelBuffer maxPacketsPerTick InboxBufferSize.

(** ** A tick only adds events *)

Section events.
Context `{GM : GoMath} `{GZ : Gzip} `{GB : Gob} `{CD : Codecs} `{RO : RangeOrder}.
Implicit Types g : Game.

Definition grows g g' : Prop := Events g `prefix_of` Events g'.

#[export] Instance grows_preorder : PreOrder grows.
Proof. split; [intros g; unfold grows; done|]. intros g1 g2 g3. unfold grows. by etrans. Qed.

Lemma grows_same g g' : Events g' = Events g → grows g g'.
Proof. unfold grows. by intros ->. Qed.

Lemma grows_tame g g' : tame g g' → grows g g'.
Proof. intros [_ H _]. unfold grows. by rewrite H. Qed.

Lemma grows_publish ev g : grows g (publish ev g).
Proof. unfold publish, grows. case_match; [|done]. cbn. by exists [ev]. Qed.

Lemma grows_foldl {A} (f : Game → A → Game) l g : (∀ h x, grows h (f h x)) → grows g (foldl f g l).
Proof. intros Hf. by apply (foldl_preorder grows). Qed.

Lemma grows_publish_all evs g : grows g (publish_all evs g).
Proof. apply grows_foldl. intros h ev. apply grows_publish. Qed.

Lemma grows_enqueueMove id pos g : grows g (enqueueMove id pos g).
Proof. unfold enqueueMove. repeat case_match; try done; apply grows_publish_all. Qed.

Lemma grows_move_in_zone id pos g : grows g (move_in_zone id pos g).
Proof. unfold move_in_zone, on_aoi, grows. repeat case_match; done. Qed.

Lemma grows_simulate seed dt g g' : simulate seed dt g = Some g' → grows g g'.
Proof.
  unfold simulate. apply (fold_option_preserves _ (grows g)); [done|]. intros h [id p] h' Hh Hs. etrans; [exact Hh|].
  unfold simulate_one in Hs. destruct (eheap h !! p) as [e|]; [|by injection Hs as <-].
  destruct (eLifecycle e); [|by injection Hs as <-]. destruct (OnSimulate seed e dt) as [e'|]; [|done]. cbn in Hs.
  case_match; injection Hs as <-; [by apply grows_same|].
  etrans; [|apply grows_enqueueMove]. etrans; [|apply grows_move_in_zone]. by apply grows_same.
Qed.

Lemma grows_update_zones now zids g : grows g (update_zones now zids g).
Proof.
  apply grows_foldl. intros h zid. unfold updateVisibility. etrans; [apply grows_tame, (tame_detect zid now)|].
  destruct (Zones _ !! zid); [|done]. apply grows_foldl. intros k idp. unfold update_one. destruct (eheap k !! idp.2) as [e|]; [|done].
  cbv zeta. etrans; [apply grows_publish_all|]. etrans; [apply grows_publish_all|]. by apply grows_same.
Qed.

Lemma grows_tick_world c dt g g' : tick_world c dt g = Some g' → grows g g'.
Proof.
  unfold tick_world. cbv zeta. set (g1 := if snapshot_due g then _ else _).
  assert (grows g g1) as H1 by (unfold g1; case_match; [apply grows_tame, tame_snapshotAllZones|done]).
  destruct (simulate _ _ g1) as [g2|] eqn:Es; cbn; [|done]. intros [= <-]. etrans; [exact H1|].
  etrans; [by eapply grows_simulate|]. etrans; [apply (grows_update_zones (tDetect c) (zoneIDs g2))|].
  etrans; [apply grows_tame, (tame_sweepGhosts (tGhosts c))|]. etrans; [apply grows_tame, (tame_SweepDisconnected (tSessions c))|].
  apply grows_tame. etrans; [|apply tame_reportGauges]. case_match; [etrans|]; apply tame_metric.
Qed.

(** A tick whose only input is one packet. *)
Lemma tick_one c g pkt :
  game_wf g → cmds g = [] → Inbox g = [pkt] →
  ∃ g', tick c g = Some g' ∧ Events (dispatch pkt (g <| lastTickAt := tStart c |> <| Inbox := [] |>)) `prefix_of` Events g'.
Proof.
  intros Hwf Hc Hi. destruct (wf_tick c g Hwf) as (g' & Ht & _). exists g'. split; [done|].
  rewrite tick_eq in Ht. apply grows_tick_world in Ht. unfold grows in Ht.
  assert (Events (tick_inputs c g) = Events (dispatch pkt (g <| lastTickAt := tStart c |> <| Inbox := [] |>))) as <-; [|done].
  unfold tick_inputs.
  assert (applyCmds (g <| lastTickAt := tStart c |>) = g <| lastTickAt := tStart c |>) as ->.
  { unfold applyCmds. destruct cmdChannelBuffer; [done|]. cbn. by rewrite Hc. }
  set (h := g <| lastTickAt := tStart c |>). assert (Inbox h = [pkt]) as Hh by done.
  assert (∀ n, (0 < n)%nat → Events (drain n h) = Events (dispatch pkt (h <| Inbox := [] |>))) as Hd.
  { intros [|n] Hn; [lia|]. cbn [drain]. rewrite Hh. destruct n as [|n]; [done|]. cbn [drain].
    assert (Inbox (dispatch pkt (h <| Inbox := [] |>)) = []) as ->; [|done].
    pose proof (fr_queues _ _ (fr_dispatch pkt (h <| Inbox := [] |>))) as Hq. unfold queues in Hq. cbn in Hq. by injection Hq. }
  assert (0 < maxPacketsPerTick)%nat as Hpos by (apply Nat.ltb_lt; vm_compute; reflexivity).
  assert (∀ x f, Events (x <| tickCount ::= f |>) = Events x) as Hcount by done. rewrite Hcount. by apply Hd.
Qed.
End events.

(** ** Runs *)

Section delivery.
Context `{GM : GoMath} `{GZ : Gzip} `{GB : Gob} `{CD : Codecs} `{RO : RangeOrder} `{WI : Wire} `{J : Jwt}.
Context (secret : list Byte.byte).
Implicit Types (m : gmap nat link) (n : link).

Lemma run_app a b s ins1 s1 ins2 s2 :
  run_actions secret a s = Some (ins1, s1) → run_actions secret b s1 = Some (ins2, s2) →
  run_actions secret (a ++ b) s = Some (ins1 ++ ins2, s2).
Proof.
  revert s ins1. induction a as [|x a IH]; intros s ins1; cbn; [intros [= <- ->]; done|].
  intros ([new s'] & Hx & ([ins s''] & Hr & [= <- ->])%bind_Some)%bind_Some Hb. rewrite Hx. cbn.
  by rewrite (IH _ _ Hr Hb), <-app_assoc.
Qed.

(** The event loop takes [k] events. *)
Lemma run_drains k s m :
  (k ≤ length (Events (game s)))%nat →
  ∃ s', run_actions secret (replicate k ActDrain) (mkSystem s m) = Some ([], mkSystem s' m) ∧
    registry_ s' = foldl GameProcess.deliver (registry_ s) (take k (Events (game s))).
Proof.
  revert s. induction k as [|k IH]; intros s Hk; [by exists s|]. destruct (Events (game s)) as [|ev rest] eqn:E; [cbn in Hk; lia|].
  cbn [replicate run_actions act server links]. unfold drain_one at 1. rewrite E. cbn [mbind option_bind].
  set (s1 := mkServer _ _ _). destruct (IH s1) as (s' & Hr & Hreg); [cbn in *; lia|]. exists s'. rewrite Hr. split; [done|].
  rewrite Hreg. done.
Qed.

(** The sender of an entry sends [k] packets of its queue. *)
Lemma run_sends k s m kb n i id l e :
  m !! kb = Some n → senders n !! i = Some (id, l) → cheap (registry_ s) !! l = Some e → (k ≤ length (ch (q e)))%nat →
  ∃ s' n', run_actions secret (replicate k (ActSend kb i false)) (mkSystem s m) = Some ([], mkSystem s' (<[kb := n']> m)) ∧
    down n' = down n ++ take k (ch (q e)) ∧ lrelay n' = lrelay n.
Proof.
  revert s m n e. induction k as [|k IH]; intros s m n e Hm Hi Hl Hk.
  { exists s, n. rewrite insert_id by done. cbn. by rewrite take_0, app_nil_r. }
  destruct (ch (q e)) as [|d rest] eqn:Ec; [cbn in Hk; lia|].
  cbn [replicate run_actions act server links]. rewrite Hm. cbn [mbind option_bind]. rewrite Hi. cbn [mbind option_bind fst snd].
  unfold sender_step at 1. rewrite Hl. cbn [mbind option_bind]. rewrite Ec. cbn [mbind option_bind].
  set (e' := mkEntry (mkQueue rest _ _) _). set (n1 := n <| down ::= _ |>). set (s1 := mkServer _ _ _).
  destruct (IH s1 (<[kb := n1]> m) n1 e') as (s' & n' & Hr & Hd & Hrel).
  - apply lookup_insert_eq.
  - done.
  - apply lookup_insert_eq.
  - cbn in *. lia.
  - exists s', n'. rewrite Hr. cbn [mbind option_bind]. rewrite insert_insert_eq. split; [done|]. rewrite Hd, Hrel. cbn.
    by rewrite <-app_assoc.
Qed.

(** The writer goroutine of a relay writes what has arrived. *)
Lemma run_packets k s m kb n :
  m !! kb = Some n → k = length (down n) → writer_up (lrelay n) = true → phase (lrelay n) = Running →
  ∃ n', run_actions secret (replicate k (ActPacket kb true)) (mkSystem s m) = Some ([], mkSystem s (<[kb := n']> m)) ∧
    written (lrelay n') = written (lrelay n) ++ down n.
Proof.
  revert m n. induction k as [|k IH]; intros m n Hm Hk Hw Hp.
  { exists n. rewrite insert_id by done. destruct (down n) eqn:E; [|done]. by rewrite app_nil_r. }
  destruct (down n) as [|d rest] eqn:Ed; [done|]. cbn [replicate run_actions act server links]. rewrite Hm. cbn [mbind option_bind].
  rewrite Ed. cbn [relay_step]. rewrite Hw, Hp. cbn [negb mbind option_bind]. set (n1 := after_relay _ n <| down := rest |>).
  destruct (IH (<[kb := n1]> m) n1) as (n' & Hr & Hwr); [apply lookup_insert_eq|cbn in *; lia|done|done|].
  exists n'. rewrite Hr. cbn [mbind option_bind]. rewrite insert_insert_eq. split; [done|]. rewrite Hwr. cbn. by rewrite <-app_assoc.
Qed.

(** The last packet of a queue is the last one pushed. *)
Lemma pushed_last ds d k : queue_ok k → ∃ pre, ch (foldl (λ k d, push d k) k (ds ++ [d])) = pre ++ [d].
Proof.
  intros (Hc & Hl & Hd). rewrite push_all by lia. cbn [ch]. rewrite Hc, app_assoc, drop_app_le; [by eexists|].
  rewrite !length_app. cbn. lia.
Qed.

(** *** States of the system *)

Definition sound_server (s : gameServerServer) : Prop := reachable (game s) ∧ registry_ok (registry_ s).

(** Every step of the system is one of the process, or none. *)
Lemma process_sound s s' o o' : process_step (mkProcess s o) (mkProcess s' o') → sound_server s → sound_server s'.
Proof. intros Hp [Hg Hr]. split; [by apply (step_reachable _ _ Hp)|by apply (step_registry _ _ Hp)]. Qed.

Lemma sys_step_sound s ins s' : sys_step secret s ins s' → sound_server (server s) → sound_server (server s').
Proof.
  intros Hs Hok. destruct Hs as [k tok lookup h h' cok client addr c ip now r s m Hk Hsec Hws Hst|k n data now sok r' s m Hk Hst|
    k n d rest wok r' s m Hk Hd Hst|k n ev r' s m Hk Hnf Hnp Hst|k n pkt rest t now s s1 owned' m Hk Ho Hup Hrecv|
    k n id l fails d s s1 m Hk Hin Hsend|k n id l s m Hk Hin|k n t s s1 m Hk Hc|ins s s1 m Hs]; cbn [server] in *; try done.
  - eapply process_sound; [|done]. by eapply (step_recv 0%nat t now pkt s s1 {[0%nat := lowned n]}); [apply lookup_singleton_eq|].
  - eapply (process_sound _ _ ∅ ∅); [|done]. by eapply step_send.
  - eapply (process_sound _ _ ∅ ∅); [|done]. by eapply step_sender_exit.
  - eapply process_sound; [|done]. by eapply (step_close 0%nat t s s1 {[0%nat := lowned n]}); [apply lookup_singleton_eq|].
  - eapply (process_sound _ _ ∅ ∅); [|done].
    destruct Hs; [by eapply step_tick|by eapply step_drain|apply step_assign|apply step_release|apply step_enter|
      apply step_leave|apply step_update|apply step_migrate|apply step_sync].
Qed.

Lemma sys_run_sound s0 ins s : starts (mkProcess s0 ∅) → sys_run secret (mkSystem s0 ∅) ins s → sound_server (server s).
Proof.
  intros H0 Hrun. remember (mkSystem s0 ∅) as y eqn:Hy. induction Hrun as [x|x s1 s2 ins new Hrun IH Hs]; [|by eapply sys_step_sound, IH].
  subst x. by apply (process_reachable (mkProcess s0 ∅) (mkProcess s0 ∅)).
Qed.

(** *** The situation *)

(** Nothing waits in the game. *)
Definition quiescent (g : Game) : Prop := cmds g = [] ∧ Inbox g = [] ∧ Events g = [].

(** A relay whose rate limits admit a frame now. *)
Definition speaks (now : Time) (n : link) : Prop :=
  lopen n = true ∧ up n = [] ∧ reader_up (lrelay n) = true ∧ phase (lrelay n) = Running ∧
  (admit_packet (rclient (lrelay n)) now (rconn (lrelay n)) (rip (lrelay n))).1.1 = None.

(** A relay on which the sender of an entry of the registry sends. *)
Definition listens (id : string) (l : positive) (n : link) : Prop :=
  (id, l) ∈ senders n ∧ writer_up (lrelay n) = true ∧ phase (lrelay n) = Running.

Lemma frame_forwarded now n data :
  speaks now n → ∃ r', relay_step (lrelay n) (Frame data now true) = Some r' ∧
    relayed (lrelay n) r' = [mkPacket (rclient (lrelay n)) (KIND_DATA data)].
Proof.
  intros (_ & _ & Hr & Hp & Ha). cbn [relay_step]. rewrite Hr, Hp. cbn [negb].
  destruct (admit_packet _ _ _ _) as [[drop conn] ip]. cbn in Ha. subst drop. eexists. split; [reflexivity|].
  unfold relayed. cbn. by rewrite drop_app_length.
Qed.

(** The frame enters the game in the next tick. *)
Lemma run_frame s m ka na data now c :
  reachable (game s) → quiescent (game s) → m !! ka = Some na → speaks now na →
  ∃ ins g' na', run_actions secret [ActRelay ka (Frame data now true); ActRecv ka false now; ActTick c] (mkSystem s m)
      = Some (ins, mkSystem (mkServer g' (registry_ s) (inbox_dropped s)) (<[ka := na']> m)) ∧
    Events (dispatch (mkInbound (rclient (lrelay na)) data) (game s <| lastTickAt := tStart c |> <| Inbox := [] |>)) `prefix_of` Events g'.
Proof.
  intros Hg (Hc & Hi & He) Hm Hsp. destruct (frame_forwarded now na data Hsp) as (r' & Hr & Hrel). destruct Hsp as (Ho & Hu & _).
  set (pkt := mkPacket (rclient (lrelay na)) (KIND_DATA data)) in *. set (n1 := after_relay r' na).
  assert (up n1 = [pkt]) as Hup by (unfold n1; cbn; by rewrite Hu, Hrel).
  set (s1 := mkServer (game s <| Inbox := [mkInbound (rclient (lrelay na)) data] |>) (registry_ s) (inbox_dropped s)).
  assert (relay_recv false now pkt s (lowned n1) = Some (s1, lowned n1)) as Hrecv.
  { unfold relay_recv, pkt. cbn [pKind pClientId]. rewrite Hi.
    assert (0 < InboxBufferSize)%nat as Hpos by (apply Nat.ltb_lt; vm_compute; reflexivity).
    destruct (Nat.ltb_spec (length (@nil InboundPacket)) InboxBufferSize) as [_|Hge]; [|cbn in Hge; lia].
    unfold set_field, set_Inbox. by rewrite Hi. }
  pose proof (recv_reachable _ _ _ _ _ _ _ Hg Hrecv) as Hg1%reachable_wf.
  destruct (tick_one c (game s1) (mkInbound (rclient (lrelay na)) data) Hg1 Hc eq_refl) as (g' & Ht & Hpre).
  eexists _, g', _. split; [|exact Hpre].
  cbn [run_actions act server links]. rewrite Hm. cbn [mbind option_bind]. rewrite Hr. cbn [mbind option_bind links server].
  fold n1. rewrite lookup_insert_eq. cbn [mbind option_bind]. assert (lopen n1 = true) as -> by exact Ho. rewrite Hup.
  rewrite Hrecv. cbn [mbind option_bind server links]. rewrite Ht. cbn [mbind option_bind]. rewrite insert_insert_eq. reflexivity.
Qed.

(** An event in the channel reaches the websocket of its observer. *)
Lemma run_event `{!WireLaws WI} s m kb nb bob l i ev :
  registry_ok (registry_ s) → clients (registry_ s) !! bob = Some l → m !! kb = Some nb → listens bob l nb →
  Events (game s) !! i = Some ev → evObserver ev = bob →
  ∃ acts s' n', run_actions secret acts (mkSystem s m) = Some ([], mkSystem s' (<[kb := n']> m)) ∧
    encodeEvent ev ∈ written (lrelay n').
Proof.
  intros Hreg Hcl Hm (Hs & Hw & Hp) Hi Hob. apply list_elem_of_lookup in Hs as [j Hj].
  destruct (reg_entry _ Hreg _ _ Hcl) as (e & He & _). destruct (reg_heap _ Hreg _ _ He) as [_ Hq].
  destruct (run_drains (S i) s m) as (s1 & Hr1 & Hreg1); [apply lookup_lt_Some in Hi; lia|].
  pose proof (deliver_lookup (registry_ s) (take (S i) (Events (game s))) bob l e Hreg Hcl He) as Hq1. rewrite <-Hreg1 in Hq1.
  rewrite (take_S_r _ _ _ Hi), filter_app, filter_cons_True, fmap_app in Hq1 by done. cbn [filter list_filter fmap list_fmap] in Hq1.
  destruct (pushed_last (encodeEvent <$> filter (λ evt, evObserver evt = bob) (take i (Events (game s)))) (encodeEvent ev) (q e) Hq) as [pre Hlast].
  destruct (run_sends (length (pre ++ [encodeEvent ev])) s1 m kb nb j bob l _ Hm Hj Hq1) as (s2 & n2 & Hr2 & Hd2 & Hrel2);
    [cbn [q]; by rewrite Hlast|]. cbn [q] in Hd2. rewrite Hlast, firstn_all in Hd2.
  destruct (run_packets (length (down n2)) s2 (<[kb := n2]> m) kb n2) as (n3 & Hr3 & Hw3);
    [apply lookup_insert_eq|done|by rewrite Hrel2|by rewrite Hrel2|]. rewrite insert_insert_eq in Hr3.
  eexists _, s2, n3. split; [exact (run_app _ _ _ _ _ _ _ Hr1 (run_app _ _ _ _ _ _ _ Hr2 Hr3))|].
  rewrite Hw3, Hd2. rewrite !elem_of_app. right. right. right. by apply list_elem_of_singleton.
Qed.

(** C4. A move is seen: in any state of the system, when a player's frame
    with a position is read while its rate limits admit it and the game has
    nothing else to do, then for
    every other player within the interest radius of the new position, with
    a connection that is up, the system can run (the relay forwards the
    frame, the server receives it, a tick, the event loop, the sender and
    the other relay) until that player's websocket has been sent a frame
    that the client prints as the move of the player to that position. *)
Theorem move_is_seen `{!WireLaws WI} (s0 : gameServerServer) (ins0 : list entry) (s : gameServerServer) (m : gmap nat link) (ka kb : nat) (na nb : link) (data : list Byte.byte)
    (now : Time) (c : TickClock) (v : Byte.byte) (payload : list Byte.byte) (fl : bool) (sq : Z) (upd : EntityUpdate)
    (p : loc) (e : Entity) (z : ZoneID) (sim : zoneSim) (a : AOI) (bob : string) (l : positive) :
  let alice := rclient (lrelay na) in
  let pos := default zero_vec (uPosition upd) in
  let near := observers alice pos (of_int 300) (Move alice pos a) in
  starts (mkProcess s0 ∅) → sys_run secret (mkSystem s0 ∅) ins0 (mkSystem s m) → quiescent (game s) →
  m !! ka = Some na → speaks now na →
  Decode data = (v, PacketIDPositionUpdate, payload, fl, sq, None) → unmarshal_update payload = Some upd →
  Entities (game s) !! alice = Some p → eheap (game s) !! p = Some e →
  entityZone (game s) !! alice = Some z → Zones (game s) !! z = Some sim → aheap (game s) !! saoi sim = Some a →
  bob ∈ near → (length near ≤ 4096)%nat →
  kb ≠ ka → m !! kb = Some nb → clients (registry_ s) !! bob = Some l → listens bob l nb →
  ∃ acts ins s' n' d, run_actions secret acts (mkSystem s m) = Some (ins, s') ∧ links s' !! kb = Some n' ∧
    d ∈ written (lrelay n') ∧ read_message d = LMove alice pos.
Proof.
  intros alice pos near Hstart Hrun Hquiet Hma Hsp Hdec Hupd Hent Hheap Hez Hzs Haoi Hbob Hlen Hk Hmb Hcl Hlis.
  destruct (sys_run_sound _ _ _ Hstart Hrun) as [Hg Hreg]. cbn [server] in Hg, Hreg.
  destruct (run_frame s m ka na data now c Hg Hquiet Hma Hsp) as (ins & g' & na' & Hr1 & Hpre).
  set (h := game s <| lastTickAt := tStart c |> <| Inbox := [] |>) in *. fold alice in Hpre.
  assert (game_wf h) as Hh.
  { apply wf_set_inbox; [|cbn; lia]. apply reachable_wf in Hg. exact (wf_set_counters (tickCount (game s)) (tStart c) _ Hg). }
  destruct (position_packet (mkInbound alice data) h v payload fl sq upd p e z sim a Hh Hdec Hupd Hent Hheap Hez Hzs Haoi) as (_ & _ & _ & Hev).
  fold pos near in Hev. assert (Events h = []) as Hh0 by apply Hquiet. rewrite Hh0 in Hev. cbn [length app ClientID] in Hev.
  fold pos near in Hev. rewrite take_ge in Hev by (rewrite length_fmap; change (4096 - 0)%nat with 4096%nat; exact Hlen).
  apply list_elem_of_lookup in Hbob as [i Hi].
  set (ev := mkEvent EventMove (eRuntimeID e) bob alice "" pos []).
  assert (Events g' !! i = Some ev) as Hiev.
  { eapply prefix_lookup_Some; [|exact Hpre]. rewrite Hev, list_lookup_fmap, Hi. done. }
  destruct (run_event (mkServer g' (registry_ s) (inbox_dropped s)) (<[ka := na']> m) kb nb bob l i ev) as (acts & s' & n' & Hr2 & Hd);
    [done|done|by rewrite lookup_insert_ne|done|done|done|].
  eexists _, _, _, n', (encodeEvent ev). split; [exact (run_app _ _ _ _ _ _ _ Hr1 Hr2)|].
  cbn [links]. rewrite lookup_insert_eq. split_and!; [done|done|].
  unfold read_message, encodeEvent. cbn [evKind ev]. unfold encodeMoveEvent. rewrite Decode_Encode_plain by done. cbn.
  by rewrite wire_update.
Qed.
End delivery.
