(* ===== verification/RuntimeApi.v ===== *)
(** * The runtime API under concurrent calls

    [internal/room/api.go] with its interface and its sharing: [RuntimeStore]
    hands out pointers to records that it goes on to change under its own lock,
    and the handlers of [SpatialServerAPI] read the fields behind them after
    the lock has been released.  The interface is a class with its laws, the
    memory store an instance of it over a heap of records, a handler a program
    whose steps (a call of the store, a read through a pointer) interleave with
    those of other calls.  The functions of Room on whole maps are the atomic
    reference. *)

From S2P Require Import Prelude GoFloat Types Room.
From stdpp Require Import base tactics list gmap strings fin_maps.
From Stdlib Require Import ZArith Lia.

Local Open Scope Z_scope.

Abbreviation runtimes := (gmap string RuntimeRecord).

(** ** The interface *)

(** [S] is the store, [R] its pointers; [st_load] reads the record behind one,
    [None] standing for a nil dereference. *)
Class RuntimeStore (S R : Type) := {
  st_Create : string → Z → float64 → Time → S → result error R * S;
  st_Get : string → S → result error R;
  st_Destroy : string → S → result error unit * S;
  st_List : string → Z → S → result error (list R * string);
  st_load : S → R → option RuntimeRecord
}.

(** The pointer leads to the store's own record of [id]. *)
Definition points_to {S R : Type} {ST : RuntimeStore S R} (view : S → runtimes) (s : S) (r : R) (id : string) : Prop :=
  ∃ rec, st_load s r = Some rec ∧ view s !! id = Some rec.

(** What the handlers rely on: on the map a store stands for its operations are
    those of Room, and the pointers it has handed out stay with its records. *)
Class RuntimeStoreLaws {S R : Type} (ST : RuntimeStore S R) := {
  st_ok : S → Prop;
  st_view : S → runtimes;
  create_ok : ∀ id zc zs now s, st_ok s →
    match rt_Create id zc zs now (st_view s), st_Create id zc zs now s with
    | Ok (_, m), (Ok r, s') => st_view s' = m ∧ st_ok s' ∧ points_to st_view s' r id
    | Err e, (Err e', s') => e' = e ∧ s' = s
    | _, _ => False
    end;
  get_ok : ∀ id s, st_ok s →
    match rt_Get id (st_view s), st_Get id s with
    | Ok _, Ok r => points_to st_view s r id
    | Err e, Err e' => e' = e
    | _, _ => False
    end;
  destroy_ok : ∀ id s, st_ok s →
    match rt_Destroy id (st_view s), st_Destroy id s with
    | Ok m, (Ok _, s') => st_view s' = m ∧ st_ok s'
    | Err e, (Err e', s') => e' = e ∧ s' = s
    | _, _ => False
    end;
  list_ok : ∀ tok n s, st_ok s → ∃ rs ids next, st_List tok n s = Ok (rs, next) ∧
    Forall2 (points_to st_view s) rs ids ∧ NoDup ids ∧
    (∀ id, id ∈ ids → ∃ rec, st_view s !! id = Some rec ∧ rtStatus rec ≠ RuntimeStatusDestroyed) ∧
    (next = "" → ∀ id rec, st_view s !! id = Some rec → rtStatus rec ≠ RuntimeStatusDestroyed → id ∈ ids);
  view_id : ∀ id rec s, st_ok s → st_view s !! id = Some rec → rtID rec = id;
  create_points : ∀ id zc zs now s r i, st_ok s → points_to st_view s r i → points_to st_view (st_Create id zc zs now s).2 r i;
  destroy_points : ∀ id s r i, st_ok s → points_to st_view s r i → points_to st_view (st_Destroy id s).2 r i
}.
Arguments st_ok {S R ST _} s.
Arguments st_view {S R ST _} s.

(** ** The memory store *)

Record MemoryRuntimeStore := mkMemory { rt_heap : gmap positive RuntimeRecord; rt_data : gmap string positive }.

Definition NewMemoryRuntimeStore : MemoryRuntimeStore := mkMemory ∅ ∅.

Definition mem_Create (id : string) (zoneCount : Z) (zoneSize : float64) (now : Time) (m : MemoryRuntimeStore)
    : result error positive * MemoryRuntimeStore :=
  match rt_data m !! id with
  | Some _ => (Err ErrConflict, m)
  | None =>
      let p := fresh (dom (rt_heap m)) in
      let r := mkRuntime id RuntimeStatusActive zoneCount zoneSize (zone_names id zoneCount) 0 now in
      (Ok p, mkMemory (<[p := r]> (rt_heap m)) (<[id := p]> (rt_data m)))
  end.

Definition mem_Get (id : string) (m : MemoryRuntimeStore) : result error positive :=
  match rt_data m !! id with Some p => Ok p | None => Err ErrNotFound end.

(** [r.Status = RuntimeStatusDestroyed] through the pointer. *)
Definition destroyed (r : RuntimeRecord) : RuntimeRecord :=
  mkRuntime (rtID r) RuntimeStatusDestroyed (rtZoneCount r) (rtZoneSize r) (rtZoneIDs r) (rtPlayerCount r) (rtCreatedAt r).

Definition mem_Destroy (id : string) (m : MemoryRuntimeStore) : result error unit * MemoryRuntimeStore :=
  match rt_data m !! id with
  | None => (Err ErrNotFound, m)
  | Some p => (Ok tt, mkMemory (alter destroyed p (rt_heap m)) (rt_data m))
  end.

(** The page token and the page size are ignored. *)
Definition mem_List `{RO : RangeOrder} (_ : string) (_ : Z) (m : MemoryRuntimeStore) : result error (list positive * string) :=
  Ok ('(_, p) ← range_list (rt_data m);
      match rt_heap m !! p with
      | Some r => if rtStatus r =? RuntimeStatusDestroyed then [] else [p]
      | None => []
      end, "").

#[export] Instance MemoryStore `{RO : RangeOrder} : RuntimeStore MemoryRuntimeStore positive := {|
  st_Create := mem_Create; st_Get := mem_Get; st_Destroy := mem_Destroy; st_List := mem_List;
  st_load m p := rt_heap m !! p
|}.

(** Every entry has a record of its own, and every record an entry. *)
Record mem_ok (m : MemoryRuntimeStore) : Prop := {
  mo_valid : ∀ id p, rt_data m !! id = Some p → ∃ r, rt_heap m !! p = Some r ∧ rtID r = id;
  mo_used : ∀ p r, rt_heap m !! p = Some r → rt_data m !! rtID r = Some p
}.

Definition mem_view (m : MemoryRuntimeStore) : runtimes := omap (λ p, rt_heap m !! p) (rt_data m).

Section memory.
Context `{RO : RangeOrder}.
Implicit Types m : MemoryRuntimeStore.

Lemma mem_view_lookup m id : mem_view m !! id = rt_data m !! id ≫= λ p, rt_heap m !! p.
Proof. apply lookup_omap. Qed.

Lemma mem_view_entry m id p : rt_data m !! id = Some p → mem_view m !! id = rt_heap m !! p.
Proof. intros Hp. by rewrite mem_view_lookup, Hp. Qed.

(** In a store that is well formed, a pointer to the record of [id] is the entry of [id]. *)
Lemma points_to_entry m p id : mem_ok m → points_to mem_view m p id ↔ rt_data m !! id = Some p.
Proof.
  intros Hok. split.
  - intros (r & Hp & Hv). cbn in Hp. rewrite mem_view_lookup in Hv. destruct (rt_data m !! id) as [q|] eqn:Hq; [|done].
    destruct (mo_valid m Hok id q Hq) as (r' & Hr' & <-). cbn in Hv. rewrite Hr' in Hv. injection Hv as ->.
    rewrite <-Hq. by apply mo_used.
  - intros Hp. destruct (mo_valid m Hok id p Hp) as (r & Hr & _). exists r. split; [exact Hr|]. by rewrite (mem_view_entry _ _ p).
Qed.

Lemma mem_Create_ok id zc zs now m : mem_ok m →
  match rt_Create id zc zs now (mem_view m), mem_Create id zc zs now m with
  | Ok (_, v), (Ok p, m') => mem_view m' = v ∧ mem_ok m' ∧ points_to mem_view m' p id
  | Err e, (Err e', m') => e' = e ∧ m' = m
  | _, _ => False
  end.
Proof.
  intros Hok. unfold rt_Create, mem_Create. destruct (rt_data m !! id) as [p|] eqn:Ed.
  { destruct (mo_valid m Hok id p Ed) as (r & Hr & _). by rewrite (mem_view_entry _ _ p), Hr. }
  assert (mem_view m !! id = None) as -> by (by rewrite mem_view_lookup, Ed).
  set (p := fresh (dom (rt_heap m))). set (r := mkRuntime _ _ _ _ _ _ _).
  assert (rt_heap m !! p = None) as Hp by (apply not_elem_of_dom, is_fresh).
  set (m' := mkMemory _ _). assert (mem_ok m') as Hok'.
  { split; cbn; intros i q.
    - intros [[<- <-]|[Hne Hq]]%lookup_insert_Some; [exists r; by rewrite lookup_insert_eq|].
      destruct (mo_valid m Hok i q Hq) as (r' & Hr' & Hi). exists r'. rewrite lookup_insert_ne; [done|congruence].
    - intros [[<- <-]|[Hne Hr]]%lookup_insert_Some; [apply lookup_insert_eq|].
      pose proof (mo_used m Hok i q Hr) as Hu. rewrite lookup_insert_ne; [done|]. intros Hid. congruence. }
  split_and!; [|done|by apply points_to_entry; [done|apply lookup_insert_eq]].
  apply map_eq. intros i. rewrite mem_view_lookup. unfold m'. cbn [rt_data rt_heap]. destruct (decide (i = id)) as [->|Hne].
  - rewrite !lookup_insert_eq. cbn. by rewrite lookup_insert_eq.
  - rewrite !lookup_insert_ne by done. rewrite mem_view_lookup. destruct (rt_data m !! i) as [q|] eqn:Eq; [|done].
    cbn. destruct (mo_valid m Hok i q Eq) as (r' & Hr' & _). rewrite lookup_insert_ne; [done|congruence].
Qed.

Lemma mem_Destroy_ok id m : mem_ok m →
  match rt_Destroy id (mem_view m), mem_Destroy id m with
  | Ok v, (Ok _, m') => mem_view m' = v ∧ mem_ok m'
  | Err e, (Err e', m') => e' = e ∧ m' = m
  | _, _ => False
  end.
Proof.
  intros Hok. unfold rt_Destroy, mem_Destroy. rewrite mem_view_lookup.
  destruct (rt_data m !! id) as [p|] eqn:Ed; [|done]. cbn [mbind option_bind].
  destruct (mo_valid m Hok id p Ed) as (r & Hr & Hid). rewrite Hr. split.
  - apply map_eq. intros i. rewrite mem_view_lookup. cbn [rt_data rt_heap]. destruct (decide (i = id)) as [->|Hne].
    + rewrite lookup_insert_eq, Ed. cbn. by rewrite lookup_alter_eq, Hr.
    + rewrite lookup_insert_ne by done. rewrite mem_view_lookup. destruct (rt_data m !! i) as [q|] eqn:Eq; [|done].
      cbn. apply lookup_alter_ne. intros ->. destruct (mo_valid m Hok i q Eq) as (? & ? & ?). congruence.
  - split; cbn; intros i q.
    + intros Hq. destruct (mo_valid m Hok i q Hq) as (r' & Hr' & ?). rewrite lookup_alter.
      case_decide; subst; rewrite Hr'; cbn; [exists (destroyed r')|exists r']; done.
    + rewrite lookup_alter. case_decide; [|by apply mo_used]. subst. rewrite Hr. intros [= <-]. cbn. by apply mo_used.
Qed.

Lemma mem_List_ok tok n m : mem_ok m → ∃ ps ids, mem_List tok n m = Ok (ps, "") ∧
  Forall2 (points_to mem_view m) ps ids ∧ NoDup ids ∧
  ∀ id, id ∈ ids ↔ ∃ r, mem_view m !! id = Some r ∧ rtStatus r ≠ RuntimeStatusDestroyed.
Proof.
  intros Hok.
  set (live := λ kp : string * positive, match rt_heap m !! kp.2 with Some r => negb (rtStatus r =? RuntimeStatusDestroyed) | None => false end).
  assert (∀ l, ('(_, p) ← l; match rt_heap m !! p with
      | Some r => if rtStatus r =? RuntimeStatusDestroyed then [] else [p] | None => [] end) = (filter live l).*2) as Hf.
  { induction l as [|[k p] l IH]; [done|]. rewrite bind_cons, IH, filter_cons. 
    destruct (decide (live (k, p))) as [Hl|Hl]; unfold live in Hl; cbn in Hl;
      (destruct (rt_heap m !! p) as [r|]; [destruct (rtStatus r =? _)|]); naive_solver. }
  exists (filter live (range_list (rt_data m))).*2, (filter live (range_list (rt_data m))).*1.
  unfold mem_List. rewrite Hf. split; [done|]. split_and!.
  - assert (∀ l, l ⊆ range_list (rt_data m) → Forall2 (points_to mem_view m) l.*2 l.*1) as H.
    { induction l as [|[k p] l IH]; intros Hl; constructor; [|apply IH; set_solver].
      apply points_to_entry; [done|]. apply elem_of_range_list. cbn. set_solver. }
    apply H. intros kp [_ ?]%list_elem_of_filter. done.
  - assert (sublist (filter live (range_list (rt_data m))).*1 (range_list (rt_data m)).*1) as Hs.
    { apply fmap_sublist, sublist_filter. }
    exact (sublist_NoDup _ _ (NoDup_fst_range_list _) Hs).
  - intros id. rewrite list_elem_of_fmap. split.
    + intros ([k p] & -> & [Hl Hkp%elem_of_range_list]%list_elem_of_filter). cbn. rewrite (mem_view_entry _ _ p) by done.
      unfold live in Hl. cbn in Hl. destruct (rt_heap m !! p) as [r|]; [|done]. exists r. split; [done|].
      intros Hd. by rewrite Hd, Z.eqb_refl in Hl.
    + intros (r & Hr & Hst). rewrite mem_view_lookup in Hr. destruct (rt_data m !! id) as [p|] eqn:Ep; [|done]. cbn in Hr.
      exists (id, p). split; [done|]. apply list_elem_of_filter. split; [|by apply elem_of_range_list].
      unfold live. cbn. rewrite Hr. by apply Z.eqb_neq in Hst as ->.
Qed.

#[export] Program Instance MemoryStore_laws : RuntimeStoreLaws MemoryStore := {| st_ok := mem_ok; st_view := mem_view |}.
Next Obligation. intros. by apply mem_Create_ok. Qed.
Next Obligation.
  intros id m Hok. unfold rt_Get. cbn. unfold mem_Get. rewrite mem_view_lookup. destruct (rt_data m !! id) as [p|] eqn:E; cbn; [|done].
  destruct (mo_valid m Hok id p E) as (r & Hr & _). rewrite Hr. by apply points_to_entry.
Qed.
Next Obligation. intros. by apply mem_Destroy_ok. Qed.
Next Obligation.
  intros tok n m Hok. destruct (mem_List_ok tok n m Hok) as (ps & ids & E & H1 & H2 & H3). exists ps, ids, "".
  split_and!; [done|done|done|by intros; apply H3|]. intros _ id rec ? ?. apply H3. by exists rec.
Qed.
Next Obligation.
  intros id r m Hok Hr. rewrite mem_view_lookup in Hr. destruct (rt_data m !! id) as [p|] eqn:E; [|done].
  destruct (mo_valid m Hok id p E) as (r' & Hr' & ?). cbn in Hr. congruence.
Qed.
Next Obligation.
  intros id zc zs now m p i Hok Hp. pose proof (mem_Create_ok id zc zs now m Hok) as H. cbn in *.
  apply points_to_entry in Hp; [|done]. unfold rt_Create, mem_Create in *. destruct (rt_data m !! id) as [q|] eqn:E; [by apply points_to_entry|].
  rewrite mem_view_lookup, E in H. cbn in H. destruct H as (_ & Hok' & _). apply points_to_entry; [done|]. cbn.
  rewrite lookup_insert_ne; [done|congruence].
Qed.
Next Obligation.
  intros id m p i Hok Hp. pose proof (mem_Destroy_ok id m Hok) as H. cbn in *. apply points_to_entry in Hp; [|done].
  unfold rt_Destroy, mem_Destroy in *. destruct (rt_data m !! id) as [q|] eqn:E; [|by apply points_to_entry].
  destruct (mo_valid m Hok id q E) as (r & Hr & _). rewrite mem_view_lookup, E in H. cbn in H. rewrite Hr in H.
  by apply points_to_entry; [apply H|].
Qed.
End memory.

(** ** The handlers *)

Record SpatialServerAPI := mkAPI { gatewayAddr : string; defaultZones : Z; defaultSize : float64 }.

Definition NewSpatialServerAPI (gatewayAddr : string) : SpatialServerAPI := mkAPI gatewayAddr 1 (of_int 100).

Inductive api_op :=
| OpCreate (id : string) (zoneCount : Z) (zoneSize : float64)
| OpDestroy (id : string)
| OpInfo (id : string)
| OpMetrics (id : string)
| OpList (pageToken : string) (pageSize : Z).

Inductive api_resp :=
| RCreate (r : result code CreateRuntimeResponse)
| RDestroy (r : result code bool)
| RInfo (r : result code RuntimeInfo)
| RMetrics (r : result code (string * Z))
| RList (r : result code (list RuntimeInfo * string)).

(** Where a handler is: at its start, or holding the pointers it has not read. *)
Inductive api_pc {R : Type} :=
| Entered (op : api_op)
| Created (r : R)
| Info (r : R)
| Metrics (r : R)
| Listed (rest : list R) (acc : list RuntimeInfo) (next : string).
Arguments api_pc : clear implicits.

Definition created_response (a : SpatialServerAPI) (rec : RuntimeRecord) : CreateRuntimeResponse :=
  mkCreated (rtID rec) (gatewayAddr a) (wrap32 (rtZoneCount rec)) (zone_names (rtID rec) (rtZoneCount rec)).

Definition err_code (e : error) : code := if bool_decide (e = ErrNotFound) then NotFound else Internal.

Section handlers.
Context {S R : Type} {ST : RuntimeStore S R}.

(** One step of a handler: a call of the store or the reads through one
    pointer.  Of the fields read only the status ever changes, so that the
    reads of one record count as one. *)
Definition api_next (a : SpatialServerAPI) (now : Time) (pc : api_pc R) (s : S) : option ((api_pc R + api_resp) * S) :=
  match pc with
  | Entered (OpCreate id zc zs) =>
      if bool_decide (id = "") then Some (inr (RCreate (Err InvalidArgument)), s)
      else
        let zc := if zc <=? 0 then wrap32 (defaultZones a) else zc in
        let zs := if fleb zs fzero then defaultSize a else zs in
        match st_Create id zc zs now s with
        | (Err _, s) => Some (inr (RCreate (Err Internal)), s)
        | (Ok r, s) => Some (inl (Created r), s)
        end
  | Created r => rec ← st_load s r; Some (inr (RCreate (Ok (created_response a rec))), s)
  | Entered (OpDestroy id) =>
      match st_Destroy id s with
      | (Err e, s) => Some (inr (RDestroy (Err (err_code e))), s)
      | (Ok _, s) => Some (inr (RDestroy (Ok true)), s)
      end
  | Entered (OpInfo id) =>
      match st_Get id s with
      | Err e => Some (inr (RInfo (Err (err_code e))), s)
      | Ok r => Some (inl (Info r), s)
      end
  | Info r => rec ← st_load s r; Some (inr (RInfo (Ok (info_of rec))), s)
  | Entered (OpMetrics id) =>
      match st_Get id s with
      | Err e => Some (inr (RMetrics (Err (err_code e))), s)
      | Ok r => Some (inl (Metrics r), s)
      end
  | Metrics r => rec ← st_load s r; Some (inr (RMetrics (Ok (rtID rec, wrap32 (rtPlayerCount rec)))), s)
  | Entered (OpList tok n) =>
      match st_List tok (if n <=? 0 then 50 else n) s with
      | Err _ => Some (inr (RList (Err Internal)), s)
      | Ok (rs, next) => Some (inl (Listed rs [] next), s)
      end
  | Listed [] acc next => Some (inr (RList (Ok (acc, next))), s)
  | Listed (r :: rest) acc next => rec ← st_load s r; Some (inl (Listed rest (acc ++ [info_of rec]) next), s)
  end.

(** The service: its store, the calls in progress and the answers given. *)
Record api_sys := mkSys {
  store : S;
  in_flight : gmap nat (api_op * api_pc R);
  answered : gmap nat (api_op * api_resp)
}.

Inductive api_event := Invoke (k : nat) (op : api_op) | Advance (k : nat) (now : Time).

Definition api_step (a : SpatialServerAPI) (s : api_sys) (ev : api_event) : option api_sys :=
  match ev with
  | Invoke k op =>
      match in_flight s !! k, answered s !! k with
      | None, None => Some (mkSys (store s) (<[k := (op, Entered op)]> (in_flight s)) (answered s))
      | _, _ => None
      end
  | Advance k now =>
      '(op, pc) ← in_flight s !! k;
      '(next, st) ← api_next a now pc (store s);
      Some match next with
           | inl pc => mkSys st (<[k := (op, pc)]> (in_flight s)) (answered s)
           | inr resp => mkSys st (delete k (in_flight s)) (<[k := (op, resp)]> (answered s))
           end
  end.

(** ** The atomic reference *)

Abbreviation entry := (Time * nat * api_op)%type.

(** The step at which a call takes effect: the call of the store, or the read
    if the store had a record.  Listings have none. *)
Definition effect (s : api_sys) (ev : api_event) : list entry :=
  match ev with
  | Invoke _ _ => []
  | Advance k now =>
      match in_flight s !! k with
      | Some (op, Entered (OpCreate _ _ _)) | Some (op, Entered (OpDestroy _)) => [(now, k, op)]
      | Some (op, Entered (OpInfo id)) | Some (op, Entered (OpMetrics id)) => if is_ok (st_Get id (store s)) then [] else [(now, k, op)]
      | Some (op, Info _) | Some (op, Metrics _) => [(now, k, op)]
      | _ => []
      end
  end.

Fixpoint api_run (a : SpatialServerAPI) (evs : list api_event) (s : api_sys) (lin : list entry) : option (api_sys * list entry) :=
  match evs with
  | [] => Some (s, lin)
  | ev :: evs => s' ← api_step a s ev; api_run a evs s' (lin ++ effect s ev)
  end.
End handlers.

Section reference.
Context `{RO : RangeOrder}.

Definition api_atomic (a : SpatialServerAPI) (now : Time) (op : api_op) (m : runtimes) : api_resp * runtimes :=
  match op with
  | OpCreate id zc zs => let '(r, m) := CreateRuntime (gatewayAddr a) id zc zs now m in (RCreate r, m)
  | OpDestroy id => let '(r, m) := DestroyRuntime id m in (RDestroy r, m)
  | OpInfo id => (RInfo (GetRuntimeInfo id m), m)
  | OpMetrics id => (RMetrics (GetRuntimeMetrics id m), m)
  | OpList _ _ => (RList (Ok (ListRuntimes m)), m)
  end.

Definition replay_one (a : SpatialServerAPI) (st : list api_resp * runtimes) (e : Time * nat * api_op) : list api_resp * runtimes :=
  let '(r, m) := api_atomic a e.1.1 e.2 st.2 in (st.1 ++ [r], m).

(** The answers of the calls of [lin], one after the other, and the final map. *)
Definition replay (a : SpatialServerAPI) (lin : list (Time * nat * api_op)) (m : runtimes) : list api_resp * runtimes :=
  foldl (replay_one a) ([], m) lin.

Lemma replay_snoc a lin e m : replay a (lin ++ [e]) m = replay_one a (replay a lin m) e.
Proof. unfold replay. by rewrite foldl_app. Qed.

Lemma length_replay a lin m : length (replay a lin m).1 = length lin.
Proof.
  induction lin as [|e lin IH] using rev_ind; [done|]. rewrite replay_snoc. unfold replay_one.
  destruct (api_atomic _ _ _ _). cbn. rewrite !length_app. cbn. by rewrite IH.
Qed.
End reference.

(** ** Linearizability *)

Definition calls (lin : list (Time * nat * api_op)) : list nat := (λ e, e.1.2) <$> lin.

Lemma calls_app l1 l2 : calls (l1 ++ l2) = calls l1 ++ calls l2.
Proof. apply fmap_app. Qed.

Definition is_list (op : api_op) : Prop := match op with OpList _ _ => True | _ => False end.

Section linear.
Context `{RO : RangeOrder} {S R : Type} {ST : RuntimeStore S R} {LW : RuntimeStoreLaws ST}.
Context (gw : string) (m0 : runtimes).
Let a := NewSpatialServerAPI gw.
Implicit Types (s : S) (lin : list (Time * nat * api_op)) (y : api_sys (S := S) (R := R)).

Abbreviation points := (points_to (ST := ST) st_view).

(** What a store may do while a handler waits. *)
Record evolves s s' : Prop := {
  ev_points : ∀ r id, points s r id → points s' r id;
  ev_records : ∀ id rec, st_view s !! id = Some rec → ∃ rec', st_view s' !! id = Some rec' ∧ (rec' = rec ∨ rec' = destroyed rec)
}.

Lemma evolves_refl s : evolves s s.
Proof. split; [done|]. intros id rec ?. exists rec. auto. Qed.

Lemma create_evolves id zc zs now s : st_ok s → evolves s (st_Create id zc zs now s).2 ∧ st_ok (st_Create id zc zs now s).2.
Proof.
  intros Hok. pose proof (create_ok id zc zs now s Hok) as H. pose proof (create_points id zc zs now s) as Hp. unfold rt_Create in H.
  destruct (st_view s !! id) as [r0|] eqn:Ev; destruct (st_Create id zc zs now s) as [[r|e] s']; cbn [snd] in *; try done.
  - destruct H as [_ ->]. split; [apply evolves_refl|done].
  - destruct H as (Hv & Hok' & _). split; [|done]. split; [by intros; apply Hp|]. intros i rec Hi. exists rec.
    rewrite Hv, lookup_insert_ne by congruence. auto.
Qed.

Lemma destroy_evolves id s : st_ok s → evolves s (st_Destroy id s).2 ∧ st_ok (st_Destroy id s).2.
Proof.
  intros Hok. pose proof (destroy_ok id s Hok) as H. pose proof (destroy_points id s) as Hp. unfold rt_Destroy in H.
  destruct (st_view s !! id) as [r0|] eqn:Ev; destruct (st_Destroy id s) as [[r|e] s']; cbn [snd] in *; try done.
  - destruct H as (Hv & Hok'). split; [|done]. split; [by intros; apply Hp|]. intros i rec Hi. rewrite Hv.
    destruct (decide (i = id)) as [->|Hne]; [|rewrite lookup_insert_ne by done; by eauto].
    rewrite lookup_insert_eq. eexists. split; [done|]. right. by simplify_eq.
  - destruct H as [_ ->]. split; [apply evolves_refl|done].
Qed.

Lemma created_destroyed rec : created_response a (destroyed rec) = created_response a rec.
Proof. done. Qed.

(** A step changes the store by at most one operation. *)
Lemma next_evolves now pc s next s' : st_ok s → api_next a now pc s = Some (next, s') → evolves s s' ∧ st_ok s'.
Proof.
  intros Hok. destruct pc as [[id zc zs|id|id|id|tok n]|r|r|r|[|r rest] acc next']; cbn [api_next];
    [case_bool_decide; [|case_match eqn:E; pose proof (create_evolves id
        (if zc <=? 0 then wrap32 (defaultZones a) else zc) (if fleb zs fzero then defaultSize a else zs) now s Hok) as Hc; rewrite E in Hc]
    |case_match eqn:E; pose proof (destroy_evolves id s Hok) as Hc; rewrite E in Hc|..];
    repeat case_match; try (destruct (st_load s r)); intros; simplify_eq/=; auto using evolves_refl.
Qed.

(** The entry of a call, with its answer. *)
Definition replied lin (k : nat) (op : api_op) (resp : api_resp) : Prop :=
  ∃ i now, lin !! i = Some (now, k, op) ∧ (replay a lin m0).1 !! i = Some resp.

Lemma replied_app lin l k op resp : replied lin k op resp → replied (lin ++ l) k op resp.
Proof.
  induction l as [|e l IH] using rev_ind; [by rewrite app_nil_r|]. intros (i & now & Hi & Hr)%IH. exists i, now.
  rewrite app_assoc. split; [by apply lookup_app_l_Some|]. rewrite replay_snoc. unfold replay_one.
  destruct (api_atomic _ _ _ _). by apply lookup_app_l_Some.
Qed.

Lemma replied_last lin now k op m resp m' :
  (replay a lin m0).2 = m → api_atomic a now op m = (resp, m') →
  replied (lin ++ [(now, k, op)]) k op resp ∧ (replay a (lin ++ [(now, k, op)]) m0).2 = m'.
Proof.
  intros Hm Ha. rewrite replay_snoc. unfold replied. rewrite replay_snoc. unfold replay_one. cbn [fst snd]. rewrite Hm, Ha. cbn [fst snd].
  split; [|done]. exists (length lin), now. rewrite <-(length_replay a lin m0) at 2. by rewrite !list_lookup_middle.
Qed.

(** What holds of a call in progress. *)
Definition pc_ok s lin (k : nat) (op : api_op) (pc : api_pc R) : Prop :=
  match pc with
  | Entered op' => op' = op ∧ k ∉ calls lin
  | Created r => ¬ is_list op ∧ ∃ id rec, points s r id ∧ st_view s !! id = Some rec ∧ replied lin k op (RCreate (Ok (created_response a rec)))
  | Info r => (k ∉ calls lin) ∧ ∃ id, op = OpInfo id ∧ points s r id
  | Metrics r => (k ∉ calls lin) ∧ ∃ id, op = OpMetrics id ∧ points s r id
  | Listed rest _ _ => is_list op ∧ (k ∉ calls lin) ∧ Forall (λ r, ∃ id, points s r id) rest
  end.

Lemma pc_ok_mono s s' lin l k op pc : evolves s s' → k ∉ calls l → pc_ok s lin k op pc → pc_ok s' (lin ++ l) k op pc.
Proof.
  intros [Hp Hr] Hl. unfold pc_ok. rewrite calls_app. destruct pc as [op'|r|r|r|rest acc next].
  - set_solver.
  - intros (Hop & id & rec & H1 & H2 & H3). split; [done|]. destruct (Hr id rec H2) as (rec' & H4 & H5). exists id, rec'.
    split_and!; [by apply Hp|done|]. apply (replied_app lin l) in H3. destruct H5 as [->| ->]; [done|by rewrite created_destroyed].
  - intros (? & id & ? & ?). split; [set_solver|]. exists id. auto.
  - intros (? & id & ? & ?). split; [set_solver|]. exists id. auto.
  - intros (? & ? & Hrest). split_and!; [done|set_solver|]. eapply Forall_impl; [exact Hrest|]. cbn. intros r [id ?]. exists id. auto.
Qed.

Record api_inv y lin : Prop := {
  iv_ok : st_ok (store y);
  iv_view : (replay a lin m0).2 = st_view (store y);
  iv_nodup : NoDup (calls lin);
  iv_calls : ∀ k, match in_flight y !! k, answered y !! k with
    | None, None => k ∉ calls lin
    | Some (op, pc), None => pc_ok (store y) lin k op pc
    | None, Some (op, resp) => is_list op ∨ replied lin k op resp
    | Some _, Some _ => False
    end
}.

Lemma api_inv_start s : st_ok s → st_view s = m0 → api_inv (mkSys s ∅ ∅) [].
Proof. intros Hok Hv. split; [done|by cbn|constructor|]. intros k. cbn. apply not_elem_of_nil. Qed.

Lemma inv_invoke y lin k op y' : api_inv y lin → api_step a y (Invoke k op) = Some y' → api_inv y' lin.
Proof.
  intros [H1 H2 H3 H4] E. cbn in E. pose proof (H4 k) as Hk.
  destruct (in_flight y !! k) eqn:Ei; [done|]. destruct (answered y !! k) eqn:Ea; [done|]. simplify_eq. split; [done|done|done|].
  intros k'. cbn. destruct (decide (k' = k)) as [->|Hne]; [by rewrite lookup_insert_eq, Ea|].
  rewrite lookup_insert_ne by done. apply H4.
Qed.

(** What a step leaves of its call. *)
Definition next_ok s lin (k : nat) (op : api_op) (next : api_pc R + api_resp) : Prop :=
  match next with inl pc => pc_ok s lin k op pc | inr resp => is_list op ∨ replied lin k op resp end.

Lemma inv_after y lin k op pc next s' l y' now :
  api_inv y lin → in_flight y !! k = Some (op, pc) → api_next a now pc (store y) = Some (next, s') →
  (replay a (lin ++ l) m0).2 = st_view s' → (l = [] ∨ (∃ t, l = [(t, k, op)]) ∧ k ∉ calls lin) → next_ok s' (lin ++ l) k op next →
  api_step a y (Advance k now) = Some y' → api_inv y' (lin ++ l).
Proof.
  intros [H1 H2 H3 H4] Hk En Hv Hl Hn E. cbn in E. rewrite Hk in E. cbn in E. rewrite En in E. cbn in E. injection E as <-.
  destruct (next_evolves now pc (store y) next s' H1 En) as [Hev Hok].
  assert (∀ k', k' ≠ k → k' ∉ calls l) as Hl'.
  { intros k' Hne. destruct Hl as [->|[[t ->] _]]; [apply not_elem_of_nil|]. cbn. set_solver. }
  pose proof (H4 k) as Hka. rewrite Hk in Hka. destruct (answered y !! k) eqn:Ea; [done|].
  assert (∀ y', store y' = s' → (∀ k', k' ≠ k → in_flight y' !! k' = in_flight y !! k' ∧ answered y' !! k' = answered y !! k') →
    match next with
    | inl pc => in_flight y' !! k = Some (op, pc) ∧ answered y' !! k = None
    | inr r => in_flight y' !! k = None ∧ answered y' !! k = Some (op, r)
    end → api_inv y' (lin ++ l)) as Hgoal.
  { intros y' Hs Hother Hown. split; [by rewrite Hs|by rewrite Hs| |].
    - rewrite calls_app. apply NoDup_app. destruct Hl as [->|[[t ->] Hnk]]; cbn; (split_and!; [done|set_solver|]);
        [constructor|apply NoDup_singleton].
    - intros k'. destruct (decide (k' = k)) as [->|Hne].
      + destruct next as [pc'|r]; destruct Hown as [-> ->]; [by rewrite Hs|done].
      + destruct (Hother k' Hne) as [-> ->]. specialize (H4 k'). rewrite Hs.
        destruct (in_flight y !! k') as [[op' pc']|], (answered y !! k') as [[op'' r']|]; [done| | |].
        * apply (pc_ok_mono (store y)); auto.
        * destruct H4 as [?|?]; [by left|right; by apply replied_app].
        * rewrite calls_app. set_solver. }
  destruct next as [pc'|r]; apply Hgoal; cbn; try done.
  - intros k' Hne. by rewrite lookup_insert_ne.
  - by rewrite lookup_insert_eq.
  - intros k' Hne. by rewrite lookup_delete_ne, lookup_insert_ne.
  - by rewrite lookup_delete_eq, lookup_insert_eq.
Qed.

(** A step that is the effect of its call. *)
Definition takes_effect lin (k : nat) (op : api_op) s' (next : api_pc R + api_resp) (l : list (Time * nat * api_op)) : Prop :=
  (replay a (lin ++ l) m0).2 = st_view s' ∧ (l = [] ∨ (∃ t, l = [(t, k, op)]) ∧ k ∉ calls lin) ∧ next_ok s' (lin ++ l) k op next.

Lemma effect_now lin k op now s s' resp next :
  (replay a lin m0).2 = st_view s → k ∉ calls lin → api_atomic a now op (st_view s) = (resp, st_view s') →
  (replied (lin ++ [(now, k, op)]) k op resp → next_ok s' (lin ++ [(now, k, op)]) k op next) →
  takes_effect lin k op s' next [(now, k, op)].
Proof.
  intros Hv Hk Ha Hn. destruct (replied_last lin now k op _ resp _ Hv Ha) as [Hr Hm].
  split_and!; [done|right; split; [by eexists|done]|by apply Hn].
Qed.

Lemma effect_later lin k op s next :
  (replay a lin m0).2 = st_view s → next_ok s lin k op next → takes_effect lin k op s next [].
Proof. intros. unfold takes_effect. rewrite !app_nil_r. auto. Qed.

Lemma create_correct lin k id zc zs now s next s' :
  st_ok s → (replay a lin m0).2 = st_view s → k ∉ calls lin → api_next a now (Entered (OpCreate id zc zs)) s = Some (next, s') →
  takes_effect lin k (OpCreate id zc zs) s' next [(now, k, OpCreate id zc zs)].
Proof.
  intros Hok Hv Hk. cbn [api_next]. case_bool_decide as Hid.
  { intros [= <- <-]. eapply effect_now; [done|done| |by right]. cbn. unfold CreateRuntime. by rewrite bool_decide_true. }
  change (wrap32 (defaultZones a)) with 1. change (defaultSize a) with (of_int 100).
  set (zc' := if zc <=? 0 then 1 else zc). set (zs' := if fleb zs fzero then of_int 100 else zs).
  pose proof (create_ok id zc' zs' now s Hok) as H.
  assert (api_atomic a now (OpCreate id zc zs) (st_view s) =
    match rt_Create id zc' zs' now (st_view s) with
    | Err _ => (RCreate (Err Internal), st_view s)
    | Ok (rec, m) => (RCreate (Ok (created_response a rec)), m)
    end) as Ha.
  { unfold api_atomic, CreateRuntime. rewrite bool_decide_false by done. cbv zeta. fold zc' zs'.
    by destruct (rt_Create id zc' zs' now (st_view s)) as [[]|]. }
  destruct (rt_Create id zc' zs' now (st_view s)) as [[rec m]|e] eqn:Ec;
    destruct (st_Create id zc' zs' now s) as [[r|e'] s1]; try done; intros [= <- <-].
  - destruct H as (Hm & _ & Hp). subst m. eapply effect_now; [done|done|exact Ha|]. intros Hr. cbn. split; [by intros []|]. exists id.
    pose proof Hp as (rec' & _ & Hview). exists rec'. split_and!; [done|done|].
    unfold rt_Create in Ec. destruct (st_view s !! id); [done|]. injection Ec as <- Hm. rewrite <-Hm, lookup_insert_eq in Hview.
    by injection Hview as <-.
  - destruct H as [_ ->]. eapply effect_now; [done|done|exact Ha|by right].
Qed.

Lemma destroy_correct lin k id now s next s' :
  st_ok s → (replay a lin m0).2 = st_view s → k ∉ calls lin → api_next a now (Entered (OpDestroy id)) s = Some (next, s') →
  takes_effect lin k (OpDestroy id) s' next [(now, k, OpDestroy id)].
Proof.
  intros Hok Hv Hk. cbn [api_next]. pose proof (destroy_ok id s Hok) as H.
  assert (api_atomic a now (OpDestroy id) (st_view s) =
    match rt_Destroy id (st_view s) with
    | Err e => (RDestroy (Err (err_code e)), st_view s)
    | Ok m => (RDestroy (Ok true), m)
    end) as Ha.
  { cbn. unfold DestroyRuntime. by destruct (rt_Destroy _ _). }
  destruct (rt_Destroy id (st_view s)) as [m|e]; destruct (st_Destroy id s) as [[u|e'] s1]; try done; intros [= <- <-].
  - destruct H as [Hm _]. subst m. eapply effect_now; [done|done|exact Ha|by right].
  - destruct H as [-> ->]. eapply effect_now; [done|done|exact Ha|by right].
Qed.

(** A look-up takes effect when it misses, and otherwise when the record is read. *)
Lemma get_correct lin k op id now s next (miss : api_resp) (hit : R → api_pc R) :
  st_ok s → (replay a lin m0).2 = st_view s → k ∉ calls lin →
  (rt_Get id (st_view s) = Err ErrNotFound → api_atomic a now op (st_view s) = (miss, st_view s)) →
  (∀ r, points s r id → pc_ok s lin k op (hit r)) →
  next = (match st_Get id s with Err _ => inr miss | Ok r => inl (hit r) end) →
  takes_effect lin k op s next (if is_ok (st_Get id s) then [] else [(now, k, op)]).
Proof.
  intros Hok Hv Hk Ha Hhit ->. pose proof (get_ok id s Hok) as H. unfold rt_Get in *.
  destruct (st_view s !! id) as [rec|]; destruct (st_Get id s) as [r|e]; try done; cbn [is_ok].
  - apply effect_later; [done|]. by apply Hhit.
  - eapply effect_now; [done|done|by apply Ha|by right].
Qed.

(** The read through the pointer. *)
Lemma read_correct lin k op id now s r resp (f : RuntimeRecord → api_resp) next s' :
  (replay a lin m0).2 = st_view s → k ∉ calls lin → points s r id →
  (∀ rec, st_view s !! id = Some rec → api_atomic a now op (st_view s) = (f rec, st_view s)) →
  (rec ← st_load s r; Some (inr (f rec), s)) = Some (next, s') → resp = next →
  takes_effect lin k op s' next [(now, k, op)].
Proof.
  intros Hv Hk (rec & Hl & Hr) Ha. rewrite Hl. cbn. intros [= <- <-] _. eapply effect_now; [done|done|by apply Ha|by right].
Qed.

Lemma next_correct y lin k op pc now next s' :
  api_inv y lin → in_flight y !! k = Some (op, pc) → api_next a now pc (store y) = Some (next, s') →
  takes_effect lin k op s' next (effect y (Advance k now)).
Proof.
  intros [H1 H2 H3 H4] Hk En. pose proof (H4 k) as Hka. rewrite Hk in Hka. destruct (answered y !! k) eqn:Ea; [done|].
  cbn [effect]. rewrite Hk. clear H4 H3 Hk. destruct pc as [op'|r|r|r|rest acc tok]; cbn [pc_ok] in Hka.
  - destruct Hka as [-> Hnk]. destruct op as [id zc zs|id|id|id|tok n].
    + exact (create_correct lin k id zc zs now _ _ _ H1 H2 Hnk En).
    + exact (destroy_correct lin k id now _ _ _ H1 H2 Hnk En).
    + assert (s' = store y) as -> by (cbn in En; destruct (st_Get id (store y)); congruence).
      apply (get_correct lin k _ id now _ _ (RInfo (Err NotFound)) Info); [done..| |by intros; split; [|exists id]|].
      * intros Hg. cbn. unfold GetRuntimeInfo. by rewrite Hg.
      * pose proof (get_ok id _ H1) as Hg. cbn in En. destruct (st_Get id (store y)); [by injection En as <-|].
        unfold rt_Get in Hg. destruct (st_view (store y) !! id); [done|]. subst. by injection En as <-.
    + assert (s' = store y) as -> by (cbn in En; destruct (st_Get id (store y)); congruence).
      apply (get_correct lin k _ id now _ _ (RMetrics (Err NotFound)) Metrics); [done..| |by intros; split; [|exists id]|].
      * intros Hg. cbn. unfold GetRuntimeMetrics. by rewrite Hg.
      * pose proof (get_ok id _ H1) as Hg. cbn in En. destruct (st_Get id (store y)); [by injection En as <-|].
        unfold rt_Get in Hg. destruct (st_view (store y) !! id); [done|]. subst. by injection En as <-.
    + cbn in En. destruct (list_ok tok (if n <=? 0 then 50 else n) (store y) H1) as (rs & ids & nx & E & Hp & _).
      rewrite E in En. injection En as <- <-. apply effect_later; [done|]. cbn. split_and!; [done|done|].
      clear -Hp. induction Hp; constructor; eauto.
  - destruct Hka as (Hop & id & rec & (rec' & Hl & Hv) & Hr & Hrep). cbn in En. rewrite Hl in En. injection En as <- <-.
    apply effect_later; [done|]. right. by simplify_eq.
  - destruct Hka as (Hnk & id & -> & Hp). eapply read_correct; [done|done|exact Hp| |exact En|done].
    intros rec Hr. cbn. unfold GetRuntimeInfo, rt_Get. by rewrite Hr.
  - destruct Hka as (Hnk & id & -> & Hp). eapply read_correct; [done|done|exact Hp| |exact En|done].
    intros rec Hr. cbn. unfold GetRuntimeMetrics, rt_Get. by rewrite Hr.
  - destruct Hka as (Hop & Hnk & Hrest). destruct rest as [|r rest]; cbn in En.
    + injection En as <- <-. apply effect_later; [done|]. by left.
    + apply Forall_cons in Hrest as [(id & rec & Hl & _) Hrest]. rewrite Hl in En. injection En as <- <-. by apply effect_later.
Qed.

Lemma inv_step y lin ev y' : api_inv y lin → api_step a y ev = Some y' → api_inv y' (lin ++ effect y ev).
Proof.
  intros Hinv E. destruct ev as [k op|k now]; [cbn; rewrite app_nil_r; by eapply inv_invoke|].
  pose proof E as E'. cbn in E'. destruct (in_flight y !! k) as [[op pc]|] eqn:Hk; [|done]. cbn in E'.
  destruct (api_next a now pc (store y)) as [[next s']|] eqn:En; [|done].
  destruct (next_correct y lin k op pc now next s' Hinv Hk En) as (H1 & H2 & H3). by eapply inv_after.
Qed.

Lemma api_inv_run evs y lin y' lin' : api_inv y lin → api_run a evs y lin = Some (y', lin') → api_inv y' lin'.
Proof.
  revert y lin. induction evs as [|ev evs IH]; intros y lin Hinv; cbn; [by intros [= <- <-]|].
  destruct (api_step a y ev) as [y1|] eqn:E; [|done]. cbn. apply IH. by eapply inv_step.
Qed.

Lemma api_run_app evs1 evs2 y lin :
  api_run a (evs1 ++ evs2) y lin = '(y1, lin1) ← api_run a evs1 y lin; api_run a evs2 y1 lin1.
Proof.
  revert y lin. induction evs1 as [|ev evs1 IH]; intros y lin; [done|]. cbn. destruct (api_step a y ev); [|done]. cbn. apply IH.
Qed.

Lemma run_extends evs y lin y' lin' : api_run a evs y lin = Some (y', lin') → ∃ l, lin' = lin ++ l.
Proof.
  revert y lin. induction evs as [|ev evs IH]; intros y lin; cbn; [intros [= <- <-]; exists []; by rewrite app_nil_r|].
  destruct (api_step a y ev) as [y1|]; [|done]. cbn. intros (l & ->)%IH. rewrite <-app_assoc. by eexists.
Qed.

(** *** Listings *)

(** The map some time later. *)
Definition later (m m' : runtimes) : Prop :=
  ∀ id rec, m !! id = Some rec → ∃ rec', m' !! id = Some rec' ∧ (rec' = rec ∨ rec' = destroyed rec).

Lemma later_trans m m' m'' : later m m' → later m' m'' → later m m''.
Proof.
  intros H1 H2 id rec Hm. destruct (H1 id rec Hm) as (rec' & Hm' & E). destruct (H2 id rec' Hm') as (rec'' & Hm'' & E').
  exists rec''. split; [done|]. destruct E as [->| ->], E' as [->| ->]; auto.
Qed.

(** [ids] are the runtimes of [m] that are not destroyed: all of them on the last page. *)
Definition page (m : runtimes) (ids : list string) (next : string) : Prop :=
  NoDup ids ∧ (∀ id, id ∈ ids → ∃ rec, m !! id = Some rec ∧ rtStatus rec ≠ RuntimeStatusDestroyed) ∧
  (next = "" → ∀ id rec, m !! id = Some rec → rtStatus rec ≠ RuntimeStatusDestroyed → id ∈ ids).

(** Each was read as it was in [m], or destroyed since. *)
Definition reads (m : runtimes) (ids : list string) (infos : list RuntimeInfo) : Prop :=
  Forall2 (λ id info, ∃ rec, m !! id = Some rec ∧ rtID rec = id ∧ (info = info_of rec ∨ info = info_of (destroyed rec))) ids infos.

(** [m] is what the store held when call [k] took one of its steps. *)
Definition taken (y0 : api_sys) (evs : list api_event) (k : nat) (m : runtimes) : Prop :=
  ∃ evs1 now evs2 y1 lin1, evs = evs1 ++ Advance k now :: evs2 ∧ api_run a evs1 y0 [] = Some (y1, lin1) ∧ st_view (store y1) = m.

Lemma taken_app y0 evs k m evs' : taken y0 evs k m → taken y0 (evs ++ evs') k m.
Proof.
  intros (evs1 & now & evs2 & y1 & lin1 & -> & H). exists evs1, now, (evs2 ++ evs'), y1, lin1. by rewrite <-app_assoc.
Qed.

Definition list_inv (y0 : api_sys) (evs : list api_event) y : Prop :=
  (∀ k op rest acc next, in_flight y !! k = Some (op, Listed rest acc next) →
     ∃ m ids1 ids2, taken y0 evs k m ∧ page m (ids1 ++ ids2) next ∧ later m (st_view (store y)) ∧
       reads m ids1 acc ∧ Forall2 (points (store y)) rest ids2) ∧
  (∀ k op infos next, answered y !! k = Some (op, RList (Ok (infos, next))) →
     ∃ m ids, taken y0 evs k m ∧ page m ids next ∧ reads m ids infos).

Lemma evolves_later s s' : evolves s s' → later (st_view s) (st_view s').
Proof. intros [_ H]. exact H. Qed.

Lemma list_inv_frame y0 evs y ev y' k :
  list_inv y0 evs y → evolves (store y) (store y') →
  (∀ k', k' ≠ k → in_flight y' !! k' = in_flight y !! k' ∧ answered y' !! k' = answered y !! k') →
  (∀ op rest acc next, in_flight y' !! k = Some (op, Listed rest acc next) →
     ∃ m ids1 ids2, taken y0 (evs ++ [ev]) k m ∧ page m (ids1 ++ ids2) next ∧ later m (st_view (store y')) ∧
       reads m ids1 acc ∧ Forall2 (points (store y')) rest ids2) →
  (∀ op infos next, answered y' !! k = Some (op, RList (Ok (infos, next))) →
     ∃ m ids, taken y0 (evs ++ [ev]) k m ∧ page m ids next ∧ reads m ids infos) →
  list_inv y0 (evs ++ [ev]) y'.
Proof.
  intros [H1 H2] Hev Hother Hk1 Hk2. split; intros k'; (destruct (decide (k' = k)) as [->|Hne]; [auto|]); destruct (Hother k' Hne) as [Ei Ea].
  - rewrite Ei. intros op rest acc next Hk. destruct (H1 k' op rest acc next Hk) as (m & ids1 & ids2 & Ht & Hp & Hl & Hr & Hf).
    exists m, ids1, ids2. split_and!; [by apply taken_app|done|eapply later_trans; [exact Hl|by apply evolves_later]|done|].
    eapply Forall2_impl; [exact Hf|]. intros. by apply (ev_points _ _ Hev).
  - rewrite Ea. intros op infos next Hk. destruct (H2 k' op infos next Hk) as (m & ids & Ht & Hp & Hr).
    exists m, ids. split_and!; [by apply taken_app|done|done].
Qed.

Lemma next_listed now pc s rest acc nx s' :
  api_next a now pc s = Some (inl (Listed rest acc nx), s') →
  (∃ tok n, pc = Entered (OpList tok n) ∧ st_List tok n s = Ok (rest, nx) ∧ acc = []) ∨
  (∃ tok n, pc = Entered (OpList tok n) ∧ n ≤ 0 ∧ st_List tok 50 s = Ok (rest, nx) ∧ acc = []) ∨
  (∃ r acc0 rec, pc = Listed (r :: rest) acc0 nx ∧ st_load s r = Some rec ∧ acc = acc0 ++ [info_of rec]).
Proof.
  destruct pc as [[id zc zs|id|id|id|tok n]|r|r|r|[|r rest'] acc' next']; cbn [api_next];
    repeat case_match; try (destruct (st_load s r) as [rec|] eqn:El; cbn); intros; simplify_eq/=.
  - right; left. exists tok, n. split_and!; [done|lia|done|done].
  - left. by exists tok, n.
  - right; right. by exists r, acc', rec.
Qed.

Lemma next_list_answer now pc s infos nx s' :
  api_next a now pc s = Some (inr (RList (Ok (infos, nx))), s') → pc = Listed [] infos nx.
Proof.
  destruct pc as [[id zc zs|id|id|id|tok n]|r|r|r|[|r rest'] acc' next']; cbn [api_next];
    repeat case_match; try (destruct (st_load s r) as [rec|] eqn:El; cbn); intros; by simplify_eq/=.
Qed.

Lemma list_inv_step y0 evs y lin ev y' :
  api_inv y lin → api_run a evs y0 [] = Some (y, lin) → list_inv y0 evs y → api_step a y ev = Some y' → list_inv y0 (evs ++ [ev]) y'.
Proof.
  intros Hinv Hrun HL E. destruct ev as [k op|k now]; cbn in E; pose proof (iv_calls _ _ Hinv k) as Hk.
  { destruct (in_flight y !! k) eqn:Ei; [done|]. destruct (answered y !! k) eqn:Ea; [done|]. simplify_eq.
    apply (list_inv_frame y0 evs y _ _ k); [done|apply evolves_refl| | |]; cbn.
    - intros k' ?. by rewrite lookup_insert_ne.
    - intros *. by rewrite lookup_insert_eq.
    - intros *. by rewrite Ea. }
  destruct (in_flight y !! k) as [[op pc]|] eqn:Ei; [|done]. destruct (answered y !! k) eqn:Ea; [done|]. cbn in E.
  destruct (api_next a now pc (store y)) as [[next s']|] eqn:En; [|done]. cbn in E.
  destruct (next_evolves now pc (store y) next s' (iv_ok _ _ Hinv) En) as [Hev Hok].
  assert (∀ m, st_view (store y) = m → taken y0 (evs ++ [Advance k now]) k m) as Htaken.
  { intros m Hm. exists evs, now, [], y, lin. done. }
  destruct next as [pc'|resp]; injection E as <-; (apply (list_inv_frame y0 evs y _ _ k); [done|done| | |]); cbn.
  - intros k' ?. by rewrite lookup_insert_ne.
  - intros op' rest acc nx. rewrite lookup_insert_eq. intros [= <- ->].
    destruct (next_listed _ _ _ _ _ _ _ En) as [(tok & n & -> & HLs & ->)|[(tok & n & -> & _ & HLs & ->)|(r & acc0 & rec & -> & Hl & ->)]].
    1,2: match type of HLs with st_List _ ?n _ = _ => destruct (list_ok tok n (store y) (iv_ok _ _ Hinv)) as (rs & ids & nx' & EL & Hf & Hnd & Hs & Hc) end;
         rewrite EL in HLs; injection HLs as -> ->; exists (st_view (store y)), [], ids;
         (split_and!; [by apply Htaken|by split_and!|by apply evolves_later|constructor|]);
         (eapply Forall2_impl; [exact Hf|]); intros; by apply (ev_points _ _ Hev).
    destruct (proj1 HL k op (r :: rest) acc0 nx Ei) as (m & ids1 & ids2 & Ht & Hp & Hla & Hr & Hf).
    apply Forall2_cons_inv_l in Hf as (id & ids2' & (rec0 & Hl0 & Hv0) & Hf' & ->).
    exists m, (ids1 ++ [id]), ids2'. rewrite <-app_assoc. split_and!; [by apply taken_app|done| | |].
    + eapply later_trans; [exact Hla|by apply evolves_later].
    + apply Forall2_app; [done|]. constructor; [|constructor].
      destruct (proj1 (proj2 Hp) id) as (recm & Hm & _); [set_solver|]. exists recm. split; [done|].
      destruct (Hla id recm Hm) as (rec' & Hv' & Erec). assert (rec' = rec) as -> by congruence.
      pose proof (view_id id rec (store y) (iv_ok _ _ Hinv) Hv') as Hid. destruct Erec as [->| ->]; auto.
    + eapply Forall2_impl; [exact Hf'|]. intros. by apply (ev_points _ _ Hev).
  - intros *. by rewrite Ea.
  - intros k' ?. by rewrite lookup_delete_ne, lookup_insert_ne.
  - intros *. by rewrite lookup_delete_eq.
  - intros op' infos nx. rewrite lookup_insert_eq. intros [= <- ->]. apply next_list_answer in En as ->.
    destruct (proj1 HL k op [] infos nx Ei) as (m & ids1 & ids2 & Ht & Hp & _ & Hr & Hf).
    apply Forall2_nil_inv_l in Hf as ->. rewrite app_nil_r in Hp. exists m, ids1. split_and!; [by apply taken_app|done|done].
Qed.

Lemma list_inv_run evs y0 y lin :
  api_inv y0 [] → list_inv y0 [] y0 → api_run a evs y0 [] = Some (y, lin) → list_inv y0 evs y.
Proof.
  intros H0 HL0. revert y lin. induction evs as [|ev evs IH] using rev_ind; intros y lin; [by intros [= <- <-]|].
  rewrite api_run_app. destruct (api_run a evs y0 []) as [[y1 lin1]|] eqn:E1; [|done]. cbn.
  destruct (api_step a y1 ev) as [y2|] eqn:E2; [|done]. cbn. intros [= <- <-].
  eapply list_inv_step; [by eapply api_inv_run|exact E1|by eapply IH|done].
Qed.

Lemma inv_progress y lin k op pc now : api_inv y lin → in_flight y !! k = Some (op, pc) → is_Some (api_next a now pc (store y)).
Proof.
  intros Hinv Hk. pose proof (iv_calls _ _ Hinv k) as Hc. rewrite Hk in Hc. destruct (answered y !! k); [done|].
  destruct pc as [op'|r|r|r|[|r rest] acc nx]; cbn in Hc |- *; [|..|done|].
  - destruct op' as [id zc zs|id|id|id|tok n]; repeat case_match; eauto.
  - destruct Hc as (_ & id & rec & (rec' & -> & _) & _). cbn. eauto.
  - destruct Hc as (_ & id & _ & (rec & -> & _)). cbn. eauto.
  - destruct Hc as (_ & id & _ & (rec & -> & _)). cbn. eauto.
  - destruct Hc as (_ & _ & [(id & rec & -> & _) _]%Forall_cons). cbn. eauto.
Qed.
End linear.

(** C18. The runtime API is linearizable, except for its listings: whatever calls
    overlap and however their steps interleave, on any store that keeps the
    laws of the interface, there is an order of the calls (the order of the
    steps at which they take effect, each during its own call, so that a call
    answered before another begins precedes it) in which the atomic
    operations, one after the other, give each call exactly the answer it got
    and leave the runtimes the store holds; no handler ever reads through a
    nil pointer.  A listing is weaker: it names, each once, the runtimes that
    were not destroyed when the store was asked (all of them on the last
    page), but each is shown as it is when its record is read, which may be
    after it was destroyed. *)
Theorem api_linearizable `{RO : RangeOrder} {S R : Type} {ST : RuntimeStore S R} {LW : RuntimeStoreLaws ST}
    (gw : string) (s : S) (evs : list api_event) (y : api_sys) (lin : list (Time * nat * api_op)) :
  let a := NewSpatialServerAPI gw in
  st_ok s → api_run a evs (mkSys s ∅ ∅) [] = Some (y, lin) →
  (replay a lin (st_view s)).2 = st_view (store y) ∧ NoDup (calls lin) ∧
  (∀ k op resp, answered y !! k = Some (op, resp) → ¬ is_list op →
     ∃ i now, lin !! i = Some (now, k, op) ∧ (replay a lin (st_view s)).1 !! i = Some resp) ∧
  (∀ evs1 evs2, evs = evs1 ++ evs2 → ∃ y1 lin1 lin2, api_run a evs1 (mkSys s ∅ ∅) [] = Some (y1, lin1) ∧ lin = lin1 ++ lin2 ∧
     (∀ k op resp, answered y1 !! k = Some (op, resp) → ¬ is_list op → k ∈ calls lin1) ∧
     (∀ k, in_flight y1 !! k = None → answered y1 !! k = None → k ∉ calls lin1)) ∧
  (∀ k op infos next, answered y !! k = Some (op, RList (Ok (infos, next))) →
     ∃ m ids, taken gw (mkSys s ∅ ∅) evs k m ∧ page m ids next ∧ reads m ids infos) ∧
  (∀ k op pc now, in_flight y !! k = Some (op, pc) → is_Some (api_next a now pc (store y))).
Proof.
  cbv zeta. intros Hok Hrun. pose proof (api_inv_start gw (st_view s) s Hok eq_refl) as H0.
  assert (∀ k op resp y' lin', api_inv gw (st_view s) y' lin' → answered y' !! k = Some (op, resp) → ¬ is_list op →
    replied gw (st_view s) lin' k op resp) as Hrep.
  { intros k op resp y' lin' Hinv Ha Hop. pose proof (iv_calls _ _ _ _ Hinv k) as H. rewrite Ha in H.
    destruct (in_flight y' !! k) as [[]|]; [done|]. by destruct H. }
  pose proof (api_inv_run gw (st_view s) evs _ _ _ _ H0 Hrun) as Hinv. split_and!.
  - exact (iv_view _ _ _ _ Hinv).
  - exact (iv_nodup _ _ _ _ Hinv).
  - intros k op resp Ha Hop. by apply Hrep with y.
  - intros evs1 evs2 ->. rewrite api_run_app in Hrun. destruct (api_run _ evs1 _ _) as [[y1 lin1]|] eqn:E1; [|done]. cbn in Hrun.
    destruct (run_extends gw evs2 y1 lin1 y lin Hrun) as (lin2 & ->). exists y1, lin1, lin2.
    pose proof (api_inv_run gw (st_view s) evs1 _ _ _ _ H0 E1) as Hinv1. split_and!; [done|done| |].
    + intros k op resp Ha Hop. destruct (Hrep k op resp y1 lin1 Hinv1 Ha Hop) as (i & now & Hi & _).
      apply list_elem_of_fmap. exists (now, k, op). split; [done|]. by eapply list_elem_of_lookup_2.
    + intros k Hi Ha. pose proof (iv_calls _ _ _ _ Hinv1 k) as H. by rewrite Hi, Ha in H.
  - assert (list_inv gw (mkSys s ∅ ∅) [] (mkSys s ∅ ∅)) as HL0 by (split; intros *; cbn; by rewrite lookup_empty).
    exact (proj2 (list_inv_run gw (st_view s) evs _ _ _ H0 HL0 Hrun)).
  - intros k op pc now Hk. by eapply inv_progress.
Qed.

(** *** A sample execution

    A look-up gets its pointer, the runtime is destroyed, the look-up reads. *)
Section sample.
Local Existing Instance canonical_order.

Definition api_sample : list api_event :=
  [Invoke 0 (OpCreate "r1" 2 fzero); Advance 0 7; Invoke 1 (OpInfo "r1"); Invoke 3 (OpList "" 0); Advance 0 8; Advance 1 9; Advance 3 9;
   Invoke 2 (OpDestroy "r1"); Advance 2 10; Advance 1 11; Advance 3 12; Advance 3 13; Invoke 4 (OpCreate "r1" 1 fzero); Advance 4 14].

Lemma api_linearizable_witness :
  ∃ y lin, api_run (NewSpatialServerAPI "gateway:8080") api_sample (mkSys NewMemoryRuntimeStore ∅ ∅) [] = Some (y, lin) ∧
    lin = [(7, 0%nat, OpCreate "r1" 2 fzero); (10, 2%nat, OpDestroy "r1"); (11, 1%nat, OpInfo "r1"); (14, 4%nat, OpCreate "r1" 1 fzero)] ∧
    answered y !! 1%nat = Some (OpInfo "r1", RInfo (Ok (mkInfo "r1" 4 2 0 7))) ∧
    ∃ i now, lin !! i = Some (now, 1%nat, OpInfo "r1") ∧
      (replay (NewSpatialServerAPI "gateway:8080") lin ∅).1 !! i = Some (RInfo (Ok (mkInfo "r1" 4 2 0 7))).
Proof.
  destruct (api_run (NewSpatialServerAPI "gateway:8080") api_sample (mkSys NewMemoryRuntimeStore ∅ ∅) []) as [[y lin]|] eqn:E;
    [|vm_compute in E; discriminate E].
  exists y, lin. split; [reflexivity|].
  pose proof E as E'. vm_compute in E'. injection E' as Hy Hlin.
  assert (answered y !! 1%nat = Some (OpInfo "r1", RInfo (Ok (mkInfo "r1" 4 2 0 7)))) as Ha by (subst y; vm_compute; reflexivity).
  split; [subst lin; reflexivity|]. split; [exact Ha|].
  destruct (api_linearizable "gateway:8080" NewMemoryRuntimeStore api_sample y lin) as (_ & _ & H & _).
  - cbn. split; intros *; cbn; by rewrite lookup_empty.
  - exact E.
  - exact (H 1%nat (OpInfo "r1") _ Ha ltac:(intros [])).
Defined.
End sample.

(** Listings are not atomic: in the execution above the listing shows a
    destroyed runtime, which no listing of any state does. *)
Theorem list_not_atomic :
  let _ := canonical_order in
  (∃ y lin info, api_run (NewSpatialServerAPI "gateway:8080") api_sample (mkSys NewMemoryRuntimeStore ∅ ∅) [] = Some (y, lin) ∧
     answered y !! 3%nat = Some (OpList "" 0, RList (Ok ([info], ""))) ∧ riStatus info = 4) ∧
  ∀ m info, info ∈ (ListRuntimes m).1 → riStatus info ≠ 4.
Proof.
  intros RO. split.
  - destruct (api_run _ _ _ _) as [[y lin]|] eqn:E; [|vm_compute in E; discriminate E]. exists y, lin.
    vm_compute in E. injection E as <- <-. eexists. split_and!; [done|vm_compute; reflexivity|done].
  - intros m info. unfold ListRuntimes, rt_List. cbn [fst]. rewrite list_elem_of_fmap. intros (r & -> & Hr).
    apply list_elem_of_bind in Hr as ([k r'] & Hr & _). destruct (rtStatus r' =? RuntimeStatusDestroyed) eqn:E; [by apply not_elem_of_nil in Hr|].
    apply list_elem_of_singleton in Hr as ->. unfold info_of, toProtoStatus. cbn [riStatus]. rewrite E. by repeat case_match.
Qed.
