(* ===== verification/ClientProcess.v ===== *)
(** * The client process

    [main] of [tools/client/main.go] around the pieces of Client: flags,
    provisioning, the connection, and then three goroutines that share one
    context: the reader, the writer and the main one, which waits for a signal
    or for the context.  The theorem says what the process has sent in any
    interleaving, and when it ends. *)

From S2P Require Import Prelude GoFloat Types Protocol Aoi Entity Game GameInv GameSpec GameView Room RoomStore RoomSpec Cluster Gateway GameServer Client.
From stdpp Require Import base tactics list gmap strings relations.
From Stdlib Require Import ZArith Lia.

Local Open Scope Z_scope.

(** ** Starting *)

Definition default_flags : client_flags :=
  mkFlags "localhost:8080" "p1" "r1" "z1" (String.list_byte_of_string "dev-secret-key-change-in-production") "" false 1.

(** What the calls of [main] answer: the pool and the connection of
    [doProvision], the runtime API, the insertion of the runtime, the
    websocket for an address; and the interval of the ticker. *)
Record client_env := mkEnv {
  ce_pg : option string; ce_grpc : option string; ce_api : result code CreateRuntimeResponse; ce_seed : option string;
  ce_dial : string → option string; ce_interval : Duration
}.

(** [log.Fatalf], or the panic of [time.NewTicker]. *)
Inductive client_exit := Fatal (message : string) | TickerPanic.

Definition with_zone (z : string) (fl : client_flags) : client_flags :=
  mkFlags (fAddr fl) (fPlayer fl) (fRuntime fl) z (fSecret fl) (fAction fl) (fProvision fl) (fZoneCount fl).

Section starting.
Context `{J : Jwt} {SG : Signer}.

Definition client_url (fl : client_flags) : string := "ws://" +:+ fAddr fl +:+ "/ws?token=" +:+ client_token fl.

(** Up to the three goroutines. *)
Definition client_main (fl : client_flags) (e : client_env) (w : world) : (client_exit + client_flags) * world :=
  let '(zone, w) :=
    if fProvision fl then doProvision (ce_pg e) (ce_grpc e) (ce_api e) (fRuntime fl) (ce_seed e) w else (Ok (fZone fl), w) in
  match zone with
  | Err err => (inl (Fatal ("provision: " +:+ err)), w)
  | Ok z =>
      let fl := with_zone z fl in
      match ce_dial e (client_url fl) with
      | Some err => (inl (Fatal ("dial: " +:+ err)), w)
      | None => if ce_interval e <=? 0 then (inl TickerPanic, w) else (inr fl, w)
      end
  end.
End starting.

(** ** Running *)

Inductive writer_pc := WSelect | WAction | WStopped.

Record client_run := mkRun {
  cancelled : bool;              (* the context *)
  reading : bool;                (* the reader has not returned *)
  writer : writer_pc;
  ticks : Z;
  sent : list (list Byte.byte);
  lines : list client_line;
  exited : bool
}.
Definition client_started : client_run := mkRun false true WSelect 0 [] [] false.

Inductive client_event :=
| CRead (msg : list Byte.byte)
| CReadError
| CTick (now : Z) (ok : bool)      (* the ticker's case, and what the write answers *)
| CAction (now : Z) (ok : bool)
| CWriterDone                      (* the writer's case for the context *)
| CSignal
| CMainDone.                       (* the main goroutine's case for the context *)

Section running.
Context `{GZ : Gzip} `{CW : ClientWire} `{CD : Codecs} `{WI : Wire}.
Context (fl : client_flags).

(** A write under a cancelled context fails.  When the process has exited
    nothing happens any more. *)
Definition client_step (c : client_run) (ev : client_event) : option client_run :=
  if exited c then None else
  match ev with
  | CRead msg =>
      if reading c
      then Some (mkRun (cancelled c) true (writer c) (ticks c) (sent c) (lines c ++ [read_message msg]) false) else None
  | CReadError =>
      if reading c then Some (mkRun true false (writer c) (ticks c) (sent c) (lines c) false) else None
  | CTick now ok =>
      match writer c with
      | WSelect =>
          let pos := box_corner (ticks c) in
          let tick := wrap64 (ticks c + 1) in
          match marshal_position (mkEntityUpdate (fPlayer fl) (Some pos)) now with
          | None => Some (mkRun (cancelled c) (reading c) WSelect tick (sent c) (lines c) false)
          | Some payload =>
              if ok && negb (cancelled c)
              then Some (mkRun (cancelled c) (reading c) (if bool_decide (fAction fl ≠ "") && (tick =? 1) then WAction else WSelect) tick
                           (sent c ++ [Encode PacketIDPositionUpdate payload false 0]) (lines c) false)
              else Some (mkRun true (reading c) WStopped tick (sent c) (lines c) false)
          end
      | _ => None
      end
  | CAction now ok =>
      match writer c with
      | WAction =>
          let frames := if ok && negb (cancelled c)
                        then [Encode PacketIDEntityAction (marshal_action (fPlayer fl) (fAction fl) now) false 1] else [] in
          Some (mkRun (cancelled c) (reading c) WSelect (ticks c) (sent c ++ frames) (lines c) false)
      | _ => None
      end
  | CWriterDone =>
      match writer c with
      | WSelect => if cancelled c then Some (mkRun true (reading c) WStopped (ticks c) (sent c) (lines c) false) else None
      | _ => None
      end
  | CSignal => Some (mkRun (cancelled c) (reading c) (writer c) (ticks c) (sent c) (lines c) true)
  | CMainDone => if cancelled c then Some (mkRun true (reading c) (writer c) (ticks c) (sent c) (lines c) true) else None
  end.

Fixpoint client_exec (evs : list client_event) (c : client_run) : option client_run :=
  match evs with
  | [] => Some c
  | ev :: evs => match client_step c ev with Some c => client_exec evs c | None => None end
  end.

(** ** The frames of a run are those of the write loop *)

(** The write loop with its counter. *)
Definition firing_step (st : list (list Byte.byte) * Z * bool) (f : firing) : list (list Byte.byte) * Z * bool :=
  let '(out, tick, go) := st in
  if go : bool then let '(frames, tick, go) := write_step fl tick f in (out ++ frames, tick, go) else st.
Definition firings (fs : list firing) : list (list Byte.byte) * Z * bool := foldl firing_step ([], 0, true) fs.

Lemma firings_snoc fs f : firings (fs ++ [f]) = firing_step (firings fs) f.
Proof. unfold firings. by rewrite foldl_app. Qed.

Lemma firings_frames fs : (firings fs).1.1 = client_frames fl fs.
Proof.
  unfold firings, client_frames.
  assert (∀ l out, (foldl firing_step (out, 0, false) l).1.1 = out) as Hstop by (induction l; [done|done]).
  assert (∀ l out tick, (foldl firing_step (out, tick, false) l).1.1 = out) as Hstop' by (induction l; [done|done]).
  assert (∀ l out tick, (foldl firing_step (out, tick, true) l).1.1 = out ++ write_loop fl tick l) as H; [|apply H].
  induction l as [|f l IH]; intros out tick; cbn [foldl write_loop]; [by rewrite app_nil_r|].
  unfold firing_step at 2. destruct (write_step fl tick f) as [[frames tick'] go]. destruct go.
  - rewrite IH. by rewrite app_assoc.
  - rewrite Hstop'. by rewrite app_nil_r.
Qed.

(** The firings behind a state. *)
Definition writer_ok (n : nat) (c : client_run) : Prop :=
  match writer c with
  | WSelect => ∃ fs, length fs ≤ n ∧ firings fs = (sent c, ticks c, true)
  | WAction => ∃ fs f, length fs < n ∧ firings (fs ++ [f]) = (sent c, ticks c, true) ∧
      ∀ now, firings (fs ++ [mkFiring (fi_now f) (fi_write_ok f) now true]) =
        (sent c ++ [Encode PacketIDEntityAction (marshal_action (fPlayer fl) (fAction fl) now) false 1], ticks c, true)
  | WStopped => ∃ fs, length fs ≤ n ∧ firings fs = (sent c, ticks c, false) ∨ length fs ≤ n ∧ firings fs = (sent c, ticks c, true)
  end%nat.

Lemma tick_firing n c now ok c' :
  writer c = WSelect → writer_ok n c → client_step c (CTick now ok) = Some c' → writer_ok (S n) c'.
Proof.
  intros Hw. unfold writer_ok at 1. rewrite Hw. intros (fs & Hlen & Hfs). unfold client_step. rewrite Hw. destruct (exited c); [done|].
  assert (∀ f, firings (fs ++ [f]) = let '(frames, tick, go) := write_step fl (ticks c) f in (sent c ++ frames, tick, go)) as Hstep.
  { intros f. by rewrite firings_snoc, Hfs. }
  assert (∀ f, (length (fs ++ [f]) ≤ S n)%nat) as Hlen' by (intros f; rewrite length_app; cbn; lia).
  unfold write_step in Hstep. cbv zeta in *. destruct (marshal_position _ now) as [payload|] eqn:Em.
  - destruct (ok && negb (cancelled c)) eqn:Eok; intros [= <-]; unfold writer_ok; cbn [writer sent ticks].
    + destruct (bool_decide (fAction fl ≠ "") && (wrap64 (ticks c + 1) =? 1)) eqn:Ea.
      * exists fs, (mkFiring now true 0 false). split; [lia|]. cbn [fi_now fi_write_ok]. split; [|intros now'];
          rewrite Hstep; cbn [fi_now fi_write_ok fi_action_ok fi_action_now negb]; rewrite Em; cbn; [done|].
        by rewrite <-app_assoc.
      * exists (fs ++ [mkFiring now true 0 false]). split; [done|]. rewrite Hstep. cbn [fi_now fi_write_ok fi_action_ok]. by rewrite Em.
    + exists (fs ++ [mkFiring now false 0 false]). left. split; [done|]. rewrite Hstep. cbn [fi_now fi_write_ok]. rewrite Em. cbn.
      by rewrite app_nil_r.
  - intros [= <-]. unfold writer_ok. cbn [writer sent ticks]. exists (fs ++ [mkFiring now false 0 false]). split; [done|].
    rewrite Hstep. cbn [fi_now]. rewrite Em. by rewrite app_nil_r.
Qed.

Lemma writer_ok_S n c : writer_ok n c → writer_ok (S n) c.
Proof.
  unfold writer_ok. destruct (writer c).
  - intros (fs & ? & ?). exists fs. split; [lia|done].
  - intros (fs & f & ? & ? & ?). exists fs, f. split_and!; [lia|done|done].
  - intros (fs & [[? ?]|[? ?]]); exists fs; [left|right]; (split; [lia|done]).
Qed.

Lemma step_writer_ok n c ev c' : writer_ok n c → client_step c ev = Some c' → writer_ok (S n) c'.
Proof.
  intros Hok E. pose proof E as E0. unfold client_step in E. destruct (exited c); [done|].
  destruct ev as [msg| |now ok|now ok| | |]; cbv zeta in E.
  - destruct (reading c); [|done]. injection E as <-. apply writer_ok_S in Hok. exact Hok.
  - destruct (reading c); [|done]. injection E as <-. apply writer_ok_S in Hok. exact Hok.
  - destruct (writer c) eqn:Hw; [|done..]. by eapply tick_firing.
  - destruct (writer c) eqn:Hw; [done| |done]. unfold writer_ok in Hok. rewrite Hw in Hok. injection E as <-.
    destruct Hok as (fs & f & Hlen & H1 & H2). unfold writer_ok. cbn [writer sent ticks].
    destruct (ok && negb (cancelled c)).
    + exists (fs ++ [mkFiring (fi_now f) (fi_write_ok f) now true]). split; [rewrite length_app; cbn; lia|apply H2].
    + exists (fs ++ [f]). rewrite app_nil_r. split; [rewrite length_app; cbn; lia|done].
  - destruct (writer c) eqn:Hw; [|done..]. destruct (cancelled c); [|done]. injection E as <-.
    unfold writer_ok in *. rewrite Hw in Hok. cbn. destruct Hok as (fs & ? & ?). exists fs. right. split; [lia|done].
  - injection E as <-. apply writer_ok_S in Hok. exact Hok.
  - destruct (cancelled c); [|done]. injection E as <-. apply writer_ok_S in Hok. exact Hok.
Qed.

Lemma exec_writer_ok evs n c c' : writer_ok n c → client_exec evs c = Some c' → writer_ok (n + length evs) c'.
Proof.
  revert n c. induction evs as [|ev evs IH]; intros n c Hok; cbn; [intros [= <-]; by rewrite Nat.add_0_r|].
  destruct (client_step c ev) as [c1|] eqn:E; [|done]. rewrite <-Nat.add_succ_comm. apply IH. by eapply step_writer_ok.
Qed.

Lemma writer_frames n c : writer_ok n c → ∃ fs, (length fs ≤ n)%nat ∧ sent c = client_frames fl fs.
Proof.
  intros H. enough (∃ fs go, (length fs ≤ n)%nat ∧ firings fs = (sent c, ticks c, go)) as (fs & go & Hl & Hf).
  { exists fs. split; [done|]. by rewrite <-firings_frames, Hf. }
  unfold writer_ok in H. destruct (writer c).
  - destruct H as (fs & ? & ?). by exists fs, true.
  - destruct H as (fs & f & ? & ? & _). exists (fs ++ [f]), true. rewrite length_app. cbn. split; [lia|done].
  - destruct H as (fs & [[? ?]|[? ?]]); by eexists fs, _.
Qed.
End running.

Section session.
Context `{GM : GoMath} `{GZ : Gzip} `{GB : Gob} `{CD : Codecs} `{RO : RangeOrder} `{CW : ClientWire} {CL : ClientWireLaws CW CD} `{WI : Wire}.
Implicit Types (g : Game) (c : client_run) (fl : client_flags).

(** The avatar after [n] moves from the corner of [tick] on. *)
Definition walked (tick : Z) (n : nat) (e : Entity) : Entity :=
  match n with O => e | S n => e <| Position := box_corner (tick + Z.of_nat n) |> end.

(** Frames of the write loop move the avatar along the square, as far as they were written. *)
Lemma write_loop_walks fl tick fs g e :
  (∀ u ts, is_Some (marshal_position u ts)) → 0 ≤ tick → tick + Z.of_nat (length fs) < max_int64 →
  entity_of g (fPlayer fl) = Some e → eOwnerID e ≠ fPlayer fl →
  ∃ n, (n ≤ length fs)%nat ∧ entity_of (deliver (fPlayer fl) (write_loop fl tick fs) g) (fPlayer fl) = Some (walked tick n e).
Proof.
  intros Hm. revert tick g e. induction fs as [|f fs IH]; intros tick g e Ht Hlen He Ho; [by exists O|]. cbn [write_loop length] in *.
  destruct (write_step fl tick f) as [[frames tick'] go] eqn:E. destruct (fi_write_ok f) eqn:Ew.
  - destruct (write_step_delivered fl tick f frames tick' go g e ltac:(lia) Ew Hm He Ho E) as (-> & -> & payload & _ & Hpos & _).
    rewrite deliver_app. destruct (IH (tick + 1) _ _ ltac:(lia) ltac:(lia) Hpos Ho) as (n & Hn & Hd).
    exists (S n). split; [lia|]. rewrite Hd. destruct n as [|n]; cbn [walked].
    + by rewrite Z.add_0_r.
    + replace (tick + Z.of_nat (S n)) with (tick + 1 + Z.of_nat n) by lia. done.
  - exists O. split; [lia|]. unfold write_step in E. cbv zeta in E. destruct (Hm (mkEntityUpdate (fPlayer fl) (Some (box_corner tick))) (fi_now f)) as [d Hd].
    rewrite Hd, Ew in E. cbn in E. injection E as <- _ <-. exact He.
Qed.

(** A loop that has ended has cancelled the context, or ended because of it. *)
Definition loops_ok c : Prop := reading c = false ∨ writer c = WStopped → cancelled c = true.

Lemma step_loops fl c ev c' : loops_ok c → client_step fl c ev = Some c' → loops_ok c'.
Proof.
  unfold loops_ok, client_step. intros H E. destruct (exited c); [done|].
  destruct ev; cbv zeta in E; repeat case_match; simplify_eq/=; naive_solver.
Qed.

Lemma exec_loops fl evs c c' : loops_ok c → client_exec fl evs c = Some c' → loops_ok c'.
Proof.
  revert c. induction evs as [|ev evs IH]; intros c H; cbn; [by intros [= <-]|].
  destruct (client_step fl c ev) as [c1|] eqn:E; [|done]. apply IH. by eapply step_loops.
Qed.

Lemma step_cancelled fl c ev c' : client_step fl c ev = Some c' → cancelled c = true → cancelled c' = true ∧ sent c' = sent c.
Proof.
  unfold client_step. intros E Hc. rewrite Hc in E. destruct (exited c); [done|].
  destruct ev; cbv zeta in E; repeat case_match; simplify_eq/=; rewrite ?andb_false_r in *; try done; by rewrite ?app_nil_r.
Qed.

(** The session of a client: in any interleaving of its reader, its writer, the
    signals and the failures of its connection, what it has sent is what the
    write loop sends for some firings of the ticker, each position once and in
    order, so that, delivered to the game, it has moved the avatar the relay
    made to one of the corners of the square or not at all; once one of the
    loops has failed nothing more is sent, neither loop outlives the context,
    and the process can always end: by a signal, and without one as soon as
    the connection is lost.  After that nothing happens. *)
Theorem client_session (fl : client_flags) (evs : list client_event) (c : client_run) :
  client_exec fl evs client_started = Some c → Z.of_nat (length evs) < max_int64 →
  (∃ fs, (length fs ≤ length evs)%nat ∧ sent c = client_frames fl fs) ∧
  (∀ g e, (∀ u ts, is_Some (marshal_position u ts)) → entity_of g (fPlayer fl) = Some e → eOwnerID e ≠ fPlayer fl →
     ∃ n, (n ≤ length evs)%nat ∧ entity_of (deliver (fPlayer fl) (sent c) g) (fPlayer fl) = Some (walked 0 n e)) ∧
  (∀ ev c', client_step fl c ev = Some c' → cancelled c = true → cancelled c' = true ∧ sent c' = sent c) ∧
  (reading c = false ∨ writer c = WStopped → cancelled c = true) ∧
  if exited c then ∀ ev, client_step fl c ev = None
  else (∃ c', client_step fl c CSignal = Some c' ∧ exited c' = true) ∧
       (cancelled c = true → ∃ c', client_step fl c CMainDone = Some c' ∧ exited c' = true).
Proof.
  intros E Hlen.
  destruct (writer_frames fl (length evs) c) as (fs & Hfs & Hs).
  { apply (exec_writer_ok fl evs 0 client_started); [|done]. by exists []. }
  split_and!.
  - by exists fs.
  - intros g e Hm He Ho. destruct (write_loop_walks fl 0 fs g e Hm ltac:(lia) ltac:(lia) He Ho) as (n & Hn & Hd).
    exists n. split; [lia|]. by rewrite Hs.
  - intros ev c'. apply step_cancelled.
  - apply (exec_loops fl evs client_started); [|done]. by intros [|].
  - destruct (exited c) eqn:Ex; [intros ev; unfold client_step; by rewrite Ex|].
    unfold client_step. rewrite Ex. split; [by eexists|]. intros ->. by eexists.
Qed.
End session.
