(* ===== verification/Lifecycle.v ===== *)
(** * The lives of the services

    What the three [main] functions do after their set-up
    ([apps/gateway/main.go], [apps/room-service/main.go],
    [apps/game-server/main.go]): a goroutine serves and ends the process when it
    fails; the main goroutine waits for a signal, tells the parts to stop, calls
    [Shutdown] or [GracefulStop], and returns when that returns.  The common
    machine is proved once against an interface, which each service
    instantiates with the transition system of its own file. *)

From S2P Require Import Prelude GoFloat Types Room RoomStore RoomSpec Cluster Failover Gateway GameServer Config GameProcess Services GatewayProcess.
From S2P Require Import Protocol Aoi Entity Game.
From stdpp Require Import base tactics list gmap strings relations.
From Stdlib Require Import ZArith Lia.

Local Open Scope Z_scope.

(** ** The machine *)

(** [work]: the steps while it serves; [halt]: what [main] does on the signal,
    before the stop call; [wind_down]: the steps while the stop call waits;
    [quiet]: when the call returns by itself; [grace]: its time-out, if it has
    one. *)
Class Service (W : Type) := {
  work : W → W → Prop;
  halt : W → W;
  wind_down : W → W → Prop;
  quiet : W → Prop;
  grace : option Duration
}.

(** How a serving goroutine ends, and the status with which it ends the
    process: only a failure does, and that of a metrics listener is logged. *)
Inductive listen_error := ServerClosed | ListenFailed (e : string).
Definition serve_exit (err : listen_error) : option Z := match err with ServerClosed => None | ListenFailed _ => Some 1 end.
Definition metrics_exit (err : listen_error) : option Z := None.

Inductive phase := Serving | Stopping (deadline : option Time) | Exited (status : Z).

Record service (W : Type) := mkService { at_phase : phase; state : W; clock : Time }.
Arguments mkService {W} _ _ _.
Arguments at_phase {W} _.
Arguments state {W} _.
Arguments clock {W} _.

Section machine.
Context {W : Type} `{SV : Service W}.
Implicit Types (s : service W) (w : W) (t : Time).

Inductive svc_step : service W → service W → Prop :=
| svc_work w w' t : work w w' → svc_step (mkService Serving w t) (mkService Serving w' t)
| svc_serve_error err code w t : serve_exit err = Some code → svc_step (mkService Serving w t) (mkService (Exited code) w t)
| svc_metrics_error err w t : metrics_exit err = None → svc_step (mkService Serving w t) (mkService Serving w t)
| svc_signal w t : svc_step (mkService Serving w t) (mkService (Stopping ((λ d, t + d) <$> grace)) (halt w) t)
| svc_wind_down d w w' t : wind_down w w' → svc_step (mkService (Stopping d) w t) (mkService (Stopping d) w' t)
| svc_quiet d w t : quiet w → svc_step (mkService (Stopping d) w t) (mkService (Exited 0) w t)
| svc_timeout d w t : d ≤ t → svc_step (mkService (Stopping (Some d)) w t) (mkService (Exited 0) w t)
| svc_tick p w t t' : t ≤ t' → p = Serving ∨ (∃ d, p = Stopping d) → svc_step (mkService p w t) (mkService p w t').

(** What a run that is past its signal has been through. *)
Record stopped_since (w0 : W) (t0 : Time) s : Prop := {
  ss_work : rtc wind_down (halt w0) (state s);
  ss_phase : at_phase s = Stopping ((λ d, t0 + d) <$> grace) ∨
             at_phase s = Exited 0 ∧ (quiet (state s) ∨ ∃ d, grace = Some d ∧ t0 + d ≤ clock s)
}.

Lemma stopped_since_step w0 t0 s s' : stopped_since w0 t0 s → svc_step s s' → stopped_since w0 t0 s'.
Proof.
  intros [Hw Hp] Hs. inversion Hs; subst; cbn in *; (destruct Hp as [Hp|[Hp Hq]]; [|by (discriminate || destruct H0 as [|[]]; subst)]); simplify_eq.
  - split; cbn; [by eapply rtc_r|by left].
  - split; cbn; [done|right; split; [done|by left]].
  - split; cbn; [done|]. right. split; [done|]. right. destruct grace as [d'|]; [|done]. cbn in *. simplify_eq. by exists d'.
  - by split; cbn; [|left].
Qed.

(** The end of a service: whatever happens after the signal, what it does is
    winding down, it cannot fail any more, and it ends only when it is quiet
    or its time is over; and when one of the two is the case it can. *)
Lemma service_stops w t s :
  rtc svc_step (mkService (Stopping ((λ d, t + d) <$> grace)) (halt w) t) s →
  rtc wind_down (halt w) (state s) ∧
  match at_phase s with
  | Serving => False
  | Stopping _ => quiet (state s) ∨ (∃ d, grace = Some d ∧ t + d ≤ clock s) → svc_step s (mkService (Exited 0) (state s) (clock s))
  | Exited code => code = 0 ∧ (quiet (state s) ∨ ∃ d, grace = Some d ∧ t + d ≤ clock s) ∧ ∀ s', ¬ svc_step s s'
  end.
Proof.
  intros Hrun. assert (stopped_since w t s) as [Hw Hp].
  { refine (rtc_ind_r (stopped_since w t) _ _ _ s Hrun); [split; [done|by left]|]. intros y z _ Hyz Hy. by eapply stopped_since_step. }
  split; [done|]. destruct s as [p w' t']. cbn in *. destruct Hp as [->|[-> Hq]].
  - intros [Hq|(d & Hg & Hd)]; [by apply svc_quiet|]. rewrite Hg. by apply svc_timeout.
  - split_and!; [done|done|]. intros s' Hs. inversion Hs; subst. by destruct H4 as [|[]].
Qed.
End machine.

(** ** The gateway *)

(** On the signal: [SetDraining]. *)
Definition gateway_halt (g : gateway) : gateway := mkGateway (SetDraining true (handler g)) (reqs g) (relays g) (answers g).

(** [Shutdown] waits for the requests that are not upgraded, up to
    [DrainTimeout]; when [main] returns, the deferred cancellation of the base
    context and the end of the process cut the relays. *)
#[export] Instance gateway_service `{J : Jwt} (drainTimeout : Duration) : Service gateway | 10 := {|
  work g g' := gw_step g g' ∧ draining (handler g') = draining (handler g);
  halt := gateway_halt;
  wind_down := gw_step;
  quiet g := reqs g = ∅;
  grace := Some drainTimeout
|}.

(** ** The room service *)

Section room.
Context `{RO : RangeOrder} `{AL : Allocator}.

Abbreviation room_state := (world * watch_server)%type.

(** A call or a sweep, with the fan-out the sweeper announces through. *)
Definition room_call (cfg : SweeperConfig) (te : Time * room_event) (ws : room_state) : room_state :=
  let '(w, f) := room_step cfg (ws.1, Some (fan ws.2)) te in
  (w, mkWatch (default (fan ws.2) f) (Cluster.streams ws.2)).

Inductive room_work (cfg : SweeperConfig) : room_state → room_state → Prop :=
| rw_call te ws : room_work cfg ws (room_call cfg te ws)
| rw_stream ev w s s' : watch_srv s ev = Some s' → room_work cfg (w, s) (w, s').

(** [GracefulStop] refuses new calls and waits, without a limit, for those in
    progress: the streams.  The sweeper, whose context is cancelled when [main]
    returns, goes on. *)
Inductive room_wind_down (cfg : SweeperConfig) : room_state → room_state → Prop :=
| rd_sweep t ws : room_wind_down cfg ws (room_call cfg (t, RSweep) ws)
| rd_forward id ok w s s' : watch_srv s (SForward id ok) = Some s' → room_wind_down cfg (w, s) (w, s')
| rd_cancel id w s s' : watch_srv s (SCancel id) = Some s' → room_wind_down cfg (w, s) (w, s').

#[export] Instance room_lifecycle (cfg : SweeperConfig) : Service room_state := {|
  work := room_work cfg;
  halt ws := ws;
  wind_down := room_wind_down cfg;
  quiet ws := Cluster.streams ws.2 = ∅;
  grace := None
|}.

Lemma room_wind_down_streams cfg ws ws' : room_wind_down cfg ws ws' → dom (Cluster.streams ws'.2) ⊆ dom (Cluster.streams ws.2).
Proof.
  intros [t ws1|id ok w s s' E|id w s s' E].
  - unfold room_call. by destruct (room_step _ _ _).
  - cbn in E. destruct (channels (fan s) !! id) as [[|c q]|]; [done| |done]. destruct (Cluster.streams s !! id) as [sent|] eqn:Es; [|done].
    destruct ok; injection E as <-; cbn; [|rewrite dom_delete; set_solver].
    rewrite dom_insert. apply elem_of_dom_2 in Es. set_solver.
  - cbn in E. destruct (Cluster.streams s !! id); [|done]. injection E as <-. cbn. rewrite dom_delete. set_solver.
Qed.

(** A stream whose gateway neither leaves nor fails stays open. *)
Lemma room_stream_stays cfg ws ws' id :
  room_wind_down cfg ws ws' → id ∈ dom (Cluster.streams ws.2) → id ∉ dom (Cluster.streams ws'.2) →
  ∃ w s s', ws = (w, s) ∧ ws' = (w, s') ∧ (watch_srv s (SForward id false) = Some s' ∨ watch_srv s (SCancel id) = Some s').
Proof.
  intros [t ws1|id' ok w s s' E|id' w s s' E] Hin Hout.
  - unfold room_call in Hout. by destruct (room_step _ _ _).
  - pose proof E as E0. cbn in E. destruct (channels (fan s) !! id') as [[|c q]|]; [done| |done].
    destruct (Cluster.streams s !! id') as [sent|] eqn:Es; [|done].
    destruct ok; injection E as <-; cbn in Hin, Hout; [rewrite dom_insert in Hout; set_solver +Hin Hout|]. rewrite dom_delete in Hout.
    destruct (decide (id' = id)) as [->|Hne]; [|set_solver +Hin Hout Hne]. eexists w, s, _. split_and!; [done|done|by left].
  - pose proof E as E0. cbn in E. destruct (Cluster.streams s !! id') as [sent|]; [|done]. injection E as <-. cbn in Hin, Hout.
    rewrite dom_delete in Hout. destruct (decide (id' = id)) as [->|Hne]; [|set_solver +Hin Hout Hne]. eexists w, s, _. split_and!; [done|done|by right].
Qed.
End room.

(** ** The game server *)

(** The tick loop and the heartbeats end at the signal; [GracefulStop] waits for the relay streams. *)
#[export] Instance game_service `{GM : GoMath} `{GZ : Gzip} `{GB : Gob} `{CD : Codecs} `{RO : RangeOrder} `{WI : Wire} `{JB : Jsonb} : Service process := {|
  work := process_step;
  halt p := p;
  wind_down := stopping_step;
  quiet := stopped;
  grace := None
|}.

(** ** Stopping *)

Section stops.
Context `{GM : GoMath} `{GZ : Gzip} `{GB : Gob} `{CD : Codecs} `{RO : RangeOrder} `{WI : Wire} `{JB : Jsonb} `{AL : Allocator} `{J : Jwt}.

Lemma gateway_wind_down g g' : rtc gw_step (gateway_halt g) g' → draining (handler g') = true ∧ load g' ≤ load g.
Proof.
  assert (load (gateway_halt g) = load g) as <- by done.
  refine (rtc_ind_r (λ g', draining (handler g') = true ∧ load g' ≤ load (gateway_halt g)) _ _ _ g'); [done|].
  intros y z _ Hyz [Hy Hl]. destruct (gw_step_drain _ _ Hyz Hy). split; [done|lia].
Qed.

Lemma room_winds_down cfg ws ws' : rtc (room_wind_down cfg) ws ws' → dom (Cluster.streams ws'.2) ⊆ dom (Cluster.streams ws.2).
Proof. induction 1 as [|x y z Hxy _ IH]; [done|]. apply room_wind_down_streams in Hxy. set_solver. Qed.

End stops.
