(* ===== verification/Benchmarks.v ===== *)
(** * Measuring

    The parts of [benchmarks] that compute: the latency histogram
    ([framework/latency.go]), the budget check of a report
    ([framework/report.go]), the movement patterns ([runtime/patterns.go]) and
    the verdict over the stages of a capacity run ([runtime/report.go]). *)

From S2P Require Import Prelude GoFloat Types Entity Reports.
From stdpp Require Import base tactics list sets strings sorting.
From Stdlib Require Import ZArith Lia SpecFloat.

Local Open Scope Z_scope.

(** ** The order of samples

    [sort.Float64s]: the numbers in order, with not-a-number before all. *)

Definition fless (x y : float64) : bool :=
  fltb x y || match x, y with S754_nan, S754_nan => false | S754_nan, _ => true | _, _ => false end.

(** The order is that of a key: the class of the number, its exponent and its mantissa. *)
Definition fkey (x : float64) : Z * Z * Z :=
  match x with
  | S754_nan => (-3, 0, 0)
  | S754_infinity true => (-2, 0, 0)
  | S754_finite true m e => (-1, - e, Zneg m)
  | S754_zero _ => (0, 0, 0)
  | S754_finite false m e => (1, e, Zpos m)
  | S754_infinity false => (2, 0, 0)
  end.

Definition key_lt (a b : Z * Z * Z) : Prop :=
  a.1.1 < b.1.1 ∨ a.1.1 = b.1.1 ∧ (a.1.2 < b.1.2 ∨ a.1.2 = b.1.2 ∧ a.2 < b.2).

Lemma fless_key x y : fless x y = true ↔ key_lt (fkey x) (fkey y).
Proof.
  unfold fless, key_lt, fltb, SFltb. destruct x as [s|s| |s m e], y as [t|t| |t n f]; try destruct s; try destruct t; cbn;
    try (split; [try done; lia|by intros; try lia]); try lia.
  all: destruct (Z.compare_spec e f); cbn; try (split; [done||lia|done||lia]).
  all: change (Pos.compare_cont Eq m n) with (Pos.compare m n); destruct (Pos.compare_spec m n); cbn; split; (done || lia).
Qed.

Lemma fless_asym x y : fless x y = true → fless y x = false.
Proof. rewrite fless_key. intros H. apply not_true_is_false. rewrite fless_key. unfold key_lt in *. lia. Qed.

Lemma fless_negtrans x y z : fless x y = false → fless y z = false → fless x z = false.
Proof.
  intros H1 H2. apply not_true_iff_false in H1, H2. apply not_true_iff_false. rewrite fless_key in *. unfold key_lt in *. lia.
Qed.

Lemma fless_irrefl x : fless x x = false.
Proof. apply not_true_is_false. rewrite fless_key. unfold key_lt. lia. Qed.

(** ** The histogram *)

Definition Histogram := list float64.

Section histogram.
Context `{SO : SortSlice}.
Implicit Types h : Histogram.

Definition NewHistogram : Histogram := [].
Definition Observe (v : float64) h : Histogram := h ++ [v].
Definition Count h : Z := Z.of_nat (length h).

(** [int(math.Ceil((p/100)*float64(n))) - 1], from below cut at 0. *)
Definition rank_index (p : float64) (n : nat) : Z :=
  let idx := to_int (fceil (fmul (fdiv p (of_int 100)) (of_int (Z.of_nat n)))) - 1 in
  if idx <? 0 then 0 else idx.

(** [None]: the index is out of range. *)
Definition Percentile (p : float64) h : option float64 :=
  match h with
  | [] => Some fzero
  | _ => sort_slice fless h !! Z.to_nat (rank_index p (length h))
  end.

Definition sum h : float64 := foldl fadd fzero h.
Definition Mean h : float64 := match h with [] => fzero | _ => fdiv (sum h) (of_int (Count h)) end.
Definition Max h : float64 := match h with [] => fzero | v :: _ => foldl (λ m v, if fltb m v then v else m) v h end.
Definition Stdev h : float64 :=
  match h with
  | [] => fzero
  | _ => let mean := fdiv (sum h) (of_int (Count h)) in
         let sq := foldl (λ sq v, let d := fsub v mean in fadd sq (fmul d d)) fzero h in
         SFsqrt 53 1024 (fdiv sq (of_int (Count h)))
  end.

(** [AssertP95]: the recorded value, or the error. *)
Definition AssertP95 h (budget : float64) : option (result string float64) :=
  p95 ← Percentile (of_int 95) h;
  Some (if fltb budget p95 then Err "p95 exceeds budget" else Ok p95).

(** *** Nearest rank *)

(** For the percentiles in use the floating-point index is the exact one. *)
Definition rank_ok (p : Z) (n : nat) : bool := rank_index (of_int p) n =? (p * Z.of_nat n + 99) / 100 - 1.

Lemma rank_exact p n : p ∈ [50; 95; 99] → (0 < n ≤ 1000)%nat → rank_index (of_int p) n = (p * Z.of_nat n + 99) / 100 - 1.
Proof.
  assert (forallb (λ p, forallb (rank_ok p) (seq 1 1000)) [50; 95; 99] = true) as H by (vm_compute; reflexivity).
  intros Hp Hn. rewrite forallb_forall in H. specialize (H p ltac:(by apply list_elem_of_In)). rewrite forallb_forall in H.
  apply Z.eqb_eq, H, in_seq. lia.
Qed.

Lemma filter_all {A} (P : A → Prop) `{∀ x, Decision (P x)} (l : list A) : (∀ x, x ∈ l → P x) → filter P l = l.
Proof. induction l as [|x l IH]; intros Hl; [done|]. rewrite filter_cons_True by (apply Hl; by left). f_equal. apply IH. set_solver. Qed.

Lemma filter_none {A} (P : A → Prop) `{∀ x, Decision (P x)} (l : list A) : (∀ x, x ∈ l → ¬ P x) → filter P l = [].
Proof. induction l as [|x l IH]; intros Hl; [done|]. rewrite filter_cons_False by (apply Hl; by left). apply IH. set_solver. Qed.

(** In a sorted list, what is left of position [k] is not above its element and
    what is below it is left of it. *)
Lemma sorted_rank (l : list float64) k v :
  StronglySorted (λ x y, fless y x = false) l → l !! k = Some v →
  (k < length (filter (λ x, fless v x = false) l))%nat ∧ (length (filter (λ x, fless x v = true) l) ≤ k)%nat.
Proof.
  intros Hs Hk. rewrite <-(take_drop_middle l k v Hk). rewrite !filter_app, !length_app.
  assert (l = take k l ++ v :: drop (S k) l) as El by (symmetry; by apply take_drop_middle).
  rewrite El in Hs.
  assert (∀ x, x ∈ take k l → fless v x = false) as Hl.
  { intros x Hx. apply (StronglySorted_app_1_elem_of _ _ _ _ _ Hs Hx). by left. }
  assert (∀ x, x ∈ drop (S k) l → fless x v = false) as Hr.
  { intros x Hx. apply StronglySorted_app_1_r, StronglySorted_inv in Hs as [_ Hs]. by eapply Forall_forall in Hs. }
  apply lookup_lt_Some in Hk. split.
  - rewrite filter_cons_True by apply fless_irrefl. cbn.
    rewrite (filter_all _ (take k l)) by done. rewrite length_take. lia.
  - rewrite filter_cons_False by by rewrite fless_irrefl.
    rewrite (filter_none _ (drop (S k) l)) by (intros x Hx; by rewrite Hr).
    cbn. rewrite Nat.add_0_r. etrans; [apply length_filter|]. rewrite length_take. lia.
Qed.

(** The percentiles in use are by nearest rank: for 50, 95 and 99 and up to a
    thousand samples, [Percentile] does not fail and returns one of the
    samples, such that at least [p] percent of them are not above it, and
    fewer than [p] percent are below it.  So [AssertP95] accepts exactly if the
    95th percentile by this definition is within the budget. *)
Theorem percentile_rank (h : Histogram) (p : Z) :
  p ∈ [50; 95; 99] → (0 < length h ≤ 1000)%nat →
  ∃ v, Percentile (of_int p) h = Some v ∧ v ∈ h ∧
    p * Z.of_nat (length h) ≤ 100 * Z.of_nat (length (filter (λ x, fless v x = false) h)) ∧
    100 * Z.of_nat (length (filter (λ x, fless x v = true) h)) < p * Z.of_nat (length h).
Proof.
  intros Hp Hn. assert (Percentile (of_int p) h = sort_slice fless h !! Z.to_nat (rank_index (of_int p) (length h))) as ->.
  { destruct h; [cbn in Hn; lia|done]. }
  pose proof (sort_perm fless h) as Hperm. pose proof (sort_sorted fless h fless_asym fless_negtrans) as Hs.
  rewrite rank_exact by done. set (n := Z.of_nat (length h)). set (k := (p * n + 99) / 100).
  assert (50 ≤ p ≤ 99) as Hp' by (repeat (apply elem_of_cons in Hp as [->|Hp]; [lia|]); by apply not_elem_of_nil in Hp).
  assert (0 < n) by (unfold n; lia).
  pose proof (Z.mul_div_le (p * n + 99) 100 ltac:(lia)) as H1. pose proof (Z.mul_succ_div_gt (p * n + 99) 100 ltac:(lia)) as H2. fold k in H1, H2.
  assert (1 ≤ k ≤ n) as Hk by nia.
  destruct (lookup_lt_is_Some_2 (sort_slice fless h) (Z.to_nat (k - 1))) as [v Hv].
  { rewrite Hperm. unfold n in Hk. lia. }
  destruct (sorted_rank _ _ _ Hs Hv) as [Ha Hb]. rewrite Hperm in Ha. rewrite Hperm in Hb.
  exists v. split; [done|]. split; [rewrite <-Hperm; by eapply list_elem_of_lookup_2|].
  assert (k ≤ Z.of_nat (length (filter (λ x, fless v x = false) h))) by (apply Z.le_trans with (Z.of_nat (S (Z.to_nat (k - 1)))); [lia|apply inj_le, Ha]).
  assert (Z.of_nat (length (filter (λ x, fless x v = true) h)) ≤ k - 1) by (apply Z.le_trans with (Z.of_nat (Z.to_nat (k - 1))); [apply inj_le, Hb|lia]).
  lia.
Qed.

(** Not so for 99.9, where the quotient is rounded up: of a thousand samples the
    maximum is returned instead of the one before it. *)
Theorem p999_overshoots : rank_index (fdiv (of_int 999) (of_int 10)) 1000 = 999 ∧ (999 * 1000 + 999) / 1000 - 1 = 998.
Proof. vm_compute. by split. Qed.
End histogram.

(** ** Movement *)

Section patterns.
Context `{GM : GoMath}.

Inductive pattern :=
| Idle
| Walk (speed dir : float64)
| Random (rng : Rand) (speed dir : float64)
| Cluster (center : Vector3) (speed : float64)
| Hotspot (hot : Vector3) (speed : float64)
| AcrossBoundary (edge span speed : float64) (phase : Z).

Definition fsqrt : float64 → float64 := SFsqrt 53 1024.

(** One [Update]: the pattern after it, and the position. *)
Definition Update (m : pattern) (pos : Vector3) (dt : float64) : pattern * Vector3 :=
  match m with
  | Idle => (m, pos)
  | Walk speed dir =>
      (m, mkVector3 (fadd (X pos) (fmul (fmul (math_cos dir) speed) dt)) (Y pos) (fadd (Z_ pos) (fmul (fmul (math_sin dir) speed) dt)))
  | Random rng speed dir =>
      let '(r, rng) := rand_float64 rng in
      let dir := fadd dir (fmul (fsub r (fdiv (of_int 1) (of_int 2))) (fdiv (of_int 4) (of_int 10))) in
      (Random rng speed dir, mkVector3 (fadd (X pos) (fmul (fmul (math_cos dir) speed) dt)) (Y pos) (fadd (Z_ pos) (fmul (fmul (math_sin dir) speed) dt)))
  | Cluster center speed =>
      let dx := fsub (X center) (X pos) in
      let dz := fsub (Z_ center) (Z_ pos) in
      let dist := fsqrt (fadd (fmul dx dx) (fmul dz dz)) in
      if fltb dist (of_int 1) then (m, pos)
      else (m, mkVector3 (fadd (X pos) (fmul (fmul (fdiv dx dist) speed) dt)) (Y pos) (fadd (Z_ pos) (fmul (fmul (fdiv dz dist) speed) dt)))
  | Hotspot hot speed =>
      let dx := fsub (X hot) (X pos) in
      let dz := fsub (Z_ hot) (Z_ pos) in
      let dist := fadd (fsqrt (fadd (fmul dx dx) (fmul dz dz))) (fdiv (of_int 1) (of_int 1000000)) in
      (m, mkVector3 (fadd (X pos) (fmul (fmul (fdiv dx dist) speed) dt)) (Y pos) (fadd (Z_ pos) (fmul (fmul (fdiv dz dist) speed) dt)))
  | AcrossBoundary edge span speed phase =>
      let x := fadd (X pos) (fmul (fmul (of_int phase) speed) dt) in
      let phase := if fltb (fadd edge span) x then -1 else if fltb x (fsub edge span) then 1 else phase in
      (AcrossBoundary edge span speed phase, mkVector3 x (Y pos) (Z_ pos))
  end.

(** [assignPattern] makes the boundary pattern without a phase. *)
Definition boundary_pattern (edge span : float64) : pattern := AcrossBoundary edge span (of_int 12) 0.

(** The boundary pattern does not oscillate: an entity that starts within the
    span of the edge never moves. *)
Theorem boundary_stuck (edge span dt : float64) (pos : Vector3) (n : nat) :
  (∃ s m e, X pos = S754_finite s m e) → (∃ s m e, dt = S754_finite s m e) →
  fltb (fadd edge span) (X pos) = false → fltb (X pos) (fsub edge span) = false →
  Nat.iter n (λ mp, Update mp.1 mp.2 dt) (boundary_pattern edge span, pos) = (boundary_pattern edge span, pos).
Proof.
  intros (s & m & e & Hx) (s' & m' & e' & ->) H1 H2.
  assert (Update (boundary_pattern edge span) pos (S754_finite s' m' e') = (boundary_pattern edge span, pos)) as Hstep.
  { unfold boundary_pattern. cbn [Update]. cbv zeta.
    assert (fadd (X pos) (fmul (fmul (of_int 0) (of_int 12)) (S754_finite s' m' e')) = X pos) as ->.
    { rewrite Hx. change (fmul (of_int 0) (of_int 12)) with (S754_zero false). reflexivity. }
    rewrite H1, H2. by destruct pos. }
  induction n as [|n IH]; [done|]. rewrite Nat.iter_succ, IH. exact Hstep.
Qed.

End patterns.

(** ** Capacity *)

Record Stats := mkStats { stUsers : Z; stTickRate : Duration; stTickP95 : Duration; stDrops : list (string * Z) }.

(** [analyse]: the first stage over its budget. *)
Fixpoint limiting_stage (stages : list Stats) : option Stats :=
  match stages with
  | [] => None
  | s :: stages => if stTickRate s <? stTickP95 s then Some s else limiting_stage stages
  end.

Definition maxP95 (stages : list Stats) : Duration := foldl (λ m s, if m <? stTickP95 s then stTickP95 s else m) 0 stages.
Definition totalDrops (drops : list (string * Z)) : Z := foldl (λ n kv, wrap64 (n + kv.2)) 0 drops.

(** When all stages have one tick rate, a limiting stage is reported exactly
    if the largest p95 is over it, and the stages before it are within it. *)
Theorem limiting_first (stages : list Stats) (rate : Duration) :
  0 ≤ rate → Forall (λ s, stTickRate s = rate) stages →
  match limiting_stage stages with
  | Some s => rate < maxP95 stages ∧ rate < stTickP95 s ∧ ∃ l1 l2, stages = l1 ++ s :: l2 ∧ maxP95 l1 ≤ rate
  | None => maxP95 stages ≤ rate
  end.
Proof.
  intros Hr. unfold maxP95.
  assert (∀ l m, m ≤ foldl (λ m s, if m <? stTickP95 s then stTickP95 s else m) m l) as Hmono.
  { induction l as [|s l IH]; intros m; cbn; [lia|]. etrans; [|apply IH]. destruct (Z.ltb_spec m (stTickP95 s)); lia. }
  assert (∀ l m, m ≤ rate → Forall (λ s, stTickRate s = rate) l →
    match limiting_stage l with
    | Some s => rate < foldl (λ m s, if m <? stTickP95 s then stTickP95 s else m) m l ∧ rate < stTickP95 s ∧
        ∃ l1 l2, l = l1 ++ s :: l2 ∧ foldl (λ m s, if m <? stTickP95 s then stTickP95 s else m) m l1 ≤ rate
    | None => foldl (λ m s, if m <? stTickP95 s then stTickP95 s else m) m l ≤ rate
    end) as H; [|by apply H].
  induction l as [|s l IH]; intros m Hm Hl; [done|]. apply Forall_cons in Hl as [Hs Hl]. cbn [limiting_stage foldl]. rewrite Hs.
  destruct (Z.ltb_spec rate (stTickP95 s)) as [Hlt|Hge].
  - split_and!; [|done|by exists [], l]. eapply Z.lt_le_trans; [exact Hlt|]. etrans; [|apply Hmono]. destruct (Z.ltb_spec m (stTickP95 s)); lia.
  - specialize (IH (if m <? stTickP95 s then stTickP95 s else m) ltac:(destruct (m <? stTickP95 s); lia) Hl).
    destruct (limiting_stage l) as [s'|]; [|done]. destruct IH as (? & ? & l1 & l2 & -> & ?). split_and!; [done|done|].
    by exists (s :: l1), l2.
Qed.
