(* ===== verification/Scenarios.v ===== *)
(** * The chaos scenarios

    The tables of [tests/validation]: the seven scenarios that run on
    processes ([process_scenarios.go]) and the eight that need containers
    ([compose_scenarios.go]), as data, and what the runner can make of them. *)

From S2P Require Import Prelude GoFloat Types Validation ValidationStack.
From stdpp Require Import base tactics list gmap strings.
From Stdlib Require Import ZArith Lia.

Local Open Scope Z_scope.

(** ** The tables *)

(** A delay is measured from the making of the table. *)
Inductive awaited := Healthy (resource : string) | Delay (name : string) (d : Duration).

Inductive fault :=
| Crash (target : string)
| Freeze (target : string) (d : Duration)
| Infra (i : InfraRestart)
| Net (f : NetFault)
| Resource (f : ResourceFault).

#[export] Instance awaited_eq_dec : EqDecision awaited.
Proof. solve_decision. Defined.

(** [row_stack]: the runtimes of the stack its [Setup] starts; the scenarios
    that need containers have no [Setup]. *)
Record scenario_row := mkRow {
  row_metadata : ScenarioMetadata;
  row_stack : option nat;
  row_fault : fault;
  row_recovery : list awaited;
  row_acceptance : AcceptanceCriteria
}.

Definition warn_after (d : Duration) : AcceptanceCriteria :=
  let none := mkCriterion 0 "" in mkCriteria (mkCriterion d AcceptWarn) none none none none.
Definition no_criteria : AcceptanceCriteria := let none := mkCriterion 0 "" in mkCriteria none none none none none.

Definition room_then (d : Duration) : list awaited := [Healthy ResourceRoomService; Delay "stabilize" d].
Definition gateway_then (d : Duration) : list awaited := [Healthy ResourceGateway; Delay "stabilize" d].

Definition on_processes (id name descr : string) (tags : list string) (severity expected : string) : ScenarioMetadata :=
  mkMetadata id name descr 1 tags severity "process" (mkRequirements 1 false true true false) (2 * Minute) expected.

Definition ProcessScenarios : list scenario_row := [
  mkRow (on_processes "runtime-crash" "Runtime Node Crash" "Runtime Node crash and recovery" ["chaos"; "crash"] "high"
           "Room Service reassigns zones, entities preserved, ghosts cleaned up")
    (Some 1%nat) (Crash ResourceRuntime) (room_then (5 * Second)) (warn_after (30 * Second));
  mkRow (on_processes "runtime-restart" "Runtime Node Restart" "Runtime Node SIGKILL + restart" ["chaos"; "restart"] "high"
           "Runtime re-registers, zones reassigned, entities intact")
    (Some 1%nat) (Crash ResourceRuntime) (room_then (5 * Second)) (warn_after (30 * Second));
  mkRow (on_processes "gateway-crash" "Gateway Crash" "Gateway crash and recovery" ["chaos"; "crash"; "gateway"] "high"
           "Gateway reconnects to Room Service, routing cache repopulated")
    (Some 1%nat) (Crash ResourceGateway) (gateway_then (3 * Second)) (warn_after (15 * Second));
  mkRow (on_processes "gateway-restart" "Gateway Restart" "Gateway restart" ["chaos"; "restart"; "gateway"] "high"
           "Gateway restarts, reconnects, routing valid")
    (Some 1%nat) (Crash ResourceGateway) (gateway_then (3 * Second)) (warn_after (15 * Second));
  mkRow (on_processes "room-service-crash" "Room Service Crash" "Room Service crash and recovery" ["chaos"; "crash"] "critical"
           "Room Service recovers, ownership table preserved, Game Servers reconnect")
    (Some 1%nat) (Crash ResourceRoomService) (room_then (5 * Second)) (warn_after (30 * Second));
  mkRow (on_processes "room-service-restart" "Room Service Restart" "Room Service restart" ["chaos"; "restart"] "critical"
           "Room Service restarts, ownership preserved, routing restored")
    (Some 1%nat) (Crash ResourceRoomService) (room_then (5 * Second)) (warn_after (30 * Second));
  mkRow (on_processes "delayed-heartbeats" "Delayed Heartbeats" "Runtime Node frozen and thawed" ["chaos"; "heartbeat"] "medium"
           "Room Service detects missing heartbeats, marks zones orphan, recovers on thaw")
    (Some 1%nat) (Freeze ResourceRuntime (15 * Second)) [Delay "thaw-window" (20 * Second)] (warn_after (25 * Second))
].

Definition on_compose (id name descr : string) (tags : list string) (severity : string) (req : Requirements) (timeout : Duration)
    (expected : string) : ScenarioMetadata :=
  mkMetadata id name descr 1 tags severity "compose" req timeout expected.

Definition ComposeScenarios : list scenario_row :=
  let row m f := mkRow m None f (room_then (5 * Second)) no_criteria in
  let net := mkRequirements 0 true false false true in
  let cpu := mkRequirements 1 true false false false in [
  row (on_compose "postgres-restart" "PostgreSQL Restart" "PostgreSQL restart" ["chaos"; "infra"] "critical"
         (mkRequirements 0 true true false false) (2 * Minute) "Services reconnect to PG after restart, no data loss")
    (Infra (mkInfraRestart ResourcePostgres));
  row (on_compose "redis-restart" "Redis Restart" "Redis restart" ["chaos"; "infra"] "high"
         (mkRequirements 0 true false true false) (2 * Minute) "Services reconnect to Redis, graceful degradation during outage")
    (Infra (mkInfraRestart ResourceRedis));
  row (on_compose "network-latency" "Network Latency" "Injected latency on inter-service RPCs" ["chaos"; "network"] "medium"
         net (2 * Minute) "RPCs tolerate added latency, no cascading failures")
    (Net (NetLatency "" 100 20));
  row (on_compose "packet-loss" "Packet Loss" "Injected packet loss on inter-service connections" ["chaos"; "network"] "medium"
         net (2 * Minute) "System handles retransmissions, no data corruption")
    (Net (NetLoss "" 10));
  row (on_compose "network-partition" "Network Partition" "Temporary network isolation of a Runtime Node" ["chaos"; "network"; "partition"] "critical"
         (mkRequirements 2 true false false true) (3 * Minute) "Partitioned node detected as dead, zones reassigned, no split-brain")
    (Net NetPartition);
  row (on_compose "slow-runtime" "Slow Runtime Node" "CPU-throttled Runtime Node" ["chaos"; "resource"] "medium"
         cpu (3 * Minute) "Tick loop degrades gracefully, no crashes under CPU pressure")
    (Resource (ResourceCPU "" 1 ""));
  row (on_compose "cpu-starvation" "CPU Starvation" "Severe CPU starvation of Runtime Node" ["chaos"; "resource"] "high"
         cpu (3 * Minute) "Tick overruns detected, system stabilizes when CPU restored")
    (Resource (ResourceCPU "" 0 ""));
  row (on_compose "memory-pressure" "Memory Pressure" "Memory-limited Runtime Node" ["chaos"; "resource"] "medium"
         cpu (3 * Minute) "GC pressure increases but no OOM, entities preserved")
    (Resource (ResourceMemory "" 64 ""))
].

(** ** From a row to a run *)

Section scenarios.
Context `{K : Kernel}.
Implicit Types (h : processHarness) (row : scenario_row).

Definition condition_of h (dial : string → Time → bool) (created : Time) (a : awaited) : RecoveryCondition :=
  match a with
  | Healthy r => HealthyEndpoint r (λ _, h_Endpoint h r) dial
  | Delay name d => FixedDelay name d created
  end.

Definition waiter_of h (dial : string → Time → bool) (created : Time) row : CompositeWaiter :=
  NewComposite ModeAll (condition_of h dial created <$> row_recovery row).

Definition inject_of h (f : fault) : option string * proc_table :=
  match f with
  | Crash target => ProcessCrash_Inject target (infra_of h) (procs h)
  | Freeze target d => let '(e, _, t) := ProcessFreeze_Inject (NewProcessFreeze target d) (infra_of h) (procs h) in (e, t)
  | Infra i => (InfraRestart_Inject i, procs h)
  | Net f => (NetFault_Inject f, procs h)
  | Resource f => (ResourceFault_Inject f, procs h)
  end.

Definition recover_of h (f : fault) : option string :=
  match f with
  | Freeze target d =>
      let '(_, i, t) := ProcessFreeze_Inject (NewProcessFreeze target d) (infra_of h) (procs h) in (ProcessFreeze_Recover i t).1
  | _ => None
  end.

(** What the environment answers to a run. *)
Record run_answers := mkRunAnswers { ra_deadline : bool; ra_took : Duration; ra_total : Duration; ra_start : Time }.

Definition scenario_of h (now : string → Time) (waited : option string) (a : run_answers) row : ScenarioDefinition := {|
  Metadata := row_metadata row;
  Setup := match row_stack row with
           | Some _ => Returns (Ok (infra_of h))
           | None => Panics "invalid memory address or nil pointer dereference"
           end;
  Teardown := Returns ();
  Inject := Returns (inject_of h (row_fault row)).1;
  Recover := Returns (recover_of h (row_fault row));
  Observers := [StateObserver now (infra_of h); RoutingObserver now (infra_of h)];
  Validators := [EntityValidator; OwnershipValidator; AOIValidator; SessionValidator];
  Wait_ := Returns waited;
  Reporter := None;
  Acceptance := row_acceptance row;
  deadlineExceeded := ra_deadline a;
  recoveryTook := ra_took a;
  totalTook := ra_total a;
  startedAt := ra_start a;
  observedAt := ra_start a
|}.

(** The first row is the scenario of a crashed runtime. *)
Lemma runtime_crash_row h now waited took total start :
  scenario_of h now waited (mkRunAnswers false took total start) <$> head ProcessScenarios = Some (runtime_crash h now waited took total start).
Proof. reflexivity. Qed.

(** ** What they can show *)

(** A scenario that waits for the process it has killed. *)
Definition awaits_victim row : bool :=
  match row_fault row with Crash target => bool_decide (Healthy target ∈ row_recovery row) | _ => false end.

(** After a crash no process of the target runs. *)
Lemma crash_not_up h target p :
  (inject_of h (Crash target)).1 = None → p ∈ default [] (processes h !! target) → (inject_of h (Crash target)).2 !! p ≠ Some Up.
Proof.
  cbn [inject_of]. unfold ProcessCrash_Inject. cbn [infra_of inf_Processes]. unfold h_Processes.
  destruct (signal_all _ _ _ _) as [e t'] eqn:E. cbn [fst snd]. intros -> Hp.
  apply signal_all_spec in E as (d & r & Hps & -> & H1 & _). rewrite (H1 eq_refl), app_nil_r in Hps. subst d.
  rewrite foldl_alter_lookup by (by intros []). rewrite bool_decide_true by done.
  destruct (procs h !! p) as [[]|]; done.
Qed.

(** The waiter of a row succeeds only at a poll at which every condition holds. *)
Lemma waiter_succeeds h dial created row evs :
  row_recovery row ≠ [] → Wait (waiter_of h dial created row) evs = Some None →
  ∃ t, ∀ a, a ∈ row_recovery row → Met (condition_of h dial created a) t = true.
Proof.
  intros Hne. unfold Wait. assert (conditions (waiter_of h dial created row) ≠ []) as Hc.
  { cbn. by destruct (row_recovery row). }
  rewrite bool_decide_false by done. induction evs as [|ev evs IH]; [done|]. cbn [wait_loop].
  destruct ev as [e|t]; [done|]. rewrite wait_round_spec by done. destruct (satisfied _ t) eqn:Es; [|done]. intros _.
  exists t. intros a Ha. unfold satisfied in Es. cbn [wmode waiter_of NewComposite] in Es. rewrite bool_decide_true in Es by done.
  apply (proj1 (forallb_forall _ _) Es), list_elem_of_In, list_elem_of_fmap. by exists a.
Qed.

Lemma not_passed h now waited a row r tr :
  waited ≠ None ∨ (inject_of h (row_fault row)).1 ≠ None → Run_ (scenario_of h now waited a row) = (Some r, tr) → rpOutcome r ≠ OutcomePassed.
Proof.
  intros Hw Hrun Ho. destruct (run_passed _ _ _ Hrun) as [_ Hp]. destruct (Hp Ho) as (infra & _ & _ & _ & Hi & _ & _ & Hwait & _).
  cbn in Hi, Hwait. destruct Hw as [Hw|Hw]; apply Hw; congruence.
Qed.

(** What the chaos scenarios can show: a scenario that kills a process and then
    waits for its address to answer never passes, whatever the harness does
    meanwhile, since nothing starts the process again, and these are the two
    scenarios of the gateway and the two of the room service; those
    that need containers have neither a set-up, so that the runner panics and
    returns no report, nor a fault that is ever injected; and
    the delays of a table count from its making, so that a wait that begins
    later than the longest of them ends at its first poll, which is when the
    frozen runtime is thawed. *)
Theorem scenario_verdicts h (now : string → Time) (dial : string → Time → bool) (created : Time) (a : run_answers) :
  ((mdID ∘ row_metadata) <$> filter awaits_victim ProcessScenarios = ["gateway-crash"; "gateway-restart"; "room-service-crash"; "room-service-restart"]) ∧
  (∀ row target evs waited, row ∈ ProcessScenarios → row_fault row = Crash target → awaits_victim row = true →
     (∀ addr t, h_Endpoint h target = Ok addr → dial addr t = true →
        ∃ p, p ∈ default [] (processes h !! target) ∧ (inject_of h (Crash target)).2 !! p = Some Up) →
     Wait (waiter_of h dial created row) evs = Some waited →
     ∀ r tr, Run_ (scenario_of h now waited a row) = (Some r, tr) → rpOutcome r ≠ OutcomePassed) ∧
  (∀ row waited, row ∈ ComposeScenarios → (Run_ (scenario_of h now waited a row)).1 = None ∧ is_Some (inject_of h (row_fault row)).1) ∧
  (∀ row t rest, row ∈ ProcessScenarios → (∀ c, c ∈ row_recovery row → ∃ name d, c = Delay name d) → 20 * Second ≤ time_sub t created →
     Wait (waiter_of h dial created row) (Poll t :: rest) = Some None).
Proof.
  split_and!.
  - vm_compute. reflexivity.
  - intros row target evs waited _ Hf Hv Hdial Hw r tr. unfold awaits_victim in Hv. rewrite Hf in Hv. apply bool_decide_eq_true in Hv.
    apply not_passed. rewrite Hf. destruct (inject_of h (Crash target)).1 as [e|] eqn:Ei; [by right|left]. intros ->.
    apply waiter_succeeds in Hw as [t Ht]; [|intros E; rewrite E in Hv; by apply not_elem_of_nil in Hv]. specialize (Ht _ Hv). cbn in Ht.
    destruct (h_Endpoint h target) as [addr|] eqn:Ea; [|done]. destruct (Hdial addr t eq_refl Ht) as (p & Hp & Hup).
    by apply (crash_not_up h target p).
  - intros row waited Hrow.
    repeat (apply elem_of_cons in Hrow as [->|Hrow]; [split; [reflexivity|by eexists]|]). by apply not_elem_of_nil in Hrow.
  - intros row t rest Hrow Hd Ht. unfold Wait.
    assert (conditions (waiter_of h dial created row) ≠ []) as Hc
      by (repeat (apply elem_of_cons in Hrow as [->|Hrow]; [done|]); by apply not_elem_of_nil in Hrow).
    rewrite bool_decide_false by done. cbn [wait_loop]. rewrite wait_round_spec by done.
    replace (satisfied _ t) with true; [done|]. symmetry. unfold satisfied. cbn [wmode waiter_of NewComposite]. rewrite bool_decide_true by done. apply forallb_forall.
    intros c (x & -> & Hx)%list_elem_of_In%list_elem_of_fmap. destruct (Hd x Hx) as (name & d & ->). cbn. apply Z.leb_le.
    assert (d ≤ 20 * Second); [|lia]. clear Hd Hc.
    repeat (apply elem_of_cons in Hrow as [->|Hrow];
      [cbn in Hx; repeat (apply elem_of_cons in Hx as [Hx|Hx]; [try discriminate Hx; injection Hx as _ ->; vm_compute; discriminate|]);
       by apply not_elem_of_nil in Hx|]).
    by apply not_elem_of_nil in Hrow.
Qed.
End scenarios.
