(* ===== verification/Witnesses.v ===== *)
(** * Concrete executions

    Each lemma runs a theorem of the development on a concrete state, built
    by an executable trace of the model, so that its hypotheses are known to
    be satisfiable.  The parameters (random numbers, gzip, gob, protobuf,
    JSON, map order) are instantiated by concrete functions. *)

From S2P Require Import Prelude GoFloat Types Protocol Aoi Entity Game Boundary GameInv GameSpec GameView Migration.
From S2P Require Import Room RoomStore RoomSpec GameServer GameProcess Gateway Relay Sessions Cluster Client Telemetry Config Services Provenance Delivery.
From stdpp Require Import base tactics list gmap strings relations.
From Stdlib Require Import ZArith Lia Ascii.

Local Open Scope Z_scope.

(** A toy protobuf: one byte is an update to that x coordinate. *)
Definition sample_codecs : Codecs := {|
  unmarshal_update := λ l, match l with [b] => Some (mkEntityUpdate "" (Some (Aoi.vec (Z_of_byte b) 0 0))) | _ => None end;
  unmarshal_action := λ _, None;
  unmarshal_state := λ _, None;
  json_rows := λ rows, Some (replicate (length rows) Byte.x00);
  unjson_rows := λ _, None
|}.

Section game_witnesses.
Local Existing Instance sample_math.
Local Existing Instance rle_codec.
Local Existing Instance countable_gob.
Local Existing Instance sample_codecs.
Local Existing Instance canonical_order.

Definition zone_a : Zone.Zone := Zone.New "za" "space-a" 0 0 (of_int 100).
Definition avatar (id : string) (zone : string) (x : Z) : Entity :=
  Entity.New id "avatar" "" <| eZoneID := zone |> <| Position := Aoi.vec x 0 10 |> <| eOwnerID := id |>.

(** Alice and Bob in an assigned zone, Carol in the implicit default zone. *)
Definition sample_ops : list op :=
  [OpAssignZone zone_a;
   OpNewEntity (avatar "alice" "za" 10); OpAddEntity 2%positive;
   OpNewEntity (avatar "bob" "za" 20); OpAddEntity 3%positive;
   OpNewEntity (avatar "carol" "" 30); OpAddEntity 4%positive;
   OpMarkDisconnected "carol" (5 * Second)].

Definition run_ops (ops : list op) : Game := default (Game.New "s1" []) (fold_option exec (Game.New "s1" []) ops).

Lemma sample_ops_ok : Forall op_ok sample_ops.
Proof. repeat constructor. Qed.

Definition sample_game : Game := run_ops sample_ops.

Lemma sample_run : fold_option exec (Game.New "s1" []) sample_ops = Some sample_game.
Proof.
  unfold sample_game, run_ops. destruct (fold_option exec (Game.New "s1" []) sample_ops) eqn:E; [reflexivity|].
  vm_compute in E. discriminate E.
Qed.

Lemma sample_reachable : reachable sample_game.
Proof. exists "s1", [], sample_ops. split; [apply sample_ops_ok|apply sample_run]. Qed.

Lemma game_invariant_witness : game_wf sample_game.
Proof. exact (game_invariant "s1" [] sample_ops sample_game sample_ops_ok sample_run). Defined.

Definition sample_clock : TickClock := mkClock (9 * Second) 1 (9 * Second) (9 * Second) (9 * Second) (9 * Second).


Lemma gauges_after_tick_witness :
  ∃ g', tick sample_clock sample_game = Some g' ∧
    rQueueDepth (scrape (metrics g')) !! "inbox" = Some (Z.of_nat (length (Inbox g'))).
Proof.
  destruct (tick sample_clock sample_game) as [g'|] eqn:E; [|vm_compute in E; discriminate E].
  exists g'. split; [reflexivity|]. exact (proj1 (gauges_after_tick sample_clock sample_game g' E)).
Defined.

Lemma space_isolation_witness :
  ∃ e zn, eheap sample_game !! 2%positive = Some e ∧ eRuntimeID e = "space-a" ∧
    (szone <$> Zones sample_game !! eZoneID e) = Some (Some zn) ∧ Zone.zRuntimeID zn = "space-a" ∧
    Zone.Grid zn = Zone.mkGridCoord 0 0.
Proof.
  destruct (space_isolation sample_game sample_reachable) as [_ H].
  apply (H "space-a" 0 0 (of_int 300) 2%positive); [discriminate|].
  apply (bool_decide_unpack _). vm_compute. exact I.
Defined.

Definition sample_event : Event := mkEvent EventMove "space-a" "alice" "bob" "" zero_vec [].

Lemma publish_accounting_witness :
  Events (publish_all [sample_event; sample_event] sample_game) =
  Events sample_game ++ take (4096 - length (Events sample_game)) [sample_event; sample_event].
Proof. exact (proj1 (publish_accounting [sample_event; sample_event] sample_game sample_reachable)). Defined.

Lemma enqueue_accounting_witness :
  ∃ g', enqueue_all [(false, CmdRemove "bob", "cmds_remove"); (true, CmdRemove "alice", "cmds_remove")] sample_game = Some g' ∧
    applyCmds g' = RemoveEntity "bob" (sample_game <| cmds := [] |> <| metrics ::= λ l, l ++ [Dropped "cmds_remove" 1] |>).
Proof.
  pose proof (enqueue_accounting [(false, CmdRemove "bob", "cmds_remove"); (true, CmdRemove "alice", "cmds_remove")]
                sample_game sample_reachable) as H.
  destruct (enqueue_all _ sample_game) as [g'|] eqn:E; [|vm_compute in E; discriminate E].
  exists g'. split; [reflexivity|]. destruct H as (_ & _ & _ & _ & H). rewrite H. vm_compute. reflexivity.
Defined.

Definition sample_packet : InboundPacket := mkInbound "alice" (Encode PacketIDPositionUpdate [Byte.x2a] false 0).

Lemma position_sync_witness :
  ∃ a, positions a !! "alice" = Some (Aoi.vec 42 0 0) ∧ aheap (dispatch sample_packet sample_game) !! 1%positive = Some a.
Proof.
  destruct (aheap sample_game !! 1%positive) as [a|] eqn:Ha; [|vm_compute in Ha; discriminate Ha].
  destruct (eheap sample_game !! 2%positive) as [e|] eqn:He; [|vm_compute in He; discriminate He].
  destruct (Zones sample_game !! "za") as [sim|] eqn:Hz; [|vm_compute in Hz; discriminate Hz].
  assert (Hs : saoi sim = 1%positive) by (vm_compute in Hz; injection Hz as <-; reflexivity).
  destruct (position_sync sample_packet sample_game ProtocolVersionV1 [Byte.x2a] false 0
              (mkEntityUpdate "" (Some (Aoi.vec 42 0 0))) 2%positive e "za" sim a) as (_ & H2 & H3 & _).
  - apply sample_reachable.
  - vm_compute. reflexivity.
  - vm_compute. reflexivity.
  - vm_compute. reflexivity.
  - exact He.
  - vm_compute. reflexivity.
  - exact Hz.
  - rewrite Hs. exact Ha.
  - exists (Move "alice" (Aoi.vec 42 0 0) a). split; [exact H3|]. rewrite Hs in H2. exact H2.
Defined.

Lemma visibility_exact_witness :
  ∃ sim, Zones sample_game !! "za" = Some sim ∧
    Events (updateVisibility "za" sample_game) =
      Events sample_game ++ take (4096 - length (Events sample_game))
        (loop_events sample_game (saoi sim) (range_list (sentities sim))).
Proof.
  destruct (Zones sample_game !! "za") as [sim|] eqn:Hz; [|vm_compute in Hz; discriminate Hz].
  exists sim. split; [reflexivity|]. exact (proj1 (visibility_exact sample_game "za" sim sample_reachable Hz)).
Defined.

Lemma removal_complete_witness : Entities (removeEntity "bob" sample_game) !! "bob" = None.
Proof.
  destruct (removal_complete "bob" "za" sample_game sample_reachable) as (sim & a & _ & _ & H & _); [vm_compute; reflexivity|].
  rewrite H. apply lookup_delete_eq.
Defined.

Lemma sweep_exact_witness :
  Entities (SweepDisconnected (40 * Second) sample_game) !! "carol" = None ∧
  Entities (SweepDisconnected (40 * Second) sample_game) !! "alice" = Entities sample_game !! "alice".
Proof.
  split.
  - apply (sweep_exact (40 * Second) sample_game "carol" sample_reachable).
    exists (5 * Second). split; vm_compute; reflexivity.
  - apply (sweep_exact (40 * Second) sample_game "alice" sample_reachable).
    intros (t & Ht & _). vm_compute in Ht. discriminate Ht.
Defined.

Lemma sweep_leaves_implicit_zone_witness :
  ∃ sim, Entities (SweepDisconnected (40 * Second) sample_game) !! "carol" = None ∧
    Zones (SweepDisconnected (40 * Second) sample_game) !! "default" = Some sim ∧ is_Some (sentities sim !! "carol").
Proof.
  destruct (Zones sample_game !! "default") as [sim|] eqn:Hz; [|vm_compute in Hz; discriminate Hz].
  destruct (sweep_leaves_implicit_zone (40 * Second) sample_game "carol" "default" sim sample_reachable) as (H1 & H2 & H3 & _).
  - vm_compute. reflexivity.
  - exact Hz.
  - vm_compute. reflexivity.
  - vm_compute. reflexivity.
  - exists sim. split; [exact H1|]. split; [exact H3|exact H2].
Defined.

(** The receiving server serves the same zone and has another player. *)
Definition other_ops : list op :=
  [OpAssignZone zone_a; OpNewEntity (avatar "dave" "za" 50); OpAddEntity 2%positive].

Lemma other_ops_ok : Forall op_ok other_ops.
Proof. repeat constructor. Qed.

Lemma other_reachable : reachable (run_ops other_ops).
Proof.
  exists "s1", [], other_ops. split; [apply other_ops_ok|]. unfold run_ops.
  destruct (fold_option exec (Game.New "s1" []) other_ops) eqn:E; [reflexivity|].
  vm_compute in E. discriminate E.
Qed.

Lemma zone_handoff_witness :
  ∃ snap e', SnapshotZone "za" sample_game = Some snap ∧
    entity_of (LoadZoneSnapshot snap (run_ops other_ops)) "bob" = Some e' ∧ Position e' = Aoi.vec 20 0 10 ∧
    eRuntimeID e' = "space-a".
Proof.
  destruct (SnapshotZone "za" sample_game) as [snap|] eqn:Hs; [|vm_compute in Hs; discriminate Hs].
  destruct (entity_of sample_game "bob") as [e|] eqn:He; [|vm_compute in He; discriminate He].
  destruct (zone_handoff sample_game (run_ops other_ops) "za" snap sample_reachable other_reachable) as [H _].
  - discriminate.
  - exact Hs.
  - destruct (H "bob" e) as (e' & H1 & _ & _ & _ & H5 & _ & H7); [vm_compute; reflexivity|exact He|].
    exists snap, e'. split; [reflexivity|]. split; [exact H1|]. split.
    + rewrite H5. vm_compute in He. injection He as <-. reflexivity.
    + destruct (zone_obj (run_ops other_ops) "za") as [zn|] eqn:Hzn; [|vm_compute in Hzn; discriminate Hzn].
      rewrite (H7 zn); [| |]; vm_compute in Hzn; injection Hzn as <-; [reflexivity|reflexivity|discriminate].
Defined.

Definition sample_zone_snap : ZoneSnapshot :=
  mkZoneSnapshot "zb" [mkEntitySnapshot "erin" "avatar" (Some (Aoi.vec 1 0 1))] [].

Lemma load_splits_grid_witness :
  ∃ l sim, aoiIndex (LoadZoneSnapshot sample_zone_snap sample_game) !! "zb" = Some l ∧
    Zones (LoadZoneSnapshot sample_zone_snap sample_game) !! "zb" = Some sim ∧ saoi sim ≠ l.
Proof.
  apply (load_splits_grid sample_game sample_zone_snap (mkEntitySnapshot "erin" "avatar" (Some (Aoi.vec 1 0 1))) [] sample_reachable).
  - discriminate.
  - reflexivity.
  - vm_compute. reflexivity.
  - vm_compute. reflexivity.
Defined.

(** A neighbour that reports one entity. *)
Definition sample_querier (z : ZoneID) (gx gy : Z) (r : float64) : list neighborEntity :=
  [mkNeighbor "frank" "avatar" (Aoi.vec 99 0 99)].

Definition boundary_ops : list op := [OpAssignZone zone_a; OpSetQuerier sample_querier].

Lemma boundary_ops_ok : Forall op_ok boundary_ops.
Proof. repeat constructor. Qed.

Lemma boundary_reachable : reachable (run_ops boundary_ops).
Proof.
  exists "s1", [], boundary_ops. split; [apply boundary_ops_ok|]. unfold run_ops.
  destruct (fold_option exec (Game.New "s1" []) boundary_ops) eqn:E; [reflexivity|].
  vm_compute in E. discriminate E.
Qed.

Lemma reconcile_exact_witness :
  ∃ a', aheap (ReconcileNeighborGhosts "za" "zb" (7 * Second) (run_ops boundary_ops)) !! 1%positive = Some a' ∧
    positions a' !! "frank@ghost" = Some (Aoi.vec 99 0 99).
Proof.
  destruct (aheap (run_ops boundary_ops) !! 1%positive) as [a|] eqn:Ha; [|vm_compute in Ha; discriminate Ha].
  destruct (reconcile_exact (run_ops boundary_ops) "za" "zb" (7 * Second) 1%positive a ∅ zone_a sample_querier boundary_reachable)
    as (a' & st' & H1 & _ & H3 & _).
  - vm_compute. reflexivity.
  - exact Ha.
  - vm_compute. reflexivity.
  - vm_compute. reflexivity.
  - vm_compute. reflexivity.
  - apply NoDup_singleton.
  - exists a'. split; [exact H1|]. apply (H3 (mkNeighbor "frank" "avatar" (Aoi.vec 99 0 99))). left.
Defined.

End game_witnesses.

(** ** The room service *)

Section room_witnesses.
Local Existing Instance canonical_order.
Local Existing Instance LeastLoadedAllocator.

Definition server_row (status : string) (heartbeat : Time) : ServerRow := mkServerRow "10.0.0.1" 9000 status 10 1 heartbeat.

(** [s1] has missed its heartbeats, [s2] is alive. *)
Definition sample_tables : tables :=
  mkTables {["s1" := server_row "active" 0; "s2" := server_row "active" (100 * Second)]}
           {["z1" := mkZRow "r" (Some "s1") "active"; "z2" := mkZRow "r" (Some "s2") "active";
             "z3" := mkZRow "r" None "unowned"]}.
Definition sample_cfg : SweeperConfig := mkSweeperConfig (5 * Second) (15 * Second).

Lemma sweep_respects_owners_witness :
  db_owner (production_sweep (Some ServerRepository_dead) (Some ZoneRepository_owner) sample_cfg (100 * Second)
              (mkWorld sample_tables [Quiet; Fault], None)).1 "z2" = Some "s2".
Proof.
  rewrite (sweep_respects_owners (ok := quiet) (owner := db_owner)); [reflexivity| |].
  - repeat constructor.
  - intros dead d H Hd. vm_compute in H. injection H as <-. apply list_elem_of_singleton in Hd as ->.
    vm_compute. discriminate.
Defined.

Lemma sweep_reassigns_witness :
  ∃ t' f', production_sweep (Some ServerRepository_dead) (Some ZoneRepository_owner) sample_cfg (100 * Second)
             (mkWorld sample_tables [], None) = (mkWorld t' [], f') ∧
    ∃ s, owner_of t' "z1" = Some s ∧ active t' s.
Proof.
  destruct (sweep_reassigns sample_cfg (100 * Second) sample_tables None) as (t' & f' & H1 & _ & H3).
  - exists "s2", (server_row "active" (100 * Second)). split; [reflexivity|]. split; reflexivity.
  - exists t', f'. split; [exact H1|]. destruct (H3 "z1" "s1") as (s & ? & ? & _).
    + reflexivity.
    + vm_compute. left.
    + exists s. split; assumption.
Defined.

Lemma sweep_strands_zones_witness :
  db_owner (foldl (db_sweep sample_cfg)
    (db_sweep sample_cfg (mkWorld sample_tables [Quiet; Quiet; Fault], None) (100 * Second)) [105 * Second; 110 * Second]).1 "z1"
  = Some "s1".
Proof.
  apply (sweep_strands_zones sample_cfg (100 * Second) [105 * Second; 110 * Second] sample_tables None "s1" "z1").
  - vm_compute. reflexivity.
  - reflexivity.
Defined.

Lemma claim_masks_failure_witness :
  ∃ server, LookupZone "z2" 0 (mkWorld sample_tables [Fault; Quiet; Quiet; Fault]) =
    (Ok (NodeID server, Address server), mkWorld sample_tables []) ∧ NodeID server = "s1".
Proof.
  destruct (claim_masks_failure "z2" "s2" 0 sample_tables
    (scan_node "s1" (server_row "active" 0) zero_time)
    [scan_node "s1" (server_row "active" 0) zero_time; scan_node "s2" (server_row "active" (100 * Second)) zero_time])
    as [_ H].
  - reflexivity.
  - vm_compute. reflexivity.
  - vm_compute. reflexivity.
  - discriminate.
  - eexists. split; [exact H|reflexivity].
Defined.

Lemma production_ignores_load_witness :
  ∃ n ns, (repo_List (mkWorld sample_tables [])).1 = Ok (n :: ns) ∧ Select (Some <$> n :: ns) = Ok n.
Proof.
  exists (scan_node "s1" (server_row "active" 0) zero_time), [scan_node "s2" (server_row "active" (100 * Second)) zero_time].
  assert (H : (repo_List (mkWorld sample_tables [])).1 =
    Ok [scan_node "s1" (server_row "active" 0) zero_time; scan_node "s2" (server_row "active" (100 * Second)) zero_time])
    by (vm_compute; reflexivity).
  split; [exact H|]. exact (proj1 (production_ignores_load sample_tables _ _ H)).
Defined.

(** Another client claims the zone between the statements of the lookup. *)
Definition rival (t : tables) : tables := (update_claim "z3" "s2" t).2.

Lemma rival_ok : env_ok "z3" rival.
Proof.
  intros t Hok. unfold rival, update_claim. destruct (zones t !! "z3") as [row|] eqn:Ez; [|done].
  destruct (server_id row) as [o|] eqn:Eo; [done|]. destruct (game_servers t !! "s2") as [srow|] eqn:Es; [|done]. cbn.
  split_and!.
  - destruct Hok as [H1 H2]. split; [done|]. intros z s Hz. rewrite owner_of_insert in Hz. case_decide; [|by eapply H2].
    cbn in Hz. injection Hz as <-. eauto.
  - intros _. rewrite lookup_insert_eq. eauto.
  - intros s Hs. unfold owner_of in Hs. rewrite Ez in Hs. cbn in Hs. congruence.
Qed.

Lemma sample_tables_ok : db_ok sample_tables.
Proof.
  split; [reflexivity|]. intros z s Hz. unfold owner_of in Hz.
  destruct (zones sample_tables !! z) as [row|] eqn:Er; [|done].
  unfold sample_tables in Er. cbn [zones] in Er.
  repeat (apply lookup_insert_Some in Er as [[<- <-]|[_ Er]]; [cbn in Hz; simplify_eq; vm_compute; eauto|]).
  apply lookup_singleton_Some in Er as [<- <-]. done.
Qed.

Lemma lookup_returns_owner_witness :
  ∃ s addr w', LookupZone "z3" 0 (mkWorld sample_tables [Env rival; Quiet; Env rival]) = (Ok (s, addr), w') ∧
    db_owner w' "z3" = Some s.
Proof.
  destruct (LookupZone "z3" 0 (mkWorld sample_tables [Env rival; Quiet; Env rival])) as [[[s addr]|e] w'] eqn:E.
  - exists s, addr, w'. split; [reflexivity|].
    apply (lookup_returns_owner "z3" 0 (mkWorld sample_tables [Env rival; Quiet; Env rival]) w' s addr); [|exact E].
    split; [|split; [apply sample_tables_ok|vm_compute; eauto]].
    constructor; [exact rival_ok|]. constructor; [exact I|]. constructor; [exact rival_ok|constructor].
  - vm_compute in E. discriminate E.
Defined.

End room_witnesses.

(** ** The game server *)

Section server_witnesses.
Local Existing Instance rle_codec.

Lemma push_keeps_newest_witness :
  ch (foldl (λ k d, push d k) (newBoundedSendQueue 2) [[Byte.x01]; [Byte.x02]; [Byte.x03]]) = [[Byte.x02]; [Byte.x03]].
Proof.
  destruct (push_keeps_newest 2 [[Byte.x01]; [Byte.x02]; [Byte.x03]]) as [H _].
  - lia.
  - exact H.
Defined.

(** A wire format: messages are tuples, written as the bytes of a number. *)
Definition to_bytes {A} `{Countable A} (x : A) : list Byte.byte := bytes_of_pos (encode x).
Definition of_bytes {A} `{Countable A} (l : list Byte.byte) : option A := decode (pos_of_bytes l).

Lemma of_to_bytes {A} `{Countable A} (x : A) : of_bytes (to_bytes x) = Some x.
Proof.
  unfold of_bytes, to_bytes. assert (∀ p, pos_of_bytes (bytes_of_pos p) = p) as ->; [|apply decode_encode].
  induction p; simpl; congruence.
Qed.

Definition sample_wire : Wire := {|
  marshal_snapshot := λ s, to_bytes (snEntityId s, snType s, snPosition s);
  marshal_id := to_bytes;
  marshal_update := λ u, to_bytes (uEntityId u, uPosition u);
  unmarshal_snapshot := λ l, '(i, ty, p) ← of_bytes l; Some (mkEntitySnapshot i ty p);
  unmarshal_id := of_bytes;
  unmarshal_move := λ l, '(i, p) ← of_bytes l; Some (mkEntityUpdate i p)
|}.

Lemma sample_wire_laws : WireLaws sample_wire.
Proof.
  split; cbn.
  - intros [i ty p]. by rewrite of_to_bytes.
  - intros i. apply of_to_bytes.
  - intros [i p]. by rewrite of_to_bytes.
Qed.

Lemma event_roundtrip_witness :
  client_read (WI := sample_wire) (encodeEvent (WI := sample_wire) (mkEvent EventMove "space-a" "alice" "bob" "" (Aoi.vec 3 4 5) []))
  = Some (SawMove "bob" (Aoi.vec 3 4 5)).
Proof.
  exact (event_roundtrip (WI := sample_wire) (WireLaws0 := sample_wire_laws)
           (mkEvent EventMove "space-a" "alice" "bob" "" (Aoi.vec 3 4 5) [])).
Defined.

(** Alice and Bob connect to a process that found no snapshot, and a tick runs. *)
Local Existing Instance sample_math.
Local Existing Instance countable_gob.
Local Existing Instance sample_codecs.
Local Existing Instance canonical_order.
Local Existing Instance sample_wire.

Definition plain_jsonb : Jsonb := {| jsonb := Some; exact_row := λ _, True |}.
Local Existing Instance plain_jsonb.

Definition connect (id : string) : RelayPacket := mkPacket id (KIND_CONNECT (mkMeta id "space-a" "z1")).
Definition after_connect (id : string) (s : gameServerServer) : gameServerServer :=
  default s (fst <$> relay_recv false 0 (connect id) s []).
Definition after_tick (s : gameServerServer) : gameServerServer := on_game (λ g, default g (tick sample_clock g)) s.

Definition srv0 : gameServerServer := mkServer (startup "s1" [] false (mkSnapDB ∅ []) []) newClientRegistry 0.
Definition srv1 : gameServerServer := after_connect "alice" srv0.
Definition srv2 : gameServerServer := after_connect "bob" srv1.
Definition srv3 : gameServerServer := after_tick srv2.

Lemma old_sender_closes_new_witness :
  ∃ s2, relay_recv false 0 (connect "alice") srv1 ["alice"] = Some (s2, ["alice"; "alice"]) ∧
    clients (registry_ (sender_exit "alice" s2)) !! "alice" = None.
Proof.
  destruct (relay_recv false 0 (connect "alice") srv1 ["alice"]) as [[s2 o2]|] eqn:E2; [|vm_compute in E2; discriminate E2].
  assert (o2 = ["alice"; "alice"]) as -> by (vm_compute in E2; injection E2 as _ <-; reflexivity).
  exists s2. split; [reflexivity|].
  destruct (old_sender_closes_new "alice" (mkMeta "alice" "space-a" "z1") (mkMeta "alice" "space-a" "z1") false false 0 0 srv0 srv1 s2 [] ["alice"] ["alice"] ["alice"; "alice"])
    as (l & _ & _ & _ & H & _); [vm_compute; reflexivity|exact E2|exact H].
Defined.

Lemma sample_start : starts (mkProcess srv0 ∅).
Proof. exists "s1", [], false, (mkSnapDB ∅ []), []. split; [constructor|reflexivity]. Qed.

Lemma sample_steps :
  rtc process_step (mkProcess srv0 ∅) (mkProcess srv3 (<[0%nat := ["alice"; "bob"]]> (<[0%nat := ["alice"]]> (<[0%nat := []]> ∅)))).
Proof.
  eapply rtc_l; [by apply (step_open 0%nat)|].
  eapply rtc_l; [apply (step_recv 0%nat false 0 (connect "alice") srv0 srv1 _ [] ["alice"]); [done|vm_compute; reflexivity]|].
  eapply rtc_l; [apply (step_recv 0%nat false 0 (connect "bob") srv1 srv2 _ ["alice"] ["alice"; "bob"]);
                 [done|vm_compute; reflexivity]|].
  apply rtc_once. unfold srv3, after_tick, on_game.
  destruct (tick sample_clock (game srv2)) as [g|] eqn:E; [|vm_compute in E; discriminate E].
  by apply (step_tick sample_clock g srv2).
Qed.


Lemma events_routed_witness :
  ∃ e', cheap (registry_ (drainEvents srv3)) !! 1%positive = Some e' ∧
    ch (q e') = [encodeEvent (mkEvent EventSpawn "space-a" "alice" "bob" "avatar" zero_vec [])].
Proof.
  destruct (cheap (registry_ srv3) !! 1%positive) as [e|] eqn:He; [|vm_compute in He; discriminate He].
  destruct (events_routed _ _ "alice" 1%positive e sample_start sample_steps) as (_ & _ & e' & H1 & H2 & _).
  - vm_compute. reflexivity.
  - exact He.
  - exists e'. split; [exact H1|]. rewrite H2. vm_compute in He. injection He as <-. vm_compute. reflexivity.
Defined.

(** Alice and Bob connect through a gateway; Alice moves, under Bob's name, and
    Bob is shown where she went. *)
Definition name_jwt : Jwt := {|
  Key := nat;
  secret_key := length;
  jwt_parse := λ s kf,
    let tok := mkToken true false "HS256" (Some {["player_id" := JString s; "zone_id" := JString "z1"]}) true in
    match kf tok with Ok k => Ok tok | Err e => Err e end;
  signed := λ _ _, True
|}.
Local Existing Instance name_jwt.

Definition sample_actions : list action :=
  let join k name := [ActOpen k name (λ z, Some (z +:+ ":9000")) (NewHandler []) true None 0; ActRecv k false 0] in
  join 0%nat "alice" ++ join 1%nat "bob" ++
  [ActTick sample_clock; ActDrain;
   ActRelay 0%nat (Frame (Encode PacketIDPositionUpdate [Byte.x2a] false 0) 0 true); ActRecv 0%nat false 0;
   ActTick sample_clock; ActDrain; ActDrain;
   ActSend 1%nat 0%nat false; ActPacket 1%nat true; ActSend 1%nat 0%nat false; ActPacket 1%nat true].


(** What entered, and the second frame that Bob's connection was sent. *)
Definition sample_summary : option (list entry * client_line) :=
  '(ins, s) ← run_actions [Byte.x2a] sample_actions (mkSystem srv0 ∅);
  n ← links s !! 1%nat; d ← written (lrelay n) !! 1%nat; Some (ins, read_message d).

Lemma sample_summary_eq :
  sample_summary = Some ([Played "alice" "alice" (Aoi.vec 42 0 0)], LMove "alice" (Aoi.vec 42 0 0)).
Proof. vm_compute. reflexivity. Qed.

Lemma srv0_empty l e : eheap (game srv0) !! l = Some e → eID e ≠ "alice".
Proof. vm_compute. by destruct l. Qed.

Lemma positions_authentic_witness :
  ∃ ins s n d, run_actions [Byte.x2a] sample_actions (mkSystem srv0 ∅) = Some (ins, s) ∧ links s !! 1%nat = Some n ∧
    d ∈ written (lrelay n) ∧ read_message d = LMove "alice" (Aoi.vec 42 0 0) ∧
    ∃ tok c, Played tok "alice" (Aoi.vec 42 0 0) ∈ ins ∧ ValidateToken tok [Byte.x2a] = Ok c ∧ cPlayerID c = "alice".
Proof.
  pose proof sample_summary_eq as H. unfold sample_summary in H.
  apply bind_Some in H as ([ins s] & E & (n & En & (d & Ed & [= -> Hd])%bind_Some)%bind_Some).
  exists [Played "alice" "alice" (Aoi.vec 42 0 0)], s, n, d. apply list_elem_of_lookup_2 in Ed.
  split_and!; [exact E|exact En|exact Ed|exact Hd|].
  destruct (positions_authentic [Byte.x2a] (WireLaws0 := sample_wire_laws) "alice" srv0 _ s 1%nat n d (Aoi.vec 42 0 0)
    sample_start srv0_empty (run_actions_sound _ _ _ _ _ E) En Ed (or_introl Hd)) as [H|[H|H]].
  - vm_compute in H. discriminate H.
  - exact H.
  - exfalso. inversion H as [|? ? ? H']. inversion H'.
Defined.

(** The same two players, once both have appeared. *)
Definition joined_actions : list action := take 6 sample_actions ++ [ActDrain].
Definition move_frame : list Byte.byte := Encode PacketIDPositionUpdate [Byte.x2a] false 0.

Definition empty_list {A} (l : list A) : bool := match l with [] => true | _ => false end.
Definition running (r : relayState) : bool := match phase r with Running => true | _ => false end.

Definition joined_check : option bool :=
  '(ins, s) ← run_actions [Byte.x2a] joined_actions (mkSystem srv0 ∅);
  na ← links s !! 0%nat; nb ← links s !! 1%nat;
  let g := game (server s) in
  p ← Entities g !! "alice"; _ ← eheap g !! p; z ← entityZone g !! "alice"; sim ← Zones g !! z; a ← aheap g !! saoi sim;
  l ← clients (registry_ (server s)) !! "bob"; sd ← senders nb !! 0%nat;
  let near := observers "alice" (Aoi.vec 42 0 0) (of_int 300) (Move "alice" (Aoi.vec 42 0 0) a) in
  Some (bool_decide (rclient (lrelay na) = "alice") && empty_list (cmds g) && empty_list (Inbox g) && empty_list (Events g) &&
        lopen na && empty_list (up na) && reader_up (lrelay na) && running (lrelay na) &&
        match (admit_packet (rclient (lrelay na)) 0 (rconn (lrelay na)) (rip (lrelay na))).1.1 with None => true | Some _ => false end &&
        bool_decide ("bob" ∈ near) && (length near <=? 10)%nat && bool_decide (sd = ("bob", l)) &&
        writer_up (lrelay nb) && running (lrelay nb)).

Lemma joined_check_eq : joined_check = Some true.
Proof. vm_compute. reflexivity. Qed.

Lemma empty_list_nil {A} (l : list A) : empty_list l = true → l = [].
Proof. by destruct l. Qed.
Lemma running_phase r : running r = true → phase r = Running.
Proof. unfold running. by destruct (phase r). Qed.

Lemma move_is_seen_witness :
  ∃ acts ins s' n' d, run_actions [Byte.x2a] acts (mkSystem srv0 ∅) = Some (ins, s') ∧ links s' !! 1%nat = Some n' ∧
    d ∈ written (lrelay n') ∧ read_message d = LMove "alice" (Aoi.vec 42 0 0).
Proof.
  pose proof joined_check_eq as H. unfold joined_check in H.
  apply bind_Some in H as ([ins [s m]] & Hrun & H). apply bind_Some in H as (na & Hna & H). apply bind_Some in H as (nb & Hnb & H).
  cbn [server links] in *. cbv zeta in H.
  apply bind_Some in H as (p & Hp & H). apply bind_Some in H as (e & He & H). apply bind_Some in H as (z & Hz & H).
  apply bind_Some in H as (sim & Hs & H). apply bind_Some in H as (a & Ha & H). apply bind_Some in H as (l & Hl & H).
  apply bind_Some in H as (sd & Hsd & [= H]). rewrite !andb_true_iff, !bool_decide_eq_true in H.
  destruct H as [[[[[[[[[[[[[Hcl Hc] Hi] Hev] Ho] Hu] Hr] Hph] Hadm] Hnear] Hlen] ->] Hw] Hph2].
  destruct (admit_packet (rclient (lrelay na)) 0 (rconn (lrelay na)) (rip (lrelay na))).1.1 eqn:Hadmit; [discriminate Hadm|].
  apply Nat.leb_le in Hlen.
  pose proof (run_actions_sound _ _ _ _ _ Hrun) as Hsys.
  rewrite <-Hcl in Hp, Hz, Hnear, Hlen |- *.
  assert (quiescent (game s)) as Hq by (split_and!; by apply empty_list_nil).
  assert (speaks 0 na) as Hsp by (split_and!; [exact Ho|by apply empty_list_nil|exact Hr|by apply running_phase|exact Hadmit]).
  assert (listens "bob" l nb) as Hli by (split_and!; [by eapply list_elem_of_lookup_2|exact Hw|by apply running_phase]).
  assert (Decode move_frame = (ProtocolVersionV1, PacketIDPositionUpdate, [Byte.x2a], false, 0, None)) as Hdec by (vm_compute; reflexivity).
  assert (1%nat ≠ 0%nat) as Hne by lia. assert (∀ n, (n ≤ 10 → n ≤ 4096)%nat) as Hle by lia.
  destruct (move_is_seen [Byte.x2a] (WireLaws0 := sample_wire_laws) srv0 ins s m 0%nat 1%nat na nb move_frame 0 sample_clock
    ProtocolVersionV1 [Byte.x2a] false 0 (mkEntityUpdate "" (Some (Aoi.vec 42 0 0))) p e z sim a "bob" l
    sample_start Hsys Hq Hna Hsp Hdec eq_refl Hp He Hz Hs Ha Hnear (Hle _ Hlen) Hne Hnb Hl Hli)
    as (acts & ins' & s' & n' & d & H1 & H2 & H3 & H4).
  exists (joined_actions ++ acts), (ins ++ ins'), s', n', d.
  split; [exact (run_app _ _ _ _ _ _ _ _ Hrun H1)|]. split; [exact H2|]. split; [exact H3|exact H4].
Defined.

Lemma recovery_never_happens_witness :
  startup "s2" [] false
    (foldl (λ db w, snapshotAdapter_Save "s1" w.1.1 w.1.2 w.2 db) (mkSnapDB {["r1"]} []) [(false, 1, ("s1-z1", [], 1))]) []
  = Game.New "s2" [].
Proof.
  destruct (recovery_never_happens "s1" "s2" [] false [(false, 1, ("s1-z1", [], 1))] (mkSnapDB {["r1"]} []) []) as [_ H].
  - cbn. intros Hs%elem_of_singleton. discriminate Hs.
  - intros r Hr. inversion Hr.
  - exact H.
Defined.

(** A server that cannot open its port, and one that starts. *)
Definition sample_config : Config :=
  mkConfig (mkService "game-server" "1" false) (mkLogging "info" true) (mkGRPC "10.0.0.7" 9000) "" "" (mkGatewayConfig 0 "" 0 0 0 0)
    "" (mkGameConfig (50 * Millisecond) 100 5000 fzero fzero [mkSpec "npc" "idle" zero_vec [] fzero]) 9090 (mkAPIConfig 1 fzero).
Definition sample_calls (listen : bool) : game_calls :=
  mkGameCalls true Answered listen (mkPg None None None) (mkMigrate None None UpNoChange) false.



(** A relay forwards a frame and ends when the websocket is closed. *)
Definition sample_claims : Claims := mkClaims "" "alice" "z1".
Definition sample_events : list relay_event :=
  [Frame [Byte.x07] (1 * Second) true; Packet [Byte.x08] true; ReadError; Finish true; Deferred; RecvError].

Lemma relay_protocol_witness :
  ∃ r, (r0 ← relay_start true true true "alice" sample_claims None 0; fold_option relay_step r0 sample_events) = Some r ∧
    sent r = [connect_packet "alice" sample_claims; mkPacket "alice" (KIND_DATA [Byte.x07]); mkPacket "alice" KIND_PEER_DISCONNECTED] ∧
    forwarded r ≤ 100 + 100 * 1 ∧ (errs r ≤ 2)%nat.
Proof.
  destruct (relay_start true true true "alice" sample_claims None 0) as [r0|] eqn:E0; [|discriminate E0].
  cbn [mbind option_bind].
  destruct (fold_option relay_step r0 sample_events) as [r|] eqn:E; [|injection E0 as <-; vm_compute in E; discriminate E].
  destruct (relay_protocol _ _ _ _ _ _ _ _ _ _ E0 E) as (_ & H2 & H3).
  exists r. split; [reflexivity|]. split; [injection E0 as <-; vm_compute in E; injection E as <-; reflexivity|].
  split; [|exact H3]. apply (H2 [1]); [|reflexivity]. constructor; [|constructor]. unfold gap_ok. lia.
Defined.

Lemma player_joins_witness :
  ∃ s' e, relay_recv false 0 (connect_packet "alice" sample_claims) srv0 [] = Some (s', ["alice"]) ∧
    entity_of (applyCmds (game s')) "alice" = Some e ∧ entityZone (applyCmds (game s')) !! "alice" = Some "default".
Proof.
  destruct (handleWS (J := sample_jwt) "good" (λ z, Some (z +:+ ":9000")) true (NewHandler [Byte.x2a]))
    as [[status h'] relay] eqn:Ews.
  assert (status = Upgraded ∧ relay = Some ("alice", "z1:9000", sample_claims)) as [-> ->]
    by (vm_compute in Ews; injection Ews as <- _ <-; split; reflexivity).
  destruct (relay_start true true true "alice" sample_claims None 0) as [r0|] eqn:E0; [|discriminate E0].
  destruct (relay_recv false 0 (connect_packet "alice" sample_claims) srv0 []) as [[s' o]|] eqn:E; [|vm_compute in E; discriminate E].
  assert (o = ["alice"]) as -> by (vm_compute in E; injection E as _ <-; reflexivity).
  destruct (player_joins (J := sample_jwt) _ _ _ _ _ _ _ _ _ 0 _ (connect_packet "alice" sample_claims) srv0 s' [] ["alice"] Ews E0)
    as (_ & (e & H1 & _ & H3 & _) & _).
  - exact (proj1 (process_reachable _ _ sample_start (rtc_refl _ _))).
  - reflexivity.
  - injection E0 as <-. reflexivity.
  - exact E.
  - exists s', e. split; [reflexivity|]. split; [exact H1|exact H3].
Defined.
End server_witnesses.

(** ** Crash recovery *)

Section recovery_witnesses.
Local Existing Instance sample_math.
Local Existing Instance rle_codec.
Local Existing Instance countable_gob.
Local Existing Instance canonical_order.

(** JSON as the bytes of a number. *)
Definition row_tuple (r : SnapshotRow) := (rId r, rType r, rBehavior r, mkVector3 (rX r) (rY r) (rZ r)).
Definition tuple_row (t : string * string * string * Vector3) : SnapshotRow :=
  mkRow t.1.1.1 t.1.1.2 t.1.2 (X t.2) (Y t.2) (Z_ t.2).
Definition json_codecs : Codecs := {|
  unmarshal_update := λ _, None;
  unmarshal_action := λ _, None;
  unmarshal_state := λ _, None;
  json_rows := λ rows, Some (to_bytes (map row_tuple rows));
  unjson_rows := λ d, map tuple_row <$> of_bytes d
|}.
Local Existing Instance json_codecs.
Local Existing Instance plain_jsonb.

Lemma json_codecs_laws : JsonbLaws plain_jsonb.
Proof.
  intros rows d d' _. cbn. intros [= <-] [= <-]. rewrite of_to_bytes. cbn. f_equal.
  rewrite map_map. etrans; [|apply map_id]. apply map_ext. by intros [].
Qed.

Definition recovery_ops : list op :=
  [OpAssignZone (Zone.New "s1-z1" "space-a" 0 0 (of_int 100));
   OpNewEntity (Entity.New "guard" "npc" "" <| eZoneID := "s1-z1" |> <| Position := Aoi.vec 7 0 9 |>
                  <| Attrs := {["behavior" := String.list_byte_of_string "idle"]} |>);
   OpAddEntity 2%positive].
Definition recovery_game : Game :=
  default (Game.New "s0" [WithSnapshotter 1]) (fold_option exec (Game.New "s0" [WithSnapshotter 1]) recovery_ops).

Lemma recovery_reachable : reachable recovery_game.
Proof.
  exists "s0", [WithSnapshotter 1], recovery_ops. split; [repeat constructor|]. unfold recovery_game.
  destruct (fold_option exec (Game.New "s0" [WithSnapshotter 1]) recovery_ops) eqn:E; [reflexivity|].
  vm_compute in E. discriminate E.
Qed.

End recovery_witnesses.

(** ** Sessions *)

Section session_witnesses.
Definition session_tuple (s : SessionRecord) :=
  (srPlayerID s, srRuntimeID s, srZoneID s, srGameServerAddr s, srCreatedAt s, srLastActivity s, srSourceIP s).
Definition tuple_session (t : string * string * string * string * Z * Z * string) : SessionRecord :=
  let '(a, b, c, d, e, f, g) := t in mkSessionRecord a b c d e f g.
Definition sample_session_json : SessionJson := {|
  marshal_session := λ s, Ok (to_bytes (session_tuple s));
  unmarshal_session := λ d, match of_bytes d with Some t => Ok (tuple_session t) | None => Err "bad" end
|}.
Lemma sample_session_json_laws : SessionJsonLaws sample_session_json.
Proof. split. intros [] d [= <-]. cbn. by rewrite of_to_bytes. Qed.
Local Existing Instance sample_session_json.
Local Existing Instance sample_session_json_laws.
Local Existing Instance mem_redis.
Local Existing Instance mem_redis_laws.

Definition token_bytes : list Byte.byte := replicate 32 Byte.x2a.
Definition sample_record : SessionRecord := mkSessionRecord "alice" "r1" "z1" "game:9000" 0 0 "10.0.0.1".
Definition session_ops : list session_op :=
  [OpIssue (Ok token_bytes) sample_record 5 0; OpTouch (EncodeToString token_bytes) (50 * Second);
   OpIssue (Ok (replicate 32 Byte.x2b)) sample_record 6 (55 * Second)].
Definition empty_store : RedisSessionStore (gmap string (list Byte.byte * Z)) := NewRedisSessionStore ∅ (60 * Second).


Lemma session_found :
  is_ok (LookupSession (EncodeToString token_bytes) (109 * Second) (109 * Second) (session_run session_ops empty_store).2).1 = true.
Proof. vm_compute. reflexivity. Qed.

End session_witnesses.

(** ** The client *)

Section client_witnesses.
Local Existing Instance sample_math.
Local Existing Instance rle_codec.
Local Existing Instance countable_gob.
Local Existing Instance canonical_order.
Local Existing Instance LeastLoadedAllocator.

Definition update_of (t : string * option Vector3 * Z) : EntityUpdate := mkEntityUpdate t.1.1 t.1.2.
Definition client_codecs : Codecs := {|
  unmarshal_update := λ d, update_of <$> of_bytes d;
  unmarshal_action := λ d, (λ t : string * string * Z, mkEntityAction t.1.1 t.1.2 []) <$> of_bytes d;
  unmarshal_state := λ _, None;
  json_rows := λ _, None;
  unjson_rows := λ _, None
|}.
Definition client_wire : ClientWire := {|
  marshal_position := λ u ts, Some (to_bytes (uEntityId u, uPosition u, ts));
  marshal_action := λ id act ts, to_bytes (id, act, ts)
|}.
Lemma client_wire_laws : ClientWireLaws client_wire client_codecs.
Proof.
  split.
  - intros [id pos] ts d [= <-]. cbn. by rewrite of_to_bytes.
  - intros id act ts. cbn. by rewrite of_to_bytes.
Qed.
Local Existing Instance client_codecs.
Local Existing Instance client_wire.
Local Existing Instance client_wire_laws.

Definition walker : client_flags := mkFlags "localhost:8080" "alice" "r1" "r1-z1" [Byte.x2a] "jump" true 1.
Definition walker_game : Game :=
  default (Game.New "s1" []) (fold_option exec (Game.New "s1" [])
    [OpNewEntity (Entity.New "alice" "avatar" "r1"); OpAddEntity 1%positive]).
Definition walker_firings : list firing := [mkFiring 0 true 0 true].

Lemma client_walks_witness :
  ∃ e, entity_of (deliver "alice" (client_frames walker [mkFiring 0 true 0 true; mkFiring 1 true 1 true]) walker_game) "alice" = Some e ∧
    Position e = Aoi.vec 110 0 100.
Proof.
  destruct (entity_of walker_game "alice") as [e|] eqn:E; [|vm_compute in E; discriminate E].
  destruct (client_walks walker walker_firings (mkFiring 1 true 1 true) walker_game e) as [H _].
  - intros u ts. eexists. reflexivity.
  - repeat constructor.
  - reflexivity.
  - exact E.
  - vm_compute in E. injection E as <-. reflexivity.
  - discriminate.
  - eexists. split; [exact H|]. reflexivity.
Defined.

(** Tokens as the bits of a number. *)
Fixpoint bits_text (p : positive) : string :=
  match p with xH => "" | xO p => String "0"%char (bits_text p) | xI p => String "1"%char (bits_text p) end.
Fixpoint text_bits (s : string) : positive :=
  match s with
  | EmptyString => xH
  | String c s => if bool_decide (c = "1"%char) then xI (text_bits s) else xO (text_bits s)
  end.
Lemma text_bits_text p : text_bits (bits_text p) = p.
Proof. induction p as [p IH|p IH|]; cbn; [by rewrite IH|by rewrite IH|done]. Qed.

Definition json_code (j : json) : option string := match j with JString s => Some s | JOther => None end.
Definition code_json (o : option string) : json := match o with Some s => JString s | None => JOther end.
Lemma code_json_code (m : gmap string json) : code_json <$> (json_code <$> m) = m.
Proof. rewrite <-map_fmap_compose. etrans; [|apply map_fmap_id]. apply map_fmap_ext. by intros ? [] _. Qed.

Definition sign_text (claims : gmap string json) (secret : list Byte.byte) : string :=
  String "t"%char (bits_text (encode (json_code <$> claims, Byte.to_N <$> secret))).
Definition client_jwt : Jwt := {|
  Key := list N;
  secret_key := λ s, Byte.to_N <$> s;
  jwt_parse := λ s kf,
    match s with
    | String "t"%char rest =>
        match (decode (text_bits rest) : option (gmap string (option string) * list N)) with
        | Some (claims, secret) =>
            let tok := mkToken true false "HS256" (Some (code_json <$> claims)) true in
            match kf tok with
            | Ok k => if bool_decide (k = secret) then Ok tok else Err (Other "signature is invalid")
            | Err e => Err e
            end
        | None => Err (Other "malformed")
        end
    | _ => Err (Other "malformed")
    end;
  signed := λ s k, ∃ claims : gmap string json, s = String "t"%char (bits_text (encode (json_code <$> claims, k)))
|}.
Definition client_signer : Signer (J := client_jwt) := sign_text.
Lemma client_signer_laws : SignerLaws (J := client_jwt) client_signer.
Proof.
  split; [done|]. intros claims secret kf. cbv zeta. intros Hk. unfold jwt_sign, client_signer, sign_text. cbn.
  rewrite text_bits_text, decode_encode, code_json_code, Hk. by rewrite bool_decide_true.
Qed.

End client_witnesses.
